(* ===== verification/_CoqProject ===== *)
-Q . S2P
Prelude.v
Sql.v
Bytes.v
Types.v
Identity.v
Merkle.v
Registry.v
Observe.v
Platform.v
Graph.v
Channels.v
Text.v
Float.v
Vrp.v
Net.v
Upload.v
LinkPreview.v
RateLimit.v
Connections.v
Handlers.v
Agents.v
Peers.v
Rtx.v
Wire.v
Voice.v
Zk.v
Federation.v
Sockets.v
ChannelApi.v
Api.v
Admin.v
Usernames.v
Config.v
Startup.v
Router.v
PublicApi.v
Desktop.v
Launch.v
Accounts.v
Server.v
