(* ===== verification/Prelude.v ===== *)
(** * Annex: a verification development of the server and the desktop
    application

    Annex is a self-hosted chat platform whose accounts are commitments in a
    Merkle tree.  This library models its Rust crates (crates/ of the
    repository) as functions and step relations and proves what makes them
    correct, from the bytes of a text to the start of the process.

    ** How the program is put together

    A person registers a commitment (POST /api/registry/register): annex-identity
    puts it into a Merkle tree that is kept in memory and in SQLite.  A
    zero-knowledge proof that one knows a commitment of the tree
    (POST /api/zk/verify-membership) makes a pseudonym of it, one per topic, and
    with it a platform identity and a node of the presence graph.  With the pseudonym
    as bearer token one joins channels, opens a WebSocket and sends messages.
    AI agents become members by a handshake about values (annex-vrp) which gives them
    an alignment and a transfer scope; they exchange reflection bundles (RTX) within
    those scopes and speak in voice rooms (annex-voice, LiveKit).  Servers make
    agreements by the same handshake (annex-federation) and relay messages,
    attestations and bundles under them, signed with Ed25519.  Moderators change
    the policy, after which every agent and agreement is evaluated again.
    Everything notable is in a public event log (annex-observe).  The desktop
    application runs the server in its own process.

    ** The files

    A crate or a file of endpoints is one file here; the operations have the
    names of the code.  The order is that of the dependencies.

    - Prelude: results with errors and panics, the state monad [M], and the
      lemmas and tactics the components share.  Sql: tables with their
      statements, faults of numbered statements, transactions, the clock.
      Bytes, Text: Rust strings, hex, the functions of [str].  Float: what the
      specification floats lack.  Net: IP addresses.
    - Types: annex-types.  Identity, Merkle, Registry, Platform, Zk:
      annex-identity.  Observe: annex-observe with the broadcast of events.
      Graph: annex-graph with api_graph.rs and the pruning task (background.rs).  Channels:
      annex-channels and the retention task (retention.rs).  Vrp: annex-vrp.
      Peers: annex-federation with the handshake endpoint.  Rtx: annex-rtx and
      api_rtx.rs.  Voice: annex-voice.
    - Handlers: what the request handlers share, a State of a part of the
      database with the list of effects (events, WebSocket texts, requests),
      so that what was sent before an error stays sent.
    - RateLimit and Router: middleware.rs and the table of routes of lib.rs.
      Api, Agents, Admin, Usernames, ChannelApi, Federation, Upload,
      LinkPreview, PublicApi: the endpoints (api.rs, api_vrp.rs with
      api_agent.rs and policy.rs, api_admin.rs, api_usernames.rs,
      api_channels.rs, api_federation.rs, api_upload.rs,
      api_link_preview.rs, api_observe.rs with api_sse.rs).
    - Wire, Connections, Sockets: api_ws.rs.  Connections has the locks of the
      ConnectionManager and any interleaving of its methods; Sockets has the
      tokens and one socket's task, frame by frame.
    - Config, Startup, Launch: config.rs, the migrations and the pool of
      annex-db, what prepare_server reads, LiveKit's auto-start, and main.
    - Desktop: annex-desktop, its commands and child processes.
    - Accounts and Server: the components on one state.  Server has all the
      tables, AppState and the open sockets, one action for every request,
      frame and round of a background task that changes something, and runs
      of actions; Accounts has what each component keeps true of who acts,
      writes and listens.

    ** How the code is modelled

    A fallible function returns a [result], whose third case is a panic.  A
    handler is a state transformer over the tables it uses.  Every SQL
    statement has a number, and an environment may make any of them fail
    (faults): a theorem about a handler holds for every such environment, so
    it covers the error paths and the partial effects.  A transaction rolls
    the tables back and nothing else.  Machine integers are Z with the wrap or the
    saturation of the code; f32 and f64 are IEEE numbers of the standard
    library's SpecFloat.  HashMaps are gmaps, and where their order shows it
    is a parameter.  Where tasks share state (Connections, Voice) the atomic
    actions are a step relation and the theorems hold for all interleavings;
    the handlers themselves run one at a time, but requests, the frames of all
    sockets and background rounds follow each other in any order (Server).

    A lemma [preserves I m] says that a computation keeps an invariant; the
    database annex composes it along the structure of a handler, and what
    holds of a part of the state is lifted to the whole by [preserves_zoom].

    Third-party crates are classes, with their documented laws in a class of
    their own: hex, SHA-256, Poseidon and BN254, arkworks, Ed25519, HKDF with
    ChaCha20-Poly1305, url, reqwest with the DNS, scraper, serde_json, toml,
    matchit, LiveKit.  External programs, files, environment variables and the answers of
    other servers are arguments, so a theorem quantifies over them.
    The witnesses instantiate every class with a concrete function.

    ** What the theorems show

    Each numbered property (C1 to C40, in the order of their importance) is preceded by its
    number; its witness, when it has hypotheses, ends the file.

    - The whole server: who acts on it had an identity before or showed a
      verified proof of membership or a verified attestation, who moderates was
      appointed, and only members of a channel wrote in it and came to listen
      to it, whatever requests and frames arrive in whatever order; besides,
      a connection taken frame by frame is the loop of its task (Server).
    - Refinement of a reference: the sparse Merkle tree is the full padded
      tree and its paths satisfy the circuit's computation (Merkle); the
      names tables are a plain book of names and grants (Usernames); the address
      filter is the list of private blocks (LinkPreview); the search is
      the shortest path (Graph).
    - Invariants over all runs: active agents and agreements carry the verdict of the
      policy in force, and two servers at most one agreement, over every sequence
      of handshakes, re-evaluations, revocations and clean-ups (Agents, Peers,
      Admin); subscriptions and sessions (Connections, Sockets); voice
      clients, one at a time (Voice); the child processes of the desktop, those
      that end by themselves included (Desktop); migrations (Startup).
    - Safety of what crosses a trust boundary: membership proofs (Api,
      Federation, ChannelApi), also without a verification key (Launch);
      messages and bundles of other servers (Federation, Rtx); fetched
      addresses (LinkPreview); authentication over all routes (Router); reads of
      channels (ChannelApi); uploads (Upload); voice (Sockets).
    - All or nothing: registration, attestation, verification at most once.
    - Round trips, bounds, termination and liveness: restore of the tree,
      restart of the whole process, the window of the rate limit, types and
      bounds of the configuration, the retention loop, completion of the connection
      manager's calls.

    Theorems without a number are shared or support the findings, among them
    those that show where the code and its comments differ.

    ** Fuel and bounds

    The breadth-first search (Graph), the retention loop (Channels) and the
    loops that strip metadata (Upload) have fuel.  It suffices: the search is
    proved to answer with two turns for every edge, the retention loop to end with a batch
    for every 5000 messages, and the strippers give the same for any fuel
    above the length of the data.  The fetch follows as many redirects as the code
    allows.  Other loops are structural.

    ** Not modelled

    - The web client, the scripts, the Circom circuits (their inclusion check
      is restated in Merkle) and the packaging: other languages.
    - The tests, the embedder of semantic.rs that only tests use, Debug and
      Display instances, log lines, and the texts of error messages, except
      where a client gets them.
    - SQLite itself, the schema's SQL (its constraints are in the components),
      WAL and busy waiting; HTTP parsing, axum's extractors and TLS;
      the runtime: signals, graceful shutdown, the scheduling of handlers.
    - Of LiveKit, its rooms and its tokens' form; of the desktop, the colours of
      the window's border and Tauri's windows.
    - A lock that the panic of another handler has poisoned, and a connection
      that the pool does not give to a handler: the handler that needs it answers
      500.  For the pool this is also what the failure of its first statement does,
      which is modelled; at the start the pool's failures are (Startup).
    - In Server: the endpoints that only read (their theorems are in the
      components), the rate limiter and the preview cache, which nothing
      else reads, and the draining of a session's mailbox by its client.
    - Interleavings of handlers other than in the connection manager and in
      the table of voice clients; where a check and an update are separated
      by a released lock the findings name it. *)

From Stdlib Require Export ZArith Lia.
From stdpp Require Export base tactics list strings gmap sorting.

(** ** Rust results

    [Ok] and [Err] are the constructors of [core::result::Result]; [Panic]
    is the outcome of an out-of-range index or of any other operation that
    unwinds.  A theorem that a call equals [Ok _] or [Err _] therefore also
    says that it does not panic. *)

Inductive result (E A : Type) : Type :=
  | Ok (a : A)
  | Err (e : E)
  | Panic.
Arguments Ok {E A} a.
Arguments Err {E A} e.
Arguments Panic {E A}.

#[export] Instance result_ret E : MRet (result E) := λ A a, Ok a.
#[export] Instance result_bind E : MBind (result E) := λ A B f m,
  match m with Ok a => f a | Err e => Err e | Panic => Panic end.
#[export] Instance result_fmap E : FMap (result E) := λ A B f m,
  match m with Ok a => Ok (f a) | Err e => Err e | Panic => Panic end.

(** [Result::map_err]. *)
Definition map_err {E E' A} (f : E → E') (m : result E A) : result E' A :=
  match m with Ok a => Ok a | Err e => Err (f e) | Panic => Panic end.

(** The HTTP status of an error response; its text is not modelled. *)
Definition http_error : Type := Z.

(** [Option::ok_or]. *)
Definition ok_or {E A} (o : option A) (e : E) : result E A :=
  match o with Some a => Ok a | None => Err e end.

(** An early return: [if cond { return Err(e) }]. *)
Definition reject_if {E} (b : bool) (e : E) : result E unit :=
  if b then Err e else Ok ().

(** Slice indexing [l[i]]: panics out of range. *)
Definition index {E A} (l : list A) (i : nat) : result E A :=
  match l !! i with Some a => Ok a | None => Panic end.

Definition is_ok {E A} (m : result E A) : bool :=
  match m with Ok _ => true | _ => false end.
Definition no_panic {E A} (m : result E A) : Prop := m ≠ Panic.

(** ** State and errors

    A function of the source that works on mutable state (the database
    connection, an in-memory tree) and may fail is a state transformer that
    returns the new state in every outcome: what was written before an error
    stays written unless a transaction rolls it back. *)

Definition M (S E A : Type) : Type := S → result E A * S.

#[export] Instance M_ret S E : MRet (M S E) := λ A a s, (Ok a, s).
#[export] Instance M_bind S E : MBind (M S E) := λ A B f m s,
  match m s with
  | (Ok a, s') => f a s'
  | (Err e, s') => (Err e, s')
  | (Panic, s') => (Panic, s')
  end.

Definition lift {S E A} (r : result E A) : M S E A := λ s, (r, s).
Definition throw {S E A} (e : E) : M S E A := λ s, (Err e, s).
Definition get {S E} : M S E S := λ s, (Ok s, s).
Definition put {S E} (s : S) : M S E unit := λ _, (Ok (), s).
Definition gets {S E A} (f : S → A) : M S E A := λ s, (Ok (f s), s).
Definition catch_map {S E E' A} (f : E → E') (m : M S E A) : M S E' A :=
  λ s, let '(r, s') := m s in (map_err f r, s').

(** A call that works on one part of the state. *)
Definition zoom {S T E A} (part : S → T) (upd : T → S → S) (m : M T E A) : M S E A :=
  λ s, let '(r, t) := m (part s) in (r, upd t s).

(** [conn.transaction()] ... [tx.commit()]: an early return (or a panic)
    drops the transaction, which rolls the database back. *)
Definition transaction {S E A} (m : M S E A) : M S E A := λ s,
  match m s with
  | (Ok a, s') => (Ok a, s')
  | (r, _) => (r, s)
  end.

Lemma transaction_atomic {S E A} (m : M S E A) s r s' :
  transaction m s = (r, s') → is_ok r = false → s' = s.
Proof.
  unfold transaction. destruct (m s) as [[a|e|] s1]; naive_solver.
Qed.

Lemma transaction_ok {S E A} (m : M S E A) s a s' :
  transaction m s = (Ok a, s') ↔ m s = (Ok a, s').
Proof.
  unfold transaction. destruct (m s) as [[b|e|] s1]; naive_solver.
Qed.

(** A computation succeeds when every step of it does. *)
Lemma M_bind_ok {S E A B} (m : M S E A) (f : A → M S E B) s b s' :
  (m ≫= f) s = (Ok b, s') ↔ ∃ a s1, m s = (Ok a, s1) ∧ f a s1 = (Ok b, s').
Proof.
  unfold mbind, M_bind. destruct (m s) as [[a|e|] s1]; [|split; [done|naive_solver]..].
  split; [by exists a, s1|naive_solver].
Qed.

(** The first step of a computation, run. *)
Lemma M_bind_run {S E A B} (m : M S E A) (f : A → M S E B) s a s1 : m s = (Ok a, s1) → (m ≫= f) s = f a s1.
Proof. unfold mbind, M_bind. by intros ->. Qed.
Lemma M_bind_err {S E A B} (m : M S E A) (f : A → M S E B) s e s1 : m s = (Err e, s1) → (m ≫= f) s = (Err e, s1).
Proof. unfold mbind, M_bind. by intros ->. Qed.

(** The only failures of a computation are errors in [P]. *)
Definition fails_only {S E A} (P : E → Prop) (m : M S E A) : Prop :=
  ∀ s, match (m s).1 with Ok _ => True | Err e => P e | Panic => False end.

Lemma fails_only_bind {S E A B} (P : E → Prop) (m : M S E A) (f : A → M S E B) :
  fails_only P m → (∀ a, fails_only P (f a)) → fails_only P (m ≫= f).
Proof.
  intros Hm Hf s. unfold mbind, M_bind. specialize (Hm s). destruct (m s) as [[a|e|] s1]; [apply Hf|done..].
Qed.
Lemma fails_only_ret {S E A} (P : E → Prop) (a : A) : fails_only P (mret a : M S E A).
Proof. done. Qed.
Lemma fails_only_gets {S E A} (P : E → Prop) (f : S → A) : fails_only P (gets f : M S E A).
Proof. done. Qed.
Lemma fails_only_lift {S E A} (P : E → Prop) (r : result E A) :
  match r with Ok _ => True | Err e => P e | Panic => False end → fails_only P (lift r : M S E A).
Proof. by intros H s. Qed.
Lemma fails_only_ok_or {S E A} (P : E → Prop) (o : option A) e :
  P e → fails_only P (lift (ok_or o e) : M S E A).
Proof. intros H s. by destruct o. Qed.
Lemma fails_only_reject {S E} (P : E → Prop) (b : bool) e :
  P e → fails_only P (lift (reject_if b e) : M S E unit).
Proof. intros H s. by destruct b. Qed.
Lemma fails_only_throw {S E A} (P : E → Prop) e : P e → fails_only P (throw e : M S E A).
Proof. by intros H s. Qed.

(** A computation that only reads, one that always succeeds, and one that
    leaves the state as it was unless it succeeds. *)
Definition reads {S E A} (m : M S E A) : Prop := ∀ s, (m s).2 = s.
Definition succeeds {S E A} (m : M S E A) : Prop := ∀ s, ∃ a, (m s).1 = Ok a.
Definition clean {S E A} (m : M S E A) : Prop := ∀ s, (∃ a, (m s).1 = Ok a) ∨ (m s).2 = s.

Lemma reads_clean {S E A} (m : M S E A) : reads m → clean m.
Proof. intros H s. right. apply H. Qed.
Lemma succeeds_clean {S E A} (m : M S E A) : succeeds m → clean m.
Proof. intros H s. left. apply H. Qed.

Lemma reads_bind {S E A B} (m : M S E A) (f : A → M S E B) :
  reads m → (∀ a, reads (f a)) → reads (m ≫= f).
Proof.
  intros Hm Hf s. unfold mbind, M_bind. specialize (Hm s). destruct (m s) as [[a|e|] s1]; [|done..].
  cbn in Hm. rewrite Hf. done.
Qed.
Lemma succeeds_bind {S E A B} (m : M S E A) (f : A → M S E B) :
  succeeds m → (∀ a, succeeds (f a)) → succeeds (m ≫= f).
Proof.
  intros Hm Hf s. unfold mbind, M_bind. destruct (Hm s) as [a Ha]. destruct (m s) as [r s1]. cbn in Ha.
  subst r. apply Hf.
Qed.
Lemma clean_bind_reads {S E A B} (m : M S E A) (f : A → M S E B) :
  reads m → (∀ a, clean (f a)) → clean (m ≫= f).
Proof.
  intros Hm Hf s. unfold mbind, M_bind. specialize (Hm s). destruct (m s) as [[a|e|] s1]; [|by right..].
  cbn in Hm. subst s1. apply Hf.
Qed.
Lemma clean_bind_succeeds {S E A B} (m : M S E A) (f : A → M S E B) :
  clean m → (∀ a, succeeds (f a)) → clean (m ≫= f).
Proof.
  intros Hm Hf s. unfold mbind, M_bind. specialize (Hm s). destruct (m s) as [[a|e|] s1]; cbn in *.
  - left. apply Hf.
  - destruct Hm as [[a ?]|?]; [done|by right].
  - destruct Hm as [[a ?]|?]; [done|by right].
Qed.
Lemma M_bind_reads_cases {S E A B} (m : M S E A) (f : A → M S E B) s r s' :
  reads m → (m ≫= f) s = (r, s') →
  (is_ok r = false ∧ s' = s) ∨ ∃ a, m s = (Ok a, s) ∧ f a s = (r, s').
Proof.
  intros Hm. unfold mbind, M_bind. specialize (Hm s). destruct (m s) as [[a|e|] s1]; cbn in Hm; subst s1.
  - intros H. right. by exists a.
  - intros [= <- <-]. by left.
  - intros [= <- <-]. by left.
Qed.
Lemma lift_ok {S E A} (r : result E A) (s s' : S) a : lift r s = (Ok a, s') → r = Ok a ∧ s' = s.
Proof. by intros [= -> ->]. Qed.

Lemma reject_if_ok {E} b (e : E) : reject_if b e = Ok () ↔ b = false.
Proof. by destruct b. Qed.

Lemma ok_or_ok {E A} (o : option A) (e : E) a : ok_or o e = Ok a → o = Some a.
Proof. destruct o; [by intros [= ->]|done]. Qed.
Lemma map_err_ok {E E' A} (f : E → E') (m : result E A) a : map_err f m = Ok a → m = Ok a.
Proof. destruct m; [by intros [= ->]|done..]. Qed.

Lemma reads_lift {S E A} (r : result E A) : reads (lift r : M S E A).
Proof. done. Qed.
Lemma reads_gets {S E A} (f : S → A) : reads (gets f : M S E A).
Proof. done. Qed.
Lemma reads_ret {S E A} (a : A) : reads (mret a : M S E A).
Proof. done. Qed.
Lemma reads_throw {S E A} (e : E) : reads (throw e : M S E A).
Proof. done. Qed.
Lemma succeeds_ret {S E A} (a : A) : succeeds (mret a : M S E A).
Proof. by eexists. Qed.

(** A computation that takes states with [I] to states with [I], however it
    ends. *)
Definition preserves {S E A} (I : S → Prop) (m : M S E A) : Prop := ∀ s, I s → I (m s).2.

Section preserves.
Context {S E : Type} (I : S → Prop).

Lemma preserves_reads {A} (m : M S E A) : reads m → preserves I m.
Proof. intros H s. by rewrite H. Qed.
Lemma preserves_bind {A B} (m : M S E A) (f : A → M S E B) :
  preserves I m → (∀ a, preserves I (f a)) → preserves I (m ≫= f).
Proof.
  intros Hm Hf s Hs. unfold mbind, M_bind. specialize (Hm s Hs). destruct (m s) as [[a|e|] s1]; [by apply Hf|done..].
Qed.
(** The continuation may use what the first step found. *)
Lemma preserves_bind_ok {A B} (m : M S E A) (f : A → M S E B) :
  preserves I m → (∀ s a s', I s → m s = (Ok a, s') → I (f a s').2) → preserves I (m ≫= f).
Proof.
  intros Hm Hf s Hs. unfold mbind, M_bind. specialize (Hm s Hs). specialize (Hf s).
  destruct (m s) as [[a|e|] s1]; [by apply Hf|done..].
Qed.
Lemma preserves_catch {E'} {A} (f : E → E') (m : M S E A) : preserves I m → preserves I (catch_map f m).
Proof. intros H s Hs. specialize (H s Hs). unfold catch_map. by destruct (m s). Qed.
Lemma preserves_transaction {A} (m : M S E A) : preserves I m → preserves I (transaction m).
Proof. intros H s Hs. specialize (H s Hs). unfold transaction. by destruct (m s) as [[a|e|] s1]. Qed.
Lemma preserves_zoom {T A} (J : T → Prop) (part : S → T) (upd : T → S → S) (m : M T E A) :
  (∀ s, I s → J (part s)) → (∀ s t, I s → J t → I (upd t s)) → preserves J m → preserves I (zoom part upd m).
Proof.
  intros Hp Hu H s Hs. unfold zoom. specialize (H (part s) (Hp s Hs)). destruct (m (part s)) as [r t]. by apply Hu.
Qed.
Lemma preserves_if {A} (b : bool) (m1 m2 : M S E A) :
  preserves I m1 → preserves I m2 → preserves I (if b then m1 else m2).
Proof. by destruct b. Qed.
Lemma preserves_decide {P A} `{Decision P} (m1 m2 : M S E A) :
  preserves I m1 → preserves I m2 → preserves I (if decide P then m1 else m2).
Proof. by case_decide. Qed.
End preserves.

(** Case analysis on the result of every step of a computation whose final
    outcome is known. *)
Ltac step_result H :=
  repeat (progress cbn in H ||
    match type of H with
    | context [match ?x with _ => _ end] =>
        let E := fresh "E" in destruct x eqn:E; try discriminate H
    end); simplify_eq/=.

(** Evaluate the plumbing of the state monad, leaving the calls. *)
Ltac run_M :=
  unfold mbind, M_bind, mret, M_ret, lift, get, put, gets, throw, zoom, catch_map, reject_if;
  cbn [map_err ok_or result_bind result_ret fst snd negb].

Ltac case_all :=
  repeat (case_match || case_decide); simplify_eq/=; try done.

(** [lia] with quotients and remainders. *)
Ltac div_lia := Z.to_euclidean_division_equations; lia.

(** ** Booleans and options *)

#[export] Instance result_eq_dec E A `{EqDecision E, EqDecision A} :
  EqDecision (result E A).
Proof. solve_decision. Defined.

Lemma is_ok_spec {E A} (m : result E A) : is_ok m = true ↔ ∃ a, m = Ok a.
Proof. destruct m; naive_solver. Qed.

(** ** Lists *)

Lemma StronglySorted_by_lookup {A} (R : relation A) (l : list A) :
  (∀ i j x y, (i < j)%nat → l !! i = Some x → l !! j = Some y → R x y) →
  StronglySorted R l.
Proof.
  induction l as [|a l IH]; intros HR; [constructor|]. constructor.
  - apply IH. intros i j x y Hij Hi Hj. apply (HR (S i) (S j)); [lia|done..].
  - apply Forall_lookup. intros i y Hi. apply (HR 0%nat (S i)); [lia|done..].
Qed.

Lemma list_fmap_fixed {A} (f : A → A) (l : list A) : (∀ x, x ∈ l → f x = x) → f <$> l = l.
Proof.
  intros Hf. rewrite <- (list_fmap_id l) at 2. apply list_fmap_ext.
  intros i x Hx%list_elem_of_lookup_2. by apply Hf.
Qed.

Lemma NoDup_fmap_inj {A B} (f : A → B) (l : list A) x y :
  NoDup (f <$> l) → x ∈ l → y ∈ l → f x = f y → x = y.
Proof.
  induction l as [|a l IH]; [by intros _ ?%not_elem_of_nil|].
  intros [Hn Hnd]%NoDup_cons [->|Hx]%elem_of_cons [->|Hy]%elem_of_cons E; [done|..|by apply IH];
    destruct Hn; apply list_elem_of_fmap; by eexists.
Qed.

(** A loop that collects what [f] makes of the elements, with [?] and
    [continue]: [Ok None] skips the element, an error ends the loop. *)
Fixpoint filter_mapM {E A B} (f : A → result E (option B)) (l : list A) : result E (list B) :=
  match l with
  | [] => Ok []
  | a :: l =>
      o ← f a;
      bs ← filter_mapM f l;
      Ok (match o with Some b => b :: bs | None => bs end)
  end.

Section filter_mapM.
Context {E A B : Type} (f : A → result E (option B)).

Lemma filter_mapM_ok l bs :
  filter_mapM f l = Ok bs →
  (∀ a, a ∈ l → ∃ o, f a = Ok o ∧ ∀ b, o = Some b → b ∈ bs) ∧
  (∀ b, b ∈ bs → ∃ a, a ∈ l ∧ f a = Ok (Some b)).
Proof.
  revert bs. induction l as [|a l IH]; intros bs; cbn.
  - intros [= <-]. split; [by intros a Ha%not_elem_of_nil|by intros b Hb%not_elem_of_nil].
  - destruct (f a) as [o| |] eqn:Ea; cbn; [|done..].
    destruct (filter_mapM f l) as [bs'| |]; cbn; [|done..].
    destruct (IH bs' eq_refl) as [H1 H2]. intros [= <-]. split.
    + intros a' [->|Ha']%elem_of_cons.
      * exists o. split; [done|]. intros b ->. left.
      * destruct (H1 a' Ha') as (o' & ? & Ho). exists o'. split; [done|]. intros b Hb.
        destruct o; [right|]; by apply Ho.
    + intros b Hb. assert (o = Some b ∨ b ∈ bs') as [->|Hb'].
      { destruct o; [|by right]. apply elem_of_cons in Hb as [->|?]; [by left|by right]. }
      * exists a. split; [left|done].
      * destruct (H2 b Hb') as (a' & ? & ?). exists a'. split; [by right|done].
Qed.

Lemma filter_mapM_sublist {K} (g : B → K) (k : A → K) l bs :
  filter_mapM f l = Ok bs → (∀ a b, f a = Ok (Some b) → g b = k a) →
  (g <$> bs) `sublist_of` (k <$> l).
Proof.
  intros H Hg. revert bs H. induction l as [|a l IH]; intros bs; cbn; [by intros [= <-]|].
  destruct (f a) as [o| |] eqn:Ea; cbn; [|done..].
  destruct (filter_mapM f l) as [bs'| |]; cbn; [|done..]. intros [= <-].
  destruct o as [b|]; cbn; [|by apply sublist_cons, IH].
  rewrite (Hg a b Ea). by apply sublist_skip, IH.
Qed.

Lemma filter_mapM_fails (P : E → Prop) l :
  (∀ a, match f a with Ok _ => True | Err e => P e | Panic => False end) →
  match filter_mapM f l with Ok _ => True | Err e => P e | Panic => False end.
Proof.
  intros Hf. induction l as [|a l IH]; cbn; [done|].
  specialize (Hf a). destruct (f a); cbn; [|done..]. by destruct (filter_mapM f l).
Qed.
End filter_mapM.

Create HintDb annex.
#[export] Hint Resolve preserves_reads preserves_bind preserves_catch preserves_transaction preserves_if preserves_decide : annex.
#[export] Hint Resolve transaction_atomic : annex.
#[export] Hint Resolve fails_only_bind fails_only_ret fails_only_gets fails_only_lift fails_only_ok_or
  fails_only_reject fails_only_throw : annex.
#[export] Hint Resolve reads_clean succeeds_clean reads_bind succeeds_bind reads_lift reads_gets reads_ret
  reads_throw succeeds_ret : annex.
