(* ===== verification/Sql.v ===== *)
(** * Sql: the fragment of SQLite the source's statements use

    A table is its rows in insertion order with the AUTOINCREMENT counter;
    [INSERT], [UPDATE ... WHERE], [DELETE ... WHERE] and [SELECT ... WHERE]
    are the operations below, with the row counts the Rust code reads.
    Constraints are checked by the components, which know their schema
    (crates/annex-db/src/migrations).  [datetime('now')] is the text form of
    a clock reading in seconds; SQLite's rendering and chrono's parser are a
    parameter ([Clock]), with the documented facts the code relies on. *)

From S2P Require Import Prelude.
From Stdlib Require Export Ascii.

(** The errors of rusqlite the source inspects or forwards. *)
Inductive sql_error :=
  | ConstraintUnique
  | ConstraintPrimaryKey
  | ConstraintForeignKey
  | QueryReturnedNoRows
  | FromSqlConversionFailure (col : nat)
  | IntegralValueOutOfRange (col : nat)
  | ToSqlConversionFailure
  | SqliteFailure (code : Z).

#[export] Instance sql_error_eq_dec : EqDecision sql_error.
Proof. solve_decision. Defined.

(** [err.code == ErrorCode::ConstraintViolation]. *)
Definition is_constraint_violation (e : sql_error) : bool :=
  match e with
  | ConstraintUnique | ConstraintPrimaryKey | ConstraintForeignKey => true
  | _ => false
  end.

(** The environment may fail any statement (a lock, a full or broken disk):
    [fault k] is the SQLite error code with which statement [k] of an
    operation fails, if it does.  Statements are numbered by the operation;
    BEGIN and COMMIT count. *)
Definition faults : Type := nat → option Z.
Definition no_fault : faults := λ _, None.

Definition exec {S A} (fault : faults) (k : nat) (m : M S sql_error A) : M S sql_error A :=
  match fault k with Some code => throw (SqliteFailure code) | None => m end.

(** A statement that only reads. *)
Definition read {A} (fault : faults) (k : nat) (a : A) : result sql_error A :=
  match fault k with Some code => Err (SqliteFailure code) | None => Ok a end.

(** A statement of the operation failed, and [e] is its error. *)
Definition faulted (fault : faults) (n : nat) (e : sql_error) : Prop :=
  ∃ k code, (k < n)%nat ∧ fault k = Some code ∧ e = SqliteFailure code.

Lemma faulted_none n e : ¬ faulted no_fault n e.
Proof. intros (k & code & _ & [=] & _). Qed.

Lemma faulted_intro (fault : faults) k n code :
  fault k = Some code → (k < n)%nat → faulted fault n (SqliteFailure code).
Proof. intros. by exists k, code. Qed.

Lemma faulted_le (fault : faults) m n e : (m ≤ n)%nat → faulted fault m e → faulted fault n e.
Proof. intros Hle (k & code & Hk & ? & ?). exists k, code. split; [lia|done]. Qed.

Lemma faulted_shift (fault : faults) m n e :
  faulted (λ k, fault (m + k)%nat) n e → faulted fault (m + n) e.
Proof. intros (k & code & Hk & ? & ?). exists (m + k)%nat, code. split; [lia|done]. Qed.

Lemma exec_ok {S A} (fault : faults) k (m : M S sql_error A) :
  fault k = None → exec fault k m = m.
Proof. intros H. unfold exec. by rewrite H. Qed.

Lemma preserves_exec {S A} (I : S → Prop) (fault : faults) k (m : M S sql_error A) :
  preserves I m → preserves I (exec fault k m).
Proof. intros H s Hs. unfold exec. destruct (fault k); [done|by apply H]. Qed.
#[export] Hint Resolve preserves_exec : annex.

Record table (R : Type) := Table { t_rows : list R; t_seq : Z }.
Arguments Table {R} _ _.
Arguments t_rows {R} _.
Arguments t_seq {R} _.

Definition t_empty {R} : table R := Table [] 0.

(** [INSERT INTO t ...]: AUTOINCREMENT hands out one more than the largest
    id ever used. *)
Definition t_insert {R} (mk : Z → R) (t : table R) : Z * table R :=
  ((t_seq t + 1)%Z, Table (t_rows t ++ [mk (t_seq t + 1)%Z]) (t_seq t + 1)).

Section where_clause.
Context {R : Type} (P : R → Prop) `{!∀ r, Decision (P r)}.

(** [SELECT ... WHERE P], in table order. *)
Definition t_select (t : table R) : list R := filter P (t_rows t).

(** [SELECT EXISTS(SELECT 1 FROM t WHERE P)]. *)
Definition t_exists (t : table R) : bool := bool_decide (t_select t ≠ []).

(** [UPDATE t SET f WHERE P], with the number of changed rows. *)
Definition t_update (f : R → R) (t : table R) : nat * table R :=
  (length (t_select t),
   Table ((λ r, if decide (P r) then f r else r) <$> t_rows t) (t_seq t)).

(** [DELETE FROM t WHERE P], with the number of deleted rows. *)
Definition t_delete (t : table R) : nat * table R :=
  (length (t_select t), Table (filter (λ r, ¬ P r) (t_rows t)) (t_seq t)).

Lemma t_exists_spec t : t_exists t = true ↔ ∃ r, r ∈ t_rows t ∧ P r.
Proof.
  unfold t_exists, t_select. rewrite bool_decide_eq_true. split.
  - intros Hne. destruct (filter P (t_rows t)) as [|r l] eqn:E; [done|].
    exists r. assert (r ∈ filter P (t_rows t)) as Hr by (rewrite E; left).
    apply list_elem_of_filter in Hr. tauto.
  - intros (r & Hin & HP) E.
    assert (r ∈ filter P (t_rows t)) as Hr by (apply list_elem_of_filter; done).
    rewrite E in Hr. by apply not_elem_of_nil in Hr.
Qed.

Lemma t_exists_false t : t_exists t = false ↔ ∀ r, r ∈ t_rows t → ¬ P r.
Proof.
  destruct (t_exists t) eqn:E.
  - apply t_exists_spec in E as (r & ? & ?). split; [done|].
    intros HN. exfalso. by eapply HN.
  - split; [|done]. intros _ r Hr HP.
    assert (t_exists t = true) by (apply t_exists_spec; eauto). congruence.
Qed.

Lemma elem_of_t_select t r : r ∈ t_select t ↔ P r ∧ r ∈ t_rows t.
Proof. apply list_elem_of_filter. Qed.

Lemma t_select_nil t : t_select t = [] ↔ ∀ r, r ∈ t_rows t → ¬ P r.
Proof.
  rewrite <- t_exists_false. unfold t_exists. rewrite bool_decide_eq_false.
  destruct (t_select t); naive_solver.
Qed.

Lemma elem_of_t_update f t r :
  r ∈ t_rows (t_update f t).2 ↔
  ∃ r0, r0 ∈ t_rows t ∧ ((P r0 ∧ r = f r0) ∨ (¬ P r0 ∧ r = r0)).
Proof.
  simpl. rewrite list_elem_of_fmap. split.
  - intros (r0 & -> & ?). exists r0. case_decide; naive_solver.
  - intros (r0 & ? & [[? ->]|[? ->]]); exists r0; case_decide; naive_solver.
Qed.

Lemma elem_of_t_delete t r :
  r ∈ t_rows (t_delete t).2 ↔ r ∈ t_rows t ∧ ¬ P r.
Proof. simpl. rewrite list_elem_of_filter. tauto. Qed.

(** No row matches: the statement is a no-op and reports zero rows. *)
Lemma t_update_none f t : t_exists t = false → t_update f t = (0%nat, t).
Proof.
  intros HE. unfold t_update.
  replace (t_select t) with (@nil R) by
    (symmetry; apply t_select_nil; by apply t_exists_false).
  destruct t as [rows seq]; simpl. do 2 f_equal.
  assert (∀ r, r ∈ rows → ¬ P r) as HN by (intros r; by apply (proj1 (t_exists_false _) HE r)).
  clear HE. induction rows as [|r rows IH]; csimpl; [done|].
  rewrite IH by (intros; apply HN; by right).
  case_decide as HP; [|done]. destruct (HN r); [left|done].
Qed.

Lemma t_update_count f t :
  (t_update f t).1 = 0%nat ↔ t_exists t = false.
Proof.
  simpl. rewrite length_zero_iff_nil. unfold t_exists.
  rewrite bool_decide_eq_false. destruct (t_select t); naive_solver.
Qed.

Lemma t_update_positive f t : (0 <? (t_update f t).1)%nat = t_exists t.
Proof.
  pose proof (t_update_count f t) as Hc. destruct (Nat.ltb_spec 0 (t_update f t).1), (t_exists t); try done.
  - pose proof (proj2 Hc eq_refl). lia.
  - assert ((t_update f t).1 = 0%nat) as E by lia. by apply Hc in E.
Qed.
End where_clause.

(** [INSERT ... ON CONFLICT(key) DO UPDATE SET f]: a row with the key in [P]
    is updated, otherwise the new row is inserted. *)
Definition t_upsert {R} (P : R → Prop) `{!∀ r, Decision (P r)} (f : R → R) (mk : Z → R)
    (t : table R) : table R :=
  if t_exists P t then (t_update P f t).2 else (t_insert mk t).2.

(** A batch of updates, one statement per element: what becomes of one row. *)
Section batch.
Context {R U : Type} (hit : U → R → Prop) `{!∀ u r, Decision (hit u r)} (upd : U → R → R).
Implicit Types (us : list U) (r : R).

Definition batch us r : R := foldl (λ r u, if decide (hit u r) then upd u r else r) r us.

Lemma batch_cons u us r : batch (u :: us) r = batch us (if decide (hit u r) then upd u r else r).
Proof. done. Qed.

Lemma batch_none us r : (∀ u, u ∈ us → ¬ hit u r) → batch us r = r.
Proof.
  induction us as [|u us IH]; intros Hn; [done|].
  rewrite batch_cons, decide_False by (apply Hn; left). apply IH. intros u' Hu'. apply Hn. by right.
Qed.

Lemma batch_one us u r :
  NoDup us → u ∈ us → hit u r → (∀ u', u' ∈ us → hit u' r → u' = u) →
  (∀ u', hit u' (upd u r) → hit u' r) → batch us r = upd u r.
Proof.
  intros Hnd Hu Hr Ho Hk. induction us as [|u' us IH]; [by apply not_elem_of_nil in Hu|].
  apply NoDup_cons in Hnd as [Hn Hnd]. rewrite batch_cons. case_decide as Hd.
  - assert (u' = u) as -> by (apply Ho; [left|done]).
    apply batch_none. intros u' Hu' Hd'. assert (u' = u) as -> by (apply Ho; [by right|by apply Hk]). done.
  - apply IH; [done| |intros ? ?; apply Ho; by right]. by apply elem_of_cons in Hu as [->|?].
Qed.

Lemma batch_keeps {K} (k : R → K) us r : (∀ u r, k (upd u r) = k r) → k (batch us r) = k r.
Proof.
  intros Hk. revert r. induction us as [|u us IH]; intros r; [done|].
  rewrite batch_cons, IH. case_decide; [apply Hk|done].
Qed.
End batch.

Lemma elem_of_t_insert {R} (mk : Z → R) t r :
  r ∈ t_rows (t_insert mk t).2 ↔ r ∈ t_rows t ∨ r = mk (t_seq t + 1)%Z.
Proof. simpl. rewrite elem_of_app, list_elem_of_singleton. done. Qed.

(** An upsert leaves exactly one row with the key, and the other rows. *)
Lemma t_exists_insert {R} (P : R → Prop) `{HP : !∀ r, Decision (P r)} mk (t : table R) :
  (∀ i, P (mk i)) → t_exists P (t_insert mk t).2 = true.
Proof.
  intros Hmk. apply t_exists_spec. exists (mk (t_seq t + 1)%Z). split; [|apply Hmk].
  apply elem_of_t_insert. by right.
Qed.

Lemma t_upsert_spec {R} (P : R → Prop) `{!∀ r, Decision (P r)} (f : R → R) mk (t : table R) :
  (∀ r, P r → P (f r)) → (∀ i, P (mk i)) →
  (∀ r1 r2, r1 ∈ t_rows t → r2 ∈ t_rows t → P r1 → P r2 → r1 = r2) →
  ∃ r, r ∈ t_rows (t_upsert P f mk t) ∧ P r ∧
    (∀ r', r' ∈ t_rows (t_upsert P f mk t) → P r' → r' = r) ∧
    ((∃ r0, r0 ∈ t_rows t ∧ P r0 ∧ r = f r0) ∨
     ((∀ r0, r0 ∈ t_rows t → ¬ P r0) ∧ r = mk (t_seq t + 1)%Z)) ∧
    ∀ r', ¬ P r' → r' ∈ t_rows (t_upsert P f mk t) ↔ r' ∈ t_rows t.
Proof.
  intros Hf Hmk Hone. unfold t_upsert. destruct (t_exists P t) eqn:E.
  - apply t_exists_spec in E as (r0 & Hr0 & HP). exists (f r0). split_and!.
    + apply elem_of_t_update. exists r0. auto.
    + by apply Hf.
    + intros r' (r1 & Hr1 & [[HP1 ->]|[HP1 ->]])%elem_of_t_update HP'; [|done]. f_equal. by apply Hone.
    + left. by exists r0.
    + intros r' HP'. rewrite elem_of_t_update. split; [|intros ?; exists r'; tauto].
      intros (r1 & Hr1 & [[HP1 ->]|[HP1 ->]]); [|done]. by destruct HP'; apply Hf.
  - pose proof (proj1 (t_exists_false P t) E) as Hn. exists (mk (t_seq t + 1)%Z). split_and!.
    + apply elem_of_t_insert. by right.
    + apply Hmk.
    + intros r' [Hr'| ->]%elem_of_t_insert HP'; [by apply Hn in Hr'|done].
    + by right.
    + intros r' HP'. rewrite elem_of_t_insert. split; [|by left]. intros [?| ->]; [done|]. by destruct HP'.
Qed.

(** [query_row]: the first row, mapped. *)
Definition query_row {R A} (rows : list R) (f : R → result sql_error A) : result sql_error A :=
  match rows with r :: _ => f r | [] => Err QueryReturnedNoRows end.

Lemma query_row_unique {R A} P `{!∀ r, Decision (P r)} (t : table R) r (f : R → result sql_error A) :
  r ∈ t_rows t → P r → (∀ r', r' ∈ t_rows t → P r' → r' = r) → query_row (t_select P t) f = f r.
Proof.
  intros Hr HP Hu. destruct (t_select P t) as [|r' rows] eqn:E.
  - exfalso. by apply (proj1 (t_select_nil P t) E r).
  - assert (r' ∈ t_select P t) as [HP' Hr']%elem_of_t_select by (rewrite E; left).
    cbn. by rewrite (Hu r' Hr' HP').
Qed.

Lemma query_row_none {R A} P `{!∀ r, Decision (P r)} (t : table R) (f : R → result sql_error A) :
  t_exists P t = false → query_row (t_select P t) f = Err QueryReturnedNoRows.
Proof. intros HE. by rewrite (proj2 (t_select_nil P t) (proj1 (t_exists_false P t) HE)). Qed.

Lemma StronglySorted_lookup {A} (Rel : relation A) (l : list A) i j x y :
  StronglySorted Rel l → (i < j)%nat → l !! i = Some x → l !! j = Some y → Rel x y.
Proof.
  intros Hs. revert i j. induction Hs as [|a l Hs IH Hf]; intros i j Hij; [done|].
  destruct j as [|j]; [lia|]. destruct i as [|i]; cbn.
  - intros [= <-] Hy. rewrite Forall_lookup in Hf. by eapply Hf.
  - apply IH. lia.
Qed.

Lemma StronglySorted_take {A} (Rel : relation A) n (l : list A) :
  StronglySorted Rel l → StronglySorted Rel (take n l).
Proof.
  intros Hs. apply StronglySorted_by_lookup. intros i j x y Hij Hx Hy.
  apply lookup_take_Some in Hx as [? _], Hy as [? _]. by eapply StronglySorted_lookup.
Qed.

Lemma StronglySorted_drop {A} (Rel : relation A) n (l : list A) :
  StronglySorted Rel l → StronglySorted Rel (drop n l).
Proof.
  intros Hs. apply StronglySorted_by_lookup. intros i j x y Hij. rewrite !lookup_drop.
  apply StronglySorted_lookup; [done|lia].
Qed.

Lemma StronglySorted_fmap_inj {R} (key : R → Z) (l : list R) :
  StronglySorted Z.lt (key <$> l) → ∀ x y, x ∈ l → y ∈ l → key x = key y → x = y.
Proof.
  intros Hs x y [i Hx]%list_elem_of_lookup [j Hy]%list_elem_of_lookup E.
  assert ((key <$> l) !! i = Some (key x)) as Hkx by (by rewrite list_lookup_fmap, Hx).
  assert ((key <$> l) !! j = Some (key y)) as Hky by (by rewrite list_lookup_fmap, Hy).
  destruct (Nat.lt_trichotomy i j) as [Hij|[->|Hij]]; [|congruence|].
  - pose proof (StronglySorted_lookup _ _ _ _ _ _ Hs Hij Hkx Hky). lia.
  - pose proof (StronglySorted_lookup _ _ _ _ _ _ Hs Hij Hky Hkx). lia.
Qed.

(** ** Primary keys

    Ids grow along the table and stay at most the AUTOINCREMENT counter. *)
Section ids.
Context {R : Type} (id : R → Z).
Implicit Types t : table R.

Definition ids_ok (t : table R) : Prop :=
  StronglySorted Z.lt (id <$> t_rows t) ∧ Forall (λ r, (id r ≤ t_seq t)%Z) (t_rows t).

Lemma StronglySorted_snoc {A} (Rel : relation A) l x :
  StronglySorted Rel (l ++ [x]) ↔ StronglySorted Rel l ∧ Forall (λ y, Rel y x) l.
Proof.
  induction l as [|y l IH]; cbn.
  - split; [intros _; by repeat constructor|intros _; by repeat constructor].
  - split.
    + intros [Hs Hf]%StronglySorted_inv. apply IH in Hs as [Hs Hx].
      apply Forall_app in Hf as [Hf Hy]. inversion Hy; subst. split; by constructor.
    + intros [[Hs Hf]%StronglySorted_inv Hx]. inversion Hx; subst. constructor.
      * by apply IH.
      * apply Forall_app. split; [done|]. by constructor.
Qed.

Lemma ids_ok_empty : ids_ok t_empty.
Proof. split; constructor. Qed.

Lemma ids_ok_insert mk t : (∀ i, id (mk i) = i) → ids_ok t → ids_ok (t_insert mk t).2.
Proof.
  intros Hmk [Hs Hf]. split; cbn.
  - rewrite fmap_app. apply StronglySorted_snoc. split; [done|].
    apply Forall_fmap. apply (Forall_impl _ _ _ Hf). cbn. intros r. rewrite Hmk. lia.
  - apply Forall_app. split; [apply (Forall_impl _ _ _ Hf); lia|]. constructor; [|done]. rewrite Hmk. lia.
Qed.

Lemma ids_ok_update P `{!∀ r, Decision (P r)} f t :
  (∀ r, id (f r) = id r) → ids_ok t → ids_ok (t_update P f t).2.
Proof.
  intros Hid [Hs Hf]. split; cbn.
  - rewrite <- list_fmap_compose.
    replace (id ∘ _ <$> t_rows t) with (id <$> t_rows t); [done|].
    apply list_fmap_ext. intros i r _. cbn. by case_decide.
  - apply Forall_fmap, (Forall_impl _ _ _ Hf). cbn. intros r. case_decide; by rewrite ?Hid.
Qed.

Lemma Forall_of_filter {A} (P Q : A → Prop) `{!∀ x, Decision (Q x)} (l : list A) :
  Forall P l → Forall P (filter Q l).
Proof.
  rewrite !Forall_forall. intros HF x [_ Hx]%list_elem_of_filter. by apply HF.
Qed.

Lemma StronglySorted_fmap_filter P `{!∀ r, Decision (P r)} (l : list R) :
  StronglySorted Z.lt (id <$> l) → StronglySorted Z.lt (id <$> filter P l).
Proof.
  induction l as [|r l IH]; csimpl; [done|]. intros [Hs Hf]%StronglySorted_inv.
  rewrite filter_cons. case_decide; [|by apply IH]. csimpl. constructor; [by apply IH|].
  apply Forall_fmap. apply (Forall_fmap id) in Hf. exact (Forall_of_filter _ P l Hf).
Qed.

Lemma ids_ok_delete P `{!∀ r, Decision (P r)} t : ids_ok t → ids_ok (t_delete P t).2.
Proof.
  intros [Hs Hf]. split; cbn; [by apply StronglySorted_fmap_filter|by apply Forall_of_filter].
Qed.

Lemma ids_ok_inj t x y : ids_ok t → x ∈ t_rows t → y ∈ t_rows t → id x = id y → x = y.
Proof. intros [Hs _]. by apply StronglySorted_fmap_inj. Qed.
End ids.

Lemma ids_NoDup {R} (id : R → Z) (t : table R) : ids_ok id t → NoDup (t_rows t).
Proof.
  intros [Hs _]. apply (NoDup_fmap_1 id). apply NoDup_alt. intros i j x Hi Hj.
  destruct (Nat.lt_trichotomy i j) as [H|[H|H]]; [|done|].
  - pose proof (StronglySorted_lookup _ _ _ _ _ _ Hs H Hi Hj). lia.
  - pose proof (StronglySorted_lookup _ _ _ _ _ _ Hs H Hj Hi). lia.
Qed.

(** [ORDER BY key ASC] (rows with equal keys keep their table order) and
    [LIMIT n], where SQLite reads a negative limit as no limit. *)
Section order_by.
Context {R K : Type} (le : relation K) `{!RelDecision le}.
Definition key_le (key : R → K) : relation R := λ a b, le (key a) (key b).
#[local] Instance key_le_dec key : RelDecision (key_le key).
Proof. intros a b. unfold key_le. apply _. Defined.
Definition order_by (key : R → K) (l : list R) : list R :=
  merge_sort (key_le key) l.

Lemma order_by_permutation key l : order_by key l ≡ₚ l.
Proof. apply merge_sort_Permutation. Qed.

Lemma elem_of_order_by key l r : r ∈ order_by key l ↔ r ∈ l.
Proof. by rewrite order_by_permutation. Qed.

Lemma order_by_sorted `{!Total le, !Transitive le} key l :
  StronglySorted (key_le key) (order_by key l).
Proof.
  unfold order_by. apply StronglySorted_merge_sort.
  - intros a b c. unfold key_le. apply transitivity.
  - intros a b. apply (total le).
Qed.

(** Sorting any arrangement of rows that are in order, with distinct keys. *)
Lemma order_by_perm `{!Total le, !Transitive le, !AntiSymm (=) le} key l l' :
  StronglySorted (key_le key) l →
  (∀ x y, x ∈ l → y ∈ l → key x = key y → x = y) → l' ≡ₚ l → order_by key l' = l.
Proof.
  intros Hs Hinj HP. apply (StronglySorted_unique_strong (key_le key)).
  - intros x y Hx%elem_of_order_by Hy Hxy Hyx. rewrite HP in Hx. apply Hinj; [done..|].
    by apply (anti_symm le).
  - by apply order_by_sorted.
  - done.
  - rewrite <- HP. apply order_by_permutation.
Qed.

Lemma order_by_id `{!Total le, !Transitive le, !AntiSymm (=) le} key l :
  StronglySorted (key_le key) l →
  (∀ x y, x ∈ l → y ∈ l → key x = key y → x = y) → order_by key l = l.
Proof. intros Hs Hinj. by apply order_by_perm. Qed.
End order_by.

(** [ORDER BY id DESC]. *)
Lemma order_by_id_desc {R} (id : R → Z) P `{!∀ r, Decision (P r)} (t : table R) :
  ids_ok id t → order_by (flip Z.le) id (t_select P t) = reverse (t_select P t).
Proof.
  intros Hids. pose proof (StronglySorted_fmap_filter id P (t_rows t) (proj1 Hids)) as Hs.
  assert (Total (flip Z.le)) by (intros x y; unfold flip; lia).
  assert (Transitive (flip Z.le)) by (intros x y z; unfold flip; lia).
  assert (AntiSymm (=) (flip Z.le)) by (intros x y; unfold flip; lia).
  apply (order_by_perm (flip Z.le)).
  - apply StronglySorted_by_lookup. intros i j x y Hij Hx Hy. unfold key_le, flip.
    rewrite reverse_lookup_Some in Hx, Hy. destruct Hx as [Hx ?], Hy as [Hy ?].
    assert (id y < id x)%Z; [|lia].
    eapply (StronglySorted_lookup _ _ (length (t_select P t) - S j) (length (t_select P t) - S i) _ _ Hs);
      [lia|by rewrite list_lookup_fmap; unfold t_select in *; rewrite ?Hx, ?Hy..].
  - intros x y [_ Hx]%elem_of_reverse%elem_of_t_select [_ Hy]%elem_of_reverse%elem_of_t_select.
    by apply (ids_ok_inj id t).
  - by rewrite reverse_Permutation.
Qed.

(** Rows of strictly increasing text, sorted either way. *)
Definition text_lt (a b : string) : Prop := String.ltb a b = true.

Lemma text_lt_le a b : text_lt a b → String.le a b ∧ a ≠ b.
Proof.
  unfold text_lt, String.le, String.ltb, String.leb. intros H. split.
  - by destruct (a ?= b)%string.
  - intros ->. pose proof (String.compare_antisym b b). by destruct (b ?= b)%string.
Qed.

Section chronological.
Context {R : Type} (key : R → string).

Lemma chronological_inj l :
  StronglySorted text_lt (key <$> l) → ∀ x y, x ∈ l → y ∈ l → key x = key y → x = y.
Proof.
  intros Hs x y [i Hx]%list_elem_of_lookup [j Hy]%list_elem_of_lookup E.
  assert ((key <$> l) !! i = Some (key x)) as Hkx by (by rewrite list_lookup_fmap, Hx).
  assert ((key <$> l) !! j = Some (key y)) as Hky by (by rewrite list_lookup_fmap, Hy).
  destruct (Nat.lt_trichotomy i j) as [Hij|[->|Hij]]; [|congruence|]; exfalso.
  - by apply (text_lt_le _ _ (StronglySorted_lookup _ _ _ _ _ _ Hs Hij Hkx Hky)).
  - by apply (text_lt_le _ _ (StronglySorted_lookup _ _ _ _ _ _ Hs Hij Hky Hkx)).
Qed.

Lemma order_by_chronological l l' :
  StronglySorted text_lt (key <$> l) → l' ≡ₚ l → order_by String.le key l' = l.
Proof.
  intros Hs HP. apply (order_by_perm String.le); [|by apply chronological_inj|done].
  apply StronglySorted_by_lookup. intros i j x y Hij Hx Hy. unfold key_le.
  apply (text_lt_le (key x) (key y)), (StronglySorted_lookup _ _ i j _ _ Hs Hij);
    by rewrite list_lookup_fmap, ?Hx, ?Hy.
Qed.

Lemma order_by_chronological_desc l l' :
  StronglySorted text_lt (key <$> l) → l' ≡ₚ l → order_by (flip String.le) key l' = reverse l.
Proof.
  intros Hs HP.
  assert (Total (flip String.le)) by (intros x y; unfold flip; destruct (total String.le x y); auto).
  assert (Transitive (flip String.le)) by (intros x y z; unfold flip; intros ??; by etransitivity).
  assert (AntiSymm (=) (flip String.le)) by (intros x y; unfold flip; intros ??; by apply (anti_symm String.le)).
  apply (order_by_perm (flip String.le)).
  - apply StronglySorted_by_lookup. intros i j x y Hij Hx Hy. unfold key_le, flip.
    rewrite reverse_lookup_Some in Hx, Hy. destruct Hx as [Hx ?], Hy as [Hy ?].
    apply (text_lt_le (key y) (key x)), (StronglySorted_lookup _ _ (length l - S j) (length l - S i) _ _ Hs);
      [lia|by rewrite list_lookup_fmap, ?Hx, ?Hy..].
  - intros x y Hx Hy. rewrite elem_of_reverse in Hx, Hy. by apply (chronological_inj l).
  - by rewrite reverse_Permutation.
Qed.
End chronological.

#[export] Instance N_le_total : Total N.le.
Proof. intros x y. lia. Qed.
#[export] Instance Z_le_total : Total Z.le.
Proof. intros x y. lia. Qed.

Definition sql_limit {R} (n : Z) (l : list R) : list R :=
  if (n <? 0)%Z then l else take (Z.to_nat n) l.

Lemma sql_limit_length {R} (n : Z) (l : list R) :
  (0 ≤ n)%Z → (Z.of_nat (length (sql_limit n l)) ≤ n)%Z.
Proof.
  intros. unfold sql_limit. case_match; [lia|]. rewrite length_take. lia.
Qed.

Lemma sql_limit_subset {R} (n : Z) (l : list R) r : r ∈ sql_limit n l → r ∈ l.
Proof.
  unfold sql_limit. case_match; [done|]. intros Hr.
  rewrite <- (take_drop (Z.to_nat n) l). apply elem_of_app. by left.
Qed.

(** ** Time

    [datetime t] is SQLite's [datetime(t, 'unixepoch')], [None] standing for
    NULL; [parse_datetime] is chrono's
    [NaiveDateTime::parse_from_str(_, "%Y-%m-%d %H:%M:%S")] as seconds since
    the epoch.  Between 1970 and the end of the year 9999 the text is of
    fixed width, so that its byte order is the order of time. *)
Class Clock := {
  datetime : Z → option string;
  parse_datetime : string → option Z;
}.

Definition max_datetime : Z := 253402300799.
Definition in_range (t : Z) : Prop := (0 ≤ t ≤ max_datetime)%Z.
#[export] Instance in_range_dec t : Decision (in_range t).
Proof. unfold in_range. apply _. Defined.

Class ClockLaws `(Clock) := {
  datetime_total : ∀ t, in_range t → is_Some (datetime t);
  datetime_lt : ∀ t1 t2 s1 s2,
    in_range t1 → in_range t2 → datetime t1 = Some s1 → datetime t2 = Some s2 →
    ((t1 < t2)%Z ↔ String.ltb s1 s2 = true);
  parse_datetime_text : ∀ t s,
    in_range t → datetime t = Some s → parse_datetime s = Some t;
}.

(** [datetime('now')] as the value of a NOT NULL column. *)
Definition sql_now `{Clock} (now : Z) : string := default "" (datetime now).

(** A concrete clock for the witnesses: six characters, base 256. *)
Fixpoint clock_text (n : nat) (z : Z) : string :=
  match n with
  | O => ""
  | S n => String (ascii_of_N (Z.to_N (z / 256 ^ Z.of_nat n))) (clock_text n (z mod 256 ^ Z.of_nat n))
  end.

Fixpoint clock_value (s : string) : Z :=
  match s with
  | "" => 0
  | String c s => Z.of_N (N_of_ascii c) * 256 ^ Z.of_nat (String.length s) + clock_value s
  end.

Lemma clock_text_length n z : String.length (clock_text n z) = n.
Proof. revert z. induction n as [|n IH]; intros z; cbn; [done|]. by rewrite IH. Qed.

Lemma clock_digit n z :
  (0 ≤ z < 256 ^ Z.of_nat (S n))%Z →
  (0 ≤ z / 256 ^ Z.of_nat n < 256)%Z ∧ (0 ≤ z mod 256 ^ Z.of_nat n < 256 ^ Z.of_nat n)%Z ∧
  z = (256 ^ Z.of_nat n * (z / 256 ^ Z.of_nat n) + z mod 256 ^ Z.of_nat n)%Z ∧
  Z.of_N (N_of_ascii (ascii_of_N (Z.to_N (z / 256 ^ Z.of_nat n)))) = (z / 256 ^ Z.of_nat n)%Z.
Proof.
  rewrite Nat2Z.inj_succ, Z.pow_succ_r by lia. intros Hz.
  assert (0 < 256 ^ Z.of_nat n)%Z by (apply Z.pow_pos_nonneg; lia).
  assert (0 ≤ z / 256 ^ Z.of_nat n < 256)%Z as Hd.
  { split; [apply Z.div_pos; lia|]. apply Z.div_lt_upper_bound; lia. }
  split; [done|]. split; [by apply Z.mod_pos_bound|]. split; [apply Z.div_mod; lia|].
  rewrite N_ascii_embedding by lia. lia.
Qed.

Lemma clock_value_text n z : (0 ≤ z < 256 ^ Z.of_nat n)%Z → clock_value (clock_text n z) = z.
Proof.
  revert z. induction n as [|n IH]; intros z Hz; [cbn in *; lia|].
  destruct (clock_digit n z Hz) as (Hd & Hm & He & Hc). cbn [clock_text clock_value].
  rewrite clock_text_length, Hc, IH by done. lia.
Qed.

Lemma clock_text_lt n z1 z2 :
  (0 ≤ z1 < 256 ^ Z.of_nat n)%Z → (0 ≤ z2 < 256 ^ Z.of_nat n)%Z →
  String.compare (clock_text n z1) (clock_text n z2) = Z.compare z1 z2.
Proof.
  revert z1 z2. induction n as [|n IH]; intros z1 z2 H1 H2.
  { cbn in *. symmetry. apply Z.compare_eq_iff. lia. }
  destruct (clock_digit n z1 H1) as (Hd1 & Hm1 & He1 & Hc1), (clock_digit n z2 H2) as (Hd2 & Hm2 & He2 & Hc2).
  cbn [clock_text String.compare]. unfold Ascii.compare. rewrite <- N2Z.inj_compare, Hc1, Hc2.
  rewrite IH by done. set (b := (256 ^ Z.of_nat n)%Z) in *.
  destruct (Z.compare_spec (z1 / b) (z2 / b)) as [E|E|E]; symmetry.
  - destruct (Z.compare_spec (z1 mod b) (z2 mod b)); [apply Z.compare_eq_iff|apply Z.compare_lt_iff|apply Z.compare_gt_iff]; nia.
  - apply Z.compare_lt_iff. nia.
  - apply Z.compare_gt_iff. nia.
Qed.

Definition toy_clock : Clock :=
  {| datetime t := if decide (in_range t) then Some (clock_text 6 t) else None;
     parse_datetime s := Some (clock_value s) |}.

#[export] Instance toy_clock_laws : ClockLaws toy_clock.
Proof.
  assert (∀ t, in_range t → 0 ≤ t < 256 ^ Z.of_nat 6)%Z as Hr.
  { intros t [? Ht]. unfold max_datetime in Ht. change (256 ^ Z.of_nat 6)%Z with 281474976710656%Z. lia. }
  split; cbn [datetime parse_datetime toy_clock].
  - intros t Ht. rewrite decide_True by done. by eexists.
  - intros t1 t2 s1 s2 H1 H2. rewrite !decide_True by done. intros <-%Some_inj <-%Some_inj.
    unfold String.ltb. rewrite clock_text_lt by auto. rewrite <- Z.compare_lt_iff.
    by destruct (t1 ?= t2)%Z.
  - intros t s Ht. rewrite decide_True by done. intros <-%Some_inj. f_equal. apply clock_value_text. auto.
Qed.
