(* ===== verification/Bytes.v ===== *)
(** * Bytes: Rust strings and byte vectors

    A Rust [String] is its UTF-8 bytes, a [string] here, so [len()] is
    [String.length]; a [Vec<u8>] is a [list byte].  The ASCII predicates and
    the big-endian conversions are those of the standard library.  The [hex]
    crate is a parameter ([HexCrate]) with its documented laws ([HexLaws]);
    [hex_reference] is a concrete instance, used by the witnesses. *)

From S2P Require Import Prelude.
From Stdlib Require Export Ascii Strings.Byte.

#[local] Open Scope Z_scope.

(** ** Characters *)

Definition code (c : ascii) : Z := Z.of_N (N_of_ascii c).
Definition between (lo hi : Z) (c : ascii) : bool := (lo <=? code c) && (code c <=? hi).

Definition is_ascii_digit (c : ascii) : bool := between 48 57 c.
Definition is_lower_af (c : ascii) : bool := between 97 102 c.
Definition is_upper_af (c : ascii) : bool := between 65 70 c.
Definition is_ascii_hexdigit (c : ascii) : bool :=
  is_ascii_digit c || is_lower_af c || is_upper_af c.
(** [byte.is_ascii_digit() || (b'a'..=b'f').contains(&byte)]. *)
Definition is_lower_hexdigit (c : ascii) : bool := is_ascii_digit c || is_lower_af c.

Definition ascii_lower (c : ascii) : ascii :=
  if between 65 90 c then ascii_of_N (N_of_ascii c + 32) else c.

(** ** Strings *)

Fixpoint string_all (p : ascii → bool) (s : string) : bool :=
  match s with "" => true | String c s => p c && string_all p s end.

Fixpoint string_map (f : ascii → ascii) (s : string) : string :=
  match s with "" => "" | String c s => String (f c) (string_map f s) end.

Definition to_ascii_lowercase : string → string := string_map ascii_lower.

Definition is_empty (s : string) : bool := bool_decide (s = "").

Fixpoint string_contains_char (a : ascii) (s : string) : bool :=
  match s with
  | "" => false
  | String c s => bool_decide (c = a) || string_contains_char a s
  end.

Lemma string_length_map f s : String.length (string_map f s) = String.length s.
Proof. induction s; simpl; congruence. Qed.

Lemma string_length_app s t :
  String.length (s +:+ t) = (String.length s + String.length t)%nat.
Proof. induction s as [|c s IH]; [done|]. change (S (String.length (s +:+ t)) = S (String.length s + String.length t)). by rewrite IH. Qed.

Lemma string_all_app p s t :
  string_all p (s +:+ t) = string_all p s && string_all p t.
Proof.
  induction s as [|c s IH]; [done|].
  change (p c && string_all p (s +:+ t) = p c && string_all p s && string_all p t).
  by rewrite IH, andb_assoc.
Qed.

Lemma string_app_assoc (s t u : string) : (s +:+ t) +:+ u = s +:+ (t +:+ u).
Proof.
  induction s as [|c s IH]; [done|].
  change (String c ((s +:+ t) +:+ u) = String c (s +:+ (t +:+ u))). by rewrite IH.
Qed.

Lemma string_map_id p f s :
  (∀ c, p c = true → f c = c) → string_all p s = true → string_map f s = s.
Proof.
  intros Hf. induction s as [|c s IH]; simpl; [done|].
  intros [Hc Hs]%andb_true_iff. by rewrite Hf, IH.
Qed.

Lemma string_all_impl (p q : ascii → bool) s :
  (∀ c, p c = true → q c = true) → string_all p s = true → string_all q s = true.
Proof.
  intros Hpq. induction s as [|c s IH]; simpl; [done|].
  rewrite !andb_true_iff. naive_solver.
Qed.

(** A fact about every byte, by cases on its eight bits. *)
Ltac by_bits c := destruct c as [[] [] [] [] [] [] [] []]; try done; vm_compute; try done.

Lemma lower_hexdigit_fixed c : is_lower_hexdigit c = true → ascii_lower c = c.
Proof. by_bits c. Qed.

Lemma hexdigit_lower c : is_ascii_hexdigit c = true → is_lower_hexdigit (ascii_lower c) = true.
Proof. by_bits c. Qed.

Lemma lower_hexdigit_hexdigit c : is_lower_hexdigit c = true → is_ascii_hexdigit c = true.
Proof. by_bits c. Qed.

Lemma ascii_lower_idemp c : ascii_lower (ascii_lower c) = ascii_lower c.
Proof. by_bits c. Qed.

Lemma to_ascii_lowercase_fixed s :
  string_all is_lower_hexdigit s = true → to_ascii_lowercase s = s.
Proof. apply string_map_id, lower_hexdigit_fixed. Qed.

Lemma to_ascii_lowercase_idemp s :
  to_ascii_lowercase (to_ascii_lowercase s) = to_ascii_lowercase s.
Proof.
  unfold to_ascii_lowercase. induction s as [|c s IH]; simpl; [done|].
  by rewrite ascii_lower_idemp, IH.
Qed.

Lemma to_ascii_lowercase_hex s :
  string_all is_ascii_hexdigit s = true →
  string_all is_lower_hexdigit (to_ascii_lowercase s) = true.
Proof.
  unfold to_ascii_lowercase. induction s as [|c s IH]; simpl; [done|].
  rewrite !andb_true_iff. intros [Hc Hs]. split; [by apply hexdigit_lower|by apply IH].
Qed.

(** ** Bytes as integers *)

Definition bval (b : byte) : Z := Z.of_N (Byte.to_N b).

Lemma bval_bound b : 0 ≤ bval b < 256.
Proof. unfold bval. pose proof (Byte.to_N_bounded b). lia. Qed.

Definition byte_of_Z (z : Z) : byte :=
  match Byte.of_N (Z.to_N (z mod 256)) with Some b => b | None => x00 end.

Lemma bval_byte_of_Z z : bval (byte_of_Z z) = z mod 256.
Proof.
  unfold byte_of_Z, bval. pose proof (Z.mod_pos_bound z 256 ltac:(lia)).
  destruct (Byte.of_N (Z.to_N (z mod 256))) as [b|] eqn:E.
  - apply Byte.to_of_N in E. rewrite E. lia.
  - apply Byte.of_N_None_iff in E. lia.
Qed.

Lemma bval_inj b1 b2 : bval b1 = bval b2 → b1 = b2.
Proof.
  unfold bval. intros H%N2Z.inj.
  pose proof (Byte.of_to_N b1) as E1. pose proof (Byte.of_to_N b2) as E2.
  rewrite H in E1. congruence.
Qed.

#[export] Instance byte_eq_dec : EqDecision byte := Byte.byte_eq_dec.

(** The integer a big-endian byte string denotes. *)
Definition be_val (bs : list byte) : Z := foldl (λ acc b, 256 * acc + bval b) 0 bs.

(** [to_bytes_be]: the [n] low-order bytes of an integer, big-endian. *)
Fixpoint be_bytes (n : nat) (z : Z) : list byte :=
  match n with O => [] | S n' => be_bytes n' (z / 256) ++ [byte_of_Z z] end.

Lemma be_bytes_length n z : length (be_bytes n z) = n.
Proof. revert z. induction n; intros; simpl; [done|]. rewrite length_app, IHn. simpl. lia. Qed.

Lemma be_val_snoc bs b : be_val (bs ++ [b]) = 256 * be_val bs + bval b.
Proof. unfold be_val. by rewrite foldl_app. Qed.

Lemma be_val_be_bytes n z : be_val (be_bytes n z) = z mod 256 ^ Z.of_nat n.
Proof.
  revert z. induction n as [|n IH]; intros z.
  - cbn. by rewrite Z.mod_1_r.
  - simpl be_bytes. rewrite be_val_snoc, IH, bval_byte_of_Z.
    rewrite Nat2Z.inj_succ, Z.pow_succ_r by lia.
    rewrite (Z.rem_mul_r z 256 (256 ^ Z.of_nat n)); lia.
Qed.

Lemma be_val_bound bs : 0 ≤ be_val bs < 256 ^ Z.of_nat (length bs).
Proof.
  induction bs as [|b bs IH] using rev_ind; [cbn; lia|].
  rewrite be_val_snoc, length_app. simpl length.
  rewrite Nat2Z.inj_add, Z.pow_add_r by lia.
  change (256 ^ Z.of_nat 1) with 256. pose proof (bval_bound b). lia.
Qed.

Lemma be_bytes_be_val bs : be_bytes (length bs) (be_val bs) = bs.
Proof.
  induction bs as [|b bs IH] using rev_ind; [done|].
  rewrite length_app, Nat.add_comm. simpl. rewrite be_val_snoc.
  pose proof (bval_bound b).
  replace ((256 * be_val bs + bval b) / 256) with (be_val bs) by
    (rewrite Z.add_comm, Z.mul_comm, Z.div_add by lia; rewrite Z.div_small; lia).
  rewrite IH. do 2 f_equal. apply bval_inj. rewrite bval_byte_of_Z.
  rewrite Z.add_comm, Z.mul_comm, Z.mod_add by lia. apply Z.mod_small. lia.
Qed.

(** Leading zero bytes do not change the value: [vec![0u8; k]] in front. *)
Lemma be_val_pad k bs : be_val (replicate k x00 ++ bs) = be_val bs.
Proof.
  unfold be_val. rewrite foldl_app. f_equal.
  induction k as [|k IH]; [done|]. exact IH.
Qed.

(** ** The hex crate *)

Class HexCrate := {
  hex_encode : list byte → string;
  hex_decode : string → option (list byte);
}.

Class HexLaws `(HexCrate) := {
  hex_decode_encode : ∀ bs, hex_decode (hex_encode bs) = Some bs;
  hex_encode_decode : ∀ s bs, hex_decode s = Some bs → hex_encode bs = to_ascii_lowercase s;
  hex_encode_length : ∀ bs, String.length (hex_encode bs) = (2 * length bs)%nat;
  hex_encode_lower : ∀ bs, string_all is_lower_hexdigit (hex_encode bs) = true;
  hex_decode_total : ∀ s,
    Nat.even (String.length s) = true → string_all is_ascii_hexdigit s = true →
    is_Some (hex_decode s);
}.

Section hex_laws.
Context `{HX : HexCrate, !HexLaws HX}.

Lemma hex_decode_length s bs :
  hex_decode s = Some bs → String.length s = (2 * length bs)%nat.
Proof.
  intros H%hex_encode_decode. rewrite <- hex_encode_length, H.
  symmetry. apply string_length_map.
Qed.

Lemma hex_encode_inj bs1 bs2 : hex_encode bs1 = hex_encode bs2 → bs1 = bs2.
Proof.
  intros H. pose proof (hex_decode_encode bs1) as E. rewrite H in E.
  rewrite hex_decode_encode in E. congruence.
Qed.
End hex_laws.

(** A concrete hexadecimal codec. *)
Definition hex_digit (z : Z) : ascii :=
  ascii_of_N (Z.to_N (if z <? 10 then 48 + z else 87 + z)).
Definition hex_value (c : ascii) : option Z :=
  if is_ascii_digit c then Some (code c - 48)
  else if is_lower_af c then Some (code c - 87)
  else if is_upper_af c then Some (code c - 55)
  else None.

Fixpoint ref_hex_encode (bs : list byte) : string :=
  match bs with
  | [] => ""
  | b :: bs =>
      String (hex_digit (bval b / 16)) (String (hex_digit (bval b mod 16)) (ref_hex_encode bs))
  end.

Fixpoint ref_hex_decode (s : string) : option (list byte) :=
  match s with
  | "" => Some []
  | String a (String b s) =>
      h ← hex_value a; l ← hex_value b; bs ← ref_hex_decode s;
      Some (byte_of_Z (16 * h + l) :: bs)
  | String _ "" => None
  end.

Definition hex_reference : HexCrate :=
  {| hex_encode := ref_hex_encode; hex_decode := ref_hex_decode |}.

Lemma ref_hex_byte b :
  hex_value (hex_digit (bval b / 16)) = Some (bval b / 16) ∧
  hex_value (hex_digit (bval b mod 16)) = Some (bval b mod 16) ∧
  byte_of_Z (16 * (bval b / 16) + bval b mod 16) = b ∧
  is_lower_hexdigit (hex_digit (bval b / 16)) = true ∧
  is_lower_hexdigit (hex_digit (bval b mod 16)) = true.
Proof. destruct b; vm_compute; repeat split. Qed.

Lemma hex_value_digit c v : hex_value c = Some v → hex_digit v = ascii_lower c ∧ 0 ≤ v < 16.
Proof. by_bits c; intros [= <-]; split; done || lia. Qed.

Lemma hex_value_total c : is_ascii_hexdigit c = true → is_Some (hex_value c).
Proof. by_bits c; eauto. Qed.

(** Two characters at a time. *)
Lemma string_pair_ind (P : string → Prop) :
  P "" → (∀ a, P (String a "")) → (∀ a b s, P s → P (String a (String b s))) → ∀ s, P s.
Proof.
  intros H0 H1 H2. fix IH 1. intros [|a [|b s]]; [apply H0|apply H1|apply H2, IH].
Qed.

Lemma ref_hex_encode_decode s bs :
  ref_hex_decode s = Some bs → ref_hex_encode bs = to_ascii_lowercase s.
Proof.
  revert bs. induction s as [|c|a b s IH] using string_pair_ind; intros bs; simpl;
    [by intros [= <-]|done|].
  destruct (hex_value a) as [h|] eqn:Ha; simpl; [|done].
  destruct (hex_value b) as [l|] eqn:Hb; simpl; [|done].
  destruct (ref_hex_decode s) as [r|] eqn:Hs; simpl; [|done]. intros [= <-].
  apply hex_value_digit in Ha as [Ha ?], Hb as [Hb ?].
  simpl. rewrite bval_byte_of_Z, (Z.mod_small _ 256), (IH r) by (done || lia).
  replace ((16 * h + l) / 16) with h by
    (rewrite Z.add_comm, Z.mul_comm, Z.div_add, Z.div_small; lia).
  replace ((16 * h + l) mod 16) with l by
    (rewrite Z.add_comm, Z.mul_comm, Z.mod_add, Z.mod_small; lia).
  by rewrite Ha, Hb.
Qed.

Lemma ref_hex_decode_total s :
  Nat.even (String.length s) = true → string_all is_ascii_hexdigit s = true →
  is_Some (ref_hex_decode s).
Proof.
  induction s as [|c|a b s IH] using string_pair_ind; simpl; [eauto|done|].
  intros He [Ha [Hb Hs]%andb_true_iff]%andb_true_iff.
  destruct (hex_value_total a Ha) as [h ->], (hex_value_total b Hb) as [l ->].
  destruct (IH He Hs) as [bs ->]. simpl. eauto.
Qed.

#[export] Instance hex_reference_laws : HexLaws hex_reference.
Proof.
  split; simpl.
  - induction bs as [|b bs IH]; [done|].
    destruct (ref_hex_byte b) as (H1 & H2 & H3 & _). simpl. rewrite H1, H2, IH. simpl. by rewrite H3.
  - apply ref_hex_encode_decode.
  - induction bs as [|b bs IH]; [done|]. simpl. rewrite IH. lia.
  - induction bs as [|b bs IH]; [done|].
    destruct (ref_hex_byte b) as (_ & _ & _ & H1 & H2). simpl. by rewrite H1, H2, IH.
  - apply ref_hex_decode_total.
Qed.

Lemma string_app_inj_length (s1 s2 t1 t2 : string) :
  String.length s1 = String.length s2 → s1 +:+ t1 = s2 +:+ t2 → s1 = s2 ∧ t1 = t2.
Proof.
  revert s2. induction s1 as [|c s1 IH]; intros [|c2 s2]; try done.
  intros [= Hl]. change (String c (s1 +:+ t1) = String c2 (s2 +:+ t2) → String c s1 = String c2 s2 ∧ t1 = t2).
  intros [= -> Ht]. destruct (IH s2 Hl Ht) as [-> ->]. done.
Qed.

(** The same with the suffixes of equal length. *)
Lemma string_app_inj_length_r (s1 s2 t1 t2 : string) :
  String.length t1 = String.length t2 → s1 +:+ t1 = s2 +:+ t2 → s1 = s2 ∧ t1 = t2.
Proof.
  intros Hl He. apply string_app_inj_length; [|done].
  apply (f_equal String.length) in He. rewrite !string_length_app in He. lia.
Qed.

Lemma list_byte_of_string_inj s1 s2 :
  String.list_byte_of_string s1 = String.list_byte_of_string s2 → s1 = s2.
Proof.
  intros H. apply (f_equal String.string_of_list_byte) in H.
  by rewrite !String.string_of_list_byte_of_string in H.
Qed.
