(* ===== verification/Types.v ===== *)
(** * Types: crates/annex-types

    The shared enumerations, capability flags and the server policy.
    [f32] values are IEEE binary32 in the specification floats of the
    standard library ([SpecFloat] at precision 24, [emax] 128).  serde_json
    is a parameter: [Serde A] gives the text of a value and its parser, with
    the round trip the code relies on. *)

From S2P Require Import Prelude Bytes.
From Stdlib Require Export SpecFloat.

#[local] Open Scope Z_scope.

(** ** Floats *)

Definition f32 : Type := spec_float.
Definition f64 : Type := spec_float.
Definition f32_leb (a b : f32) : bool := SFleb a b.
(** A literal: [m * 2 ^ e] with a 24-bit significand. *)
Definition f32_lit (m : positive) (e : Z) : f32 := S754_finite false m e.
Definition f32_zero : f32 := S754_zero false.
Definition f32_half : f32 := f32_lit 8388608 (-24).
Definition f32_one : f32 := f32_lit 8388608 (-23).

(** binary32 arithmetic, rounding to nearest even. *)
Definition f32_add : f32 → f32 → f32 := SFadd 24 128.
Definition f32_sub : f32 → f32 → f32 := SFsub 24 128.
Definition f32_mul : f32 → f32 → f32 := SFmul 24 128.
Definition f32_div : f32 → f32 → f32 := SFdiv 24 128.
Definition f32_sqrt : f32 → f32 := SFsqrt 24 128.
Definition f32_of_Z (z : Z) : f32 := binary_normalize 24 128 z 0 false.
(** [f32::clamp]: NaN is returned as it is. *)
Definition f32_clamp (x lo hi : f32) : f32 :=
  if SFltb x lo then lo else if SFltb hi x then hi else x.

#[export] Instance spec_float_eq_dec : EqDecision spec_float.
Proof. solve_decision. Defined.

(** ** serde_json *)

Class Serde (A : Type) := {
  to_json : A → string;
  from_json : string → option A;
}.
Class SerdeLaws (A : Type) `{Serde A} := {
  from_json_to_json : ∀ a : A, from_json (to_json a) = Some a;
}.

(** An instance for any countable type, for the witnesses: the text is the
    code of the value, one character per bit. *)
Fixpoint pos_text (p : positive) : string :=
  match p with
  | xH => ""
  | xO p => String "0"%char (pos_text p)
  | xI p => String "1"%char (pos_text p)
  end.
Fixpoint text_pos (s : string) : option positive :=
  match s with
  | "" => Some xH
  | String c s =>
      p ← text_pos s;
      if decide (c = "0"%char) then Some (xO p)
      else if decide (c = "1"%char) then Some (xI p) else None
  end.
Lemma text_pos_text p : text_pos (pos_text p) = Some p.
Proof. induction p as [p IH|p IH|]; simpl; rewrite ?IH; done. Qed.

Definition serde_countable (A : Type) `{Countable A} : Serde A :=
  {| to_json a := pos_text (encode a); from_json s := text_pos s ≫= decode |}.
Lemma serde_countable_laws A `{Countable A} : @SerdeLaws A (serde_countable A).
Proof. split. intros a. simpl. rewrite text_pos_text. simpl. apply decode_encode. Qed.

(** ** Roles: lib.rs *)

Inductive RoleCode := Human | AiAgent | Collective | Bridge | Service.

#[export] Instance RoleCode_eq_dec : EqDecision RoleCode.
Proof. solve_decision. Defined.

Definition role_as_u8 (r : RoleCode) : Z :=
  match r with
  | Human => 1 | AiAgent => 2 | Collective => 3 | Bridge => 4 | Service => 5
  end.

Definition role_from_u8 (code : Z) : option RoleCode :=
  match code with
  | 1 => Some Human
  | 2 => Some AiAgent
  | 3 => Some Collective
  | 4 => Some Bridge
  | 5 => Some Service
  | _ => None
  end.

Definition role_label (r : RoleCode) : string :=
  match r with
  | Human => "HUMAN"
  | AiAgent => "AI_AGENT"
  | Collective => "COLLECTIVE"
  | Bridge => "BRIDGE"
  | Service => "SERVICE"
  end.

(** ** Other enumerations: lib.rs *)

Module AlignmentStatus.
Inductive t := Aligned | Partial | Conflict.
#[export] Instance eq_dec : EqDecision t.
Proof. solve_decision. Defined.
End AlignmentStatus.

Inductive ChannelType := Text | Voice | Hybrid | Agent | Broadcast.
#[export] Instance ChannelType_eq_dec : EqDecision ChannelType.
Proof. solve_decision. Defined.

Inductive FederationScope := Local | Federated.
#[export] Instance FederationScope_eq_dec : EqDecision FederationScope.
Proof. solve_decision. Defined.

Module NodeType.
Inductive t := Human | AiAgent | Collective | Bridge | Service.
#[export] Instance eq_dec : EqDecision t.
Proof. solve_decision. Defined.
End NodeType.

Inductive EdgeKind := MemberOf | Connected | AgentServing | FederatedWith | Moderates.
#[export] Instance EdgeKind_eq_dec : EqDecision EdgeKind.
Proof. solve_decision. Defined.

Record Capabilities := {
  can_voice : bool;
  can_moderate : bool;
  can_invite : bool;
  can_federate : bool;
  can_bridge : bool;
}.
#[export] Instance Capabilities_eq_dec : EqDecision Capabilities.
Proof. solve_decision. Defined.

Inductive VisibilityLevel :=
  | Self_ | Degree1 | Degree2 | Degree3 | AggregateOnly | VNone.
#[export] Instance VisibilityLevel_eq_dec : EqDecision VisibilityLevel.
Proof. solve_decision. Defined.

Module PresenceEvent.
Inductive t :=
  | NodeAdded (pseudonym_id : string) (node_type : NodeType.t)
  | NodeUpdated (pseudonym_id : string) (active : bool)
  | NodePruned (pseudonym_id : string)
  | EdgeAdded (from_node to_node : string) (kind : EdgeKind)
  | EdgeRemoved (from_node to_node : string) (kind : EdgeKind)
  | FederationRealigned (remote_base_url : string) (alignment_status : AlignmentStatus.t)
  | FederationSevered (remote_base_url : string).
End PresenceEvent.

(** ** Server policy: policy.rs *)

Record RateLimitConfig := {
  registration_limit : Z;
  verification_limit : Z;
  default_limit : Z;
}.

Record ServerPolicy := {
  agent_min_alignment_score : f32;
  agent_required_capabilities : list string;
  federation_enabled : bool;
  default_retention_days : Z;
  voice_enabled : bool;
  max_members : Z;
  rate_limit : RateLimitConfig;
  principles : list string;
  prohibited_actions : list string;
  access_mode : string;
  access_password : string;
  images_enabled : bool;
  videos_enabled : bool;
  files_enabled : bool;
  max_image_size_mb : Z;
  max_video_size_mb : Z;
  max_file_size_mb : Z;
  usernames_enabled : bool;
}.

Definition default_access_mode : string := "public".
Definition default_max_upload_mb : Z := 5.

Definition RateLimitConfig_default : RateLimitConfig :=
  {| registration_limit := 10; verification_limit := 10; default_limit := 60 |}.

Definition ServerPolicy_default : ServerPolicy :=
  {| agent_min_alignment_score := f32_lit 13421773 (-24);
     agent_required_capabilities := [];
     federation_enabled := true;
     default_retention_days := 30;
     voice_enabled := true;
     max_members := 1000;
     rate_limit := RateLimitConfig_default;
     principles := [];
     prohibited_actions := [];
     access_mode := "public";
     access_password := "";
     images_enabled := true;
     videos_enabled := true;
     files_enabled := true;
     max_image_size_mb := 5;
     max_video_size_mb := 5;
     max_file_size_mb := 5;
     usernames_enabled := false |}.

(** ** Facts *)

Lemma role_from_as_u8 r : role_from_u8 (role_as_u8 r) = Some r.
Proof. by destruct r. Qed.

Lemma role_from_u8_some code r : role_from_u8 code = Some r ↔ code = role_as_u8 r.
Proof.
  split; [|intros ->; apply role_from_as_u8].
  unfold role_from_u8. case_all; intros [= <-]; done.
Qed.

Lemma role_label_inj r1 r2 : role_label r1 = role_label r2 → r1 = r2.
Proof. by destruct r1, r2. Qed.
