(* ===== verification/Identity.v ===== *)
(** * Identity: crates/annex-identity/src/{lib,poseidon,commitment,nullifier}.rs

    Derivation of nullifiers and pseudonyms, the Poseidon wrapper,
    commitments, and the table of used nullifiers.  SHA-256, the BN254 scalar
    field and the Poseidon permutation are parameters ([Sha256], [Poseidon])
    with their documented laws. *)

From S2P Require Import Prelude Sql Bytes Types.

#[local] Open Scope Z_scope.

Inductive IdentityError :=
  | EmptyCommitment
  | EmptyTopic
  | EmptyNullifier
  | InvalidNullifierFormat
  | InvalidCommitmentFormat
  | InvalidHex
  | InvalidRoleCode (code : Z)
  | InvalidRoleLabel (label : string)
  | PoseidonError (msg : string)
  | TreeFull
  | InvalidIndex (index : N)
  | DuplicateNullifier (topic : string)
  | DuplicateCommitment (msg : string)
  | CommitmentNotFound (commitment : string)
  | MerkleRootMismatch (stored computed : string)
  | DatabaseError (e : sql_error).

#[export] Instance IdentityError_eq_dec : EqDecision IdentityError.
Proof. solve_decision. Defined.

(** ** Third-party primitives *)

Class Sha256 := { sha256 : list byte → list byte }.
Class Sha256Laws `(Sha256) := { sha256_length : ∀ bs, length (sha256 bs) = 32%nat }.

(** The scalar field [ark_bn254::Fr] (its elements are the residues below
    the modulus, [into_bigint] the residue) and [light_poseidon]. *)
Class Poseidon := {
  Fr : Type;
  Fr_eq_dec :: EqDecision Fr;
  fr_modulus : Z;
  fr_of_Z : Z → Fr;
  fr_to_Z : Fr → Z;
  new_circom : nat → result string unit;
  poseidon_hash : list Fr → result string Fr;
}.

Class PoseidonLaws `(Poseidon) := {
  fr_modulus_bound : 2 ^ 253 < fr_modulus < 2 ^ 254;
  fr_to_Z_bound : ∀ x, 0 ≤ fr_to_Z x < fr_modulus;
  fr_to_of : ∀ z, fr_to_Z (fr_of_Z z) = z mod fr_modulus;
  fr_of_to : ∀ x, fr_of_Z (fr_to_Z x) = x;
  (** "For 2 inputs (Merkle) and 3 inputs (Commitment), it should work." *)
  new_circom_arity : ∀ n, n = 2%nat ∨ n = 3%nat → new_circom n = Ok ();
  poseidon_hash_arity : ∀ l, length l = 2%nat ∨ length l = 3%nat →
    ∃ h, poseidon_hash l = Ok h;
}.

(** ** Derivation: lib.rs *)

Definition str_bytes (s : string) : list byte := String.list_byte_of_string s.
Lemma str_bytes_length s : length (str_bytes s) = String.length s.
Proof.
  unfold str_bytes, String.list_byte_of_string. rewrite length_map.
  induction s as [|c s IH]; cbn; [done|]. by rewrite IH.
Qed.

Definition sha256_hex `{HexCrate, Sha256} (input : string) : string :=
  hex_encode (sha256 (str_bytes input)).

Definition is_lower_hex_64 (value : string) : bool :=
  bool_decide (String.length value = 64%nat) && string_all is_lower_hexdigit value.

Definition derive_nullifier_hex `{HexCrate, Sha256} (commitment_hex topic : string) :
    result IdentityError string :=
  _ ← reject_if (is_empty commitment_hex) EmptyCommitment;
  _ ← reject_if (is_empty topic) EmptyTopic;
  _ ← reject_if (negb (is_lower_hex_64 commitment_hex)) InvalidCommitmentFormat;
  Ok (sha256_hex (commitment_hex +:+ ":" +:+ topic)).

Definition derive_pseudonym_id `{HexCrate, Sha256} (topic nullifier_hex : string) :
    result IdentityError string :=
  _ ← reject_if (is_empty topic) EmptyTopic;
  _ ← reject_if (is_empty nullifier_hex) EmptyNullifier;
  _ ← reject_if (negb (is_lower_hex_64 nullifier_hex)) InvalidNullifierFormat;
  Ok (sha256_hex (topic +:+ ":" +:+ nullifier_hex)).

Definition derive_topic_scoped_pseudonym `{HexCrate, Sha256} (commitment_hex topic : string) :
    result IdentityError string :=
  nullifier_hex ← derive_nullifier_hex commitment_hex topic;
  derive_pseudonym_id topic nullifier_hex.

(** ** Poseidon: poseidon.rs *)

Section poseidon.
Context `{PO : Poseidon}.

Definition hash_inputs (inputs : list Fr) : result IdentityError Fr :=
  _ ← map_err (λ e, PoseidonError ("Failed to initialize Poseidon: " +:+ e))
        (new_circom (length inputs));
  map_err (λ e, PoseidonError ("Poseidon hash failed: " +:+ e)) (poseidon_hash inputs).

Definition fr_zero : Fr := fr_of_Z 0.

(** [Fr::from_be_bytes_mod_order]. *)
Definition fr_of_bytes (bs : list byte) : Fr := fr_of_Z (be_val bs).
(** [x.into_bigint().to_bytes_be()]: 32 bytes. *)
Definition fr_bytes (x : Fr) : list byte := be_bytes 32 (fr_to_Z x).
Definition fr_hex `{HexCrate} (x : Fr) : string := hex_encode (fr_bytes x).

(** The two-input hash as a total function. *)
Definition hash2 (a b : Fr) : Fr :=
  match hash_inputs [a; b] with Ok h => h | _ => fr_zero end.

Context `{!PoseidonLaws PO}.

Lemma fr_modulus_pos : 0 < fr_modulus.
Proof. pose proof fr_modulus_bound. lia. Qed.

Lemma fr_modulus_256 : fr_modulus < 2 ^ 256.
Proof. pose proof fr_modulus_bound. lia. Qed.

Lemma hash_inputs_2 a b : hash_inputs [a; b] = Ok (hash2 a b).
Proof.
  unfold hash2, hash_inputs.
  destruct (poseidon_hash_arity [a; b]) as [h Hh]; [by left|].
  rewrite new_circom_arity by (by left). rewrite Hh. done.
Qed.

Lemma hash_inputs_3 a b c : ∃ h, hash_inputs [a; b; c] = Ok h.
Proof.
  unfold hash_inputs. destruct (poseidon_hash_arity [a; b; c]) as [h Hh]; [by right|].
  rewrite new_circom_arity by (by right). rewrite Hh. by exists h.
Qed.

Lemma fr_of_bytes_fr_bytes x : fr_of_bytes (fr_bytes x) = x.
Proof.
  unfold fr_of_bytes, fr_bytes. rewrite be_val_be_bytes.
  pose proof (fr_to_Z_bound x). pose proof fr_modulus_bound.
  rewrite Z.mod_small by (change (256 ^ Z.of_nat 32) with (2 ^ 256); lia).
  apply fr_of_to.
Qed.

Lemma fr_bytes_length x : length (fr_bytes x) = 32%nat.
Proof. apply be_bytes_length. Qed.

Lemma hex_decode_fr_hex `{HX : HexCrate, !HexLaws HX} x :
  hex_decode (fr_hex x) = Some (fr_bytes x).
Proof. apply hex_decode_encode. Qed.

Lemma fr_hex_lower_64 `{HX : HexCrate, !HexLaws HX} x : is_lower_hex_64 (fr_hex x) = true.
Proof.
  unfold is_lower_hex_64, fr_hex.
  rewrite hex_encode_length, fr_bytes_length, hex_encode_lower. done.
Qed.

Lemma fr_hex_inj `{HX : HexCrate, !HexLaws HX} x y : fr_hex x = fr_hex y → x = y.
Proof.
  intros Hb%hex_encode_inj.
  rewrite <- (fr_of_bytes_fr_bytes x), <- (fr_of_bytes_fr_bytes y). by rewrite Hb.
Qed.
End poseidon.

(** ** Commitments: commitment.rs *)

Definition generate_commitment `{HexCrate, Poseidon} (sk_hex : string) (role : RoleCode)
    (node_id : Z) : result IdentityError string :=
  sk_bytes ← ok_or (hex_decode sk_hex) InvalidHex;
  _ ← reject_if ((length sk_bytes <? 16)%nat || (32 <? length sk_bytes)%nat) InvalidHex;
  let sk_fr := fr_of_bytes sk_bytes in
  let roundtrip_bytes := fr_bytes sk_fr in
  let padded := replicate (32 - length sk_bytes) x00 ++ sk_bytes in
  _ ← reject_if (bool_decide (padded ≠ roundtrip_bytes)) InvalidHex;
  let role_fr := fr_of_Z (role_as_u8 role) in
  let node_id_fr := fr_of_Z node_id in
  commitment_fr ← hash_inputs [sk_fr; role_fr; node_id_fr];
  Ok (fr_hex commitment_fr).

(** ** Used nullifiers: nullifier.rs *)

Record NullifierRow := {
  nf_topic : string;
  nf_nullifier_hex : string;
  nf_pseudonym_id : option string;
  nf_commitment_hex : option string;
}.

Definition nullifier_key (topic nullifier_hex : string) (r : NullifierRow) : Prop :=
  nf_topic r = topic ∧ nf_nullifier_hex r = nullifier_hex.
#[export] Instance nullifier_key_dec topic nf r : Decision (nullifier_key topic nf r).
Proof. unfold nullifier_key. apply _. Defined.

Definition check_nullifier_exists (db : table NullifierRow) (topic nullifier_hex : string) :
    result IdentityError bool :=
  let count := length (t_select (nullifier_key topic nullifier_hex) db) in
  Ok (0 <? count)%nat.

(** The INSERT fails on UNIQUE (topic, nullifier_hex). *)
Definition nullifier_insert_stmt (r : NullifierRow) : M (table NullifierRow) sql_error unit :=
  λ db, if t_exists (nullifier_key (nf_topic r) (nf_nullifier_hex r)) db
        then (Err ConstraintUnique, db)
        else (Ok (), (t_insert (λ _, r) db).2).

Definition insert_nullifier (fault : faults) (k : nat) (topic nullifier_hex : string)
    (pseudonym_id commitment_hex : option string) : M (table NullifierRow) IdentityError unit :=
  catch_map
    (λ e, if is_constraint_violation e then DuplicateNullifier topic else DatabaseError e)
    (exec fault k (nullifier_insert_stmt
       {| nf_topic := topic; nf_nullifier_hex := nullifier_hex;
          nf_pseudonym_id := pseudonym_id; nf_commitment_hex := commitment_hex |})).

(** * Theorems *)

Lemma is_lower_hex_64_spec v :
  is_lower_hex_64 v = true ↔
  String.length v = 64%nat ∧ string_all is_lower_hexdigit v = true.
Proof. unfold is_lower_hex_64. by rewrite andb_true_iff, bool_decide_eq_true. Qed.

Lemma is_lower_hex_64_nonempty v : is_lower_hex_64 v = true → is_empty v = false.
Proof. rewrite is_lower_hex_64_spec. intros [? _]. by destruct v. Qed.

Section derivation.
Context `{HX : HexCrate, !HexLaws HX, SH : Sha256, !Sha256Laws SH}.

Lemma sha256_hex_lower_64 s : is_lower_hex_64 (sha256_hex s) = true.
Proof.
  apply is_lower_hex_64_spec. unfold sha256_hex.
  by rewrite hex_encode_length, sha256_length, hex_encode_lower.
Qed.

Lemma length_colon_sha256_hex a b :
  String.length (":" +:+ sha256_hex a) = String.length (":" +:+ sha256_hex b).
Proof.
  rewrite !string_length_app. f_equal. unfold sha256_hex.
  by rewrite !hex_encode_length, !sha256_length.
Qed.

(** The hexadecimal digest determines the digest. *)
Lemma sha256_hex_collision s1 s2 :
  sha256_hex s1 = sha256_hex s2 →
  s1 = s2 ∨ ∃ x y, x ≠ y ∧ sha256 x = sha256 y.
Proof.
  intros H%hex_encode_inj. destruct (decide (s1 = s2)) as [->|Hne]; [by left|].
  right. exists (str_bytes s1), (str_bytes s2). split; [|done].
  intros Hb. by apply Hne, list_byte_of_string_inj.
Qed.

Lemma derive_nullifier_ok c t h :
  derive_nullifier_hex c t = Ok h ↔
  is_lower_hex_64 c = true ∧ t ≠ "" ∧ h = sha256_hex (c +:+ ":" +:+ t).
Proof.
  unfold derive_nullifier_hex, reject_if. cbn.
  destruct (is_lower_hex_64 c) eqn:Hc; cbn.
  - rewrite (is_lower_hex_64_nonempty c Hc). unfold is_empty.
    destruct (bool_decide_reflect (t = "")); naive_solver.
  - destruct (is_empty c), (is_empty t); naive_solver.
Qed.

Lemma derive_pseudonym_ok t n p :
  derive_pseudonym_id t n = Ok p ↔
  is_lower_hex_64 n = true ∧ t ≠ "" ∧ p = sha256_hex (t +:+ ":" +:+ n).
Proof.
  unfold derive_pseudonym_id, reject_if. cbn.
  destruct (is_lower_hex_64 n) eqn:Hn; cbn.
  - rewrite (is_lower_hex_64_nonempty n Hn). unfold is_empty.
    destruct (bool_decide_reflect (t = "")); naive_solver.
  - destruct (is_empty n), (is_empty t); naive_solver.
Qed.

Lemma derive_topic_scoped_ok c t p :
  derive_topic_scoped_pseudonym c t = Ok p ↔
  is_lower_hex_64 c = true ∧ t ≠ "" ∧
  p = sha256_hex (t +:+ ":" +:+ sha256_hex (c +:+ ":" +:+ t)).
Proof.
  unfold derive_topic_scoped_pseudonym, mbind, result_bind.
  destruct (derive_nullifier_hex c t) as [n|e|] eqn:En.
  - apply derive_nullifier_ok in En as (Hc & Ht & ->). rewrite derive_pseudonym_ok.
    pose proof (sha256_hex_lower_64 (c +:+ ":" +:+ t)). tauto.
  - split; [done|]. intros (Hc & Ht & _).
    assert (derive_nullifier_hex c t = Ok (sha256_hex (c +:+ ":" +:+ t))) as E
      by (apply derive_nullifier_ok; done). congruence.
  - split; [done|]. intros (Hc & Ht & _).
    assert (derive_nullifier_hex c t = Ok (sha256_hex (c +:+ ":" +:+ t))) as E
      by (apply derive_nullifier_ok; done). congruence.
Qed.

Lemma derive_topic_scoped_total c t :
  (∃ q, derive_topic_scoped_pseudonym c t = Ok q) ↔ is_lower_hex_64 c = true ∧ t ≠ "".
Proof. setoid_rewrite derive_topic_scoped_ok. naive_solver. Qed.

Lemma derive_topic_scoped_inj c t p :
  derive_topic_scoped_pseudonym c t = Ok p →
  ∀ c' t', derive_topic_scoped_pseudonym c' t' = Ok p →
    (c' = c ∧ t' = t) ∨ ∃ x y, x ≠ y ∧ sha256 x = sha256 y.
Proof.
  intros (Hc & Ht & ->)%derive_topic_scoped_ok c' t' (Hc' & Ht' & Hp)%derive_topic_scoped_ok.
  apply sha256_hex_collision in Hp as [Hp|]; [|by right].
  apply string_app_inj_length_r in Hp as [-> Hp]; [|apply length_colon_sha256_hex].
  apply string_app_inj_length in Hp as [_ Hp]; [|done].
  apply sha256_hex_collision in Hp as [Hp|]; [|by right].
  apply string_app_inj_length in Hp as [-> _]; [by left|].
  apply is_lower_hex_64_spec in Hc as [-> _], Hc' as [-> _]. done.
Qed.
End derivation.

(** Pseudonym derivation is total on well-formed input and binding: it
    succeeds exactly when the commitment is 64 lower-case hexadecimal digits
    and the topic is not empty, its result is again 64 lower-case
    hexadecimal digits, and two (commitment, topic) pairs with the same
    pseudonym are equal unless they exhibit a SHA-256 collision. *)
Theorem pseudonym_binding `{HX : HexCrate, !HexLaws HX, SH : Sha256, !Sha256Laws SH}
    (c t p : string) :
  ((∃ q, derive_topic_scoped_pseudonym c t = Ok q) ↔ is_lower_hex_64 c = true ∧ t ≠ "") ∧
  (derive_topic_scoped_pseudonym c t = Ok p →
     is_lower_hex_64 p = true ∧
     ∀ c' t', derive_topic_scoped_pseudonym c' t' = Ok p →
       (c' = c ∧ t' = t) ∨ ∃ x y, x ≠ y ∧ sha256 x = sha256 y).
Proof.
  split; [apply derive_topic_scoped_total|].
  intros Hp. split; [|by apply derive_topic_scoped_inj].
  apply derive_topic_scoped_ok in Hp as (_ & _ & ->). apply sha256_hex_lower_64.
Qed.

(** Concrete primitives for the witnesses. *)
Definition toy_sha256 : Sha256 :=
  {| sha256 bs := take 32 (bs ++ replicate 32 x00) |}.
#[export] Instance toy_sha256_laws : Sha256Laws toy_sha256.
Proof.
  split. intros bs. cbn [sha256 toy_sha256].
  rewrite length_take, length_app, length_replicate. lia.
Qed.

Definition zeros_64 : string := Eval vm_compute in ref_hex_encode (replicate 32 x00).

Lemma pseudonym_binding_witness :
  ∃ p, @derive_topic_scoped_pseudonym hex_reference toy_sha256 zeros_64 "annex:server:v1" = Ok p ∧
       is_lower_hex_64 p = true.
Proof.
  eexists. split; [reflexivity|].
  apply (pseudonym_binding (HX := hex_reference) (SH := toy_sha256) zeros_64 "annex:server:v1").
  reflexivity.
Defined.

(** A small concrete field and hash: residues modulo [toy_modulus], and a
    polynomial hash. *)
Definition toy_modulus : Z := 2 ^ 253 + 51.
Definition toy_fr : Type := { z : Z | (0 <=? z) && (z <? toy_modulus) = true }.
Lemma toy_fr_mod z : (0 <=? z mod toy_modulus) && (z mod toy_modulus <? toy_modulus) = true.
Proof. pose proof (Z.mod_pos_bound z toy_modulus ltac:(done)). lia. Qed.
Definition toy_fr_of_Z (z : Z) : toy_fr := exist _ (z mod toy_modulus) (toy_fr_mod z).
Lemma toy_fr_eq (x y : toy_fr) : `x = `y → x = y.
Proof.
  destruct x as [x Hx], y as [y Hy]; simpl; intros ->. f_equal.
  apply Eqdep_dec.UIP_dec, bool_dec.
Qed.
#[export] Instance toy_fr_eq_dec : EqDecision toy_fr.
Proof.
  intros x y. destruct (decide (`x = `y)) as [H|H].
  - left. by apply toy_fr_eq.
  - right. congruence.
Defined.
Definition toy_hash (l : list toy_fr) : toy_fr :=
  toy_fr_of_Z (foldl (λ acc x, 31 * acc + `x + 1) 7 l).

Definition toy_poseidon : Poseidon :=
  {| Fr := toy_fr; Fr_eq_dec := toy_fr_eq_dec; fr_modulus := toy_modulus;
     fr_of_Z := toy_fr_of_Z; fr_to_Z x := `x;
     new_circom n := if decide (n = 0%nat) then Err "InvalidNumberOfInputs" else Ok ();
     poseidon_hash l := Ok (toy_hash l) |}.

#[export] Instance toy_poseidon_laws : PoseidonLaws toy_poseidon.
Proof.
  split.
  - done.
  - intros [x Hx]. cbn. lia.
  - done.
  - intros [x Hx]. apply toy_fr_eq. cbn. apply Z.mod_small. lia.
  - intros n [-> | ->]; done.
  - intros l _. by eexists.
Qed.

(** The round trip through the field detects a reduction modulo the field
    order: it holds exactly for the keys below the modulus. *)
Lemma canonical_key_iff `{PO : Poseidon, !PoseidonLaws PO} bs :
  (length bs ≤ 32)%nat →
  replicate (32 - length bs) x00 ++ bs = fr_bytes (fr_of_bytes bs) ↔ be_val bs < fr_modulus.
Proof.
  intros Hlen. unfold fr_bytes, fr_of_bytes. rewrite fr_to_of.
  pose proof fr_modulus_bound. pose proof (be_val_bound bs).
  set (pad := replicate (32 - length bs) x00 ++ bs).
  assert (length pad = 32%nat) as Hpad
    by (subst pad; rewrite length_app, length_replicate; lia).
  assert (be_val pad = be_val bs) as Hval by apply be_val_pad.
  split.
  - intros He. apply (f_equal be_val) in He. rewrite be_val_be_bytes, Hval in He.
    change (256 ^ Z.of_nat 32) with (2 ^ 256) in He.
    pose proof (Z.mod_pos_bound (be_val bs) fr_modulus fr_modulus_pos) as Hm.
    pose proof fr_modulus_256.
    generalize dependent (be_val bs mod fr_modulus). intros m Hmm Hm.
    rewrite Z.mod_small in Hmm by lia. lia.
  - intros Hlt. rewrite Z.mod_small by lia. rewrite <- Hval, <- Hpad. symmetry.
    apply be_bytes_be_val.
Qed.

(** [generate_commitment] accepts exactly the secret keys that decode to
    between 16 and 32 bytes denoting an integer below the field modulus (so
    that no two accepted integers share a field element), answers every
    other key with [InvalidHex], never panics, and on success returns 64
    lower-case hexadecimal digits. *)
Theorem generate_commitment_domain
    `{HX : HexCrate, !HexLaws HX, PO : Poseidon, !PoseidonLaws PO}
    (sk : string) (role : RoleCode) (node_id : Z) :
  match generate_commitment sk role node_id with
  | Ok c =>
      is_lower_hex_64 c = true ∧
      ∃ bs, hex_decode sk = Some bs ∧ (16 ≤ length bs ≤ 32)%nat ∧ be_val bs < fr_modulus ∧
        ∃ h, hash_inputs [fr_of_bytes bs; fr_of_Z (role_as_u8 role); fr_of_Z node_id] = Ok h ∧
             c = fr_hex h
  | Err e =>
      e = InvalidHex ∧
      ∀ bs, hex_decode sk = Some bs → (16 ≤ length bs ≤ 32)%nat → fr_modulus ≤ be_val bs
  | Panic => False
  end.
Proof.
  unfold generate_commitment, mbind, result_bind, ok_or, reject_if.
  destruct (hex_decode sk) as [bs|]; [|naive_solver].
  destruct ((length bs <? 16)%nat || (32 <? length bs)%nat) eqn:Hl.
  { split; [done|]. intros ? [= ->] ?.
    apply orb_true_iff in Hl as [Hl%Nat.ltb_lt|Hl%Nat.ltb_lt]; lia. }
  apply orb_false_iff in Hl as [H16%Nat.ltb_ge H32%Nat.ltb_ge].
  pose proof (canonical_key_iff bs ltac:(lia)) as Hcan.
  case_bool_decide as Hne; [rewrite Hcan in Hne|].
  { split; [done|]. intros ? [= ->] ?. lia. }
  rewrite Hcan in Hne.
  destruct (hash_inputs_3 (fr_of_bytes bs) (fr_of_Z (role_as_u8 role)) (fr_of_Z node_id))
    as [h Hh]. rewrite Hh.
  split; [apply fr_hex_lower_64|]. exists bs. do 3 (split; [done || lia|]).
  exists h. done.
Qed.

Lemma generate_commitment_domain_witness :
  let HX := hex_reference in let PO := toy_poseidon in
  ∃ c, generate_commitment zeros_64 Human 7 = Ok c ∧ is_lower_hex_64 c = true.
Proof.
  intros HX PO.
  pose proof (generate_commitment_domain (HX := HX) (PO := PO) zeros_64 Human 7) as H.
  destruct (generate_commitment zeros_64 Human 7) as [c|e|] eqn:E.
  - exists c. split; [reflexivity|exact (proj1 H)].
  - exfalso. destruct H as [_ H]. specialize (H (replicate 32 x00) eq_refl ltac:(cbn; lia)).
    apply H. reflexivity.
  - destruct H.
Defined.

(** ** Nullifiers *)

Definition nullifiers_unique (db : table NullifierRow) : Prop :=
  NoDup ((λ r, (nf_topic r, nf_nullifier_hex r)) <$> t_rows db).

Lemma check_nullifier_exists_spec db t n :
  check_nullifier_exists db t n = Ok (t_exists (nullifier_key t n) db).
Proof.
  unfold check_nullifier_exists. f_equal. unfold t_exists.
  destruct (t_select _ _) as [|r l]; symmetry.
  - apply bool_decide_eq_false_2. intros Hne. by apply Hne.
  - by apply bool_decide_eq_true_2.
Qed.

(** A nullifier is accepted at most once per topic: unless the database
    fails, [insert_nullifier] succeeds exactly when the pair is not recorded
    yet, then records it (and nothing else changes), and fails with
    [DuplicateNullifier] leaving the table as it was otherwise; it keeps the
    table free of duplicates. *)
Theorem insert_nullifier_once (fault : faults) k (db : table NullifierRow) (t n : string)
    (p c : option string) :
  nullifiers_unique db →
  let '(r, db') := insert_nullifier fault k t n p c db in
  nullifiers_unique db' ∧
  match fault k, check_nullifier_exists db t n with
  | Some code, _ => r = Err (DatabaseError (SqliteFailure code)) ∧ db' = db
  | None, Ok true => r = Err (DuplicateNullifier t) ∧ db' = db
  | None, _ => r = Ok () ∧ check_nullifier_exists db' t n = Ok true ∧
         ∀ t' n', (t', n') ≠ (t, n) →
           check_nullifier_exists db' t' n' = check_nullifier_exists db t' n'
  end.
Proof.
  intros Hu. rewrite check_nullifier_exists_spec.
  unfold insert_nullifier, catch_map, exec. destruct (fault k) as [code|]; [done|].
  unfold nullifier_insert_stmt. cbn [nf_topic nf_nullifier_hex].
  destruct (t_exists (nullifier_key t n) db) eqn:E; [done|]. cbn [map_err].
  setoid_rewrite check_nullifier_exists_spec.
  pose proof (proj1 (t_exists_false _ _) E) as HN.
  set (row := {| nf_topic := t |}). split; [|split; [done|split]].
  - unfold nullifiers_unique in *. cbn. rewrite fmap_app. apply NoDup_app.
    split; [done|]. split; [|apply NoDup_singleton].
    intros key (r & -> & Hr)%list_elem_of_fmap Hk%list_elem_of_singleton.
    injection Hk as H1 H2. by apply (HN r Hr).
  - f_equal. apply t_exists_spec. exists row. split; [|done].
    apply elem_of_t_insert. by right.
  - intros t' n' Hne. f_equal. apply eq_bool_prop_intro. rewrite !Is_true_true.
    rewrite !t_exists_spec. setoid_rewrite elem_of_t_insert. split.
    + intros (r & [Hr| ->] & [H1 H2]); [by exists r|]. cbn in H1, H2. congruence.
    + intros (r & Hr & Hk). exists r. tauto.
Qed.

Lemma insert_nullifier_once_witness :
  nullifiers_unique t_empty ∧
  (insert_nullifier no_fault 0 "annex:server:v1" zeros_64 None None t_empty).1 = Ok ().
Proof.
  assert (nullifiers_unique t_empty) as Hu by apply NoDup_nil_2.
  split; [exact Hu|].
  exact (proj1 (proj2 (insert_nullifier_once no_fault 0 t_empty "annex:server:v1" zeros_64 None None Hu))).
Defined.
