(* ===== verification/Merkle.v ===== *)
(** * Merkle: crates/annex-identity/src/merkle.rs

    The sparse append-only Poseidon Merkle tree and its persistence in the
    tables vrp_leaves and vrp_roots.  The reference is the full binary tree
    over the leaf sequence padded with zeros ([ref_node]); the inclusion
    check is the one of zk/circuits/membership.circom ([inclusion_root]). *)

From S2P Require Import Prelude Sql Bytes Types Identity.

#[local] Open Scope Z_scope.

(** [usize] on a 64-bit target. *)
Definition usize_max : N := 2 ^ 64 - 1.

Section merkle.
Context `{HX : HexCrate, PO : Poseidon}.

Record MerkleTree := {
  depth : nat;
  next_index : N;
  nodes : gmap (nat * N) Fr;
  zeros : list Fr;
}.

Definition update : Type := (nat * N) * Fr.

(** [MerkleTree::new]: the loop pushes [hash(zeros[i], zeros[i])]. *)
Fixpoint extend_zeros (n i : nat) (zs : list Fr) : result IdentityError (list Fr) :=
  match n with
  | O => Ok zs
  | S n' =>
      zero ← index zs i;
      hash ← hash_inputs [zero; zero];
      extend_zeros n' (S i) (zs ++ [hash])
  end.

Definition new_tree (d : nat) : result IdentityError MerkleTree :=
  zs ← extend_zeros d 0 [fr_zero];
  Ok {| depth := d; next_index := 0; nodes := ∅; zeros := zs |}.

(** [self.nodes.get(&(level, i)).unwrap_or(&self.zeros[level])]. *)
Definition node_or_zero (t : MerkleTree) (level : nat) (i : N) : result IdentityError Fr :=
  zero ← index (zeros t) level;
  Ok (default zero (nodes t !! (level, i))).

(** [1usize.checked_shl(self.depth as u32).unwrap_or(usize::MAX)]. *)
Definition capacity (d : nat) : N :=
  let shift := (N.of_nat d mod 2 ^ 32)%N in
  if (shift <? 64)%N then N.shiftl 1 shift else usize_max.

(** The loop of [preview_insert] from [level] on, [n] levels below the root. *)
Fixpoint preview_levels (t : MerkleTree) (n level : nat) (current_idx : N)
    (current_val : Fr) (updates : list update) : result IdentityError (Fr * list update) :=
  match n with
  | O => Ok (current_val, updates)
  | S n' =>
      let sibling_idx := N.lxor current_idx 1 in
      sibling_val ← node_or_zero t level sibling_idx;
      parent_val ←
        (if (N.land current_idx 1 =? 0)%N
         then hash_inputs [current_val; sibling_val]
         else hash_inputs [sibling_val; current_val]);
      let current_idx := (current_idx / 2)%N in
      preview_levels t n' (S level) current_idx parent_val
        (updates ++ [((S level, current_idx), parent_val)])
  end.

Definition preview_insert (t : MerkleTree) (leaf : Fr) :
    result IdentityError (N * Fr * list update) :=
  _ ← reject_if (capacity (depth t) <=? next_index t)%N TreeFull;
  let idx := next_index t in
  '(root, updates) ← preview_levels t (depth t) 0 idx leaf [((0%nat, idx), leaf)];
  Ok (idx, root, updates).

Definition apply_updates (next : N) (updates : list update) (t : MerkleTree) : MerkleTree :=
  {| depth := depth t; next_index := next;
     nodes := foldl (λ m u, <[u.1 := u.2]> m) (nodes t) updates; zeros := zeros t |}.

Definition insert_leaf (leaf : Fr) : M MerkleTree IdentityError N := λ t,
  match preview_insert t leaf with
  | Ok (idx, _, updates) => (Ok idx, apply_updates (idx + 1) updates t)
  | Err e => (Err e, t)
  | Panic => (Panic, t)
  end.

Definition root (t : MerkleTree) : result IdentityError Fr := node_or_zero t (depth t) 0.
Definition root_hex (t : MerkleTree) : result IdentityError string := fr_hex <$> root t.

(** The loop of [get_proof]. *)
Fixpoint proof_levels (t : MerkleTree) (n level : nat) (current_idx : N)
    (elements : list Fr) (indices : list Z) : result IdentityError (list Fr * list Z) :=
  match n with
  | O => Ok (elements, indices)
  | S n' =>
      sibling_val ← node_or_zero t level (N.lxor current_idx 1);
      proof_levels t n' (S level) (current_idx / 2)%N
        (elements ++ [sibling_val]) (indices ++ [Z.of_N (current_idx mod 2)])
  end.

Definition get_proof (t : MerkleTree) (idx : N) : result IdentityError (list Fr * list Z) :=
  _ ← reject_if (next_index t <=? idx)%N (InvalidIndex idx);
  proof_levels t (depth t) 0 idx [] [].

(** ** Persistence *)

Record LeafRow := { lf_index : N; lf_commitment_hex : string }.
Record RootRow := { rt_root_hex : string; rt_active : bool; rt_created_at : string }.

Record MerkleDb := {
  vrp_leaves : list LeafRow;
  vrp_roots : list RootRow;
}.

(** A statement with [.map_err(IdentityError::DatabaseError)?]. *)
Definition stmt {S A} (fault : faults) (k : nat) (m : M S sql_error A) : M S IdentityError A :=
  catch_map DatabaseError (exec fault k m).

(** [INSERT INTO vrp_leaves]: PRIMARY KEY (leaf_index). *)
Definition insert_leaf_row (idx : N) (leaf_hex : string) : M MerkleDb sql_error unit := λ db,
  if decide (Exists (λ r, lf_index r = idx) (vrp_leaves db))
  then (Err ConstraintPrimaryKey, db)
  else (Ok (), {| vrp_leaves := vrp_leaves db ++ [{| lf_index := idx; lf_commitment_hex := leaf_hex |}];
                  vrp_roots := vrp_roots db |}).

(** [UPDATE vrp_roots SET active = 0 WHERE active = 1]. *)
Definition deactivate_roots : M MerkleDb sql_error unit := λ db,
  (Ok (), {| vrp_leaves := vrp_leaves db;
             vrp_roots := (λ r, {| rt_root_hex := rt_root_hex r; rt_active := false;
                                   rt_created_at := rt_created_at r |}) <$> vrp_roots db |}).

(** [INSERT INTO vrp_roots (root_hex, active) VALUES (?1, 1)]; created_at
    defaults to [datetime('now')]. *)
Definition insert_root_row (now : string) (hex : string) : M MerkleDb sql_error unit := λ db,
  (Ok (), {| vrp_leaves := vrp_leaves db;
             vrp_roots := vrp_roots db ++ [{| rt_root_hex := hex; rt_active := true;
                                              rt_created_at := now |}] |}).

Definition persist_leaf_and_root (fault : faults) (now : string) (idx : N) (leaf rt : Fr) :
    M MerkleDb IdentityError unit :=
  _ ← stmt fault 0 (insert_leaf_row idx (fr_hex leaf));
  _ ← stmt fault 1 deactivate_roots;
  stmt fault 2 (insert_root_row now (fr_hex rt)).

(** [insert_and_persist] on the tree and the database.  Statement 3 is
    [BEGIN], 4 is [COMMIT]. *)
Definition insert_and_persist (fault : faults) (now : string) (leaf : Fr) :
    M (MerkleTree * MerkleDb) IdentityError N := λ '(t, db),
  match preview_insert t leaf with
  | Ok (idx, new_root, updates) =>
      let tx := transaction (
        _ ← stmt fault 3 (mret ());
        _ ← persist_leaf_and_root fault now idx leaf new_root;
        stmt fault 4 (mret ())) in
      match tx db with
      | (Ok _, db') => (Ok idx, (apply_updates (idx + 1) updates t, db'))
      | (Err e, db') => (Err e, (t, db'))
      | (Panic, db') => (Panic, (t, db'))
      end
  | Err e => (Err e, (t, db))
  | Panic => (Panic, (t, db))
  end.

(** [SELECT commitment_hex FROM vrp_leaves ORDER BY leaf_index ASC]. *)
Definition leaves_in_order (db : MerkleDb) : list string :=
  lf_commitment_hex <$> order_by N.le lf_index (vrp_leaves db).

(** [SELECT root_hex ... WHERE active = 1 ORDER BY created_at DESC LIMIT 1]. *)
Definition active_root (db : MerkleDb) : option string :=
  rt_root_hex <$> head (order_by (flip String.le) rt_created_at
                          (filter (λ r, rt_active r = true) (vrp_roots db))).

Fixpoint restore_leaves (hexes : list string) (t : MerkleTree) : result IdentityError MerkleTree :=
  match hexes with
  | [] => Ok t
  | hex :: hexes =>
      bytes ← ok_or (hex_decode hex) InvalidHex;
      match insert_leaf (fr_of_bytes bytes) t with
      | (Ok _, t') => restore_leaves hexes t'
      | (Err e, _) => Err e
      | (Panic, _) => Panic
      end
  end.

(** The query of the leaves, then that of the root. *)
Definition restore (fault : faults) (db : MerkleDb) (d : nat) : result IdentityError MerkleTree :=
  t ← new_tree d;
  hexes ← map_err DatabaseError (read fault 0 (leaves_in_order db));
  t ← restore_leaves hexes t;
  stored ← map_err DatabaseError (read fault 1 (active_root db));
  match stored with
  | Some stored_hex =>
      current_root_hex ← root_hex t;
      _ ← reject_if (bool_decide (current_root_hex ≠ stored_hex))
            (MerkleRootMismatch stored_hex current_root_hex);
      Ok t
  | None => Ok t
  end.

(** ** Reference *)

(** The padded leaf sequence. *)
Definition leaf_of (ls : list Fr) (i : N) : Fr := default fr_zero (ls !! N.to_nat i).

(** Node [i] of [level] of the full binary tree. *)
Fixpoint ref_node (leaf : N → Fr) (level : nat) (i : N) : Fr :=
  match level with
  | O => leaf i
  | S l => hash2 (ref_node leaf l (2 * i)) (ref_node leaf l (2 * i + 1))
  end.

Definition merkle_root (d : nat) (ls : list Fr) : Fr := ref_node (leaf_of ls) d 0.

(** MerkleTreeInclusionProof of membership.circom, with boolean path bits. *)
Fixpoint inclusion_root (current : Fr) (path : list (Fr * Z)) : Fr :=
  match path with
  | [] => current
  | (element, bit) :: path =>
      let left := if bit =? 1 then element else current in
      let right := if bit =? 1 then current else element in
      inclusion_root (hash2 left right) path
  end.

(** Num2Bits: the little-endian bits the circuit requires the path to have. *)
Definition num2bits (d : nat) (i : N) : list Z :=
  (λ l, Z.b2z (N.testbit i (N.of_nat l))) <$> seq 0 d.

End merkle.

(** * Theorems *)

Lemma sibling_cases (i : N) :
  ((N.land i 1 = 0 ∧ i mod 2 = 0 ∧ i = 2 * (i / 2) ∧ N.lxor i 1 = 2 * (i / 2) + 1) ∨
   (N.land i 1 = 1 ∧ i mod 2 = 1 ∧ i = 2 * (i / 2) + 1 ∧ N.lxor i 1 = 2 * (i / 2)))%N.
Proof.
  rewrite <- N.div2_div. pose proof (N.land_ones i 1) as E. change (N.ones 1) with 1%N in E.
  change (2 ^ 1)%N with 2%N in E. rewrite <- E.
  clear E. destruct i as [|[p|p|]]; [left|right|left|right]; done.
Qed.

Lemma shiftr_half (k : N) (l : nat) :
  (N.shiftr k (N.of_nat l) / 2 = N.shiftr k (N.of_nat (S l)))%N.
Proof. rewrite Nat2N.inj_succ, N.shiftr_succ_r, <- N.div2_div. done. Qed.

Section merkle_theorems.
Context `{HX : HexCrate, !HexLaws HX, PO : Poseidon, !PoseidonLaws PO}.
Implicit Types (t : MerkleTree) (ls : list Fr).

Fixpoint zero_hash (level : nat) : Fr :=
  match level with O => fr_zero | S l => hash2 (zero_hash l) (zero_hash l) end.

Definition node (t : MerkleTree) (level : nat) (i : N) : Fr :=
  default (zero_hash level) (nodes t !! (level, i)).

(** A tree represents a leaf sequence when every node it answers for is the
    node of the padded full tree. *)
Record represents (t : MerkleTree) (ls : list Fr) : Prop := {
  rep_next : next_index t = N.of_nat (length ls);
  rep_fits : (N.of_nat (length ls) ≤ capacity (depth t))%N;
  rep_zeros : ∀ l, (l ≤ depth t)%nat → zeros t !! l = Some (zero_hash l);
  rep_nodes : ∀ l i, (l ≤ depth t)%nat → node t l i = ref_node (leaf_of ls) l i;
}.

Lemma capacity_pow d : (capacity d ≤ 2 ^ N.of_nat d)%N.
Proof.
  unfold capacity. set (s := (N.of_nat d mod 2 ^ 32)%N).
  assert (s ≤ N.of_nat d)%N by (apply N.Div0.mod_le).
  destruct (N.ltb_spec s 64).
  - rewrite N.shiftl_1_l. by apply N.pow_le_mono_r.
  - transitivity (2 ^ 64)%N; [done|]. apply N.pow_le_mono_r; lia.
Qed.

Lemma node_or_zero_ok t ls l i :
  represents t ls → (l ≤ depth t)%nat →
  node_or_zero t l i = Ok (ref_node (leaf_of ls) l i).
Proof.
  intros HR Hl. unfold node_or_zero, index. rewrite (rep_zeros _ _ HR l Hl). cbn.
  by rewrite <- (rep_nodes _ _ HR l i Hl).
Qed.

(** A subtree whose leaves did not change did not change. *)
Lemma ref_node_other (f g : N → Fr) (k : N) l i :
  (∀ j, j ≠ k → f j = g j) → i ≠ N.shiftr k (N.of_nat l) → ref_node f l i = ref_node g l i.
Proof.
  intros Hfg. revert i. induction l as [|l IH]; intros i Hi; cbn.
  - apply Hfg. by rewrite N.shiftr_0_r in Hi.
  - rewrite <- shiftr_half in Hi.
    rewrite !IH; [done|..]; intros E; apply Hi; rewrite <- E.
    + by rewrite N.add_comm, N.mul_comm, N.div_add.
    + by rewrite N.mul_comm, N.div_mul.
Qed.

Lemma leaf_of_snoc_other ls v j :
  j ≠ N.of_nat (length ls) → leaf_of ls j = leaf_of (ls ++ [v]) j.
Proof.
  intros Hj. unfold leaf_of.
  destruct (decide (N.to_nat j < length ls)%nat).
  - by rewrite lookup_app_l.
  - rewrite !lookup_ge_None_2; [done| |lia]. rewrite length_app. cbn. lia.
Qed.

Lemma leaf_of_snoc ls v : leaf_of (ls ++ [v]) (N.of_nat (length ls)) = v.
Proof. unfold leaf_of. rewrite Nat2N.id, lookup_app_r, Nat.sub_diag by done. done. Qed.

(** The nodes on the path of leaf [k] in the tree over [ls']. *)
Definition path_updates (ls' : list Fr) (k : N) (levels : list nat) : list update :=
  (λ l, ((l, N.shiftr k (N.of_nat l)),
         ref_node (leaf_of ls') l (N.shiftr k (N.of_nat l)))) <$> levels.

Lemma preview_levels_ok t ls v n l c upd :
  represents t ls → (l + n = depth t)%nat →
  c = N.shiftr (N.of_nat (length ls)) (N.of_nat l) →
  preview_levels t n l c (ref_node (leaf_of (ls ++ [v])) l c) upd =
  Ok (ref_node (leaf_of (ls ++ [v])) (depth t)
        (N.shiftr (N.of_nat (length ls)) (N.of_nat (depth t))),
      upd ++ path_updates (ls ++ [v]) (N.of_nat (length ls)) (seq (S l) n)).
Proof.
  intros HR. revert l c upd. induction n as [|n IH]; intros l c upd Hn Hc; cbn [preview_levels].
  { rewrite Nat.add_0_r in Hn. subst. by rewrite app_nil_r. }
  assert (N.lxor c 1 ≠ c) as Hsib by (pose proof (sibling_cases c); lia).
  rewrite (node_or_zero_ok t ls) by (done || lia). cbn [mbind result_bind].
  rewrite (ref_node_other (leaf_of ls) (leaf_of (ls ++ [v])) (N.of_nat (length ls)))
    by (subst c; done || apply leaf_of_snoc_other).
  set (parent := ref_node (leaf_of (ls ++ [v])) (S l) (c / 2)).
  assert ((if (N.land c 1 =? 0)%N
           then hash_inputs [ref_node (leaf_of (ls ++ [v])) l c;
                             ref_node (leaf_of (ls ++ [v])) l (N.lxor c 1)]
           else hash_inputs [ref_node (leaf_of (ls ++ [v])) l (N.lxor c 1);
                             ref_node (leaf_of (ls ++ [v])) l c]) = Ok parent) as ->.
  { destruct (sibling_cases c) as [(-> & _ & Hc2 & ->)|(-> & _ & Hc2 & ->)];
      cbn [N.eqb]; rewrite hash_inputs_2; subst parent; cbn [ref_node]; by rewrite <- Hc2. }
  cbn [mbind result_bind]. subst parent. rewrite IH by (lia || (subst c; apply shiftr_half)).
  do 2 f_equal. rewrite <- app_assoc. do 2 f_equal. cbn. subst c. by rewrite shiftr_half.
Qed.

Lemma preview_insert_ok t ls v :
  represents t ls → (N.of_nat (length ls) < capacity (depth t))%N →
  preview_insert t v =
  Ok (N.of_nat (length ls), merkle_root (depth t) (ls ++ [v]),
      path_updates (ls ++ [v]) (N.of_nat (length ls)) (seq 0 (S (depth t)))).
Proof.
  intros HR Hcap. unfold preview_insert, reject_if. rewrite (rep_next _ _ HR).
  rewrite (proj2 (N.leb_gt _ _) Hcap). cbn [mbind result_bind].
  pose proof (preview_levels_ok t ls v (depth t) 0 (N.of_nat (length ls))
    [((0%nat, N.of_nat (length ls)), v)] HR eq_refl) as HP.
  cbn [ref_node] in HP. rewrite leaf_of_snoc in HP. rewrite HP by (by rewrite N.shiftr_0_r).
  cbn [mbind result_bind]. unfold merkle_root.
  replace (N.shiftr (N.of_nat (length ls)) (N.of_nat (depth t))) with 0%N.
  - do 2 f_equal. cbn. rewrite N.shiftr_0_r, leaf_of_snoc. done.
  - symmetry. rewrite N.shiftr_div_pow2. apply N.div_small.
    eapply N.lt_le_trans; [done|apply capacity_pow].
Qed.

Lemma preview_insert_full t ls v :
  represents t ls → (capacity (depth t) ≤ N.of_nat (length ls))%N → preview_insert t v = Err TreeFull.
Proof.
  intros HR Hcap. unfold preview_insert, reject_if. rewrite (rep_next _ _ HR).
  by rewrite (proj2 (N.leb_le _ _) Hcap).
Qed.

Lemma lookup_path_updates (m : gmap (nat * N) Fr) ls' k n l i :
  foldl (λ m (u : update), <[u.1 := u.2]> m) m (path_updates ls' k (seq 0 n)) !! (l, i) =
  if decide ((l < n)%nat ∧ i = N.shiftr k (N.of_nat l))
  then Some (ref_node (leaf_of ls') l i) else m !! (l, i).
Proof.
  induction n as [|n IH].
  - cbn. rewrite decide_False by lia. done.
  - rewrite seq_S. unfold path_updates. rewrite fmap_app, foldl_app. cbn [foldl fmap list_fmap fst snd].
    fold (path_updates ls' k (seq 0 n)). cbn [Nat.add].
    destruct (decide ((l, i) = (n, N.shiftr k (N.of_nat n)))) as [[= -> ->]|Hne].
    + rewrite lookup_insert_eq, decide_True by (split; [lia|done]). done.
    + rewrite lookup_insert_ne by congruence. rewrite IH.
      apply decide_ext. split; intros [? ->]; (split; [|done]); [lia|].
      destruct (decide (l = n)) as [->|]; [done|lia].
Qed.

Lemma represents_apply t ls v :
  represents t ls → (N.of_nat (length ls) < capacity (depth t))%N →
  represents (apply_updates (N.of_nat (length ls) + 1)
    (path_updates (ls ++ [v]) (N.of_nat (length ls)) (seq 0 (S (depth t)))) t) (ls ++ [v]).
Proof.
  intros HR Hcap. split; cbn [next_index depth zeros apply_updates].
  - rewrite length_app. cbn. lia.
  - rewrite length_app. cbn [length]. lia.
  - apply HR.
  - intros l i Hl. unfold node. cbn [nodes apply_updates]. rewrite lookup_path_updates.
    case_decide as Hd; [done|]. fold (node t l i). rewrite (rep_nodes _ _ HR l i Hl).
    apply ref_node_other with (k := N.of_nat (length ls)); [apply leaf_of_snoc_other|].
    intros ->. apply Hd. split; [lia|done].
Qed.

(** ** The empty tree *)

Lemma extend_zeros_ok n i zs :
  length zs = S i → (∀ l, (l ≤ i)%nat → zs !! l = Some (zero_hash l)) →
  ∃ zs', extend_zeros n i zs = Ok zs' ∧ length zs' = S (i + n) ∧
    ∀ l, (l ≤ i + n)%nat → zs' !! l = Some (zero_hash l).
Proof.
  revert i zs. induction n as [|n IH]; intros i zs Hlen Hz.
  - exists zs. rewrite Nat.add_0_r. done.
  - cbn [extend_zeros]. unfold index. rewrite Hz by lia. cbn [mbind result_bind].
    rewrite hash_inputs_2. cbn [mbind result_bind].
    destruct (IH (S i) (zs ++ [hash2 (zero_hash i) (zero_hash i)])) as (zs' & -> & Hl & Hz').
    + rewrite length_app. cbn. lia.
    + intros l Hl. destruct (decide (l = S i)) as [->|].
      * rewrite lookup_app_r, Hlen, Nat.sub_diag by lia. done.
      * rewrite lookup_app_l by lia. apply Hz. lia.
    + exists zs'. split; [done|]. split; [lia|]. intros l ?. apply Hz'. lia.
Qed.

Lemma ref_node_empty l i : ref_node (leaf_of []) l i = zero_hash l.
Proof. revert i. induction l as [|l IH]; intros i; cbn; [done|]. by rewrite !IH. Qed.

Lemma new_tree_ok d : ∃ t, new_tree d = Ok t ∧ depth t = d ∧ represents t [].
Proof.
  unfold new_tree.
  destruct (extend_zeros_ok d 0 [fr_zero]) as (zs & -> & _ & Hz); [done| |].
  { intros l Hl. replace l with 0%nat by lia. done. }
  eexists. split; [done|]. split; [done|]. split; cbn; [done|apply N.le_0_l|exact Hz|].
  intros l i _. unfold node. cbn. rewrite lookup_empty. cbn. by rewrite ref_node_empty.
Qed.

Lemma root_ok t ls : represents t ls → root t = Ok (merkle_root (depth t) ls).
Proof. intros HR. unfold root. by rewrite (node_or_zero_ok t ls) by done. Qed.

(** ** Inclusion proofs *)

Definition path_of (f : N → Fr) (i : N) (levels : list nat) : list Fr :=
  (λ l, ref_node f l (N.lxor (N.shiftr i (N.of_nat l)) 1)) <$> levels.
Definition bits_of (i : N) (levels : list nat) : list Z :=
  (λ l, Z.of_N (N.shiftr i (N.of_nat l) mod 2)) <$> levels.

Lemma bits_of_num2bits i d : bits_of i (seq 0 d) = num2bits d i.
Proof.
  unfold bits_of, num2bits. apply list_fmap_ext. intros _ l _.
  rewrite <- N.bit0_mod, N.shiftr_spec', N.add_0_l. by destruct (N.testbit _ _).
Qed.

Lemma proof_levels_ok t ls i n l c els ids :
  represents t ls → (l + n = depth t)%nat → c = N.shiftr i (N.of_nat l) →
  proof_levels t n l c els ids =
  Ok (els ++ path_of (leaf_of ls) i (seq l n), ids ++ bits_of i (seq l n)).
Proof.
  intros HR. revert l c els ids. induction n as [|n IH]; intros l c els ids Hn Hc; cbn [proof_levels].
  { by rewrite !app_nil_r. }
  rewrite (node_or_zero_ok t ls) by (done || lia). cbn [mbind result_bind].
  rewrite IH by (lia || (subst c; apply shiftr_half)).
  subst c. by rewrite <- !app_assoc.
Qed.

Lemma inclusion_root_path f i l n :
  inclusion_root (ref_node f l (N.shiftr i (N.of_nat l)))
    (zip (path_of f i (seq l n)) (bits_of i (seq l n))) =
  ref_node f (l + n) (N.shiftr i (N.of_nat (l + n))).
Proof.
  revert l. induction n as [|n IH]; intros l; cbn [seq path_of bits_of fmap list_fmap zip inclusion_root].
  { by rewrite Nat.add_0_r. }
  rewrite <- Nat.add_succ_comm, <- IH.
  unfold path_of, bits_of. cbn. f_equal. rewrite <- shiftr_half.
  set (c := N.shiftr i (N.of_nat l)).
  destruct (sibling_cases c) as [(_ & -> & Hc & ->)|(_ & -> & Hc & ->)]; cbn;
    by rewrite <- Hc.
Qed.

(** Two distinct pairs with the same hash. *)
Definition hash2_collision : Prop :=
  ∃ a b c d : Fr, (a, b) ≠ (c, d) ∧ hash2 a b = hash2 c d.

Lemma inclusion_root_binds f i l n x els :
  length els = n →
  inclusion_root x (zip els (bits_of i (seq l n))) =
    ref_node f (l + n) (N.shiftr i (N.of_nat (l + n))) →
  x = ref_node f l (N.shiftr i (N.of_nat l)) ∨ hash2_collision.
Proof.
  revert l x els. induction n as [|n IH]; intros l x els Hlen.
  { destruct els; [|done]. cbn. rewrite Nat.add_0_r. by left. }
  destruct els as [|e els]; [done|]. rewrite <- Nat.add_succ_comm.
  unfold bits_of. cbn [seq fmap list_fmap zip zip_with inclusion_root]. fold (bits_of i (seq (S l) n)).
  intros [Hh|]%IH; [|by right|by injection Hlen].
  rewrite <- shiftr_half in Hh. cbn [ref_node] in Hh.
  set (c := N.shiftr i (N.of_nat l)) in *.
  match type of Hh with hash2 ?a ?b = hash2 ?u ?v =>
    destruct (decide ((a, b) = (u, v))) as [[= Ha Hb]|Hne]; [left|right; by exists a, b, u, v]
  end.
  destruct (sibling_cases c) as [(_ & Hm & Hc & _)|(_ & Hm & Hc & _)]; rewrite Hm in Ha, Hb;
    cbn in Ha, Hb; by rewrite Hc.
Qed.

(** ** Persistence *)

Lemma stmt_ok {S A} (fault : faults) k (m : M S sql_error A) s a s' :
  stmt fault k m s = (Ok a, s') ↔ fault k = None ∧ m s = (Ok a, s').
Proof.
  unfold stmt, exec, catch_map. destruct (fault k); cbn; [naive_solver|].
  destruct (m s) as [[b|e|] s1]; cbn; naive_solver.
Qed.

Lemma stmt_no_panic {S A} (fault : faults) k (m : M S sql_error A) s s' :
  stmt fault k m s = (Panic, s') → m s = (Panic, s').
Proof.
  unfold stmt, exec, catch_map. destruct (fault k); cbn; [naive_solver|].
  destruct (m s) as [[b|e|] s1]; cbn; naive_solver.
Qed.

Definition leaf_row (i : nat) (x : Fr) : LeafRow :=
  {| lf_index := N.of_nat i; lf_commitment_hex := fr_hex x |}.

(** The tables hold the leaf sequence of the tree and its current root. *)
Record db_matches (d : nat) (db : MerkleDb) (ls : list Fr) : Prop := {
  dbm_leaves : vrp_leaves db = imap leaf_row ls;
  dbm_root : rt_root_hex <$> filter (λ r, rt_active r = true) (vrp_roots db) =
             match ls with [] => [] | _ => [fr_hex (merkle_root d ls)] end;
}.

Lemma leaf_rows_fresh ls :
  ¬ Exists (λ r, lf_index r = N.of_nat (length ls)) (imap leaf_row ls).
Proof.
  rewrite Exists_exists. intros (r & Hr & Hi).
  apply list_elem_of_lookup in Hr as [i Hr].
  rewrite list_lookup_imap in Hr. destruct (ls !! i) as [x|] eqn:E; [|done].
  cbn in Hr. injection Hr as <-. cbn in Hi. apply lookup_lt_Some in E. lia.
Qed.

Lemma filter_deactivated (rows : list RootRow) :
  filter (λ r, rt_active r = true)
    ((λ r, {| rt_root_hex := rt_root_hex r; rt_active := false;
              rt_created_at := rt_created_at r |}) <$> rows) = [].
Proof. induction rows as [|r rows IH]; [done|]. csimpl. by rewrite filter_cons_False. Qed.

(** The three statements of [persist_leaf_and_root], without a fault. *)
Lemma persist_ok fault now d db ls v :
  db_matches d db ls → (∀ k, (k < 3)%nat → fault k = None) →
  ∃ db', persist_leaf_and_root fault now (N.of_nat (length ls)) v
           (merkle_root d (ls ++ [v])) db = (Ok (), db') ∧ db_matches d db' (ls ++ [v]).
Proof.
  intros [Hl Hr] Hf. unfold persist_leaf_and_root, stmt, exec.
  rewrite !Hf by lia. unfold mbind, M_bind, catch_map, insert_leaf_row.
  rewrite Hl, decide_False by apply leaf_rows_fresh. cbn.
  eexists. split; [done|]. split; cbn.
  - rewrite imap_app. cbn. unfold leaf_row. cbn. rewrite Nat.add_0_r. done.
  - rewrite filter_app, filter_deactivated. cbn. by destruct ls.
Qed.

(** The same under any failures. *)
Lemma persist_spec fault now d db ls v :
  db_matches d db ls →
  match persist_leaf_and_root fault now (N.of_nat (length ls)) v
          (merkle_root d (ls ++ [v])) db with
  | (Ok _, db') => db_matches d db' (ls ++ [v])
  | (Err e, _) => ∃ s, e = DatabaseError s ∧ faulted fault 3 s
  | (Panic, _) => False
  end.
Proof.
  intros HD. pose proof (persist_ok fault now d db ls v HD) as Hok. destruct HD as [Hl _].
  destruct (fault 0%nat) as [c|] eqn:E0; [|destruct (fault 1%nat) as [c|] eqn:E1;
    [|destruct (fault 2%nat) as [c|] eqn:E2]].
  4: { destruct Hok as (db' & -> & HD'); [intros [|[|[|k]]] ?; done || lia|done]. }
  all: unfold persist_leaf_and_root, stmt, exec, mbind, M_bind, catch_map.
  all: rewrite ?E0, ?E1, ?E2; unfold insert_leaf_row; rewrite ?Hl, ?decide_False by apply leaf_rows_fresh.
  all: cbn; eexists; split; [done|]; eapply faulted_intro; [eassumption|lia].
Qed.

(** Whatever the statements do, a failed call leaves both untouched. *)
Lemma insert_and_persist_err fault now v t db e s' :
  insert_and_persist fault now v (t, db) = (Err e, s') → s' = (t, db).
Proof.
  unfold insert_and_persist. destruct (preview_insert t v) as [[[idx rt] upd]|e'|]; [|naive_solver..].
  set (tx := transaction _). destruct (tx db) as [[a|e'|] db'] eqn:E; [naive_solver| |naive_solver].
  apply transaction_atomic in E; [|done]. naive_solver.
Qed.

Lemma persist_no_panic fault now idx v rt db s' :
  persist_leaf_and_root fault now idx v rt db ≠ (Panic, s').
Proof.
  unfold persist_leaf_and_root, mbind, M_bind, stmt, exec, catch_map.
  destruct (fault 0%nat), (fault 1%nat), (fault 2%nat); cbn; try done;
    unfold insert_leaf_row; case_decide; done.
Qed.

Lemma insert_and_persist_ok fault now v t db ls :
  represents t ls → db_matches (depth t) db ls →
  (N.of_nat (length ls) < capacity (depth t))%N → (∀ k, (k < 5)%nat → fault k = None) →
  ∃ t' db', insert_and_persist fault now v (t, db) = (Ok (N.of_nat (length ls)), (t', db')) ∧
    represents t' (ls ++ [v]) ∧ depth t' = depth t ∧ db_matches (depth t) db' (ls ++ [v]).
Proof.
  intros HR HD Hc Hf. unfold insert_and_persist. rewrite (preview_insert_ok t ls) by done.
  destruct (persist_ok fault now (depth t) db ls v HD) as (db' & HP & HD').
  { intros. apply Hf. lia. }
  unfold transaction, mbind, M_bind. unfold stmt at 1. rewrite exec_ok by auto with lia. cbn [catch_map mret M_ret map_err].
  rewrite HP. unfold stmt. rewrite exec_ok by auto with lia. cbn [catch_map mret M_ret map_err].
  eexists _, db'. split; [done|]. split; [by apply represents_apply|]. done.
Qed.

(** With a fault at some statement, the first one executed is the error. *)
Lemma insert_and_persist_faulty fault now v t db ls :
  represents t ls → db_matches (depth t) db ls → (N.of_nat (length ls) < capacity (depth t))%N →
  ¬ Forall (λ k, fault k = None) (seq 0 5) →
  ∃ s, insert_and_persist fault now v (t, db) = (Err (DatabaseError s), (t, db)) ∧
    faulted fault 5 s.
Proof.
  intros HR [Hl _] Hc Hf. unfold insert_and_persist. rewrite (preview_insert_ok t ls) by done.
  unfold persist_leaf_and_root, transaction, stmt, exec, mbind, M_bind, catch_map.
  destruct (fault 3%nat) as [e|] eqn:E3; [eexists; split; [done|]; by apply (faulted_intro _ 3); [|lia]|].
  destruct (fault 0%nat) as [e|] eqn:E0; [eexists; split; [done|]; by apply (faulted_intro _ 0); [|lia]|].
  cbn [mret M_ret map_err]. unfold insert_leaf_row at 1. rewrite Hl.
  rewrite decide_False by apply leaf_rows_fresh.
  destruct (fault 1%nat) as [e|] eqn:E1; [eexists; split; [done|]; by apply (faulted_intro _ 1); [|lia]|].
  destruct (fault 2%nat) as [e|] eqn:E2; [eexists; split; [done|]; by apply (faulted_intro _ 2); [|lia]|].
  destruct (fault 4%nat) as [e|] eqn:E4; [eexists; split; [done|]; by apply (faulted_intro _ 4); [|lia]|].
  exfalso. apply Hf. repeat constructor; done.
Qed.

Lemma insert_leaf_ok t ls v :
  represents t ls → (N.of_nat (length ls) < capacity (depth t))%N →
  ∃ t', insert_leaf v t = (Ok (N.of_nat (length ls)), t') ∧
    represents t' (ls ++ [v]) ∧ depth t' = depth t.
Proof.
  intros HR Hc. unfold insert_leaf. rewrite (preview_insert_ok t ls) by done.
  eexists. split; [done|]. split; [by apply represents_apply|done].
Qed.

Lemma restore_leaves_ok t ls ls' :
  represents t ls → (N.of_nat (length (ls ++ ls')) ≤ capacity (depth t))%N →
  ∃ t', restore_leaves (fr_hex <$> ls') t = Ok t' ∧ represents t' (ls ++ ls') ∧ depth t' = depth t.
Proof.
  revert t ls. induction ls' as [|v ls' IH]; intros t ls HR Hcap.
  { exists t. by rewrite app_nil_r. }
  cbn [fmap list_fmap restore_leaves]. rewrite hex_decode_fr_hex.
  cbn [ok_or mbind result_bind]. rewrite fr_of_bytes_fr_bytes.
  rewrite length_app in Hcap. cbn in Hcap.
  destruct (insert_leaf_ok t ls v HR) as (t' & -> & HR' & Hd); [lia|].
  destruct (IH t' (ls ++ [v]) HR') as (t'' & -> & HR'' & Hd').
  - rewrite Hd, !length_app. cbn. lia.
  - exists t''. rewrite <- app_assoc in HR''. split; [done|]. split; [done|congruence].
Qed.

Lemma leaf_rows_lookup ls i r :
  imap leaf_row ls !! i = Some r → lf_index r = N.of_nat i.
Proof.
  rewrite list_lookup_imap. destruct (ls !! i); [|done]. by intros [= <-].
Qed.

Lemma leaves_sorted d db ls :
  db_matches d db ls → order_by N.le lf_index (vrp_leaves db) = imap leaf_row ls.
Proof.
  intros [Hl _]. rewrite Hl, (order_by_id N.le); [done|..].
  - apply StronglySorted_by_lookup. intros i j x y Hij Hx%leaf_rows_lookup Hy%leaf_rows_lookup.
    unfold key_le. lia.
  - intros x y [i Hx]%list_elem_of_lookup [j Hy]%list_elem_of_lookup Hxy.
    pose proof (leaf_rows_lookup _ _ _ Hx). pose proof (leaf_rows_lookup _ _ _ Hy).
    assert (i = j) as -> by lia. congruence.
Qed.

Lemma leaves_in_order_ok d db ls : db_matches d db ls → leaves_in_order db = fr_hex <$> ls.
Proof.
  intros HD. unfold leaves_in_order. rewrite (leaves_sorted _ _ _ HD), fmap_imap.
  clear HD. induction ls as [|x ls IH] using rev_ind; [done|].
  by rewrite imap_app, fmap_app, IH.
Qed.

Lemma active_root_ok d db ls :
  db_matches d db ls →
  active_root db = match ls with [] => None | _ => Some (fr_hex (merkle_root d ls)) end.
Proof.
  intros [_ Hr]. unfold active_root. revert Hr. generalize (filter (λ r, rt_active r = true) (vrp_roots db)).
  intros rows Hr. destruct ls as [|x ls]; destruct rows as [|r [|r' rows]]; try done.
  cbn in Hr. injection Hr as Hr. cbn. by rewrite Hr.
Qed.

Lemma restore_ok d db ls t0 :
  new_tree d = Ok t0 → db_matches d db ls → (N.of_nat (length ls) ≤ capacity d)%N →
  ∃ t, restore no_fault db d = Ok t ∧ represents t ls ∧ depth t = d.
Proof.
  intros Hn HD Hcap. destruct (new_tree_ok d) as (t1 & Hn' & Hd & HR).
  rewrite Hn in Hn'. injection Hn' as <-.
  unfold restore, read, no_fault. rewrite Hn. cbn [mbind result_bind map_err]. rewrite (leaves_in_order_ok d db ls HD).
  destruct (restore_leaves_ok t0 [] ls HR ltac:(by rewrite Hd)) as (t & -> & HRt & Hdt). cbn [mbind result_bind map_err].
  rewrite (active_root_ok _ _ _ HD). rewrite Hd in Hdt.
  destruct ls as [|x ls]; [by exists t|].
  unfold root_hex. rewrite (root_ok t _ HRt), Hdt. cbn.
  rewrite bool_decide_eq_false_2 by (intros Hne; by apply Hne). cbn. by exists t.
Qed.

(** ** The properties *)

(** C5. Inserting into a tree that represents a leaf sequence yields a tree
    that represents the sequence extended by the leaf, at the next index,
    with the Merkle root of the padded full tree; a full tree answers
    [TreeFull] and is unchanged; no case panics. *)
Theorem insert_refines_reference t ls v :
  represents t ls →
  root t = Ok (merkle_root (depth t) ls) ∧
  match insert_leaf v t with
  | (Ok idx, t') =>
      idx = N.of_nat (length ls) ∧ represents t' (ls ++ [v]) ∧ depth t' = depth t ∧
      root t' = Ok (merkle_root (depth t) (ls ++ [v]))
  | (Err e, t') => e = TreeFull ∧ t' = t ∧ capacity (depth t) = N.of_nat (length ls)
  | (Panic, _) => False
  end.
Proof.
  intros HR. split; [by apply root_ok|].
  destruct (decide (N.of_nat (length ls) < capacity (depth t))%N) as [Hc|Hc].
  - destruct (insert_leaf_ok t ls v HR Hc) as (t' & -> & HR' & Hd).
    split; [done|]. split; [done|]. split; [done|]. rewrite <- Hd. by apply root_ok.
  - unfold insert_leaf. rewrite (preview_insert_full t ls) by (done || lia).
    pose proof (rep_fits _ _ HR). repeat split; lia.
Qed.

(** The path of an inserted leaf, and the root it leads to. *)
Lemma get_proof_path t ls i :
  represents t ls → (N.to_nat i < length ls)%nat →
  ∃ elements, get_proof t i = Ok (elements, num2bits (depth t) i) ∧
    length elements = depth t ∧
    Ok (inclusion_root (leaf_of ls i) (zip elements (num2bits (depth t) i))) = root t.
Proof.
  intros HR Hi. unfold get_proof, reject_if. rewrite (rep_next _ _ HR).
  rewrite (proj2 (N.leb_gt _ _)) by lia. cbn [mbind result_bind].
  rewrite (proof_levels_ok t ls i) by (done || by rewrite N.shiftr_0_r).
  rewrite bits_of_num2bits. cbn [app]. eexists. split; [done|]. split.
  { unfold path_of. by rewrite length_fmap, length_seq. }
  rewrite (root_ok t ls HR), <- bits_of_num2bits. f_equal.
  replace (leaf_of ls i) with (ref_node (leaf_of ls) 0 (N.shiftr i (N.of_nat 0)))
    by (cbn; by rewrite N.shiftr_0_r).
  rewrite inclusion_root_path. unfold merkle_root. cbn. f_equal.
  rewrite N.shiftr_div_pow2. apply N.div_small. pose proof (capacity_pow (depth t)).
  pose proof (rep_fits _ _ HR). lia.
Qed.

(** C23. [get_proof] returns, for every inserted leaf, one sibling per level
    and the index bits the membership circuit requires, and the circuit's
    path computation recomputes the root of the tree from the leaf; an index
    that was not inserted is answered with [InvalidIndex]. *)
Theorem get_proof_verifies t ls i :
  represents t ls →
  match ls !! N.to_nat i with
  | Some leaf =>
      ∃ elements, get_proof t i = Ok (elements, num2bits (depth t) i) ∧
        length elements = depth t ∧
        Ok (inclusion_root leaf (zip elements (num2bits (depth t) i))) = root t
  | None => get_proof t i = Err (InvalidIndex i)
  end.
Proof.
  intros HR. destruct (ls !! N.to_nat i) as [leaf|] eqn:E.
  - replace leaf with (leaf_of ls i) by (unfold leaf_of; by rewrite E).
    apply get_proof_path; [done|]. by eapply lookup_lt_Some.
  - apply lookup_ge_None in E. unfold get_proof, reject_if. rewrite (rep_next _ _ HR).
    by rewrite (proj2 (N.leb_le _ _)) by lia.
Qed.

(** The root binds the leaves: a path with the bits of an index below
    [2 ^ depth] that leads from some value to the root of the tree leads
    from the leaf stored at that index (the padding, past the last one),
    unless it exhibits a collision of the two-input hash. *)
Theorem inclusion_proof_sound t ls i x elements :
  represents t ls → (i < 2 ^ N.of_nat (depth t))%N → length elements = depth t →
  Ok (inclusion_root x (zip elements (num2bits (depth t) i))) = root t →
  x = leaf_of ls i ∨ hash2_collision.
Proof.
  intros HR Hi Hlen. rewrite (root_ok t ls HR), <- bits_of_num2bits. intros [= Hx].
  replace (leaf_of ls i) with (ref_node (leaf_of ls) 0 (N.shiftr i (N.of_nat 0)))
    by (cbn; by rewrite N.shiftr_0_r).
  apply (inclusion_root_binds _ _ _ (depth t) _ elements); [done|]. rewrite Hx.
  cbn. unfold merkle_root. f_equal. symmetry.
  rewrite N.shiftr_div_pow2. by apply N.div_small.
Qed.

(** Persisting an insertion keeps the in-memory tree and the database in
    step: without a failure both represent the extended leaf sequence; if
    the tree is full or the environment fails any statement of the
    transaction, including its BEGIN and COMMIT, both are exactly as before
    and an error is returned. *)
Theorem insert_and_persist_in_step fault now v t db ls :
  represents t ls → db_matches (depth t) db ls →
  match insert_and_persist fault now v (t, db) with
  | (Ok idx, (t', db')) =>
      idx = N.of_nat (length ls) ∧ represents t' (ls ++ [v]) ∧ depth t' = depth t ∧
      db_matches (depth t) db' (ls ++ [v])
  | (Err e, s') =>
      s' = (t, db) ∧
      (e = TreeFull ∧ capacity (depth t) = N.of_nat (length ls) ∨
       ∃ s, e = DatabaseError s ∧ faulted fault 5 s)
  | (Panic, _) => False
  end.
Proof.
  intros HR HD. destruct (decide (N.of_nat (length ls) < capacity (depth t))%N) as [Hc|Hc].
  2: { unfold insert_and_persist. rewrite (preview_insert_full t ls) by (done || lia).
       pose proof (rep_fits _ _ HR). split; [done|left]. split; [done|lia]. }
  destruct (decide (Forall (λ k, fault k = None) (seq 0 5))) as [Hf|Hf].
  - destruct (insert_and_persist_ok fault now v t db ls HR HD Hc) as (t' & db' & -> & ?); [|done].
    intros k Hk. rewrite Forall_forall in Hf. apply Hf, elem_of_seq. lia.
  - pose proof (insert_and_persist_faulty fault now v t db ls HR HD Hc Hf) as (e & Hr & He).
    rewrite Hr. split; [done|]. right. by exists e.
Qed.

Lemma restore_leaves_total d db ls t0 :
  new_tree d = Ok t0 → db_matches d db ls → (N.of_nat (length ls) ≤ capacity d)%N →
  ∃ t1 t2, new_tree d = Ok t1 ∧ restore_leaves (leaves_in_order db) t1 = Ok t2.
Proof.
  intros Hn HD Hcap. destruct (new_tree_ok d) as (t1 & Hn' & Hd & HR). exists t1.
  rewrite (leaves_in_order_ok d db ls HD).
  destruct (restore_leaves_ok t1 [] ls HR ltac:(by rewrite Hd)) as (t2 & -> & _). by exists t2.
Qed.
(** A restore that succeeds does so again, as does one without faults. *)
Lemma restore_again fault fault' db d t :
  restore fault db d = Ok t → (∀ k, fault' k = None) → restore fault' db d = Ok t.
Proof.
  unfold restore, read. intros H Hf. rewrite !Hf. destruct (new_tree d) as [t1| |]; cbn [mbind result_bind map_err] in *; [|done..].
  destruct (fault 0%nat); cbn [mbind result_bind map_err] in *; [done|].
  destruct (restore_leaves _ t1) as [t2| |]; cbn [mbind result_bind map_err] in *; [|done..].
  by destruct (fault 1%nat).
Qed.
Lemma restore_faults fault db d :
  (∃ t1 t2, new_tree d = Ok t1 ∧ restore_leaves (leaves_in_order db) t1 = Ok t2) →
  restore fault db d = restore no_fault db d ∨ ∃ e, faulted fault 2 e ∧ restore fault db d = Err (DatabaseError e).
Proof.
  intros (t1 & t2 & H1 & H2). unfold restore, read, no_fault. rewrite H1. cbn [mbind result_bind map_err].
  destruct (fault 0%nat) as [c|] eqn:E0; cbn [mbind result_bind map_err].
  { right. exists (SqliteFailure c). split; [exists 0%nat, c; split; [lia|done]|done]. }
  rewrite H2. cbn [mbind result_bind map_err]. destruct (fault 1%nat) as [c|] eqn:E1; [|by left]. right.
  exists (SqliteFailure c). split; [exists 1%nat, c; split; [lia|done]|done].
Qed.

End merkle_theorems.

(** ** Witnesses: a tree of depth 2 over the concrete field and hash. *)

Section witnesses.
#[local] Existing Instances hex_reference toy_poseidon.

Definition toy_leaf : Fr := toy_fr_of_Z 5.
Definition toy_db : MerkleDb := {| vrp_leaves := []; vrp_roots := [] |}.

Lemma toy_db_matches d : db_matches (PO := toy_poseidon) d toy_db [].
Proof. done. Qed.

Lemma toy_tree (d : nat) (xs : list Fr) :
  (N.of_nat (length xs) ≤ capacity d)%N →
  ∃ t, represents t xs ∧ depth t = d.
Proof.
  intros Hc. destruct (new_tree_ok d) as (t0 & _ & Hd & HR).
  destruct (restore_leaves_ok t0 [] xs HR ltac:(by rewrite Hd)) as (t & _ & ? & ?).
  exists t. split; [done|congruence].
Qed.

Lemma insert_refines_reference_witness :
  ∃ t t', represents t [] ∧ insert_leaf toy_leaf t = (Ok 0%N, t') ∧
          root t' = Ok (merkle_root 2 [toy_leaf]).
Proof.
  destruct (toy_tree 2 [] ltac:(done)) as (t & HR & Hd). exists t.
  pose proof (insert_refines_reference t [] toy_leaf HR) as [_ H]. rewrite Hd in H.
  destruct (insert_leaf toy_leaf t) as [[i|e|] t'].
  - destruct H as (-> & _ & _ & Hr). exists t'. split; [exact HR|]. split; [done|]. exact Hr.
  - destruct H as (_ & _ & H). discriminate H.
  - destruct H.
Defined.

Lemma get_proof_verifies_witness :
  ∃ t elements, represents t [toy_leaf; toy_leaf; toy_leaf] ∧ get_proof t 2 = Ok (elements, [0; 1]) ∧
    Ok (inclusion_root toy_leaf (zip elements [0; 1])) = root t.
Proof.
  destruct (toy_tree 2 [toy_leaf; toy_leaf; toy_leaf] ltac:(done)) as (t & HR & Hd). exists t.
  pose proof (get_proof_verifies t _ 2 HR) as H. rewrite Hd in H.
  destruct H as (els & Hp & _ & Hr). exists els. split; [exact HR|]. split; [exact Hp|exact Hr].
Defined.

Lemma inclusion_proof_sound_witness :
  ∃ t elements, represents t [toy_leaf; toy_leaf; toy_leaf] ∧
    Ok (inclusion_root toy_leaf (zip elements (num2bits (depth t) 2))) = root t ∧
    (toy_leaf = leaf_of [toy_leaf; toy_leaf; toy_leaf] 2 ∨ hash2_collision).
Proof.
  destruct get_proof_verifies_witness as (t & els & HR & Hp & Hr).
  destruct (toy_tree 2 [toy_leaf; toy_leaf; toy_leaf] ltac:(done)) as (t' & HR' & Hd').
  destruct (get_proof_path t' _ 2 HR' ltac:(cbn; lia)) as (els' & _ & Hl' & Hr').
  exists t', els'. split; [exact HR'|]. split; [exact Hr'|].
  apply (inclusion_proof_sound t' _ 2 toy_leaf els' HR'); [by rewrite Hd'|exact Hl'|exact Hr'].
Defined.

Lemma insert_and_persist_in_step_witness :
  ∃ t db', represents t [] ∧ db_matches (depth t) toy_db [] ∧
    (insert_and_persist no_fault "2026-01-01 00:00:00" toy_leaf (t, toy_db)).1 = Ok 0%N ∧
    (insert_and_persist no_fault "2026-01-01 00:00:00" toy_leaf (t, toy_db)).2.2 = db' ∧
    db_matches 2 db' [toy_leaf].
Proof.
  destruct (toy_tree 2 [] ltac:(done)) as (t & HR & Hd). exists t.
  pose proof (insert_and_persist_in_step no_fault "2026-01-01 00:00:00" toy_leaf t toy_db [] HR
                (toy_db_matches (depth t))) as H.
  rewrite Hd in *.
  destruct (insert_and_persist_ok no_fault "2026-01-01 00:00:00" toy_leaf t toy_db [] HR
              (toy_db_matches _) ltac:(by rewrite Hd) ltac:(done)) as (t' & db' & E & _).
  rewrite E in *. destruct H as (_ & _ & _ & HD). exists db'.
  split; [exact HR|]. split; [exact (toy_db_matches 2)|]. split; [reflexivity|]. split; [reflexivity|exact HD].
Defined.

End witnesses.
