(* ===== verification/Registry.v ===== *)
(** * Registry: crates/annex-identity/src/registry.rs

    Registration of a commitment: the row of vrp_identities and the Merkle
    insertion in one transaction, then the in-memory tree; lookup of the
    inclusion path of a registered commitment; the topic and role lists. *)

From S2P Require Import Prelude Sql Bytes Types Identity Merkle.

#[local] Open Scope Z_scope.

Record VrpTopic := { vt_topic : string; vt_description : string }.
Record VrpRoleEntry := { vr_role_code : Z; vr_label : string }.

Record RegistrationResult := {
  identity_id : Z;
  leaf_index : N;
  rr_root_hex : string;
  path_elements : list string;
  path_indices : list Z;
}.

(** A row of vrp_identities: [commitment_hex] is the primary key, the rowid
    is one more than the largest one in use (rows are never deleted). *)
Record IdentityRow := {
  id_rowid : Z;
  id_commitment_hex : string;
  id_role_code : Z;
  id_node_id : Z;
}.

(** A row of vrp_topics. *)
Record TopicRow := { tp_topic : string; tp_description : string; tp_created_at : string }.

Record RegDb := {
  rg_merkle : MerkleDb;
  vrp_identities : table IdentityRow;
  vrp_topics : list TopicRow;
  vrp_roles : list VrpRoleEntry;
}.

Definition set_merkle (m : MerkleDb) (db : RegDb) : RegDb :=
  {| rg_merkle := m; vrp_identities := vrp_identities db;
     vrp_topics := vrp_topics db; vrp_roles := vrp_roles db |}.
Definition set_identities (t : table IdentityRow) (db : RegDb) : RegDb :=
  {| rg_merkle := rg_merkle db; vrp_identities := t;
     vrp_topics := vrp_topics db; vrp_roles := vrp_roles db |}.

Definition has_commitment (c : string) (r : IdentityRow) : Prop := id_commitment_hex r = c.
#[export] Instance has_commitment_dec c r : Decision (has_commitment c r).
Proof. unfold has_commitment. apply _. Defined.

(** [INSERT INTO vrp_identities ...] and [last_insert_rowid]: PRIMARY KEY
    (commitment_hex), FOREIGN KEY (role_code). *)
Definition insert_identity_row (c : string) (role node_id : Z) : M RegDb sql_error Z := λ db,
  if t_exists (has_commitment c) (vrp_identities db) then (Err ConstraintPrimaryKey, db)
  else if bool_decide (Exists (λ r, vr_role_code r = role) (vrp_roles db)) then
    let '(id, t) := t_insert (λ id, {| id_rowid := id; id_commitment_hex := c;
                                       id_role_code := role; id_node_id := node_id |})
                      (vrp_identities db) in
    (Ok id, set_identities t db)
  else (Err ConstraintForeignKey, db).

Section registry.
Context `{HX : HexCrate, PO : Poseidon}.

Definition hex_list (l : list Fr) : list string := fr_hex <$> l.

Definition already_registered (c : string) : string :=
  "commitment '" +:+ c +:+ "' already registered".

(** The [match] on the INSERT of vrp_identities. *)
Definition register_identity_error (c : string) (e : sql_error) : IdentityError :=
  if is_constraint_violation e then DuplicateCommitment (already_registered c)
  else DatabaseError e.

(** The transaction of [register_identity]: statement 0 is the INSERT of the
    identity, 1 to 3 those of [persist_leaf_and_root], 4 is BEGIN, 5 COMMIT. *)
Definition register_tx (fault : faults) (now c : string) (role : RoleCode) (node_id : Z)
    (idx : N) (leaf new_root : Fr) : M RegDb IdentityError Z :=
  transaction (
    _ ← stmt fault 4 (mret ());
    identity_id ← catch_map (register_identity_error c)
                    (exec fault 0 (insert_identity_row c (role_as_u8 role) node_id));
    _ ← zoom rg_merkle set_merkle
          (persist_leaf_and_root (λ k, fault (S k)) now idx leaf new_root);
    _ ← stmt fault 5 (mret ());
    mret identity_id).

Definition register_identity (fault : faults) (now commitment_hex : string) (role : RoleCode)
    (node_id : Z) : M (MerkleTree * RegDb) IdentityError RegistrationResult :=
  _ ← lift (reject_if (negb (bool_decide (String.length commitment_hex = 64%nat)
                             && string_all is_ascii_hexdigit commitment_hex))
              InvalidCommitmentFormat);
  let commitment_hex := to_ascii_lowercase commitment_hex in
  leaf_bytes ← lift (ok_or (hex_decode commitment_hex) InvalidHex);
  let leaf := fr_of_bytes leaf_bytes in
  '(t, _) ← get;
  '(idx, new_root, updates) ← lift (preview_insert t leaf);
  identity_id ← zoom snd (λ db '(t, _), (t, db))
                  (register_tx fault now commitment_hex role node_id idx leaf new_root);
  '(t, db) ← get;
  _ ← put (apply_updates (idx + 1) updates t, db);
  '(t, _) ← get;
  '(path_elements_fr, path_indices) ← lift (get_proof t idx);
  mret {| identity_id := identity_id; leaf_index := idx; rr_root_hex := fr_hex new_root;
          path_elements := hex_list path_elements_fr; path_indices := path_indices |}.

(** The row a query by [commitment_hex] on vrp_leaves returns: the first in
    rowid (leaf_index) order. *)
Definition leaf_row_of (db : RegDb) (c : string) : option LeafRow :=
  head (filter (λ r, lf_commitment_hex r = c)
          (order_by N.le lf_index (vrp_leaves (rg_merkle db)))).

Definition get_path_for_commitment (fault : faults) (t : MerkleTree) (db : RegDb) (c : string) :
    result IdentityError (N * string * list string * list Z) :=
  row ← map_err DatabaseError (read fault 0 (leaf_row_of db c));
  row ← ok_or row (CommitmentNotFound c);
  '(path_elements_fr, path_indices) ← get_proof t (lf_index row);
  r ← root_hex t;
  Ok (lf_index row, r, hex_list path_elements_fr, path_indices).

End registry.

Definition get_all_topics (db : RegDb) : list VrpTopic :=
  (λ r, {| vt_topic := tp_topic r; vt_description := tp_description r |})
    <$> order_by String.le tp_created_at (vrp_topics db).

Definition get_all_roles (db : RegDb) : list VrpRoleEntry :=
  order_by Z.le vr_role_code (vrp_roles db).

(** The rows migration 003 seeds. *)
Definition seeded_roles : list VrpRoleEntry :=
  (λ r, {| vr_role_code := role_as_u8 r; vr_label := role_label r |})
    <$> [Human; AiAgent; Collective; Bridge; Service].

(** * Theorems *)

Section registry_theorems.
Context `{HX : HexCrate, !HexLaws HX, PO : Poseidon, !PoseidonLaws PO}.
Implicit Types (t : MerkleTree) (ls : list Fr) (db : RegDb).

(** The tree and the tables agree on the leaf sequence, and the role table
    is the seeded one. *)
Record registered (t : MerkleTree) (db : RegDb) (ls : list Fr) : Prop := {
  reg_tree : represents t ls;
  reg_db : db_matches (depth t) (rg_merkle db) ls;
  reg_roles : vrp_roles db = seeded_roles;
}.

Definition identity_row (c : string) (role : RoleCode) (node_id id : Z) : IdentityRow :=
  {| id_rowid := id; id_commitment_hex := c; id_role_code := role_as_u8 role;
     id_node_id := node_id |}.

Lemma role_seeded role : Exists (λ r, vr_role_code r = role_as_u8 role) seeded_roles.
Proof. destruct role; repeat (apply Exists_cons; (left; done) || right). Qed.

Lemma register_tx_spec fault now c role node_id d db ls v :
  db_matches d (rg_merkle db) ls → vrp_roles db = seeded_roles →
  match register_tx fault now c role node_id (N.of_nat (length ls)) v
          (merkle_root d (ls ++ [v])) db with
  | (Ok id, db') =>
      t_exists (has_commitment c) (vrp_identities db) = false ∧
      (id, vrp_identities db') = t_insert (identity_row c role node_id) (vrp_identities db) ∧
      db_matches d (rg_merkle db') (ls ++ [v]) ∧ vrp_roles db' = seeded_roles
  | (Err e, db') =>
      db' = db ∧
      (e = DuplicateCommitment (already_registered c) ∧
         t_exists (has_commitment c) (vrp_identities db) = true ∨
       ∃ s, e = DatabaseError s ∧ faulted fault 6 s)
  | (Panic, _) => False
  end.
Proof.
  intros HD Hroles. unfold register_tx, transaction, stmt, exec, mbind, M_bind, catch_map.
  destruct (fault 4%nat) as [code|] eqn:E4; cbn [mret M_ret throw map_err].
  { split; [done|]. right. eexists. split; [done|]. by apply (faulted_intro _ 4); [|lia]. }
  destruct (fault 0%nat) as [code|] eqn:E0; cbn [mret M_ret throw map_err].
  { split; [done|]. right. eexists. split; [done|]. by apply (faulted_intro _ 0); [|lia]. }
  unfold insert_identity_row.
  destruct (t_exists (has_commitment c) (vrp_identities db)) eqn:Hex; [by split; [|left]|].
  rewrite Hroles, bool_decide_eq_true_2 by apply role_seeded.
  cbn [t_insert map_err]. unfold zoom. cbn [rg_merkle set_identities].
  pose proof (persist_spec (λ k, fault (S k)) now d _ ls v HD) as HP.
  destruct (persist_leaf_and_root _ _ _ _ _ _) as [[[]|e|] m']; [|..|done].
  - destruct (fault 5%nat) as [code|] eqn:E5; cbn [mret M_ret throw map_err]; [|done].
    split; [done|]. right. eexists. split; [done|]. by apply (faulted_intro _ 5); [|lia].
  - split; [done|]. right. destruct HP as (s & -> & Hs). exists s. split; [done|].
    apply (faulted_le _ 4); [lia|]. by apply (faulted_shift _ 1 3).
Qed.

Definition commitment_format (c : string) : Prop :=
  String.length c = 64%nat ∧ string_all is_ascii_hexdigit c = true.

Lemma commitment_decodes c :
  commitment_format c →
  ∃ bs, hex_decode (to_ascii_lowercase c) = Some bs ∧ length bs = 32%nat.
Proof.
  intros [Hl Hh].
  assert (String.length (to_ascii_lowercase c) = 64%nat) as Hl' by (by rewrite <- Hl; apply string_length_map).
  destruct (hex_decode_total (to_ascii_lowercase c)) as [bs Hbs].
  { by rewrite Hl'. }
  { eapply string_all_impl; [apply lower_hexdigit_hexdigit|]. by apply to_ascii_lowercase_hex. }
  exists bs. split; [done|]. apply hex_decode_length in Hbs. lia.
Qed.

Definition leaf_of_commitment (c : string) : Fr :=
  match hex_decode (to_ascii_lowercase c) with Some bs => fr_of_bytes bs | None => fr_zero end.

Lemma register_identity_cases fault now c role node_id t db ls :
  registered t db ls →
  match register_identity fault now c role node_id (t, db) with
  | (Ok res, (t', db')) =>
      commitment_format c ∧
      registered t' db' (ls ++ [leaf_of_commitment c]) ∧ depth t' = depth t ∧
      t_exists (has_commitment (to_ascii_lowercase c)) (vrp_identities db) = false ∧
      (identity_id res, vrp_identities db') =
        t_insert (identity_row (to_ascii_lowercase c) role node_id) (vrp_identities db) ∧
      leaf_index res = N.of_nat (length ls) ∧
      Ok (rr_root_hex res) = root_hex t' ∧
      path_indices res = num2bits (depth t) (leaf_index res) ∧
      ∃ elements, path_elements res = hex_list elements ∧
        Ok (inclusion_root (leaf_of_commitment c) (zip elements (path_indices res))) = root t'
  | (Err e, s') =>
      s' = (t, db) ∧
      (e = InvalidCommitmentFormat ∧ ¬ commitment_format c ∨
       e = TreeFull ∧ capacity (depth t) = N.of_nat (length ls) ∨
       e = DuplicateCommitment (already_registered (to_ascii_lowercase c)) ∧
         t_exists (has_commitment (to_ascii_lowercase c)) (vrp_identities db) = true ∨
       ∃ s, e = DatabaseError s ∧ faulted fault 6 s)
  | (Panic, _) => False
  end.
Proof.
  intros [HR HD Hroles]. unfold register_identity. run_M.
  destruct (bool_decide (String.length c = 64%nat) && string_all is_ascii_hexdigit c) eqn:Hf; cbn [negb].
  2: { split; [done|]. left. split; [done|]. unfold commitment_format. intros [Hl Hh].
       by rewrite bool_decide_eq_true_2, Hh in Hf. }
  assert (commitment_format c) as Hc.
  { apply andb_true_iff in Hf as [Hl Hh]. by apply bool_decide_eq_true in Hl. }
  destruct (commitment_decodes c Hc) as (bs & Hbs & Hlen).
  assert (leaf_of_commitment c = fr_of_bytes bs) as Hleaf by (unfold leaf_of_commitment; by rewrite Hbs).
  rewrite Hbs, Hleaf. run_M. set (v := fr_of_bytes bs) in *.
  destruct (decide (N.of_nat (length ls) < capacity (depth t))%N) as [Hcap|Hcap].
  2: { rewrite (preview_insert_full t ls) by (done || lia). split; [done|]. right; left.
       pose proof (rep_fits _ _ HR). split; [done|lia]. }
  rewrite (preview_insert_ok t ls v HR Hcap). run_M.
  pose proof (register_tx_spec fault now (to_ascii_lowercase c) role node_id (depth t) db ls v HD Hroles) as HT.
  destruct (register_tx _ _ _ _ _ _ _ _ _) as [[id|e|] db']; [|naive_solver|done].
  destruct HT as (Hnew & Hrow & HD' & Hr').
  run_M. pose proof (represents_apply t ls v HR Hcap) as HR'.
  set (t' := apply_updates _ _ t) in *.
  destruct (get_proof_path t' (ls ++ [v]) (N.of_nat (length ls)) HR') as (els & Hp & _ & Hpath).
  { rewrite Nat2N.id, length_app. cbn. lia. }
  rewrite Hp. cbn [mret M_ret identity_id leaf_index rr_root_hex path_elements path_indices].
  rewrite leaf_of_snoc in Hpath.
  split; [done|]. split; [by split|]. do 4 (split; [done|]). unfold root_hex. rewrite (root_ok t' _ HR'). split; [done|].
  split; [done|]. exists els. split; [done|]. by rewrite <- (root_ok t' _ HR').
Qed.

(** Without a failure and with room, a fresh well-formed commitment is
    registered. *)
Lemma register_identity_ok now c role node_id t db ls :
  registered t db ls → commitment_format c → (N.of_nat (length ls) < capacity (depth t))%N →
  t_exists (has_commitment (to_ascii_lowercase c)) (vrp_identities db) = false →
  ∃ res t' db', register_identity no_fault now c role node_id (t, db) = (Ok res, (t', db')) ∧
    registered t' db' (ls ++ [leaf_of_commitment c]) ∧ depth t' = depth t ∧
    t_rows (vrp_identities db') = t_rows (vrp_identities db) ++
      [identity_row (to_ascii_lowercase c) role node_id (identity_id res)].
Proof.
  intros HR Hc Hcap Hnew.
  pose proof (register_identity_cases no_fault now c role node_id t db ls HR) as H.
  destruct (register_identity _ _ _ _ _ _) as [[res|e|] [t' db']]; [|exfalso|done].
  - exists res, t', db'. destruct H as (_ & HR' & Hd & _ & [= Hid ->] & _). split; [done|].
    split; [done|]. split; [done|]. cbn. by rewrite Hid.
  - destruct H as (_ & [[_ ?]|[[_ ?]|[[_ ?]|(s & _ & []%faulted_none)]]]); [done|lia|congruence].
Qed.

Lemma leaf_row_of_registered t db ls c :
  registered t db ls →
  leaf_row_of db c = head (filter (λ r, lf_commitment_hex r = c) (imap leaf_row ls)).
Proof. intros HR. unfold leaf_row_of. by rewrite (leaves_sorted _ _ _ (reg_db _ _ _ HR)). Qed.

Lemma leaf_row_of_spec t db ls c :
  registered t db ls →
  match leaf_row_of db c with
  | Some r => ∃ i x, r = leaf_row i x ∧ ls !! i = Some x ∧ c = fr_hex x
  | None => ∀ x, x ∈ ls → c ≠ fr_hex x
  end.
Proof.
  intros HR. rewrite (leaf_row_of_registered _ _ _ _ HR).
  destruct (filter _ _) as [|r rows] eqn:E; cbn.
  - intros x [i Hi]%list_elem_of_lookup ->.
    assert (leaf_row i x ∈ filter (λ r, lf_commitment_hex r = fr_hex x) (imap leaf_row ls)) as Hin.
    { apply list_elem_of_filter. split; [done|]. apply list_elem_of_lookup. exists i.
      by rewrite list_lookup_imap, Hi. }
    rewrite E in Hin. by apply not_elem_of_nil in Hin.
  - assert (r ∈ filter (λ r, lf_commitment_hex r = c) (imap leaf_row ls)) as [Hc Hin]%list_elem_of_filter
      by (rewrite E; by left).
    apply list_elem_of_lookup in Hin as [i Hi]. rewrite list_lookup_imap in Hi.
    destruct (ls !! i) as [x|] eqn:Hx; [|done]. injection Hi as <-. by exists i, x.
Qed.

(** C6. Registration is all or nothing.  On success the commitment (in lower
    case) was not registered, gets one row of vrp_identities and the next
    leaf, tree and tables again agree, and the returned root and path are
    those of the new tree: the path leads from the leaf to the root.  On any
    error neither the tree nor a table changed, and the error says why:
    wrong format, full tree, already registered, or a failed statement. *)
Theorem register_identity_spec fault now c role node_id t db ls :
  registered t db ls →
  match register_identity fault now c role node_id (t, db) with
  | (Ok res, (t', db')) =>
      commitment_format c ∧
      registered t' db' (ls ++ [leaf_of_commitment c]) ∧ depth t' = depth t ∧
      t_exists (has_commitment (to_ascii_lowercase c)) (vrp_identities db) = false ∧
      (identity_id res, vrp_identities db') =
        t_insert (identity_row (to_ascii_lowercase c) role node_id) (vrp_identities db) ∧
      leaf_index res = N.of_nat (length ls) ∧
      Ok (rr_root_hex res) = root_hex t' ∧
      path_indices res = num2bits (depth t) (leaf_index res) ∧
      ∃ elements, path_elements res = hex_list elements ∧
        Ok (inclusion_root (leaf_of_commitment c) (zip elements (path_indices res))) = root t'
  | (Err e, s') =>
      s' = (t, db) ∧
      (e = InvalidCommitmentFormat ∧ ¬ commitment_format c ∨
       e = TreeFull ∧ capacity (depth t) = N.of_nat (length ls) ∨
       e = DuplicateCommitment (already_registered (to_ascii_lowercase c)) ∧
         t_exists (has_commitment (to_ascii_lowercase c)) (vrp_identities db) = true ∨
       ∃ s, e = DatabaseError s ∧ faulted fault 6 s)
  | (Panic, _) => False
  end.
Proof. apply register_identity_cases. Qed.

(** [get_path_for_commitment] answers from the tree: it succeeds exactly
    for the texts of inserted leaves, with the index, the current root and a
    path from that leaf to it, and answers [CommitmentNotFound] for every
    other text.  In particular the text of an integer that is not below the
    field order is never found, registered or not. *)
Theorem get_path_for_commitment_spec fault t db ls c :
  registered t db ls → fault 0%nat = None →
  match get_path_for_commitment fault t db c with
  | Ok (idx, r, els, bits) =>
      ∃ x elements, ls !! N.to_nat idx = Some x ∧ c = fr_hex x ∧
        Ok r = root_hex t ∧ els = hex_list elements ∧ bits = num2bits (depth t) idx ∧
        Ok (inclusion_root x (zip elements bits)) = root t
  | Err e => e = CommitmentNotFound c ∧ ∀ x, x ∈ ls → c ≠ fr_hex x
  | Panic => False
  end ∧
  (∀ bs, hex_decode c = Some bs → fr_modulus ≤ be_val bs →
     get_path_for_commitment fault t db c = Err (CommitmentNotFound c)).
Proof.
  intros HR Hf. unfold get_path_for_commitment, read. rewrite Hf. run_M.
  pose proof (leaf_row_of_spec t db ls c HR) as Hrow.
  destruct (leaf_row_of db c) as [r|]; run_M; [|by split].
  destruct Hrow as (i & x & -> & Hx & ->). cbn [lf_index leaf_row]. split.
  - pose proof (lookup_lt_Some _ _ _ Hx).
    destruct (get_proof_path t ls (N.of_nat i) (reg_tree _ _ _ HR)) as (els & -> & _ & Hp); [lia|].
    unfold root_hex. rewrite (root_ok t ls (reg_tree _ _ _ HR)) in *. cbn.
    exists x, els. rewrite Nat2N.id. unfold leaf_of in Hp. rewrite Nat2N.id, Hx in Hp. done.
  - intros bs. rewrite hex_decode_fr_hex. intros [= <-]. unfold fr_bytes.
    rewrite be_val_be_bytes. pose proof (fr_to_Z_bound x). pose proof fr_modulus_256.
    rewrite Z.mod_small by (change (256 ^ Z.of_nat 32) with (2 ^ 256); lia). lia.
Qed.

Lemma lower_commitment_format c :
  is_lower_hex_64 c = true → commitment_format c ∧ to_ascii_lowercase c = c.
Proof.
  intros [Hl Hh]%is_lower_hex_64_spec. split; [|by apply to_ascii_lowercase_fixed].
  split; [done|]. eapply string_all_impl; [apply lower_hexdigit_hexdigit|done].
Qed.

(** Registration identifies a participant by the text of the commitment
    and the tree by its value modulo the field order: two commitments that
    differ as texts and denote the same field element are both registered,
    on one leaf value, and have different pseudonyms on every topic. *)
Theorem aliased_commitments_register `{SH : Sha256, !Sha256Laws SH}
    now c1 c2 role1 role2 node1 node2 t db ls :
  registered t db ls → (N.of_nat (length ls) + 1 < capacity (depth t))%N →
  is_lower_hex_64 c1 = true → is_lower_hex_64 c2 = true → c1 ≠ c2 →
  leaf_of_commitment c1 = leaf_of_commitment c2 →
  t_exists (has_commitment c1) (vrp_identities db) = false →
  t_exists (has_commitment c2) (vrp_identities db) = false →
  ∃ res1 s1 res2 t2 db2,
    register_identity no_fault now c1 role1 node1 (t, db) = (Ok res1, s1) ∧
    register_identity no_fault now c2 role2 node2 s1 = (Ok res2, (t2, db2)) ∧
    registered t2 db2 (ls ++ [leaf_of_commitment c1; leaf_of_commitment c1]) ∧
    ∀ topic, topic ≠ "" →
      ∃ p1 p2, derive_topic_scoped_pseudonym c1 topic = Ok p1 ∧
        derive_topic_scoped_pseudonym c2 topic = Ok p2 ∧
        (p1 ≠ p2 ∨ ∃ x y, x ≠ y ∧ sha256 x = sha256 y).
Proof.
  intros HR Hcap H1 H2 Hne Hleaf Hn1 Hn2.
  pose proof (lower_commitment_format c1 H1) as [Hf1 E1].
  pose proof (lower_commitment_format c2 H2) as [Hf2 E2].
  destruct (register_identity_ok now c1 role1 node1 t db ls HR Hf1 ltac:(lia)) as
    (res1 & t1 & db1 & Hr1 & HR1 & Hd1 & Hrows); [by rewrite E1|].
  destruct (register_identity_ok now c2 role2 node2 t1 db1 _ HR1 Hf2) as
    (res2 & t2 & db2 & Hr2 & HR2 & _ & _).
  { rewrite length_app, Hd1. cbn. lia. }
  { rewrite E2. apply t_exists_false. intros r. rewrite Hrows, E1. intros [Hr|Hr]%elem_of_app.
    - by apply (proj1 (t_exists_false _ _) Hn2).
    - apply list_elem_of_singleton in Hr as ->. by unfold has_commitment. }
  exists res1, (t1, db1), res2, t2, db2. rewrite <- app_assoc, Hleaf in HR2. cbn in HR2.
  rewrite Hleaf. split; [done|]. split; [done|]. split; [done|].
  intros topic Ht.
  destruct (proj2 (derive_topic_scoped_total c1 topic) (conj H1 Ht)) as [p1 Hp1].
  destruct (proj2 (derive_topic_scoped_total c2 topic) (conj H2 Ht)) as [p2 Hp2].
  exists p1, p2. split; [done|]. split; [done|].
  destruct (decide (p1 = p2)) as [<-|]; [|by left].
  destruct (derive_topic_scoped_inj _ _ _ Hp1 _ _ Hp2) as [[-> _]|]; [done|by right].
Qed.
End registry_theorems.

(** ** Witnesses *)

Section witnesses.
#[local] Existing Instances hex_reference toy_poseidon toy_sha256.

Definition toy_reg_db : RegDb :=
  {| rg_merkle := toy_db; vrp_identities := t_empty; vrp_topics := []; vrp_roles := seeded_roles |}.

Lemma toy_registered : ∃ t, registered t toy_reg_db [] ∧ depth t = 2%nat.
Proof.
  destruct (toy_tree 2 [] ltac:(done)) as (t & HR & Hd). exists t.
  split; [|done]. split; [done|apply toy_db_matches|done].
Qed.

Definition toy_commitment : string := Eval vm_compute in ref_hex_encode (be_bytes 32 1).
Definition toy_alias : string := Eval vm_compute in ref_hex_encode (be_bytes 32 (1 + toy_modulus)).

Lemma toy_commitments_alias : leaf_of_commitment toy_commitment = leaf_of_commitment toy_alias.
Proof. apply toy_fr_eq. vm_compute. reflexivity. Qed.

Lemma register_identity_spec_witness :
  ∃ t t' db', registered t toy_reg_db [] ∧
    (register_identity no_fault "2026-01-01 00:00:00" toy_commitment Human 7 (t, toy_reg_db)).2
      = (t', db') ∧
    registered t' db' [leaf_of_commitment toy_commitment].
Proof.
  destruct toy_registered as (t & HR & Hd). exists t.
  pose proof (register_identity_spec no_fault "2026-01-01 00:00:00" toy_commitment Human 7 t
                toy_reg_db [] HR) as H.
  destruct (register_identity_ok "2026-01-01 00:00:00" toy_commitment Human 7 t toy_reg_db [] HR
              ltac:(split; reflexivity) ltac:(rewrite Hd; reflexivity) ltac:(reflexivity))
    as (res & t' & db' & E & _).
  rewrite E in *. exists t', db'. split; [exact HR|]. split; [reflexivity|].
  exact (proj1 (proj2 H)).
Defined.

Lemma get_path_for_commitment_spec_witness :
  ∃ t, registered t toy_reg_db [] ∧
    get_path_for_commitment no_fault t toy_reg_db toy_alias = Err (CommitmentNotFound toy_alias).
Proof.
  destruct toy_registered as (t & HR & Hd). exists t. split; [exact HR|].
  apply (proj2 (get_path_for_commitment_spec no_fault t toy_reg_db [] toy_alias HR eq_refl)
           (be_bytes 32 (1 + toy_modulus))); [vm_compute; reflexivity|].
  vm_compute. discriminate.
Defined.

Lemma aliased_commitments_register_witness :
  ∃ t, registered t toy_reg_db [] ∧
    ∃ res1 s1 res2 t2 db2,
      register_identity no_fault "" toy_commitment Human 1 (t, toy_reg_db) = (Ok res1, s1) ∧
      register_identity no_fault "" toy_alias Human 1 s1 = (Ok res2, (t2, db2)).
Proof.
  destruct toy_registered as (t & HR & Hd). exists t. split; [exact HR|].
  destruct (aliased_commitments_register "" toy_commitment toy_alias Human Human 1 1 t toy_reg_db []
              HR ltac:(rewrite Hd; reflexivity) ltac:(vm_compute; reflexivity)
              ltac:(vm_compute; reflexivity) ltac:(vm_compute; discriminate) toy_commitments_alias
              ltac:(reflexivity) ltac:(reflexivity))
    as (res1 & s1 & res2 & t2 & db2 & H1 & H2 & _).
  exists res1, s1, res2, t2, db2. split; [exact H1|exact H2].
Defined.
End witnesses.
