(* ===== verification/Observe.v ===== *)
(** * Observe: crates/annex-observe, and the event endpoints of the server

    The append-only public event log: event kinds and their labels, emission
    with per-server sequence numbers, filtered queries, the broadcast of
    emitted events (crates/annex-server/src/lib.rs) and the public query
    handler (crates/annex-server/src/api_observe.rs). *)

From S2P Require Import Prelude Sql Bytes Types.

#[local] Open Scope Z_scope.

(** ** Events: event.rs *)

Module EventDomain.
Inductive t := Identity | Presence | Federation | Agent | Moderation.
#[export] Instance eq_dec : EqDecision t.
Proof. solve_decision. Defined.
End EventDomain.

Definition domain_as_str (d : EventDomain.t) : string :=
  match d with
  | EventDomain.Identity => "IDENTITY"
  | EventDomain.Presence => "PRESENCE"
  | EventDomain.Federation => "FEDERATION"
  | EventDomain.Agent => "AGENT"
  | EventDomain.Moderation => "MODERATION"
  end.

Definition domain_from_str (s : string) : option EventDomain.t :=
  if decide (s = "IDENTITY") then Some EventDomain.Identity
  else if decide (s = "PRESENCE") then Some EventDomain.Presence
  else if decide (s = "FEDERATION") then Some EventDomain.Federation
  else if decide (s = "AGENT") then Some EventDomain.Agent
  else if decide (s = "MODERATION") then Some EventDomain.Moderation
  else None.

Module EventPayload.
Inductive t :=
  | IdentityRegistered (commitment_hex : string) (role_code : Z)
  | IdentityVerified (commitment_hex topic : string)
  | PseudonymDerived (pseudonym_id topic : string)
  | NodeAdded (pseudonym_id node_type : string)
  | NodePruned (pseudonym_id : string)
  | NodeReactivated (pseudonym_id : string)
  | FederationEstablished (remote_url alignment_status : string)
  | FederationRealigned (remote_url alignment_status previous_status : string)
  | FederationSevered (remote_url reason : string)
  | AgentConnected (pseudonym_id alignment_status : string)
  | AgentRealigned (pseudonym_id alignment_status previous_status : string)
  | AgentDisconnected (pseudonym_id reason : string)
  | ModerationAction (moderator_pseudonym action_type : string)
      (target_pseudonym : option string) (description : string).
#[export] Instance eq_dec : EqDecision t.
Proof. solve_decision. Defined.
End EventPayload.
Import EventPayload.

Definition event_type (p : EventPayload.t) : string :=
  match p with
  | IdentityRegistered _ _ => "IDENTITY_REGISTERED"
  | IdentityVerified _ _ => "IDENTITY_VERIFIED"
  | PseudonymDerived _ _ => "PSEUDONYM_DERIVED"
  | NodeAdded _ _ => "NODE_ADDED"
  | NodePruned _ => "NODE_PRUNED"
  | NodeReactivated _ => "NODE_REACTIVATED"
  | FederationEstablished _ _ => "FEDERATION_ESTABLISHED"
  | FederationRealigned _ _ _ => "FEDERATION_REALIGNED"
  | FederationSevered _ _ => "FEDERATION_SEVERED"
  | AgentConnected _ _ => "AGENT_CONNECTED"
  | AgentRealigned _ _ _ => "AGENT_REALIGNED"
  | AgentDisconnected _ _ => "AGENT_DISCONNECTED"
  | ModerationAction _ _ _ _ => "MODERATION_ACTION"
  end.

Definition entity_type (p : EventPayload.t) : string :=
  match p with
  | IdentityRegistered _ _ | IdentityVerified _ _ | PseudonymDerived _ _ => "identity"
  | NodeAdded _ _ | NodePruned _ | NodeReactivated _ => "node"
  | FederationEstablished _ _ | FederationRealigned _ _ _ | FederationSevered _ _ => "federation"
  | AgentConnected _ _ | AgentRealigned _ _ _ | AgentDisconnected _ _ => "agent"
  | ModerationAction _ _ _ _ => "moderation"
  end.

Definition event_domain (p : EventPayload.t) : EventDomain.t :=
  match p with
  | IdentityRegistered _ _ | IdentityVerified _ _ | PseudonymDerived _ _ => EventDomain.Identity
  | NodeAdded _ _ | NodePruned _ | NodeReactivated _ => EventDomain.Presence
  | FederationEstablished _ _ | FederationRealigned _ _ _ | FederationSevered _ _ =>
      EventDomain.Federation
  | AgentConnected _ _ | AgentRealigned _ _ _ | AgentDisconnected _ _ => EventDomain.Agent
  | ModerationAction _ _ _ _ => EventDomain.Moderation
  end.

Record PublicEvent := {
  ev_id : Z;
  ev_server_id : Z;
  ev_domain : string;
  ev_event_type : string;
  ev_entity_type : string;
  ev_entity_id : string;
  ev_seq : Z;
  ev_payload_json : string;
  ev_occurred_at : string;
}.

#[export] Instance PublicEvent_eq_dec : EqDecision PublicEvent.
Proof. solve_decision. Defined.

(** ** Emission: store.rs *)

Definition of_server (s : Z) (e : PublicEvent) : Prop := ev_server_id e = s.
#[export] Instance of_server_dec s e : Decision (of_server s e).
Proof. unfold of_server. apply _. Defined.

(** [SELECT MAX(seq)]: NULL on no row. *)
Definition max_seq (log : table PublicEvent) (server_id : Z) : option Z :=
  match t_select (of_server server_id) log with
  | [] => None
  | e :: es => Some (foldl Z.max (ev_seq e) (ev_seq <$> es))
  end.

Definition next_seq (log : table PublicEvent) (server_id : Z) : Z :=
  default 0 (max_seq log server_id) + 1.

Section emit.
Context `{Serde EventPayload.t}.

(** The row of the INSERT, with [COALESCE(MAX(seq), 0) + 1]. *)
Definition event_row (log : table PublicEvent) (now : string) (server_id : Z)
    (dom : EventDomain.t) (ty ent_ty entity_id : string) (payload : EventPayload.t) (id : Z) :
    PublicEvent :=
  {| ev_id := id; ev_server_id := server_id; ev_domain := domain_as_str dom;
     ev_event_type := ty; ev_entity_type := ent_ty; ev_entity_id := entity_id;
     ev_seq := default 0 (max_seq log server_id) + 1;
     ev_payload_json := to_json payload; ev_occurred_at := now |}.

(** [INSERT ... RETURNING id, seq, occurred_at]. *)
Definition emit_event (fault : faults) (now : string) (server_id : Z) (dom : EventDomain.t)
    (ty ent_ty entity_id : string) (payload : EventPayload.t) :
    M (table PublicEvent) sql_error PublicEvent :=
  exec fault 0 (λ log,
    let row := event_row log now server_id dom ty ent_ty entity_id payload in
    let '(id, log') := t_insert row log in
    (Ok (row id), log')).

(** The log and what the subscribers of [observe_tx] were sent. *)
Record EventSink := { log : table PublicEvent; sent : list PublicEvent }.

(** [emit_and_broadcast]: a failure to write is logged and ignored, and so is
    a send without receivers. *)
Definition emit_and_broadcast (fault : faults) (now : string) (server_id : Z)
    (entity_id : string) (payload : EventPayload.t) (s : EventSink) : EventSink :=
  match emit_event fault now server_id (event_domain payload) (event_type payload)
          (entity_type payload) entity_id payload (log s) with
  | (Ok event, log') => {| log := log'; sent := sent s ++ [event] |}
  | (_, log') => {| log := log'; sent := sent s |}
  end.
End emit.

(** ** Queries *)

Record EventFilter := {
  f_domain : option EventDomain.t;
  f_event_type : option string;
  f_entity_type : option string;
  f_entity_id : option string;
  f_since : option string;
  f_limit : option Z;
}.

(** A clause that is present only when its filter field is. *)
Definition clause {A} (o : option A) (p : A → bool) : bool :=
  match o with Some a => p a | None => true end.

Definition matches (server_id : Z) (f : EventFilter) (e : PublicEvent) : bool :=
  bool_decide (ev_server_id e = server_id) &&
  clause (f_domain f) (λ d, bool_decide (ev_domain e = domain_as_str d)) &&
  clause (f_event_type f) (λ t, bool_decide (ev_event_type e = t)) &&
  clause (f_entity_type f) (λ t, bool_decide (ev_entity_type e = t)) &&
  clause (f_entity_id f) (λ i, bool_decide (ev_entity_id e = i)) &&
  clause (f_since f) (λ t, negb (String.ltb (ev_occurred_at e) t)).

Definition query_events (log : table PublicEvent) (server_id : Z) (f : EventFilter) :
    list PublicEvent :=
  let limit := default 100 (f_limit f) in
  sql_limit limit (order_by Z.le ev_seq (filter (λ e, matches server_id f e = true) (t_rows log))).

(** ** The handler: api_observe.rs *)

Record EventsQuery := {
  q_domain : option string;
  q_event_type : option string;
  q_entity_type : option string;
  q_entity_id : option string;
  q_since : option string;
  q_limit : option Z;
}.

Definition clamp (lo hi x : Z) : Z := Z.max lo (Z.min hi x).

Definition get_events_handler (fault : faults) (log : table PublicEvent) (server_id : Z)
    (q : EventsQuery) : result http_error (list PublicEvent * nat) :=
  domain ←
    match q_domain q with
    | Some d =>
        match domain_from_str d with
        | Some parsed => Ok (Some parsed)
        | None => Err 400
        end
    | None => Ok None
    end;
  let limit := clamp 1 1000 (default 100 (q_limit q)) in
  let filter := {| f_domain := domain; f_event_type := q_event_type q;
                   f_entity_type := q_entity_type q; f_entity_id := q_entity_id q;
                   f_since := q_since q; f_limit := Some limit |} in
  events ← map_err (λ _, 500) (read fault 0 (query_events log server_id filter));
  Ok (events, length events).

(** ** Broadcast channels

    tokio's: a receiver gets what was sent since it subscribed; where it was
    too slow, it gets instead how many it missed. *)

Inductive Received (A : Type) := Event (a : A) | Lagged (count : Z).
Arguments Event {A} a.
Arguments Lagged {A} count.

(** What a subscriber of a broadcast channel receives of what was sent since
    it subscribed: everything in order, and where it was too slow, how many
    it missed. *)
Inductive delivered {A} : list A → list (Received A) → Prop :=
  | delivered_nil : delivered [] []
  | delivered_event a sent items : delivered sent items → delivered (a :: sent) (Event a :: items)
  | delivered_lagged missed sent items :
      missed ≠ [] → delivered sent items →
      delivered (missed ++ sent) (Lagged (Z.of_nat (length missed)) :: items).

(** * Theorems *)

Lemma domain_from_as_str d : domain_from_str (domain_as_str d) = Some d.
Proof. by destruct d. Qed.

Lemma domain_as_from_str s d : domain_from_str s = Some d → s = domain_as_str d.
Proof. unfold domain_from_str. repeat case_decide; naive_solver. Qed.

Definition server_events (log : table PublicEvent) (s : Z) : list PublicEvent :=
  t_select (of_server s) log.

(** The events of a server are numbered 1, 2, 3, ... in table order. *)
Record log_ok (log : table PublicEvent) : Prop := {
  lo_ids : ids_ok ev_id log;
  lo_seqs : ∀ s, ev_seq <$> server_events log s = seqZ 1 (Z.of_nat (length (server_events log s)));
}.

Lemma foldl_max_seqZ (a : Z) (n : nat) :
  foldl Z.max a (seqZ (a + 1) (Z.of_nat n)) = a + Z.of_nat n.
Proof.
  induction n as [|n IH]; [rewrite seqZ_nil by lia; cbn; lia|].
  rewrite Nat2Z.inj_succ, <- Z.add_1_r, seqZ_app, foldl_app, IH by lia.
  rewrite seqZ_cons, seqZ_nil by lia. cbn. lia.
Qed.

Lemma max_seq_ok log s :
  log_ok log → default 0 (max_seq log s) = Z.of_nat (length (server_events log s)).
Proof.
  intros HL. pose proof (lo_seqs _ HL s) as Hs. unfold max_seq, server_events in *.
  destruct (t_select _ _) as [|e es]; [done|]. cbn [length] in *.
  rewrite Nat2Z.inj_succ, seqZ_cons, Z.pred_succ in Hs by lia. csimpl in Hs.
  injection Hs as He Hes. change (Z.succ 1) with (1 + 1) in Hes.
  cbn [from_option id]. rewrite He, Hes, foldl_max_seqZ. lia.
Qed.

Lemma server_events_insert (mk : Z → PublicEvent) log s :
  server_events (t_insert mk log).2 s =
  server_events log s ++
    (if decide (ev_server_id (mk (t_seq log + 1)) = s) then [mk (t_seq log + 1)] else []).
Proof.
  unfold server_events, t_select. cbn. rewrite filter_app. f_equal.
Qed.

Section observe_theorems.
Context `{Serde EventPayload.t}.

(** The event log is append-only and gapless: a successful emission
    appends one event, whose number is one more than the number of events the
    server had (so [next_seq] before the call), labelled as its payload says;
    numbering of every server stays 1, 2, 3, ...; a failed one changes
    nothing and is swallowed by [emit_and_broadcast], which sends to the
    subscribers exactly what was written. *)
Theorem emit_event_spec fault now s entity payload sink :
  log_ok (log sink) →
  let sink' := emit_and_broadcast fault now s entity payload sink in
  log_ok (log sink') ∧
  match fault 0%nat with
  | Some _ => sink' = sink
  | None => ∃ e,
      t_rows (log sink') = t_rows (log sink) ++ [e] ∧ sent sink' = sent sink ++ [e] ∧
      ev_server_id e = s ∧ ev_entity_id e = entity ∧ ev_payload_json e = to_json payload ∧
      ev_event_type e = event_type payload ∧
      domain_from_str (ev_domain e) = Some (event_domain payload) ∧
      ev_seq e = next_seq (log sink) s ∧
      ev_seq e = Z.of_nat (length (server_events (log sink) s)) + 1
  end.
Proof.
  intros HL. unfold emit_and_broadcast, emit_event, exec. destruct (fault 0%nat) as [code|].
  { cbn. split; [done|]. by destruct sink. }
  pose proof (max_seq_ok _ s HL) as Hmax.
  set (row := event_row (log sink) now s _ _ _ entity payload). cbv zeta. cbn [t_insert].
  split; cbn [log].
  - split.
    + by apply (ids_ok_insert ev_id row), HL.
    + intros s'. change (Table _ _) with (t_insert row (log sink)).2.
      rewrite server_events_insert. cbn [row ev_server_id]. case_decide as Hs.
      * cbn in Hs. subst s'. rewrite fmap_app, length_app, (lo_seqs _ HL). cbn [fmap list_fmap length].
        rewrite Nat2Z.inj_add, seqZ_app by lia. f_equal. rewrite seqZ_cons, seqZ_nil by done.
        cbn [row event_row ev_seq]. rewrite Hmax. f_equal. lia.
      * rewrite app_nil_r. apply HL.
  - exists (row (t_seq (log sink) + 1)). do 6 (split; [done|]). split; [apply domain_from_as_str|].
    split; [done|]. unfold row, event_row. cbn [ev_seq]. by rewrite Hmax.
Qed.
End observe_theorems.

Lemma seqZ_sorted m n : StronglySorted Z.lt (seqZ m n).
Proof.
  destruct (Z.le_gt_cases 0 n) as [Hn|Hn]; [|by rewrite seqZ_nil by lia; constructor].
  revert m. pattern n. apply natlike_ind; [by constructor| |done]. clear n Hn.
  intros n Hn IH m. rewrite seqZ_cons by lia. constructor; [rewrite Z.pred_succ; apply IH|].
  apply Forall_forall. intros x. rewrite elem_of_seqZ. lia.
Qed.

(** The matching events are events of the server, so in order. *)
Lemma matching_sorted log s f :
  log_ok log →
  StronglySorted Z.lt (ev_seq <$> filter (λ e, matches s f e = true) (t_rows log)).
Proof.
  intros HL.
  replace (filter (λ e, matches s f e = true) (t_rows log))
    with (filter (λ e, matches s f e = true) (server_events log s)).
  - apply StronglySorted_fmap_filter. rewrite (lo_seqs _ HL s). apply seqZ_sorted.
  - unfold server_events, t_select. rewrite list_filter_filter. apply list_filter_iff.
    intros e. unfold matches, of_server. rewrite !andb_true_iff, bool_decide_eq_true. tauto.
Qed.

Lemma query_events_ok log s f :
  log_ok log →
  query_events log s f =
    sql_limit (default 100 (f_limit f)) (filter (λ e, matches s f e = true) (t_rows log)).
Proof.
  intros HL. unfold query_events. pose proof (matching_sorted log s f HL) as Hs.
  rewrite (order_by_id Z.le); [done|..].
  - apply StronglySorted_by_lookup. intros i j x y Hij Hx Hy. unfold key_le.
    pose proof (StronglySorted_lookup _ _ i j (ev_seq x) (ev_seq y) Hs Hij) as Hlt.
    rewrite !list_lookup_fmap, Hx, Hy in Hlt. specialize (Hlt eq_refl eq_refl). lia.
  - intros x y Hx Hy E. apply (StronglySorted_fmap_inj ev_seq _ Hs x y Hx Hy E).
Qed.

(** The public query: an unknown domain is answered 400; otherwise the
    answer is the first [limit] (at least 1, at most 1000, 100 by default)
    events of this server that satisfy every given filter, in order of their
    numbers, with their count. *)
Theorem get_events_handler_spec fault log s q :
  log_ok log → fault 0%nat = None →
  match get_events_handler fault log s q with
  | Ok (events, count) => ∃ f n,
      f_domain f = q_domain q ≫= domain_from_str ∧ f_event_type f = q_event_type q ∧
      f_entity_type f = q_entity_type q ∧ f_entity_id f = q_entity_id q ∧
      f_since f = q_since q ∧ (1 ≤ n ≤ 1000)%nat ∧
      (∀ l, q_limit q = Some l → 1 ≤ l ≤ 1000 → Z.of_nat n = l) ∧ (q_limit q = None → n = 100%nat) ∧
      events = take n (filter (λ e, matches s f e = true) (t_rows log)) ∧
      count = length events ∧ (count ≤ 1000)%nat ∧ StronglySorted Z.lt (ev_seq <$> events)
  | Err e => e = 400 ∧ ∃ d, q_domain q = Some d ∧ ∀ dom, d ≠ domain_as_str dom
  | Panic => False
  end.
Proof.
  intros HL Hf. unfold get_events_handler, read. rewrite Hf.
  set (limit := clamp 1 1000 (default 100 (q_limit q))).
  assert (1 ≤ limit ≤ 1000) as Hlim by (unfold limit, clamp; lia).
  destruct (q_domain q) as [d|] eqn:Hd; [destruct (domain_from_str d) as [dom|] eqn:Hdom|]; cbn -[limit].
  2: { split; [done|]. exists d. split; [done|]. intros dom ->. by rewrite domain_from_as_str in Hdom. }
  all: rewrite query_events_ok by done; cbn [f_limit from_option id]; unfold sql_limit.
  all: rewrite (proj2 (Z.ltb_ge _ _)) by lia; eexists {| f_limit := Some limit |}, (Z.to_nat limit);
    cbn [f_domain f_event_type f_entity_type f_entity_id f_since].
  all: split; [cbn; rewrite ?Hdom; reflexivity|]; do 4 (split; [reflexivity|]); split; [lia|].
  all: split; [intros l Hl ?; rewrite Z2Nat.id by lia; unfold limit, clamp; rewrite Hl; cbn; lia|].
  all: split; [intros Hl; unfold limit; by rewrite Hl|]; split; [done|]; split; [done|].
  all: split; [rewrite length_take; lia|]; rewrite fmap_take.
  all: apply StronglySorted_take, matching_sorted, HL.
Qed.

(** ** Witnesses *)

Definition toy_event_serde : Serde EventPayload.t :=
  {| to_json p := event_type p; from_json _ := None |}.

Definition toy_log : table PublicEvent :=
  log (emit_and_broadcast (H := toy_event_serde) no_fault "2026-01-01 00:00:00" 1 "p"
         (NodePruned "p") {| log := t_empty; sent := [] |}).

Lemma empty_log_ok : log_ok t_empty.
Proof. split; [apply ids_ok_empty|done]. Qed.

Lemma emit_event_spec_witness :
  log_ok t_empty ∧ log_ok toy_log ∧ next_seq toy_log 1 = 2.
Proof.
  split; [exact empty_log_ok|]. split; [|reflexivity].
  exact (proj1 (emit_event_spec (H := toy_event_serde) no_fault "2026-01-01 00:00:00" 1 "p"
                  (NodePruned "p") {| log := t_empty; sent := [] |} empty_log_ok)).
Defined.

Definition toy_query (domain : string) : EventsQuery :=
  {| q_domain := Some domain; q_event_type := None; q_entity_type := None; q_entity_id := None;
     q_since := None; q_limit := Some 5000 |}.

Lemma get_events_handler_spec_witness :
  log_ok t_empty ∧ get_events_handler no_fault t_empty 1 (toy_query "SPORTS") = Err 400 ∧
  ∀ dom, "SPORTS" ≠ domain_as_str dom.
Proof.
  split; [exact empty_log_ok|]. split; [reflexivity|].
  pose proof (get_events_handler_spec no_fault t_empty 1 (toy_query "SPORTS") empty_log_ok eq_refl) as H.
  destruct H as [_ (d & Hd & H)]. injection Hd as <-. exact H.
Defined.
