(* ===== verification/Platform.v ===== *)
(** * Platform: crates/annex-identity/src/platform.rs

    Platform identities: a pseudonym's role, capability flags and active
    flag on a server, the founder rule and its repair. *)

From S2P Require Import Prelude Sql Bytes Types Identity.

#[local] Open Scope Z_scope.

(** A row of platform_identities; [participant_type] is the role's label. *)
Record PlatformRow := {
  pr_id : Z;
  pr_server_id : Z;
  pr_pseudonym_id : string;
  pr_participant_type : string;
  pr_caps : Capabilities;
  pr_active : bool;
  pr_created_at : string;
  pr_updated_at : string;
}.

#[export] Instance PlatformRow_eq_dec : EqDecision PlatformRow.
Proof. solve_decision. Defined.

Record PlatformIdentity := {
  pi_id : Z;
  pi_server_id : Z;
  pi_pseudonym_id : string;
  pi_participant_type : RoleCode;
  pi_caps : Capabilities;
  pi_active : bool;
  pi_created_at : string;
  pi_updated_at : string;
}.

Definition role_from_str (s : string) : result IdentityError RoleCode :=
  if decide (s = "HUMAN") then Ok Human
  else if decide (s = "AI_AGENT") then Ok AiAgent
  else if decide (s = "COLLECTIVE") then Ok Collective
  else if decide (s = "BRIDGE") then Ok Bridge
  else if decide (s = "SERVICE") then Ok Service
  else Err (InvalidRoleLabel s).

Definition on_server (s : Z) (r : PlatformRow) : Prop := pr_server_id r = s.
Definition is_member (s : Z) (p : string) (r : PlatformRow) : Prop :=
  pr_server_id r = s ∧ pr_pseudonym_id r = p.
Definition is_active_on (s : Z) (r : PlatformRow) : Prop :=
  pr_server_id r = s ∧ pr_active r = true.
Definition is_moderator_on (s : Z) (r : PlatformRow) : Prop :=
  pr_server_id r = s ∧ can_moderate (pr_caps r) = true ∧ pr_active r = true.

#[export] Instance on_server_dec s r : Decision (on_server s r).
Proof. unfold on_server. apply _. Defined.
#[export] Instance is_member_dec s p r : Decision (is_member s p r).
Proof. unfold is_member. apply _. Defined.
#[export] Instance is_active_on_dec s r : Decision (is_active_on s r).
Proof. unfold is_active_on. apply _. Defined.
#[export] Instance is_moderator_on_dec s r : Decision (is_moderator_on s r).
Proof. unfold is_moderator_on. apply _. Defined.

Definition with_caps (c : Capabilities) (now : string) (r : PlatformRow) : PlatformRow :=
  {| pr_id := pr_id r; pr_server_id := pr_server_id r; pr_pseudonym_id := pr_pseudonym_id r;
     pr_participant_type := pr_participant_type r; pr_caps := c; pr_active := pr_active r;
     pr_created_at := pr_created_at r; pr_updated_at := now |}.
Definition deactivated (now : string) (r : PlatformRow) : PlatformRow :=
  {| pr_id := pr_id r; pr_server_id := pr_server_id r; pr_pseudonym_id := pr_pseudonym_id r;
     pr_participant_type := pr_participant_type r; pr_caps := pr_caps r; pr_active := false;
     pr_created_at := pr_created_at r; pr_updated_at := now |}.

(** [SET can_voice = 1, can_moderate = 1, can_invite = 1, can_federate = 1]. *)
Definition founder_caps (c : Capabilities) : Capabilities :=
  {| can_voice := true; can_moderate := true; can_invite := true; can_federate := true;
     can_bridge := can_bridge c |}.
Definition promote (now : string) (r : PlatformRow) : PlatformRow :=
  with_caps (founder_caps (pr_caps r)) now r.

(** A flag of the INSERT: 1 when the server has no identity yet. *)
Definition first_on_server (s : Z) (db : table PlatformRow) : bool :=
  bool_decide (length (t_select (on_server s) db) = 0%nat).

(** UNIQUE (server_id, pseudonym_id). *)
Definition insert_platform_row (now : string) (s : Z) (p : string) (role : RoleCode) :
    M (table PlatformRow) sql_error unit := λ db,
  if t_exists (is_member s p) db then (Err ConstraintUnique, db)
  else
    let first := first_on_server s db in
    (Ok (), (t_insert (λ id,
       {| pr_id := id; pr_server_id := s; pr_pseudonym_id := p;
          pr_participant_type := role_label role;
          pr_caps := {| can_voice := first; can_moderate := first; can_invite := first;
                        can_federate := first; can_bridge := false |};
          pr_active := true; pr_created_at := now; pr_updated_at := now |}) db).2).

(** The row mapper of [get_platform_identity]. *)
Definition platform_of_row (r : PlatformRow) : result sql_error PlatformIdentity :=
  participant_type ← map_err (λ _, FromSqlConversionFailure 3) (role_from_str (pr_participant_type r));
  Ok {| pi_id := pr_id r; pi_server_id := pr_server_id r; pi_pseudonym_id := pr_pseudonym_id r;
        pi_participant_type := participant_type; pi_caps := pr_caps r; pi_active := pr_active r;
        pi_created_at := pr_created_at r; pi_updated_at := pr_updated_at r |}.

Definition get_platform_identity (fault : faults) (s : Z) (p : string) (db : table PlatformRow) :
    result IdentityError PlatformIdentity :=
  map_err DatabaseError
    (rows ← read fault 0 (t_select (is_member s p) db); query_row rows platform_of_row).

(** Statement 0 is the INSERT, 1 the read. *)
Definition create_platform_identity (fault : faults) (now : string) (s : Z) (p : string)
    (role : RoleCode) : M (table PlatformRow) IdentityError PlatformIdentity :=
  _ ← catch_map DatabaseError (exec fault 0 (insert_platform_row now s p role));
  db ← get;
  lift (get_platform_identity (λ k, fault (S k)) s p db).

(** [conn.execute(UPDATE ...)?] followed by the [changed == 0] check. *)
Definition update_required (fault : faults) (P : PlatformRow → Prop) `{!∀ r, Decision (P r)}
    (f : PlatformRow → PlatformRow) : M (table PlatformRow) IdentityError unit :=
  changed ← catch_map DatabaseError (exec fault 0 (λ db, let '(n, db') := t_update P f db in (Ok n, db')));
  if (changed =? 0)%nat then throw (DatabaseError QueryReturnedNoRows) else mret ().

Definition update_capabilities (fault : faults) (now : string) (s : Z) (p : string)
    (caps : Capabilities) : M (table PlatformRow) IdentityError unit :=
  update_required fault (is_member s p) (with_caps caps now).

Definition deactivate_platform_identity (fault : faults) (now : string) (s : Z) (p : string) :
    M (table PlatformRow) IdentityError unit :=
  update_required fault (is_member s p) (deactivated now).

(** [SELECT MIN(id)]: NULL on no row. *)
Definition min_id (rows : list PlatformRow) : option Z :=
  match rows with
  | [] => None
  | r :: rows => Some (foldl Z.min (pr_id r) (pr_id <$> rows))
  end.

(** [WHERE id = (SELECT MIN(id) ...)]; [id = NULL] holds of no row. *)
Definition founder_candidate (s : Z) (db : table PlatformRow) (r : PlatformRow) : Prop :=
  Some (pr_id r) = min_id (t_select (is_active_on s) db).
#[export] Instance founder_candidate_dec s db r : Decision (founder_candidate s db r).
Proof. unfold founder_candidate. apply _. Defined.

(** Statement 0 is the EXISTS query, 1 the UPDATE. *)
Definition ensure_founder (fault : faults) (now : string) (s : Z) :
    M (table PlatformRow) IdentityError bool :=
  db ← get;
  has_moderator ← lift (map_err DatabaseError (read fault 0 (t_exists (is_moderator_on s) db)));
  if (has_moderator : bool) then mret false
  else
    promoted ← catch_map DatabaseError (exec fault 1 (λ db,
      let '(n, db') := t_update (founder_candidate s db) (promote now) db in (Ok n, db')));
    mret (0 <? promoted)%nat.

(** * Theorems *)

Implicit Types db : table PlatformRow.

(** UNIQUE (server_id, pseudonym_id), and the primary key. *)
Record platform_wf (db : table PlatformRow) : Prop := {
  pw_ids : ids_ok pr_id db;
  pw_unique : ∀ r1 r2, r1 ∈ t_rows db → r2 ∈ t_rows db →
    pr_server_id r1 = pr_server_id r2 → pr_pseudonym_id r1 = pr_pseudonym_id r2 → r1 = r2;
  pw_labels : ∀ r, r ∈ t_rows db → ∃ role, pr_participant_type r = role_label role;
}.

Lemma role_from_str_label role : role_from_str (role_label role) = Ok role.
Proof. by destruct role. Qed.

(** The identity a row is read as. *)
Definition identity_of (r : PlatformRow) (role : RoleCode) : PlatformIdentity :=
  {| pi_id := pr_id r; pi_server_id := pr_server_id r; pi_pseudonym_id := pr_pseudonym_id r;
     pi_participant_type := role; pi_caps := pr_caps r; pi_active := pr_active r;
     pi_created_at := pr_created_at r; pi_updated_at := pr_updated_at r |}.

Lemma platform_of_row_ok r role :
  pr_participant_type r = role_label role → platform_of_row r = Ok (identity_of r role).
Proof. intros H. unfold platform_of_row. by rewrite H, role_from_str_label. Qed.

Lemma get_platform_identity_ok fault s p db r role :
  platform_wf db → fault 0%nat = None → r ∈ t_rows db → is_member s p r →
  pr_participant_type r = role_label role →
  get_platform_identity fault s p db = Ok (identity_of r role).
Proof.
  intros HW Hf Hr Hm Hl. unfold get_platform_identity, read. rewrite Hf. cbn [mbind result_bind].
  rewrite (query_row_unique _ db r); [by rewrite (platform_of_row_ok r role)|done..|].
  intros r' Hr' Hm'. destruct Hm, Hm'. apply (pw_unique _ HW); congruence.
Qed.

Lemma get_platform_identity_row fault s p db i :
  get_platform_identity fault s p db = Ok i →
  ∃ r, r ∈ t_rows db ∧ is_member s p r ∧ pi_pseudonym_id i = p ∧ pi_caps i = pr_caps r ∧ pi_active i = pr_active r.
Proof.
  unfold get_platform_identity, read. destruct (fault 0%nat); cbn; [done|].
  destruct (t_select (is_member s p) db) as [|r rows] eqn:E; cbn; [done|].
  assert (r ∈ t_select (is_member s p) db) as [Hm Hr]%elem_of_t_select by (rewrite E; left).
  unfold platform_of_row. destruct (role_from_str _); cbn; [|done..]. intros [= <-]. exists r.
  split; [done|]. split; [done|]. by destruct Hm.
Qed.

Lemma platform_wf_update P `{!∀ r, Decision (P r)} f db :
  (∀ r, pr_id (f r) = pr_id r ∧ pr_server_id (f r) = pr_server_id r ∧
        pr_pseudonym_id (f r) = pr_pseudonym_id r ∧
        pr_participant_type (f r) = pr_participant_type r) →
  platform_wf db → platform_wf (t_update P f db).2.
Proof.
  intros Hf [Hi Hu Hl]. split.
  - apply ids_ok_update; [|done]. intros r. apply Hf.
  - intros r1 r2 (x1 & H1 & E1)%elem_of_t_update (x2 & H2 & E2)%elem_of_t_update Hs Hp.
    assert (x1 = x2) as <-.
    { apply Hu; [done..| |];
      destruct E1 as [[_ ->]|[_ ->]], E2 as [[_ ->]|[_ ->]];
      destruct (Hf x1) as (_ & ? & ? & _), (Hf x2) as (_ & ? & ? & _); congruence. }
    naive_solver.
  - intros r (x & Hx & [[_ ->]|[_ ->]])%elem_of_t_update; [|by apply Hl].
    destruct (Hf x) as (_ & _ & _ & ->). by apply Hl.
Qed.

Lemma first_on_server_spec s db :
  first_on_server s db = true ↔ ∀ r, r ∈ t_rows db → pr_server_id r ≠ s.
Proof.
  unfold first_on_server. rewrite bool_decide_eq_true, length_zero_iff_nil.
  apply (t_select_nil (on_server s)).
Qed.

(** Joining a server: unless it is already a member (or a statement
    fails), the pseudonym gets one active row with its role; it is the
    founder, with the voice, moderation, invitation and federation flags,
    exactly when it is the first identity of that server, and has no flag
    otherwise; nobody gets the bridge flag.  If only the read-back fails the
    row is there although an error is returned, so callers need a
    transaction. *)
Theorem create_platform_identity_spec fault now s p role db :
  platform_wf db →
  let '(res, db') := create_platform_identity fault now s p role db in
  platform_wf db' ∧
  match res with
  | Ok pi =>
      t_exists (is_member s p) db = false ∧ pi_participant_type pi = role ∧
      pi_active pi = true ∧ can_bridge (pi_caps pi) = false ∧
      (can_moderate (pi_caps pi) = true ↔ ∀ r, r ∈ t_rows db → pr_server_id r ≠ s) ∧
      can_voice (pi_caps pi) = can_moderate (pi_caps pi) ∧
      can_invite (pi_caps pi) = can_moderate (pi_caps pi) ∧
      can_federate (pi_caps pi) = can_moderate (pi_caps pi) ∧
      ∃ r, t_rows db' = t_rows db ++ [r] ∧ pi = identity_of r role ∧ is_member s p r
  | Err e =>
      (db' = db ∧ e = DatabaseError ConstraintUnique ∧ t_exists (is_member s p) db = true) ∨
      ∃ code, e = DatabaseError (SqliteFailure code) ∧
        (fault 0%nat = Some code ∧ db' = db ∨
         fault 1%nat = Some code ∧ t_exists (is_member s p) db = false ∧
         t_exists (is_member s p) db' = true)
  | Panic => False
  end.
Proof.
  intros HW. unfold create_platform_identity, exec. run_M.
  destruct (fault 0%nat) as [code|] eqn:E0; [split; [done|]; right; exists code; by split; [|left]|].
  unfold insert_platform_row.
  destruct (t_exists (is_member s p) db) eqn:Hex; [split; [done|]; by left|]. run_M.
  set (row := λ id, {| pr_id := id |}). set (db' := (t_insert row db).2).
  set (r := row (t_seq db + 1)).
  assert (r ∈ t_rows db') as Hr by (apply elem_of_t_insert; by right).
  assert (is_member s p r) as Hm by done.
  assert (platform_wf db') as HW'.
  { pose proof (proj1 (t_exists_false _ _) Hex) as Hfresh. destruct HW as [Hi Hu Hl]. split.
    - by apply ids_ok_insert.
    - intros r1 r2 [H1| ->]%elem_of_t_insert [H2| ->]%elem_of_t_insert Hs Hp; try done;
        [by apply Hu|by destruct (Hfresh r1)|by destruct (Hfresh r2)].
    - intros x [Hx| ->]%elem_of_t_insert; [by apply Hl|by exists role]. }
  split; [done|].
  destruct (fault 1%nat) as [code|] eqn:E1.
  - unfold get_platform_identity, read. rewrite E1. cbn. right. exists code. split; [done|]. right.
    split; [done|]. split; [done|]. apply t_exists_spec. by exists r.
  - rewrite (get_platform_identity_ok _ s p db' r role) by done. cbn.
    repeat (split; [done|]). split; [apply first_on_server_spec|]. repeat (split; [done|]). by exists r.
Qed.

Lemma min_id_spec rows i :
  min_id rows = Some i → (∃ r, r ∈ rows ∧ pr_id r = i) ∧ ∀ r, r ∈ rows → i ≤ pr_id r.
Proof.
  destruct rows as [|r rows]; [done|]. cbn. intros [= <-].
  induction rows as [|x rows [(y & Hy & IH1) IH2]] using rev_ind.
  { cbn. split; [by exists r; split; [left|]|]. intros x ->%list_elem_of_singleton. lia. }
  rewrite fmap_app, foldl_app. cbn. split.
  - destruct (Z.min_spec (foldl Z.min (pr_id r) (pr_id <$> rows)) (pr_id x)) as [[_ ->]|[_ ->]].
    + exists y. split; [|done]. rewrite elem_of_cons, elem_of_app in *. naive_solver.
    + exists x. split; [|done]. rewrite elem_of_cons, elem_of_app. right; right; by left.
  - intros z. rewrite elem_of_cons, elem_of_app, list_elem_of_singleton.
    intros [->|[Hz| ->]]; [specialize (IH2 r ltac:(by left))|specialize (IH2 z ltac:(by right))|]; lia.
Qed.

(** The founder repair: after [ensure_founder] every server with an
    active identity has an active moderator.  It acts only when there was
    none, and then gives the founder flags to the active identity with the
    smallest id and changes nothing else; otherwise (or on an error) the
    table is as before. *)
Theorem ensure_founder_spec fault now s db :
  platform_wf db →
  let '(res, db') := ensure_founder fault now s db in
  platform_wf db' ∧
  match res with
  | Ok false =>
      db' = db ∧
      (t_exists (is_moderator_on s) db = true ∨ t_exists (is_active_on s) db = false)
  | Ok true =>
      t_exists (is_moderator_on s) db = false ∧
      ∃ r, r ∈ t_rows db ∧ is_active_on s r ∧
        (∀ r', r' ∈ t_rows db → is_active_on s r' → pr_id r ≤ pr_id r') ∧
        t_rows db' = (λ x, if decide (x = r) then promote now r else x) <$> t_rows db ∧
        t_exists (is_moderator_on s) db' = true
  | Err e => db' = db ∧ ∃ c, e = DatabaseError c ∧ faulted fault 2 c
  | Panic => False
  end.
Proof.
  intros HW. unfold ensure_founder, read, exec. run_M.
  destruct (fault 0%nat) as [code|] eqn:E0.
  { split; [done|]. split; [done|]. eexists. split; [done|]. by apply (faulted_intro _ 0); [|lia]. }
  run_M. destruct (t_exists (is_moderator_on s) db) eqn:Hm; [split; [done|]; auto|].
  destruct (fault 1%nat) as [code|] eqn:E1.
  { split; [done|]. split; [done|]. eexists. split; [done|]. by apply (faulted_intro _ 1); [|lia]. }
  pose proof (platform_wf_update (founder_candidate s db) (promote now) db ltac:(done) HW) as HW'.
  destruct (t_exists (founder_candidate s db) db) eqn:HE.
  2: { rewrite t_update_none by done. run_M. split; [done|]. split; [done|]. right.
       apply t_exists_false. apply (t_select_nil (is_active_on s)).
       destruct (min_id (t_select (is_active_on s) db)) as [i|] eqn:Hmin; [|by destruct (t_select _ db)].
       destruct (min_id_spec _ _ Hmin) as [(r & [_ Hr]%elem_of_t_select & Hi) _].
       exfalso. apply (proj1 (t_exists_false _ _) HE r Hr). unfold founder_candidate. congruence. }
  apply t_exists_spec in HE as (r & Hr & Hc). pose proof Hc as Hmin. unfold founder_candidate in Hmin. symmetry in Hmin.
  apply min_id_spec in Hmin as [(r0 & [Ha Hr0]%elem_of_t_select & Hi) Hmin].
  assert (r0 = r) as -> by (apply (ids_ok_inj pr_id db); [apply HW|done..]).
  assert (∀ x, x ∈ t_rows db → founder_candidate s db x ↔ x = r) as HP.
  { intros x Hx. split; [|by intros ->]. unfold founder_candidate in *. rewrite <- Hc.
    intros [= E]. by apply (ids_ok_inj pr_id db); [apply HW|..]. }
  unfold t_update in *. run_M. cbn [snd] in HW'. split; [exact HW'|].
  rewrite (proj2 (Nat.ltb_lt 0 (length (t_select (founder_candidate s db) db)))).
  2: { destruct (t_select (founder_candidate s db) db) eqn:E; [|cbn; lia].
       exfalso. by apply (proj1 (t_select_nil _ db) E r Hr), HP. }
  split; [done|]. exists r. split; [done|]. split; [done|]. split.
  { intros r' Hr' Ha'. by apply Hmin, elem_of_t_select. }
  split.
  { apply list_fmap_ext. intros j x Hx%list_elem_of_lookup_2. cbn [t_rows].
    destruct (HP x Hx) as [H1 H2]. do 2 case_decide; naive_solver. }
  apply t_exists_spec. exists (promote now r). split; [|by destruct Ha].
  cbn [t_rows]. apply list_elem_of_fmap. exists r. split; [|done].
  by rewrite decide_True by (by apply HP).
Qed.

(** ** Witnesses *)

Lemma empty_platform_wf : platform_wf t_empty.
Proof.
  split; [apply ids_ok_empty|..].
  - by intros r1 r2 ?%not_elem_of_nil.
  - by intros r ?%not_elem_of_nil.
Qed.

Lemma create_platform_identity_spec_witness :
  platform_wf t_empty ∧
  platform_wf (create_platform_identity no_fault "now" 1 "p" Human t_empty).2.
Proof.
  split; [exact empty_platform_wf|].
  pose proof (create_platform_identity_spec no_fault "now" 1 "p" Human t_empty empty_platform_wf) as H.
  destruct (create_platform_identity _ _ _ _ _ _) as [res db']. exact (proj1 H).
Defined.

Definition toy_member : PlatformRow :=
  {| pr_id := 1; pr_server_id := 1; pr_pseudonym_id := "p"; pr_participant_type := "HUMAN";
     pr_caps := {| can_voice := false; can_moderate := false; can_invite := false;
                   can_federate := false; can_bridge := false |};
     pr_active := true; pr_created_at := "t"; pr_updated_at := "t" |}.

Lemma toy_member_wf : platform_wf (Table [toy_member] 1).
Proof.
  split.
  - split; repeat constructor; done.
  - by intros r1 r2 ->%list_elem_of_singleton ->%list_elem_of_singleton.
  - intros r ->%list_elem_of_singleton. by exists Human.
Qed.

Lemma ensure_founder_spec_witness :
  platform_wf (Table [toy_member] 1) ∧
  t_exists (is_moderator_on 1) (Table [toy_member] 1) = false ∧
  t_exists (is_moderator_on 1) (ensure_founder no_fault "now" 1 (Table [toy_member] 1)).2 = true.
Proof.
  split; [exact toy_member_wf|].
  pose proof (ensure_founder_spec no_fault "now" 1 (Table [toy_member] 1) toy_member_wf) as H.
  destruct (ensure_founder no_fault "now" 1 (Table [toy_member] 1)) as [[[]|e|] db'] eqn:E;
    vm_compute in E; try discriminate E.
  destruct H as (_ & Hm & r & _ & _ & _ & _ & H). split; [exact Hm|exact H].
Defined.
