(* ===== verification/Graph.v ===== *)
(** * Graph: crates/annex-graph, and the pruning task of the server

    The presence graph: nodes with their activity, typed edges, the
    breadth-first search over the undirected graph, and the visibility of a
    profile by degree of separation; one round of
    crates/annex-server/src/background.rs. *)

From S2P Require Import Prelude Sql Bytes Types Observe.

#[local] Open Scope Z_scope.

Definition MAX_BFS_VISITED_NODES : nat := Z.to_nat 10000.

Inductive GraphError :=
  | GraphDatabaseError (e : sql_error)
  | NodeNotFound (p : string).

Record GraphNodeRow := {
  gn_id : Z;
  gn_server_id : Z;
  gn_pseudonym_id : string;
  gn_node_type : string;
  gn_active : bool;
  gn_last_seen_at : option string;
  gn_metadata_json : option string;
  gn_created_at : string;
}.

Record GraphEdgeRow := {
  ge_id : Z;
  ge_server_id : Z;
  ge_from_node : string;
  ge_to_node : string;
  ge_kind : string;
  ge_weight : f64;
  ge_created_at : string;
}.

Record GraphNode := {
  node_id : Z;
  node_server_id : Z;
  node_pseudonym_id : string;
  node_node_type : NodeType.t;
  node_active : bool;
  node_last_seen_at : option string;
  node_metadata_json : option string;
  node_created_at : string;
}.

Record GraphEdge := {
  edge_id : Z;
  edge_server_id : Z;
  edge_from : string;
  edge_to : string;
  edge_kind : EdgeKind;
  edge_weight : f64;
  edge_created_at : string;
}.

Record GraphProfile := {
  gp_pseudonym_id : string;
  gp_node_type : NodeType.t;
  gp_active : bool;
  gp_created_at : string;
  gp_last_seen_at : option string;
  gp_metadata_json : option string;
  gp_visibility : VisibilityLevel;
}.

Record BfsPath := { found : bool; path : list string; path_length : nat }.

(** ** Labels *)

Definition role_code_to_node_type (r : RoleCode) : NodeType.t :=
  match r with
  | Human => NodeType.Human
  | AiAgent => NodeType.AiAgent
  | Collective => NodeType.Collective
  | Bridge => NodeType.Bridge
  | Service => NodeType.Service
  end.

Definition edge_kind_to_str (k : EdgeKind) : string :=
  match k with
  | MemberOf => "MEMBER_OF"
  | Connected => "CONNECTED"
  | AgentServing => "AGENT_SERVING"
  | FederatedWith => "FEDERATED_WITH"
  | Moderates => "MODERATES"
  end.

Definition str_to_edge_kind (s : string) : result GraphError EdgeKind :=
  if decide (s = "MEMBER_OF") then Ok MemberOf
  else if decide (s = "CONNECTED") then Ok Connected
  else if decide (s = "AGENT_SERVING") then Ok AgentServing
  else if decide (s = "FEDERATED_WITH") then Ok FederatedWith
  else if decide (s = "MODERATES") then Ok Moderates
  else Err (GraphDatabaseError (FromSqlConversionFailure 0)).

Definition node_type_to_str (t : NodeType.t) : string :=
  match t with
  | NodeType.Human => "HUMAN"
  | NodeType.AiAgent => "AI_AGENT"
  | NodeType.Collective => "COLLECTIVE"
  | NodeType.Bridge => "BRIDGE"
  | NodeType.Service => "SERVICE"
  end.

Definition str_to_node_type (s : string) : result GraphError NodeType.t :=
  if decide (s = "HUMAN") then Ok NodeType.Human
  else if decide (s = "AI_AGENT") then Ok NodeType.AiAgent
  else if decide (s = "COLLECTIVE") then Ok NodeType.Collective
  else if decide (s = "BRIDGE") then Ok NodeType.Bridge
  else if decide (s = "SERVICE") then Ok NodeType.Service
  else Err (GraphDatabaseError (FromSqlConversionFailure 0)).

(** ** Nodes *)

Definition is_node (s : Z) (p : string) (r : GraphNodeRow) : Prop :=
  gn_server_id r = s ∧ gn_pseudonym_id r = p.
#[export] Instance is_node_dec s p r : Decision (is_node s p r).
Proof. unfold is_node. apply _. Defined.

(** [SET active = a, last_seen_at = t, metadata_json = m]. *)
Definition touch (a : bool) (t : option string) (m : option string) (r : GraphNodeRow) : GraphNodeRow :=
  {| gn_id := gn_id r; gn_server_id := gn_server_id r; gn_pseudonym_id := gn_pseudonym_id r;
     gn_node_type := gn_node_type r; gn_active := a; gn_last_seen_at := t;
     gn_metadata_json := m; gn_created_at := gn_created_at r |}.

Definition node_of_row (r : GraphNodeRow) : result GraphError GraphNode :=
  node_type ← str_to_node_type (gn_node_type r);
  Ok {| node_id := gn_id r; node_server_id := gn_server_id r;
        node_pseudonym_id := gn_pseudonym_id r; node_node_type := node_type;
        node_active := gn_active r; node_last_seen_at := gn_last_seen_at r;
        node_metadata_json := gn_metadata_json r; node_created_at := gn_created_at r |}.

Section nodes.
Context `{Clock}.

(** [UPDATE graph_nodes SET ... WHERE ... AND active = a]. *)
Definition update_node_stmt (a : bool) (now : Z) (s : Z) (p : string) :
    M (table GraphNodeRow) sql_error nat := λ db,
  let '(n, db') := t_update (λ r, is_node s p r ∧ gn_active r = a)
                     (λ r, touch true (datetime now) (gn_metadata_json r) r) db in
  (Ok n, db').

Definition update_node_activity (fault : faults) (now : Z) (s : Z) (p : string) :
    M (table GraphNodeRow) GraphError bool :=
  count ← catch_map GraphDatabaseError (exec fault 0 (update_node_stmt true now s p));
  if (0 <? count)%nat then mret false
  else
    count ← catch_map GraphDatabaseError (exec fault 1 (update_node_stmt false now s p));
    if (0 <? count)%nat then mret true else mret false.

(** [last_seen_at < datetime('now', '-' || ?2 || ' seconds')]: a comparison
    with NULL selects no row. *)
Definition seen_before (cutoff : option string) (r : GraphNodeRow) : bool :=
  match gn_last_seen_at r, cutoff with
  | Some seen, Some c => String.ltb seen c
  | _, _ => false
  end.

Definition is_stale (s : Z) (cutoff : option string) (r : GraphNodeRow) : Prop :=
  gn_server_id r = s ∧ gn_active r = true ∧ seen_before cutoff r = true.
#[export] Instance is_stale_dec s cutoff r : Decision (is_stale s cutoff r).
Proof. unfold is_stale. apply _. Defined.

(** [threshold_seconds] is a [u64]; rusqlite refuses to bind one above the
    [i64] range. *)
Definition prune_inactive_nodes (fault : faults) (now : Z) (s threshold_seconds : Z) :
    M (table GraphNodeRow) GraphError (list string) :=
  _ ← lift (reject_if (2 ^ 63 <=? threshold_seconds) (GraphDatabaseError ToSqlConversionFailure));
  catch_map GraphDatabaseError (exec fault 0 (λ db,
    let stale := is_stale s (datetime (now - threshold_seconds)) in
    let pruned := t_select stale db in
    let '(_, db') := t_update stale (λ r, touch false (gn_last_seen_at r) (gn_metadata_json r) r) db in
    (Ok (gn_pseudonym_id <$> pruned), db'))).

(** The upsert of [ensure_graph_node]: on a conflict the metadata is replaced
    only by a value ([COALESCE(?4, metadata_json)]). *)
Definition upsert_node (now : Z) (created : string) (s : Z) (p ty : string)
    (metadata : option string) : M (table GraphNodeRow) sql_error GraphNodeRow := λ db,
  if t_exists (is_node s p) db then
    let '(_, db') := t_update (is_node s p)
      (λ r, touch true (datetime now)
              (match metadata with Some m => Some m | None => gn_metadata_json r end) r) db in
    (query_row (t_select (is_node s p) db') Ok, db')
  else
    let row id :=
      {| gn_id := id; gn_server_id := s; gn_pseudonym_id := p; gn_node_type := ty;
         gn_active := true; gn_last_seen_at := datetime now; gn_metadata_json := metadata;
         gn_created_at := created |} in
    let '(id, db') := t_insert row db in
    (Ok (row id), db').

Definition ensure_graph_node (fault : faults) (now : Z) (created : string) (s : Z) (p : string)
    (node_type : NodeType.t) (metadata : option string) :
    M (table GraphNodeRow) GraphError GraphNode :=
  raw ← catch_map GraphDatabaseError
          (exec fault 0 (upsert_node now created s p (node_type_to_str node_type) metadata));
  lift (node_of_row raw).
End nodes.

Definition get_graph_node (fault : faults) (db : table GraphNodeRow) (s : Z) (p : string) :
    result GraphError (option GraphNode) :=
  rows ← map_err GraphDatabaseError (read fault 0 (t_select (is_node s p) db));
  match rows with
  | r :: _ => node ← node_of_row r; Ok (Some node)
  | [] => Ok None
  end.

(** ** Edges *)

Definition is_edge (s : Z) (from to kind : string) (r : GraphEdgeRow) : Prop :=
  ge_server_id r = s ∧ ge_from_node r = from ∧ ge_to_node r = to ∧ ge_kind r = kind.
#[export] Instance is_edge_dec s from to kind r : Decision (is_edge s from to kind r).
Proof. unfold is_edge. apply _. Defined.

Definition edge_of_row (r : GraphEdgeRow) : result GraphError GraphEdge :=
  kind ← str_to_edge_kind (ge_kind r);
  Ok {| edge_id := ge_id r; edge_server_id := ge_server_id r; edge_from := ge_from_node r;
        edge_to := ge_to_node r; edge_kind := kind; edge_weight := ge_weight r;
        edge_created_at := ge_created_at r |}.

(** The unique index of migration 023 on (server_id, from_node, to_node, kind). *)
Definition create_edge (fault : faults) (created : string) (s : Z) (from to : string)
    (kind : EdgeKind) (weight : f64) : M (table GraphEdgeRow) GraphError GraphEdge :=
  raw ← catch_map GraphDatabaseError (exec fault 0 (λ db,
    if t_exists (is_edge s from to (edge_kind_to_str kind)) db then (Err ConstraintUnique, db)
    else
      let row id :=
        {| ge_id := id; ge_server_id := s; ge_from_node := from; ge_to_node := to;
           ge_kind := edge_kind_to_str kind; ge_weight := weight; ge_created_at := created |} in
      let '(id, db') := t_insert row db in
      (Ok (row id), db')));
  lift (edge_of_row raw).

Definition delete_edge (fault : faults) (s : Z) (from to : string) (kind : EdgeKind) :
    M (table GraphEdgeRow) GraphError nat :=
  catch_map GraphDatabaseError (exec fault 0 (λ db,
    let '(n, db') := t_delete (is_edge s from to (edge_kind_to_str kind)) db in (Ok n, db'))).

Definition edges_from (s : Z) (from : string) (r : GraphEdgeRow) : Prop :=
  ge_server_id r = s ∧ ge_from_node r = from.
Definition edges_to (s : Z) (to : string) (r : GraphEdgeRow) : Prop :=
  ge_server_id r = s ∧ ge_to_node r = to.
#[export] Instance edges_from_dec s p r : Decision (edges_from s p r).
Proof. unfold edges_from. apply _. Defined.
#[export] Instance edges_to_dec s p r : Decision (edges_to s p r).
Proof. unfold edges_to. apply _. Defined.

Fixpoint map_rows {R A E} (f : R → result E A) (rows : list R) : result E (list A) :=
  match rows with
  | [] => Ok []
  | r :: rows => a ← f r; l ← map_rows f rows; Ok (a :: l)
  end.

Definition get_edges (fault : faults) (db : table GraphEdgeRow) (s : Z) (from : string) :
    result GraphError (list GraphEdge) :=
  rows ← map_err GraphDatabaseError (read fault 0 (t_select (edges_from s from) db));
  map_rows edge_of_row rows.

(** ** Breadth-first search *)

Definition bfs_queue : Type := list (string * list string).

(** The inner loop over [neighbors]: either the target is met, or the queue
    and the visited set after it. *)
Fixpoint visit_neighbors (to : string) (current_path : list string) (neighbors : list string)
    (queue : bfs_queue) (visited : gset string) : BfsPath + bfs_queue * gset string :=
  match neighbors with
  | [] => inr (queue, visited)
  | neighbor :: neighbors =>
      if decide (neighbor = to) then
        let new_path := current_path ++ [neighbor] in
        inl {| found := true; path := new_path; path_length := length new_path - 1 |}
      else if decide (neighbor ∈ visited) then
        visit_neighbors to current_path neighbors queue visited
      else
        visit_neighbors to current_path neighbors
          (queue ++ [(neighbor, current_path ++ [neighbor])]) ({[neighbor]} ∪ visited)
  end.

Definition not_found : BfsPath := {| found := false; path := []; path_length := 0 |}.

(** [stmt_out] then [stmt_in]. *)
Definition neighbors_of (db : table GraphEdgeRow) (s : Z) (p : string) : list string :=
  (ge_to_node <$> t_select (edges_from s p) db) ++ (ge_from_node <$> t_select (edges_to s p) db).

(** The [while let] loop; [None] when [fuel] iterations were not enough.
    Iteration [k] runs statements [2 * k] and [2 * k + 1]. *)
Fixpoint bfs_loop (fault : faults) (db : table GraphEdgeRow) (s : Z) (to : string)
    (max_depth : Z) (fuel k : nat) (queue : bfs_queue) (visited : gset string) :
    option (result GraphError BfsPath) :=
  match fuel with
  | O => None
  | S fuel =>
      match queue with
      | [] => Some (Ok not_found)
      | (current_node, current_path) :: queue =>
          if max_depth <? Z.of_nat (length current_path) then
            bfs_loop fault db s to max_depth fuel (S k) queue visited
          else if (MAX_BFS_VISITED_NODES <=? size visited)%nat then Some (Ok not_found)
          else
            match fault (2 * k)%nat, fault (2 * k + 1)%nat with
            | Some code, _ | None, Some code => Some (Err (GraphDatabaseError (SqliteFailure code)))
            | None, None =>
                match visit_neighbors to current_path (neighbors_of db s current_node) queue visited with
                | inl bfs_path => Some (Ok bfs_path)
                | inr (queue, visited) =>
                    bfs_loop fault db s to max_depth fuel (S k) queue visited
                end
            end
      end
  end.

(** Each node of an edge is queued at most once, and the start. *)
Definition bfs_fuel (db : table GraphEdgeRow) : nat := 2 * length (t_rows db) + 2.

Definition find_path_bfs (fault : faults) (db : table GraphEdgeRow) (s : Z) (from to : string)
    (max_depth : Z) : option (result GraphError BfsPath) :=
  if decide (from = to) then Some (Ok {| found := true; path := [from]; path_length := 0 |})
  else bfs_loop fault db s to max_depth (bfs_fuel db) 0 [(from, [from])] {[from]}.

(** ** Visibility *)

Definition visibility_of (p : BfsPath) : VisibilityLevel :=
  if found p then
    match path_length p with
    | 0%nat => Self_
    | 1%nat => Degree1
    | 2%nat => Degree2
    | 3%nat => Degree3
    | _ => VNone
    end
  else VNone.

Definition get_node_visibility (fault : faults) (db : table GraphEdgeRow) (s : Z)
    (viewer target : string) : option (result GraphError VisibilityLevel) :=
  if decide (viewer = target) then Some (Ok Self_)
  else fmap (M := result GraphError) visibility_of <$> find_path_bfs fault db s viewer target 3.

Definition redact (node : GraphNode) (v : VisibilityLevel) : option string * option string :=
  match v with
  | Self_ => (node_last_seen_at node, node_metadata_json node)
  | Degree1 => (node_last_seen_at node, None)
  | Degree2 | Degree3 | AggregateOnly | VNone => (None, None)
  end.

Definition profile_of (node : GraphNode) (visibility : VisibilityLevel) : GraphProfile :=
  let '(last_seen_at, metadata_json) := redact node visibility in
  {| gp_pseudonym_id := node_pseudonym_id node; gp_node_type := node_node_type node;
     gp_active := node_active node; gp_created_at := node_created_at node;
     gp_last_seen_at := last_seen_at; gp_metadata_json := metadata_json;
     gp_visibility := visibility |}.

Definition get_visible_profile (fault : faults) (nodes : table GraphNodeRow)
    (edges : table GraphEdgeRow) (s : Z) (viewer target : string) :
    option (result GraphError GraphProfile) :=
  match get_graph_node fault nodes s target with
  | Ok (Some node) =>
      fmap (M := result GraphError) (profile_of node) <$> get_node_visibility (λ k, fault (S k)) edges s viewer target
  | Ok None => Some (Err (NodeNotFound target))
  | Err e => Some (Err e)
  | Panic => Some Panic
  end.

(** [get_degrees_handler] of api_graph.rs. *)
Definition MAX_BFS_DEPTH : Z := 10.

Definition get_degrees_handler (fault : faults) (db : table GraphEdgeRow) (s : Z)
    (from to : string) (max_depth : Z) : option (result http_error BfsPath) :=
  if MAX_BFS_DEPTH <? max_depth then Some (Err 400)
  else map_err (λ _, 500) <$> find_path_bfs fault db s from to max_depth.

(** [get_profile_handler]; the viewer is the authenticated identity. *)
Definition get_profile_handler (fault : faults) (nodes : table GraphNodeRow)
    (edges : table GraphEdgeRow) (s : Z) (viewer target : string) :
    option (result http_error GraphProfile) :=
  map_err (λ e, match e with NodeNotFound _ => 404 | GraphDatabaseError _ => 500 end)
    <$> get_visible_profile fault nodes edges s viewer target.

(** ** The pruning task: background.rs *)

(** The interval between two rounds, [None] when the task is disabled. *)
Definition pruning_interval (threshold_seconds : Z) : option Z :=
  if threshold_seconds =? 0 then None else Some (clamp 1 60 (threshold_seconds / 2)).

Record PruneState := { ps_nodes : table GraphNodeRow; ps_sink : EventSink;
                       ps_presence : list PresenceEvent.t }.

(** One round: prune, write one event per pruned node, tell the presence
    stream. *)
Definition pruning_round `{Clock, Serde EventPayload.t} (fault : faults) (now : Z) (now_text : string)
    (s threshold_seconds : Z) (st : PruneState) : PruneState :=
  match prune_inactive_nodes fault now s threshold_seconds (ps_nodes st) with
  | (Ok pruned, nodes) =>
      {| ps_nodes := nodes;
         ps_sink := foldl (λ sink p, emit_and_broadcast (λ _, None) now_text s p
                             (EventPayload.NodePruned p) sink) (ps_sink st) pruned;
         ps_presence := ps_presence st ++ (PresenceEvent.NodePruned <$> pruned) |}
  | (_, nodes) =>
      {| ps_nodes := nodes; ps_sink := ps_sink st; ps_presence := ps_presence st |}
  end.

(** * Theorems: the search *)

Section bfs.
Context (db : table GraphEdgeRow) (s : Z) (src to : string) (max_depth : Z).

(** The undirected graph. *)
Definition adjacent (x y : string) : Prop := y ∈ neighbors_of db s x.

Inductive is_path : list string → string → Prop :=
  | path_start : is_path [src] src
  | path_step p x y : is_path p x → adjacent x y → is_path (p ++ [y]) y.

(** The names that occur in an edge of the server. *)
Definition endpoints : gset string :=
  list_to_set (ge_to_node <$> filter (λ r, ge_server_id r = s) (t_rows db)) ∪
  list_to_set (ge_from_node <$> filter (λ r, ge_server_id r = s) (t_rows db)).

Lemma size_list_to_set_le (l : list string) : (size (list_to_set l : gset string) ≤ length l)%nat.
Proof.
  induction l as [|x l IH]; [by rewrite list_to_set_nil, size_empty|].
  rewrite list_to_set_cons, size_union_alt, size_singleton. cbn.
  assert (size ((list_to_set l : gset string) ∖ {[x]}) ≤ size (list_to_set l : gset string))%nat; [|lia].
  apply subseteq_size. set_solver.
Qed.

Lemma adjacent_endpoints x y : adjacent x y → y ∈ endpoints.
Proof.
  unfold adjacent, neighbors_of, endpoints. rewrite elem_of_app, elem_of_union, !elem_of_list_to_set.
  rewrite !list_elem_of_fmap.
  intros [(r & -> & [[? ?] ?]%elem_of_t_select)|(r & -> & [[? ?] ?]%elem_of_t_select)]; [left|right];
    exists r; by rewrite list_elem_of_filter.
Qed.

Lemma is_path_length p x : is_path p x → (1 ≤ length p)%nat.
Proof. destruct 1; [done|]. rewrite length_app. cbn. lia. Qed.

Lemma is_path_nsteps p x : is_path p x → nsteps adjacent (length p - 1) src x.
Proof.
  induction 1 as [|p x y Hp IH Hxy]; [constructor|]. rewrite length_app. cbn.
  pose proof (is_path_length p x Hp). replace (length p + 1 - 1)%nat with (S (length p - 1)) by lia.
  by eapply nsteps_r.
Qed.

Lemma visit_neighbors_spec p ns q V :
  match visit_neighbors to p ns q V with
  | inl r => to ∈ ns ∧ r = {| found := true; path := p ++ [to]; path_length := length p |}
  | inr (q', V') =>
      to ∉ ns ∧ V' = list_to_set ns ∪ V ∧
      ∃ new, q' = q ++ new ∧ (length new + size V = size V')%nat ∧
        (∀ y p', (y, p') ∈ new → y ∈ ns ∧ y ∉ V ∧ p' = p ++ [y]) ∧
        (∀ y, y ∈ ns → y ∈ V ∨ (y, p ++ [y]) ∈ new)
  end.
Proof.
  revert q V. induction ns as [|n ns IH]; intros q V; cbn [visit_neighbors].
  { split; [apply not_elem_of_nil|]. split; [set_solver|]. exists []. rewrite app_nil_r.
    split; [done|]. split; [done|]. split; [by intros y p' ?%not_elem_of_nil|].
    by intros y ?%not_elem_of_nil. }
  case_decide as Hto.
  { subst n. split; [left|]. f_equal. rewrite length_app. cbn. lia. }
  case_decide as HV.
  - specialize (IH q V). destruct (visit_neighbors to p ns q V) as [r|[q' V']].
    + destruct IH as [? ->]. split; [by right|done].
    + destruct IH as (Hn & -> & new & -> & Hsz & Hnew & Hall).
      split; [by rewrite not_elem_of_cons|]. split; [set_solver|]. exists new.
      split; [done|]. split; [done|]. split.
      * intros y p' Hy. destruct (Hnew y p' Hy) as (? & ? & ?). split; [by right|done].
      * intros y [->|Hy]%elem_of_cons; [by left|by apply Hall].
  - specialize (IH (q ++ [(n, p ++ [n])]) ({[n]} ∪ V)).
    destruct (visit_neighbors to p ns _ _) as [r|[q' V']].
    + destruct IH as [? ->]. split; [by right|done].
    + destruct IH as (Hn & -> & new & -> & Hsz & Hnew & Hall).
      split; [by rewrite not_elem_of_cons|]. split; [set_solver|].
      exists ((n, p ++ [n]) :: new). rewrite <- app_assoc. split; [done|].
      rewrite size_union in Hsz by set_solver. rewrite size_singleton in Hsz.
      split; [cbn [length]; lia|]. split.
      * intros y p' [[= -> ->]|Hy]%elem_of_cons; [split; [left|done]|].
        destruct (Hnew y p' Hy) as (? & ? & ?). split; [by right|set_solver].
      * intros y [->|Hy]%elem_of_cons; [right; left|].
        destruct (Hall y Hy) as [[->%elem_of_singleton|]%elem_of_union|];
          [right; left|by left|right; by right].
Qed.

(** The queue holds the frontier of depth [d], then that of [d + 1]. *)
Record bfs_inv (d : nat) (q1 q2 : bfs_queue) (V : gset string) : Prop := {
  inv_path : ∀ x p, (x, p) ∈ q1 ++ q2 → is_path p x;
  inv_level1 : ∀ x p, (x, p) ∈ q1 → length p = S d;
  inv_level2 : ∀ x p, (x, p) ∈ q2 → length p = S (S d);
  inv_shortest : ∀ x p n, (x, p) ∈ q1 ++ q2 → nsteps adjacent n src x → (length p ≤ S n)%nat;
  inv_near : ∀ n y, (n ≤ d)%nat → nsteps adjacent n src y → y ∈ V;
  inv_done : ∀ x, x ∈ V → (∃ p, (x, p) ∈ q1 ++ q2) ∨ ∀ y, adjacent x y → y ∈ V;
  inv_target : to ∉ V;
  inv_bound : V ⊆ {[src]} ∪ endpoints;
}.

Lemma bfs_inv_init : src ≠ to → bfs_inv 0 [(src, [src])] [] {[src]}.
Proof.
  intros Hne. split; cbn [app].
  - intros x p [= -> ->]%list_elem_of_singleton. constructor.
  - by intros x p [= -> ->]%list_elem_of_singleton.
  - by intros x p ?%not_elem_of_nil.
  - intros x p n [= -> ->]%list_elem_of_singleton _. cbn. lia.
  - intros n y Hn Hy. assert (n = 0%nat) as -> by lia. inversion Hy; subst. set_solver.
  - intros x ->%elem_of_singleton. left. exists [src]. left.
  - set_solver.
  - set_solver.
Qed.

(** The frontier of depth [d] is exhausted. *)
Lemma bfs_inv_next d q V : bfs_inv d [] q V → bfs_inv (S d) q [] V.
Proof.
  intros [H1 H2 H3 H4 H5 H6 H7 H8]. cbn [app] in *. split; rewrite ?app_nil_r; try done.
  - by intros x p ?%not_elem_of_nil.
  - intros n y Hn Hy. destruct (decide (n ≤ d)%nat) as [Hle|Hle]; [by apply (H5 n)|].
    assert (n = S d) as -> by lia. apply nsteps_inv_r in Hy as (z & Hz & Hzy).
    destruct (H6 z (H5 d z ltac:(lia) Hz)) as [[p Hp]|Hadj]; [|by apply Hadj].
    specialize (H4 z p d Hp Hz). specialize (H3 z p Hp). lia.
Qed.

(** One iteration on a node of depth [d]. *)
Lemma bfs_inv_step d x p q1 q2 V :
  bfs_inv d ((x, p) :: q1) q2 V →
  match visit_neighbors to p (neighbors_of db s x) (q1 ++ q2) V with
  | inl r =>
      is_path (path r) to ∧ found r = true ∧ path_length r = S d ∧ length (path r) = S (S d) ∧
      ∀ n, nsteps adjacent n src to → (S d ≤ n)%nat
  | inr (q', V') =>
      ∃ new, q' = q1 ++ (q2 ++ new) ∧ bfs_inv d q1 (q2 ++ new) V' ∧
        (length new + size V = size V')%nat ∧ V ⊆ V'
  end.
Proof.
  intros [H1 H2 H3 H4 H5 H6 H7 H8].
  assert (is_path p x) as Hp by (apply H1; left).
  assert (length p = S d) as Hlen by (apply (H2 x); left).
  pose proof (visit_neighbors_spec p (neighbors_of db s x) (q1 ++ q2) V) as HN.
  destruct (visit_neighbors _ _ _ _ _) as [r|[q' V']].
  - destruct HN as [Hto ->]. cbn. split; [by econstructor|]. split; [done|]. split; [done|].
    split; [rewrite length_app; cbn; lia|]. intros n Hn.
    destruct (decide (S d ≤ n)%nat); [done|]. exfalso. apply H7, (H5 n); [lia|done].
  - destruct HN as (Hto & HV' & new & -> & Hsz & Hnew & Hall).
    exists new. rewrite <- app_assoc. split; [done|]. split; [|split; [done|set_solver]].
    assert (∀ y p', (y, p') ∈ q1 ++ q2 ++ new →
              (y, p') ∈ ((x, p) :: q1) ++ q2 ∨ (y, p') ∈ new) as Hcase.
    { intros y p'. cbn [app]. rewrite !elem_of_cons, !elem_of_app. tauto. }
    split.
    + intros y p' [Hy|Hy]%Hcase; [by apply H1|]. destruct (Hnew y p' Hy) as (? & _ & ->).
      by apply (path_step p x).
    + intros y p' Hy. apply (H2 y). by right.
    + intros y p' [Hy|Hy]%elem_of_app; [by apply (H3 y)|].
      destruct (Hnew y p' Hy) as (_ & _ & ->). rewrite length_app. cbn. lia.
    + intros y p' n [Hy|Hy]%Hcase Hn; [by apply (H4 y)|].
      destruct (Hnew y p' Hy) as (_ & HyV & ->). rewrite length_app. cbn.
      destruct (decide (S d ≤ n)%nat); [lia|]. exfalso. apply HyV, (H5 n); [lia|done].
    + intros n y Hn Hy. rewrite HV'. apply elem_of_union. right. by apply (H5 n).
    + intros y Hy. rewrite HV', elem_of_union, elem_of_list_to_set in Hy.
      destruct (decide (y ∈ V)) as [HyV|HyV].
      * destruct (H6 y HyV) as [[p' Hp']|Hadj]; [|right; intros z Hz; rewrite HV'; set_solver].
        cbn [app] in Hp'. apply elem_of_cons in Hp' as [[= -> ->]|Hp'].
        -- right. intros z Hz. rewrite HV', elem_of_union, elem_of_list_to_set. by left.
        -- left. exists p'. rewrite elem_of_app in Hp'. rewrite !elem_of_app. tauto.
      * destruct Hy as [Hy|]; [|done]. destruct (Hall y Hy) as [|Hin]; [done|].
        left. exists (p ++ [y]). rewrite !elem_of_app. tauto.
    + rewrite HV', elem_of_union, elem_of_list_to_set. tauto.
    + rewrite HV'. intros y. rewrite elem_of_union, elem_of_list_to_set.
      intros [Hy|Hy]; [|by apply H8]. apply elem_of_union. right. by eapply adjacent_endpoints.
Qed.

(** What the search promises. *)
Definition bfs_correct (fault : faults) (r : option (result GraphError BfsPath)) : Prop :=
  match r with
  | Some (Ok r) =>
      if found r then
        is_path (path r) to ∧ length (path r) = S (path_length r) ∧
        Z.of_nat (path_length r) ≤ max_depth ∧
        ∀ n, nsteps adjacent n src to → (path_length r ≤ n)%nat
      else
        r = not_found ∧
        ((size ({[src]} ∪ endpoints : gset string) < MAX_BFS_VISITED_NODES)%nat →
         ∀ n, nsteps adjacent n src to → max_depth < Z.of_nat n)
  | Some (Err e) => ∃ k code, fault k = Some code ∧ e = GraphDatabaseError (SqliteFailure code)
  | _ => False
  end.

(** Nothing is left to expand within the depth. *)
Lemma bfs_inv_exhausted d q1 q2 V n :
  bfs_inv d q1 q2 V → q1 ++ q2 = [] ∨ max_depth ≤ Z.of_nat d → nsteps adjacent n src to →
  max_depth < Z.of_nat n.
Proof.
  intros [H1 H2 H3 H4 H5 H6 H7 H8] [Hq|Hd] Hn.
  - exfalso. apply H7. rewrite Hq in H6. clear -H5 H6 Hn.
    assert (src ∈ V) as Hsrc by (apply (H5 0%nat); [lia|constructor]).
    clear H5. revert Hsrc. induction Hn as [|n x y z Hxy Hyz IH]; intros Hx; [done|].
    apply IH. destruct (H6 x Hx) as [[p Hp%not_elem_of_nil]|Hadj]; [done|by apply Hadj].
  - destruct (decide (n ≤ d)%nat) as [Hle|]; [|lia]. exfalso. by apply H7, (H5 n).
Qed.

Lemma size_bound d q1 q2 V :
  bfs_inv d q1 q2 V → (size V ≤ size ({[src]} ∪ endpoints : gset string))%nat.
Proof. intros HI. apply subseteq_size, (inv_bound _ _ _ _ HI). Qed.

(** Too deep: the rest of the queue is skipped. *)
Lemma bfs_loop_skip fault fuel k q V :
  (∀ x p, (x, p) ∈ q → max_depth < Z.of_nat (length p)) → (length q < fuel)%nat →
  bfs_loop fault db s to max_depth fuel k q V = Some (Ok not_found).
Proof.
  revert fuel k. induction q as [|[x p] q IH]; intros [|fuel] k Hq Hf; try (cbn in Hf; lia); [done|].
  cbn [bfs_loop]. rewrite (proj2 (Z.ltb_lt _ _)) by (apply (Hq x); left).
  apply IH; [|cbn in Hf; lia]. intros y p' Hy. apply (Hq y). by right.
Qed.

(** The queue as one frontier and the next, its head in the first. *)
Lemma bfs_inv_head d q1 q2 V x p q :
  bfs_inv d q1 q2 V → (x, p) :: q = q1 ++ q2 →
  ∃ d' q1' q2', q = q1' ++ q2' ∧ bfs_inv d' ((x, p) :: q1') q2' V.
Proof.
  intros HI Hq. destruct q1 as [|c q1]; cbn in Hq.
  - subst q2. apply bfs_inv_next in HI. exists (S d), q, []. by rewrite app_nil_r.
  - injection Hq as <- ->. by exists d, q1, q2.
Qed.

Lemma bfs_loop_correct fault fuel k d q1 q2 q V :
  bfs_inv d q1 q2 V → q = q1 ++ q2 →
  (length q + (size ({[src]} ∪ endpoints : gset string) - size V) < fuel)%nat →
  bfs_correct fault (bfs_loop fault db s to max_depth fuel k q V).
Proof.
  revert k d q1 q2 q V. induction fuel as [|fuel IH]; intros k d q1 q2 q V HI Hq Hfuel; [lia|].
  destruct q as [|[x p] q].
  { cbn. split; [done|]. intros _ n. apply (bfs_inv_exhausted d q1 q2 V); [done|by left]. }
  destruct (bfs_inv_head _ _ _ _ _ _ _ HI Hq) as (d' & q1' & q2' & -> & HI').
  clear d q1 q2 HI Hq. assert (length p = S d') as Hlen by (apply (inv_level1 _ _ _ _ HI' x); left).
  destruct (Z.ltb_spec max_depth (Z.of_nat (length p))) as [Hdeep|Hdeep].
  { rewrite bfs_loop_skip; [|..|cbn [length] in *; lia].
    - split; [done|]. intros _ n. apply (bfs_inv_exhausted _ _ _ _ n HI'). right. lia.
    - intros y p' Hy. change ((x, p) :: q1' ++ q2') with (((x, p) :: q1') ++ q2') in Hy.
      apply elem_of_app in Hy as [Hy|Hy];
        [rewrite (inv_level1 _ _ _ _ HI' y p' Hy)|rewrite (inv_level2 _ _ _ _ HI' y p' Hy)]; lia. }
  cbn [bfs_loop]. rewrite (proj2 (Z.ltb_ge _ _)) by lia.
  pose proof (size_bound _ _ _ _ HI') as Hsize.
  destruct (Nat.leb_spec MAX_BFS_VISITED_NODES (size V)) as [Hcap|Hcap].
  { split; [done|]. intros Hsmall n Hn. exfalso. lia. }
  destruct (fault (2 * k)%nat) as [code|] eqn:E1; [cbn; by exists (2 * k)%nat, code|].
  destruct (fault (2 * k + 1)%nat) as [code|] eqn:E2; [cbn; by exists (2 * k + 1)%nat, code|].
  pose proof (bfs_inv_step _ _ _ _ _ _ HI') as Hstep.
  destruct (visit_neighbors _ _ _ _ _) as [r|[q' V']].
  - destruct Hstep as (Hp & Hf & Hl & Hlp & Hmin). cbn. rewrite Hf, Hl, Hlp.
    split; [done|]. split; [done|]. split; [lia|done].
  - destruct Hstep as (new & -> & HI'' & Hsz & _).
    apply (IH _ d' q1' (q2' ++ new)); [done|done|].
    pose proof (size_bound _ _ _ _ HI''). rewrite !length_app in *. cbn [length] in Hfuel. 
    rewrite length_app in Hfuel. lia.
Qed.

Lemma endpoints_size : (size endpoints ≤ 2 * length (t_rows db))%nat.
Proof.
  unfold endpoints.
  set (rows := filter (λ r, ge_server_id r = s) (t_rows db)).
  assert (length rows ≤ length (t_rows db))%nat by apply length_filter.
  pose proof (size_union_alt (list_to_set (ge_to_node <$> rows) : gset string)
                (list_to_set (ge_from_node <$> rows))) as Hu.
  pose proof (size_list_to_set_le (ge_to_node <$> rows)).
  assert (size ((list_to_set (ge_from_node <$> rows) : gset string) ∖ list_to_set (ge_to_node <$> rows))
          ≤ length (ge_from_node <$> rows))%nat.
  { etransitivity; [|apply size_list_to_set_le]. apply subseteq_size. set_solver. }
  rewrite !length_fmap in *. lia.
Qed.

Lemma find_path_bfs_correct fault :
  src ≠ to → bfs_correct fault (find_path_bfs fault db s src to max_depth).
Proof.
  intros Hne. unfold find_path_bfs. rewrite decide_False by done.
  apply (bfs_loop_correct fault _ 0 0 [(src, [src])] []); [by apply bfs_inv_init|done|].
  pose proof endpoints_size. unfold bfs_fuel.
  pose proof (size_union_alt ({[src]} : gset string) endpoints) as Hu. rewrite size_singleton in *.
  assert (size (endpoints ∖ {[src]}) ≤ size endpoints)%nat by (apply subseteq_size; set_solver).
  cbn [length]. lia.
Qed.
End bfs.

(** C29. Breadth-first search is correct and total: it always answers within
    its iterations; a path it returns is a path of the undirected graph from
    the start to the target, of minimal length and within the depth; if it
    answers that there is none, every walk to the target is longer than the
    depth, provided the server's graph has fewer than
    [MAX_BFS_VISITED_NODES] nodes; an error is a failed statement. *)
Theorem find_path_bfs_shortest fault db s src to max_depth :
  0 ≤ max_depth →
  match find_path_bfs fault db s src to max_depth with
  | Some (Ok r) =>
      if found r then
        is_path db s src (path r) to ∧ length (path r) = S (path_length r) ∧
        Z.of_nat (path_length r) ≤ max_depth ∧
        ∀ n, nsteps (adjacent db s) n src to → (path_length r ≤ n)%nat
      else
        path r = [] ∧
        ((size ({[src]} ∪ endpoints db s : gset string) < MAX_BFS_VISITED_NODES)%nat →
         ∀ n, nsteps (adjacent db s) n src to → max_depth < Z.of_nat n)
  | Some (Err e) => ∃ k code, fault k = Some code ∧ e = GraphDatabaseError (SqliteFailure code)
  | Some Panic | None => False
  end.
Proof.
  intros Hd. destruct (decide (src = to)) as [<-|Hne].
  - unfold find_path_bfs. rewrite decide_True by done. cbn. split; [constructor|].
    split; [done|]. split; [lia|]. intros. lia.
  - pose proof (find_path_bfs_correct db s src to max_depth fault Hne) as H. unfold bfs_correct in H.
    destruct (find_path_bfs _ _ _ _ _ _) as [[r|e|]|]; [|done..].
    destruct (found r); [done|]. destruct H as [-> H]. done.
Qed.

(** The distance of two names in the graph. *)
Definition distance (db : table GraphEdgeRow) (s : Z) (x y : string) (n : nat) : Prop :=
  nsteps (adjacent db s) n x y ∧ ∀ m, nsteps (adjacent db s) m x y → (n ≤ m)%nat.

Definition small_graph (db : table GraphEdgeRow) (s : Z) (x : string) : Prop :=
  (size ({[x]} ∪ endpoints db s : gset string) < MAX_BFS_VISITED_NODES)%nat.

Lemma nsteps_0 db s x y : nsteps (adjacent db s) 0 x y ↔ x = y.
Proof. split; [by inversion 1|intros ->; constructor]. Qed.

Lemma visibility_distance db s viewer target :
  small_graph db s viewer → viewer ≠ target →
  ∃ r, find_path_bfs no_fault db s viewer target 3 = Some (Ok r) ∧
    (if found r then distance db s viewer target (path_length r) ∧ (1 ≤ path_length r ≤ 3)%nat
     else ∀ n, nsteps (adjacent db s) n viewer target → (3 < n)%nat).
Proof.
  intros Hs Hne. pose proof (find_path_bfs_correct db s viewer target 3 no_fault Hne) as H.
  unfold bfs_correct in H.
  destruct (find_path_bfs _ _ _ _ _ _) as [[r|e|]|]; [|by destruct H as (k & code & [=] & _)|done..].
  exists r. split; [done|]. destruct (found r).
  - destruct H as (Hp & Hl & Hd & Hmin). pose proof (is_path_nsteps _ _ _ _ _ Hp) as Hn.
    rewrite Hl in Hn. cbn in Hn. rewrite Nat.sub_0_r in Hn. split; [by split|].
    split; [|lia]. destruct (path_length r) eqn:E; [|lia]. by apply nsteps_0 in Hn.
  - intros n Hn. destruct H as [_ H]. specialize (H Hs n Hn). lia.
Qed.

(** Visibility is by degree of separation: for an existing node and a
    graph below the search cap, the profile is that of the node with
    visibility [Self_] for the viewer itself, [Degree1], [Degree2] or
    [Degree3] exactly at distance 1, 2 or 3, and [VNone] beyond; the time a
    node was last seen is disclosed only to itself and its neighbours, its
    metadata only to itself, and the other fields to everyone. *)
Theorem visible_profile_spec nodes edges s viewer target node :
  get_graph_node no_fault nodes s target = Ok (Some node) → small_graph edges s viewer →
  ∃ p, get_visible_profile no_fault nodes edges s viewer target = Some (Ok p) ∧
    (gp_visibility p = Self_ ↔ viewer = target) ∧
    (gp_visibility p = Degree1 ↔ distance edges s viewer target 1) ∧
    (gp_visibility p = Degree2 ↔ distance edges s viewer target 2) ∧
    (gp_visibility p = Degree3 ↔ distance edges s viewer target 3) ∧
    (gp_visibility p = VNone ↔ ∀ n, nsteps (adjacent edges s) n viewer target → (3 < n)%nat) ∧
    (gp_last_seen_at p = if decide (viewer = target ∨ gp_visibility p = Degree1)
                         then node_last_seen_at node else None) ∧
    (gp_metadata_json p = if decide (viewer = target) then node_metadata_json node else None) ∧
    gp_pseudonym_id p = node_pseudonym_id node ∧ gp_active p = node_active node.
Proof.
  intros Hnode Hsmall. unfold get_visible_profile, get_node_visibility. rewrite Hnode.
  destruct (decide (viewer = target)) as [<-|Hne].
  { exists (profile_of node Self_). split; [done|]. cbn.
    rewrite (decide_True (P := viewer = viewer ∨ _)) by (by left).
    assert (∀ n, distance edges s viewer viewer (S n) → False) as Hd.
    { intros n [_ H]. specialize (H 0%nat ltac:(by apply nsteps_0)). lia. }
    split_and!; try done; split; try done; intros H; exfalso;
      first [by eapply Hd|specialize (H 0%nat ltac:(by apply nsteps_0)); lia]. }
  change (λ k, no_fault (S k)) with no_fault.
  destruct (visibility_distance edges s viewer target Hsmall Hne) as (r & -> & Hr).
  exists (profile_of node (visibility_of r)). split; [done|]. unfold visibility_of.
  assert (∀ m n, distance edges s viewer target m → distance edges s viewer target n → m = n) as Hu.
  { intros m n [Hm Hm'] [Hn Hn']. specialize (Hm' n Hn). specialize (Hn' m Hm). lia. }
  destruct (found r).
  - destruct Hr as [Hd Hl].
    assert (∀ n, n ≠ path_length r → ¬ distance edges s viewer target n) as Hno.
    { intros n Hn Hd'. by apply Hn, Hu. }
    pose proof (proj1 Hd) as Hsteps.
    destruct (path_length r) as [|[|[|[|k]]]]; try lia; cbn;
      (case_decide as Hc; [destruct Hc as [?|?]; [done|]|]);
      split_and!; try done;
      try (split; [done|first [done|intros Hx; exfalso;
        first [by (eapply Hno; [|exact Hx])|specialize (Hx _ Hsteps); lia]]]); exfalso; tauto.
  - cbn. case_decide as Hc; [by destruct Hc|].
    split_and!; try done; split; try done; intros [H _]; specialize (Hr _ H); lia.
Qed.

(** ** Activity *)

Section activity.
Context `{CK : Clock, !ClockLaws CK}.
Implicit Types nodes : table GraphNodeRow.

(** Rows are unique, and [last_seen_at] is a time the clock rendered. *)
Record nodes_wf nodes : Prop := {
  nw_ids : ids_ok gn_id nodes;
  nw_unique : ∀ r1 r2, r1 ∈ t_rows nodes → r2 ∈ t_rows nodes →
    gn_server_id r1 = gn_server_id r2 → gn_pseudonym_id r1 = gn_pseudonym_id r2 → r1 = r2;
  nw_seen : ∀ r x, r ∈ t_rows nodes → gn_last_seen_at r = Some x →
    ∃ t, in_range t ∧ datetime t = Some x;
}.

(** The time a row was last seen. *)
Definition last_seen (r : GraphNodeRow) (t : Z) : Prop :=
  in_range t ∧ datetime t = gn_last_seen_at r ∧ is_Some (gn_last_seen_at r).

Lemma seen_before_spec nodes r c :
  nodes_wf nodes → r ∈ t_rows nodes → in_range c →
  seen_before (datetime c) r = true ↔ ∃ t, last_seen r t ∧ t < c.
Proof.
  intros HW Hr Hc. destruct (datetime_total c Hc) as [ct Hct]. unfold seen_before, last_seen.
  rewrite Hct. destruct (gn_last_seen_at r) as [x|] eqn:E.
  - destruct (nw_seen _ HW r x Hr E) as (t & Ht & Hx). rewrite <- (datetime_lt t c x ct Ht Hc Hx Hct).
    split; [intros; exists t; eauto|]. intros (t' & (Ht' & Hx' & _) & Hlt).
    apply (datetime_lt t c x ct Ht Hc Hx Hct). by apply (datetime_lt t' c x ct Ht' Hc Hx' Hct).
  - split; [done|]. intros (t & (_ & _ & [? [=]]) & _).
Qed.

(** The deactivation of a row. *)
Definition pruned_row (r : GraphNodeRow) : GraphNodeRow :=
  touch false (gn_last_seen_at r) (gn_metadata_json r) r.

(** Pruning is exact: for times in range, the nodes deactivated (and
    reported, in table order) are those of this server that are active and
    were last seen strictly more than the threshold ago; every other row,
    in particular one never seen, is untouched. *)
Theorem prune_inactive_nodes_spec fault now s threshold nodes :
  nodes_wf nodes → in_range now → in_range (now - threshold) → threshold < 2 ^ 63 →
  fault 0%nat = None →
  ∃ pruned nodes', prune_inactive_nodes fault now s threshold nodes = (Ok pruned, nodes') ∧
    nodes_wf nodes' ∧
    (∀ p, p ∈ pruned ↔ ∃ r t, r ∈ t_rows nodes ∧ gn_pseudonym_id r = p ∧ gn_server_id r = s ∧
       gn_active r = true ∧ last_seen r t ∧ threshold < now - t) ∧
    t_rows nodes' = (λ r, if decide (gn_server_id r = s ∧ gn_pseudonym_id r ∈ pruned)
                          then pruned_row r else r) <$> t_rows nodes.
Proof.
  intros HW Hnow Hcut Hth Hf. unfold prune_inactive_nodes. run_M.
  rewrite (proj2 (Z.leb_gt _ _)) by lia. rewrite exec_ok by done. unfold t_update. run_M.
  set (stale := is_stale s (datetime (now - threshold))).
  assert (∀ r, r ∈ t_rows nodes → stale r ↔ gn_server_id r = s ∧ gn_active r = true ∧
            ∃ t, last_seen r t ∧ t < now - threshold) as Hstale.
  { intros r Hr. unfold stale, is_stale. by rewrite (seen_before_spec nodes r _ HW Hr Hcut). }
  eexists _, _. split; [done|]. split; [|split].
  - split.
    + by apply (ids_ok_update gn_id stale pruned_row), HW.
    + cbn [t_rows]. intros r1 r2 (x1 & -> & H1)%list_elem_of_fmap (x2 & -> & H2)%list_elem_of_fmap Hs Hp.
      assert (x1 = x2) as ->; [|done].
      apply (nw_unique _ HW); [done..| |]; repeat case_decide; done.
    + cbn [t_rows]. intros r x (y & -> & Hy)%list_elem_of_fmap.
      case_decide; apply (nw_seen _ HW y x Hy).
  - intros p. rewrite list_elem_of_fmap. setoid_rewrite elem_of_t_select. split.
    + intros (r & -> & Hr & Hin). apply Hstale in Hr as (? & ? & t & ? & ?); [|done].
      exists r, t. split_and!; try done. lia.
    + intros (r & t & Hr & <- & Hs & Ha & Hseen & Hlt). exists r. split; [done|]. split; [|done].
      apply Hstale; [done|]. split; [done|]. split; [done|]. exists t. split; [done|lia].
  - apply list_fmap_ext. intros i r Hr%list_elem_of_lookup_2. cbn.
    assert (stale r ↔ gn_server_id r = s ∧ gn_pseudonym_id r ∈ gn_pseudonym_id <$> t_select stale nodes) as Hiff.
    { split.
      - intros Hst. split; [by apply Hst|]. apply list_elem_of_fmap_2, elem_of_t_select. done.
      - intros [Hs (r' & Hp & [Hst' Hr']%elem_of_t_select)%list_elem_of_fmap].
        assert (r = r') as ->; [|done]. apply (nw_unique _ HW); [done..| |done].
        rewrite Hs. symmetry. apply Hst'. }
    destruct (decide (stale r)) as [H1|H1], (decide _) as [H2|H2]; first [done|exfalso; tauto].
Qed.

(** Activity: [update_node_activity] reports a reactivation exactly for
    a node that exists and is inactive (deactivated by pruning, say); then
    and for an active node, that node becomes active and last seen now, with
    its other fields unchanged, and no other row changes; for a missing node
    nothing changes. *)
Theorem update_node_activity_spec fault now s p nodes :
  nodes_wf nodes → in_range now → fault 0%nat = None → fault 1%nat = None →
  let '(res, nodes') := update_node_activity fault now s p nodes in
  nodes_wf nodes' ∧
  (res = Ok true ↔ ∃ r, r ∈ t_rows nodes ∧ is_node s p r ∧ gn_active r = false) ∧
  (res = Ok true ∨ res = Ok false) ∧
  t_rows nodes' = (λ r, if decide (is_node s p r)
                        then touch true (datetime now) (gn_metadata_json r) r else r) <$> t_rows nodes.
Proof.
  intros HW Hnow Hf0 Hf1. unfold update_node_activity, update_node_stmt.
  rewrite !exec_ok by done. run_M.
  set (upd := λ r, touch true (datetime now) (gn_metadata_json r) r).
  assert (∀ P `{!∀ r, Decision (P r)}, nodes_wf (t_update P upd nodes).2) as Hwf.
  { intros P HP. split; cbn [t_update snd t_rows].
    - by apply (ids_ok_update gn_id P upd), HW.
    - intros r1 r2 (x1 & -> & H1)%list_elem_of_fmap (x2 & -> & H2)%list_elem_of_fmap Hs Hp.
      assert (x1 = x2) as ->; [|done].
      apply (nw_unique _ HW); [done..| |]; repeat case_decide; done.
    - intros r x (y & -> & Hy)%list_elem_of_fmap. case_decide; [|apply (nw_seen _ HW y x Hy)].
      intros Hx. by exists now. }
  assert (∀ a r, r ∈ t_rows nodes → is_node s p r → gn_active r = a → ∀ r', r' ∈ t_rows nodes →
            (is_node s p r' ∧ gn_active r' = a) ↔ is_node s p r') as Huniq.
  { intros a r Hr [Hs Hp] Ha r' Hr'. split; [tauto|]. intros [Hs' Hp']. split; [done|].
    assert (r' = r) as ->; [|done]. apply (nw_unique _ HW); congruence. }
  assert (∀ a r, r ∈ t_rows nodes → is_node s p r → gn_active r = a →
            ((λ r, if decide (is_node s p r ∧ gn_active r = a) then upd r else r) <$> t_rows nodes) =
            ((λ r, if decide (is_node s p r) then upd r else r) <$> t_rows nodes)) as Hrows.
  { intros a r Hr Hn Ha. apply list_fmap_ext. intros i r' Hr'%list_elem_of_lookup_2.
    apply decide_ext, (Huniq a r); done. }
  destruct (t_exists (λ r, is_node s p r ∧ gn_active r = true) nodes) eqn:E1.
  - pose proof (Hwf (λ r, is_node s p r ∧ gn_active r = true) _) as Hw.
    assert ((t_update (λ r, is_node s p r ∧ gn_active r = true) upd nodes).1 ≠ 0%nat) as Hne.
    { rewrite t_update_count, E1. done. }
    apply t_exists_spec in E1 as (r & Hr & Hn & Ha).
    unfold t_update in *. cbn [fst snd map_err] in *. rewrite (proj2 (Nat.ltb_lt _ _)) by lia.
    split; [done|]. split; [|split; [by right|by apply (Hrows true r)]]. split; [done|].
    intros (r' & Hr' & Hn' & Ha'). exfalso.
    assert (r' = r) as -> by (destruct Hn, Hn'; apply (nw_unique _ HW); congruence). congruence.
  - rewrite t_update_none by done. cbn [fst snd map_err]. rewrite Nat.ltb_irrefl.
    destruct (t_exists (λ r, is_node s p r ∧ gn_active r = false) nodes) eqn:E2.
    + pose proof (Hwf (λ r, is_node s p r ∧ gn_active r = false) _) as Hw.
      assert ((t_update (λ r, is_node s p r ∧ gn_active r = false) upd nodes).1 ≠ 0%nat) as Hne.
      { rewrite t_update_count, E2. done. }
      apply t_exists_spec in E2 as (r & Hr & Hn & Ha).
      unfold t_update in *. cbn [fst snd map_err] in *. rewrite (proj2 (Nat.ltb_lt _ _)) by lia.
      split; [done|]. split; [split; [intros _; by exists r|done]|].
      split; [by left|by apply (Hrows false r)].
    + rewrite t_update_none by done. cbn [fst snd map_err]. rewrite Nat.ltb_irrefl. split; [done|].
      pose proof (proj1 (t_exists_false _ _) E1) as H1. pose proof (proj1 (t_exists_false _ _) E2) as H2.
      split; [split; [done|]|split; [by right|]].
      * intros (r & Hr & Hn & Ha). exfalso. by apply (H2 r Hr).
      * symmetry. apply list_fmap_fixed. intros r Hr. apply decide_False.
        intros Hn. destruct (gn_active r) eqn:Ha; [by apply (H1 r Hr)|by apply (H2 r Hr)].
Qed.
End activity.

(** ** Witnesses *)

Section witnesses.
#[local] Existing Instance toy_clock.

Definition toy_edge (i : Z) (a b : string) : GraphEdgeRow :=
  {| ge_id := i; ge_server_id := 1; ge_from_node := a; ge_to_node := b; ge_kind := "CONNECTED";
     ge_weight := f32_one; ge_created_at := "" |}.
Definition toy_edges : table GraphEdgeRow := Table [toy_edge 1 "a" "b"; toy_edge 2 "c" "b"] 2.

Definition toy_node (p : string) (a : bool) (seen : Z) : GraphNodeRow :=
  {| gn_id := 1; gn_server_id := 1; gn_pseudonym_id := p; gn_node_type := "HUMAN"; gn_active := a;
     gn_last_seen_at := datetime seen; gn_metadata_json := Some "{}"; gn_created_at := "" |}.
Definition toy_nodes (a : bool) : table GraphNodeRow := Table [toy_node "c" a 1000] 1.

Lemma toy_nodes_wf a : nodes_wf (toy_nodes a).
Proof.
  split.
  - split; repeat constructor; done.
  - by intros r1 r2 ->%list_elem_of_singleton ->%list_elem_of_singleton.
  - intros r x ->%list_elem_of_singleton Hx. exists 1000. split; [|done]. by vm_compute.
Qed.

Lemma find_path_bfs_shortest_witness :
  find_path_bfs no_fault toy_edges 1 "a" "c" 3 =
    Some (Ok {| found := true; path := ["a"; "b"; "c"]; path_length := 2 |}) ∧
  ∀ n, nsteps (adjacent toy_edges 1) n "a" "c" → (2 ≤ n)%nat.
Proof.
  split; [vm_compute; reflexivity|].
  pose proof (find_path_bfs_shortest no_fault toy_edges 1 "a" "c" 3 ltac:(lia)) as H.
  assert (find_path_bfs no_fault toy_edges 1 "a" "c" 3 =
    Some (Ok {| found := true; path := ["a"; "b"; "c"]; path_length := 2 |})) as E
    by (vm_compute; reflexivity).
  rewrite E in H. exact (proj2 (proj2 (proj2 H))).
Defined.

Lemma visible_profile_spec_witness :
  ∃ p, get_visible_profile no_fault (toy_nodes true) toy_edges 1 "a" "c" = Some (Ok p) ∧
       gp_metadata_json p = None.
Proof.
  destruct (visible_profile_spec (toy_nodes true) toy_edges 1 "a" "c"
              {| node_id := 1; node_server_id := 1; node_pseudonym_id := "c";
                 node_node_type := NodeType.Human; node_active := true;
                 node_last_seen_at := datetime 1000; node_metadata_json := Some "{}";
                 node_created_at := "" |} ltac:(reflexivity)
              ltac:(unfold small_graph; apply Nat.ltb_lt; vm_compute; reflexivity))
    as (p & Hp & _ & _ & _ & _ & _ & _ & Hm & _).
  exists p. split; [exact Hp|exact Hm].
Defined.

Lemma prune_inactive_nodes_spec_witness :
  ∃ pruned nodes', nodes_wf (toy_nodes true) ∧
    prune_inactive_nodes no_fault 2000 1 300 (toy_nodes true) = (Ok pruned, nodes') ∧ "c" ∈ pruned.
Proof.
  destruct (prune_inactive_nodes_spec no_fault 2000 1 300 (toy_nodes true) (toy_nodes_wf true)
              ltac:(vm_compute; split; discriminate) ltac:(vm_compute; split; discriminate)
              ltac:(lia) eq_refl) as (pruned & nodes' & E & _ & Hp & _).
  exists pruned, nodes'. split; [exact (toy_nodes_wf true)|]. split; [exact E|]. apply Hp.
  exists (toy_node "c" true 1000), 1000. split; [left|]. do 3 (split; [reflexivity|]).
  split; [|lia]. split; [vm_compute; split; discriminate|]. split; [reflexivity|by eexists].
Defined.

Lemma update_node_activity_spec_witness :
  nodes_wf (toy_nodes false) ∧
  (update_node_activity no_fault 2000 1 "c" (toy_nodes false)).1 = Ok true.
Proof.
  split; [exact (toy_nodes_wf false)|].
  pose proof (update_node_activity_spec no_fault 2000 1 "c" (toy_nodes false) (toy_nodes_wf false)
                ltac:(vm_compute; split; discriminate) eq_refl eq_refl) as H.
  destruct (update_node_activity no_fault 2000 1 "c" (toy_nodes false)) as [res nodes'].
  apply (proj1 (proj2 H)). exists (toy_node "c" false 1000). split; [left|]. split; [split; reflexivity|reflexivity].
Defined.
End witnesses.
