(* ===== verification/Channels.v ===== *)
(** * Channels: crates/annex-channels

    Channels, their members and messages: the tables of migrations 009, 010,
    011 and 029 with their UNIQUE and FOREIGN KEY constraints (the pool
    switches foreign keys on), the operations of lib.rs, and one round of the
    retention task of crates/annex-server/src/retention.rs. *)

From S2P Require Import Prelude Sql Bytes Types Identity Platform.

#[local] Open Scope Z_scope.

Inductive ChannelError :=
  | Database (e : sql_error)
  | NotFound (what : string).

(** ** Tables *)

Record ChannelRow := {
  ch_id : Z;
  ch_server_id : Z;
  ch_channel_id : string;
  ch_name : string;
  ch_channel_type : string;
  ch_topic : option string;
  ch_vrp_topic_binding : option string;
  ch_required_capabilities_json : option string;
  ch_agent_min_alignment : option string;
  ch_retention_days : option Z;
  ch_federation_scope : string;
  ch_created_at : string;
}.

Record Message := {
  m_id : Z;
  m_server_id : Z;
  m_channel_id : string;
  m_message_id : string;
  m_sender_pseudonym : string;
  m_content : string;
  m_reply_to : option string;
  m_created_at : string;
  m_expires_at : option string;
  m_edited_at : option string;
  m_deleted_at : option string;
}.

Record MessageEdit := {
  e_id : Z;
  e_message_id : string;
  e_old_content : string;
  e_edited_at : string;
}.

Record ChannelMember := {
  cm_id : Z;
  cm_server_id : Z;
  cm_channel_id : string;
  cm_pseudonym_id : string;
  cm_role : string;
  cm_joined_at : string;
}.

(** The tables the operations write, and the two they only read: the policy
    text of every server, and the platform identities. *)
Record ChannelDb := {
  channels : table ChannelRow;
  messages : table Message;
  message_edits : table MessageEdit;
  channel_members : table ChannelMember;
  servers : gmap Z string;
  identities : table PlatformRow;
}.

Definition set_channels (t : table ChannelRow) (db : ChannelDb) : ChannelDb :=
  {| channels := t; messages := messages db; message_edits := message_edits db;
     channel_members := channel_members db; servers := servers db; identities := identities db |}.
Definition set_messages (t : table Message) (db : ChannelDb) : ChannelDb :=
  {| channels := channels db; messages := t; message_edits := message_edits db;
     channel_members := channel_members db; servers := servers db; identities := identities db |}.
Definition set_edits (t : table MessageEdit) (db : ChannelDb) : ChannelDb :=
  {| channels := channels db; messages := messages db; message_edits := t;
     channel_members := channel_members db; servers := servers db; identities := identities db |}.
Definition set_members (t : table ChannelMember) (db : ChannelDb) : ChannelDb :=
  {| channels := channels db; messages := messages db; message_edits := message_edits db;
     channel_members := t; servers := servers db; identities := identities db |}.

(** ** WHERE clauses *)

Definition channel_is (c : string) (r : ChannelRow) : Prop := ch_channel_id r = c.
#[export] Instance channel_is_dec c r : Decision (channel_is c r).
Proof. unfold channel_is. apply _. Defined.
Definition channel_on (s : Z) (r : ChannelRow) : Prop := ch_server_id r = s.
#[export] Instance channel_on_dec s r : Decision (channel_on s r).
Proof. unfold channel_on. apply _. Defined.
Definition message_is (m : string) (r : Message) : Prop := m_message_id r = m.
#[export] Instance message_is_dec m r : Decision (message_is m r).
Proof. unfold message_is. apply _. Defined.
Definition message_in (c : string) (r : Message) : Prop := m_channel_id r = c.
#[export] Instance message_in_dec c r : Decision (message_in c r).
Proof. unfold message_in. apply _. Defined.
Definition edit_of (m : string) (r : MessageEdit) : Prop := e_message_id r = m.
#[export] Instance edit_of_dec m r : Decision (edit_of m r).
Proof. unfold edit_of. apply _. Defined.
Definition member_of (c : string) (r : ChannelMember) : Prop := cm_channel_id r = c.
#[export] Instance member_of_dec c r : Decision (member_of c r).
Proof. unfold member_of. apply _. Defined.
(** [channel_id = ? AND pseudonym_id = ?], the UNIQUE key of the members. *)
Definition member_key (c p : string) (r : ChannelMember) : Prop :=
  cm_channel_id r = c ∧ cm_pseudonym_id r = p.
#[export] Instance member_key_dec c p r : Decision (member_key c p r).
Proof. unfold member_key. apply _. Defined.
Definition member_at (s : Z) (c p : string) (r : ChannelMember) : Prop :=
  cm_server_id r = s ∧ cm_channel_id r = c ∧ cm_pseudonym_id r = p.
#[export] Instance member_at_dec s c p r : Decision (member_at s c p r).
Proof. unfold member_at. apply _. Defined.

(** [DELETE FROM messages WHERE P]: refused when an edit still references
    one of the rows. *)
Definition delete_messages (P : Message → Prop) `{!∀ r, Decision (P r)} :
    M ChannelDb sql_error nat := λ db,
  if bool_decide (Exists (λ m, t_exists (edit_of (m_message_id m)) (message_edits db) = true)
                    (t_select P (messages db)))
  then (Err ConstraintForeignKey, db)
  else let '(n, t) := t_delete P (messages db) in (Ok n, set_messages t db).

(** [.optional()?.ok_or_else(NotFound)]. *)
Definition found {A} (what : string) (r : result sql_error A) : result ChannelError A :=
  match r with
  | Ok a => Ok a
  | Err QueryReturnedNoRows => Err (NotFound what)
  | Err e => Err (Database e)
  | Panic => Panic
  end.

(** ** Channels *)

Record Channel := {
  c_id : Z;
  c_server_id : Z;
  c_channel_id : string;
  c_name : string;
  c_channel_type : ChannelType;
  c_topic : option string;
  c_vrp_topic_binding : option string;
  c_required_capabilities_json : option string;
  c_agent_min_alignment : option AlignmentStatus.t;
  c_retention_days : option Z;
  c_federation_scope : FederationScope;
  c_created_at : string;
}.

Record CreateChannelParams := {
  cc_server_id : Z;
  cc_channel_id : string;
  cc_name : string;
  cc_channel_type : ChannelType;
  cc_topic : option string;
  cc_vrp_topic_binding : option string;
  cc_required_capabilities_json : option string;
  cc_agent_min_alignment : option AlignmentStatus.t;
  cc_retention_days : option Z;
  cc_federation_scope : FederationScope;
}.

Record UpdateChannelParams := {
  uc_name : option string;
  uc_topic : option string;
  uc_vrp_topic_binding : option string;
  uc_required_capabilities_json : option string;
  uc_agent_min_alignment : option AlignmentStatus.t;
  uc_retention_days : option Z;
  uc_federation_scope : option FederationScope;
}.

Section operations.
Context `{ST : Serde ChannelType, SF : Serde FederationScope, SA : Serde AlignmentStatus.t}.
Context `{SP : Serde ServerPolicy, CK : Clock}.

(** [INSERT INTO channels]: UNIQUE (channel_id), FOREIGN KEY (server_id). *)
Definition insert_channel (now : string) (p : CreateChannelParams) : M ChannelDb sql_error unit := λ db,
  if t_exists (channel_is (cc_channel_id p)) (channels db) then (Err ConstraintUnique, db)
  else if bool_decide (servers db !! cc_server_id p = None) then (Err ConstraintForeignKey, db)
  else (Ok (), set_channels (t_insert (λ id,
    {| ch_id := id; ch_server_id := cc_server_id p; ch_channel_id := cc_channel_id p;
       ch_name := cc_name p; ch_channel_type := to_json (cc_channel_type p); ch_topic := cc_topic p;
       ch_vrp_topic_binding := cc_vrp_topic_binding p;
       ch_required_capabilities_json := cc_required_capabilities_json p;
       ch_agent_min_alignment := to_json <$> cc_agent_min_alignment p;
       ch_retention_days := cc_retention_days p;
       ch_federation_scope := to_json (cc_federation_scope p); ch_created_at := now |})
    (channels db)).2 db).

Definition create_channel (fault : faults) (now : string) (p : CreateChannelParams) :
    M ChannelDb ChannelError unit :=
  catch_map Database (exec fault 0 (insert_channel now p)).

(** [row.get(col)?] as an [Option<u32>]. *)
Definition in_u32 (v : option Z) : bool :=
  match v with Some v => (0 <=? v) && (v <? 2 ^ 32) | None => true end.
Definition get_u32 (col : nat) (v : option Z) : result sql_error (option Z) :=
  if in_u32 v then Ok v else Err (IntegralValueOutOfRange col).

Definition map_row_to_channel (r : ChannelRow) : result sql_error Channel :=
  channel_type ← ok_or (from_json (ch_channel_type r)) (FromSqlConversionFailure 4);
  agent_min_alignment ← (match ch_agent_min_alignment r with
                         | Some s => Some <$> ok_or (from_json s) (FromSqlConversionFailure 8)
                         | None => Ok None
                         end);
  retention_days ← get_u32 9 (ch_retention_days r);
  federation_scope ← ok_or (from_json (ch_federation_scope r)) (FromSqlConversionFailure 10);
  Ok {| c_id := ch_id r; c_server_id := ch_server_id r; c_channel_id := ch_channel_id r;
        c_name := ch_name r; c_channel_type := channel_type; c_topic := ch_topic r;
        c_vrp_topic_binding := ch_vrp_topic_binding r;
        c_required_capabilities_json := ch_required_capabilities_json r;
        c_agent_min_alignment := agent_min_alignment; c_retention_days := retention_days;
        c_federation_scope := federation_scope; c_created_at := ch_created_at r |}.

Definition get_channel (fault : faults) (channel_id : string) (db : ChannelDb) :
    result ChannelError Channel :=
  found channel_id
    (rows ← read fault 0 (t_select (channel_is channel_id) (channels db));
     query_row rows map_row_to_channel).

(** [for row in rows { channels.push(row?) }]. *)
Fixpoint map_rows {R A} (f : R → result sql_error A) (rows : list R) : result sql_error (list A) :=
  match rows with
  | [] => Ok []
  | r :: rows => a ← f r; l ← map_rows f rows; Ok (a :: l)
  end.

Definition list_channels (fault : faults) (server_id : Z) (db : ChannelDb) :
    result ChannelError (list Channel) :=
  map_err Database
    (rows ← read fault 0 (take 1000 (order_by String.le ch_name
                                       (t_select (channel_on server_id) (channels db))));
     map_rows map_row_to_channel rows).

Definition federated_on (s : Z) (r : ChannelRow) : Prop :=
  ch_server_id r = s ∧ ch_federation_scope r = to_json Federated.
#[export] Instance federated_on_dec s r : Decision (federated_on s r).
Proof. unfold federated_on. apply _. Defined.

Definition list_federated_channels (fault : faults) (server_id : Z) (db : ChannelDb) :
    result ChannelError (list Channel) :=
  map_err Database
    (rows ← read fault 0 (order_by String.le ch_name
                            (t_select (federated_on server_id) (channels db)));
     map_rows map_row_to_channel rows).

(** The SET list: the fields that are [Some]. *)
Definition apply_updates (u : UpdateChannelParams) (r : ChannelRow) : ChannelRow :=
  {| ch_id := ch_id r; ch_server_id := ch_server_id r; ch_channel_id := ch_channel_id r;
     ch_name := default (ch_name r) (uc_name u);
     ch_channel_type := ch_channel_type r;
     ch_topic := match uc_topic u with Some t => Some t | None => ch_topic r end;
     ch_vrp_topic_binding :=
       match uc_vrp_topic_binding u with Some t => Some t | None => ch_vrp_topic_binding r end;
     ch_required_capabilities_json :=
       match uc_required_capabilities_json u with
       | Some t => Some t | None => ch_required_capabilities_json r end;
     ch_agent_min_alignment :=
       match uc_agent_min_alignment u with
       | Some a => Some (to_json a) | None => ch_agent_min_alignment r end;
     ch_retention_days :=
       match uc_retention_days u with Some d => Some d | None => ch_retention_days r end;
     ch_federation_scope :=
       match uc_federation_scope u with Some s => to_json s | None => ch_federation_scope r end;
     ch_created_at := ch_created_at r |}.

Definition no_updates (u : UpdateChannelParams) : bool :=
  match u with
  | Build_UpdateChannelParams None None None None None None None => true
  | _ => false
  end.

Definition update_channel (fault : faults) (channel_id : string) (u : UpdateChannelParams) :
    M ChannelDb ChannelError unit :=
  if no_updates u then
    db ← get;
    _ ← lift (get_channel fault channel_id db);
    mret ()
  else
    count ← catch_map Database (exec fault 0 (zoom channels set_channels
              (λ t, let '(n, t) := t_update (channel_is channel_id) (apply_updates u) t in (Ok n, t))));
    lift (reject_if (count =? 0)%nat (NotFound channel_id)).

(** [DELETE FROM channels]: refused when a message or member still
    references the channel. *)
Definition delete_channel_row (channel_id : string) : M ChannelDb sql_error nat := λ db,
  if t_exists (channel_is channel_id) (channels db) &&
     (t_exists (message_in channel_id) (messages db) ||
      t_exists (member_of channel_id) (channel_members db))
  then (Err ConstraintForeignKey, db)
  else let '(n, t) := t_delete (channel_is channel_id) (channels db) in (Ok n, set_channels t db).

Definition delete_channel (fault : faults) (channel_id : string) : M ChannelDb ChannelError unit :=
  _ ← catch_map Database (exec fault 0 (delete_messages (message_in channel_id)));
  _ ← catch_map Database (exec fault 1 (zoom channel_members set_members
        (λ t, let '(n, t) := t_delete (member_of channel_id) t in (Ok n, t))));
  count ← catch_map Database (exec fault 2 (delete_channel_row channel_id));
  lift (reject_if (count =? 0)%nat (NotFound channel_id)).
(** ** Members *)

(** [INSERT INTO channel_members]: UNIQUE (channel_id, pseudonym_id), foreign
    keys to the server, the channel and the identity on that server. *)
Definition insert_member (now : string) (s : Z) (c p : string) : M ChannelDb sql_error unit := λ db,
  if t_exists (member_key c p) (channel_members db) then (Err ConstraintUnique, db)
  else if bool_decide (servers db !! s = None) ||
          negb (t_exists (channel_is c) (channels db)) ||
          negb (t_exists (Platform.is_member s p) (identities db))
  then (Err ConstraintForeignKey, db)
  else (Ok (), set_members (t_insert (λ id,
    {| cm_id := id; cm_server_id := s; cm_channel_id := c; cm_pseudonym_id := p;
       cm_role := "MEMBER"; cm_joined_at := now |}) (channel_members db)).2 db).

Definition add_member (fault : faults) (now : string) (s : Z) (c p : string) :
    M ChannelDb ChannelError unit := λ db,
  match get_channel fault c db with
  | Ok _ =>
      match exec (λ k, fault (S k)) 0 (insert_member now s c p) db with
      | (Ok _, db') => (Ok (), db')
      | (Err ConstraintUnique, db') | (Err ConstraintPrimaryKey, db') => (Ok (), db')
      | (Err e, db') => (Err (Database e), db')
      | (Panic, db') => (Panic, db')
      end
  | Err e => (Err e, db)
  | Panic => (Panic, db)
  end.

Definition remove_member (fault : faults) (s : Z) (c p : string) : M ChannelDb ChannelError unit :=
  _ ← catch_map Database (exec fault 0 (zoom channel_members set_members
        (λ t, let '(n, t) := t_delete (member_at s c p) t in (Ok n, t))));
  mret ().

Definition is_member (fault : faults) (s : Z) (c p : string) (db : ChannelDb) :
    result ChannelError bool :=
  map_err Database (read fault 0 (t_exists (member_at s c p) (channel_members db))).

Definition list_members (fault : faults) (c : string) (db : ChannelDb) :
    result ChannelError (list ChannelMember) :=
  map_err Database
    (read fault 0 (take (Z.to_nat 10000) (order_by String.le cm_joined_at
                                 (t_select (member_of c) (channel_members db))))).

(** ** Messages *)

Record CreateMessageParams := {
  mp_channel_id : string;
  mp_message_id : string;
  mp_sender_pseudonym : string;
  mp_content : string;
  mp_reply_to : option string;
}.

(** The policy text of a server, or the default when it does not parse. *)
Definition policy_of_text (text : string) : ServerPolicy :=
  default ServerPolicy_default (from_json text).

Definition resolve_retention_days (fault : faults) (channel_id : string) (db : ChannelDb) :
    result ChannelError (Z * option Z) :=
  '(server_id, retention_days) ← found channel_id
     (rows ← read fault 0 (t_select (channel_is channel_id) (channels db));
      query_row rows (λ r, retention_days ← get_u32 1 (ch_retention_days r); Ok (ch_server_id r, retention_days)));
  match retention_days with
  | Some days => Ok (server_id, Some days)
  | None =>
      policy_json ← map_err Database
        (row ← read fault 1 (servers db !! server_id); ok_or row QueryReturnedNoRows);
      Ok (server_id, Some (default_retention_days (policy_of_text policy_json)))
  end.

(** [datetime('now')] as the database stores it, and
    [datetime('now', '+N days')]; a date after the year 9999 is NULL. *)
Definition now_text (now : Z) : string := default "" (datetime now).
Definition expires_text (now : Z) (retention_days : option Z) : option string :=
  days ← retention_days; datetime (now + days * 86400).

Definition message_row (now : Z) (s : Z) (retention_days : option Z) (p : CreateMessageParams)
    (id : Z) : Message :=
  {| m_id := id; m_server_id := s; m_channel_id := mp_channel_id p; m_message_id := mp_message_id p;
     m_sender_pseudonym := mp_sender_pseudonym p; m_content := mp_content p;
     m_reply_to := mp_reply_to p; m_created_at := now_text now;
     m_expires_at := expires_text now retention_days; m_edited_at := None; m_deleted_at := None |}.

(** [INSERT INTO messages ... RETURNING]: UNIQUE (message_id), foreign keys
    to the channel and the server. *)
Definition insert_message (now : Z) (s : Z) (retention_days : option Z) (p : CreateMessageParams) :
    M ChannelDb sql_error Message := λ db,
  if t_exists (message_is (mp_message_id p)) (messages db) then (Err ConstraintUnique, db)
  else if negb (t_exists (channel_is (mp_channel_id p)) (channels db)) ||
          bool_decide (servers db !! s = None)
  then (Err ConstraintForeignKey, db)
  else
    let '(id, t) := t_insert (message_row now s retention_days p) (messages db) in
    (Ok (message_row now s retention_days p id), set_messages t db).

Definition create_message (fault : faults) (now : Z) (p : CreateMessageParams) :
    M ChannelDb ChannelError Message :=
  db ← get;
  '(server_id, retention_days) ← lift (resolve_retention_days fault (mp_channel_id p) db);
  catch_map Database (exec fault 2 (insert_message now server_id retention_days p)).

Definition get_message (fault : faults) (message_id : string) (db : ChannelDb) :
    result ChannelError Message :=
  found message_id
    (rows ← read fault 0 (t_select (message_is message_id) (messages db));
     query_row rows Ok).

(** The WHERE clause of [list_messages], with and without [before]. *)
Definition listed (s : Z) (c : string) (before : option string) (r : Message) : Prop :=
  m_server_id r = s ∧ m_channel_id r = c ∧
  match before with Some ts => text_lt (m_created_at r) ts | None => True end.
#[export] Instance listed_dec s c before r : Decision (listed s c before r).
Proof. unfold listed, text_lt. destruct before; apply _. Defined.

Definition list_messages (fault : faults) (s : Z) (c : string) (before : option string)
    (limit : option Z) (db : ChannelDb) : result ChannelError (list Message) :=
  let limit := Z.min (default 50 limit) 100 in
  map_err Database
    (read fault 0 (take (Z.to_nat limit)
       (order_by (flip String.le) m_created_at (t_select (listed s c before) (messages db))))).

Definition EDIT_WINDOW_SECONDS : Z := 60.

(** The checks [edit_message] and [delete_message] begin with. *)
Definition author_window (fault : faults) (now : Z) (message_id sender : string) (db : ChannelDb) :
    result ChannelError Message :=
  msg ← get_message fault message_id db;
  _ ← reject_if (bool_decide (m_sender_pseudonym msg ≠ sender)) (NotFound "not owned");
  _ ← reject_if (bool_decide (is_Some (m_deleted_at msg))) (NotFound "deleted");
  created ← ok_or (parse_datetime (m_created_at msg)) (NotFound "invalid created_at timestamp");
  _ ← reject_if (EDIT_WINDOW_SECONDS <? now - created) (NotFound "window has expired");
  Ok msg.

Definition with_content (content now : string) (r : Message) : Message :=
  {| m_id := m_id r; m_server_id := m_server_id r; m_channel_id := m_channel_id r;
     m_message_id := m_message_id r; m_sender_pseudonym := m_sender_pseudonym r;
     m_content := content; m_reply_to := m_reply_to r; m_created_at := m_created_at r;
     m_expires_at := m_expires_at r; m_edited_at := Some now; m_deleted_at := m_deleted_at r |}.
Definition soft_deleted (now : string) (r : Message) : Message :=
  {| m_id := m_id r; m_server_id := m_server_id r; m_channel_id := m_channel_id r;
     m_message_id := m_message_id r; m_sender_pseudonym := m_sender_pseudonym r;
     m_content := ""; m_reply_to := m_reply_to r; m_created_at := m_created_at r;
     m_expires_at := m_expires_at r; m_edited_at := m_edited_at r; m_deleted_at := Some now |}.

(** [INSERT INTO message_edits]: foreign key to the message. *)
Definition insert_edit (now message_id old_content : string) : M ChannelDb sql_error unit := λ db,
  if negb (t_exists (message_is message_id) (messages db)) then (Err ConstraintForeignKey, db)
  else (Ok (), set_edits (t_insert (λ id,
    {| e_id := id; e_message_id := message_id; e_old_content := old_content; e_edited_at := now |})
    (message_edits db)).2 db).

Definition update_messages (message_id : string) (f : Message → Message) : M ChannelDb sql_error nat :=
  zoom messages set_messages (λ t, let '(n, t) := t_update (message_is message_id) f t in (Ok n, t)).

(** The two statements that change the database are not in a transaction. *)
Definition edit_message (fault : faults) (now : Z) (message_id sender new_content : string) :
    M ChannelDb ChannelError Message :=
  db ← get;
  msg ← lift (author_window fault now message_id sender db);
  _ ← catch_map Database (exec fault 1 (insert_edit (now_text now) message_id (m_content msg)));
  _ ← catch_map Database (exec fault 2 (update_messages message_id (with_content new_content (now_text now))));
  db ← get;
  lift (get_message (λ k, fault (3 + k)%nat) message_id db).

Definition delete_message (fault : faults) (now : Z) (message_id sender : string) :
    M ChannelDb ChannelError Message :=
  db ← get;
  _ ← lift (author_window fault now message_id sender db);
  _ ← catch_map Database (exec fault 1 (update_messages message_id (soft_deleted (now_text now))));
  db ← get;
  lift (get_message (λ k, fault (2 + k)%nat) message_id db).

Definition get_edit_history (fault : faults) (message_id : string) (db : ChannelDb) :
    result ChannelError (list MessageEdit) :=
  map_err Database
    (read fault 0 (order_by String.le e_edited_at (t_select (edit_of message_id) (message_edits db)))).

(** ** Retention *)

Definition RETENTION_BATCH_LIMIT : nat := 5000.

(** [expires_at IS NOT NULL AND expires_at < datetime('now')]. *)
Definition is_expired (now : string) (r : Message) : Prop :=
  match m_expires_at r with Some e => text_lt e now | None => False end.
#[export] Instance is_expired_dec now r : Decision (is_expired now r).
Proof. unfold is_expired, text_lt. destruct (m_expires_at r); apply _. Defined.

Definition row_in (ids : list Z) (r : Message) : Prop := m_id r ∈ ids.
#[export] Instance row_in_dec ids r : Decision (row_in ids r).
Proof. unfold row_in. apply _. Defined.
End operations.

(** The order in which SQLite scans the rows of a sub-select without an
    ORDER BY. *)
Class ScanOrder := { scan : list Message → list Message }.
Class ScanOrderLaws `{ScanOrder} := { scan_perm : ∀ l, scan l ≡ₚ l }.

Section retention.
Context `{CK : Clock, SO : ScanOrder}.

Definition expired_batch (now : Z) (db : ChannelDb) : list Z :=
  m_id <$> take RETENTION_BATCH_LIMIT (scan (t_select (is_expired (now_text now)) (messages db))).

Definition delete_expired_messages (fault : faults) (now : Z) : M ChannelDb ChannelError nat :=
  db ← get;
  catch_map Database (exec fault 0 (delete_messages (row_in (expired_batch now db)))).

(** The literal 5_000 of the retention task. *)
Definition task_batch : nat := 5000.

(** The loop of the retention task, with [fuel] iterations at most;
    iteration [k] runs at time [now k] under the failures [fault k]. *)
Fixpoint retention_loop (fuel : nat) (fault : nat → faults) (now : nat → Z) (total : nat) :
    M ChannelDb ChannelError (option nat) :=
  match fuel with
  | O => mret None
  | S fuel =>
      deleted ← delete_expired_messages (fault O) (now O);
      let total := (total + deleted)%nat in
      if (deleted <? task_batch)%nat then mret (Some total)
      else retention_loop fuel (λ k, fault (S k)) (λ k, now (S k)) total
  end.
End retention.

(** * Theorems *)

(** ** Messages *)

(** UNIQUE (message_id). *)
Definition messages_unique (db : ChannelDb) : Prop :=
  ∀ r1 r2, r1 ∈ t_rows (messages db) → r2 ∈ t_rows (messages db) →
    m_message_id r1 = m_message_id r2 → r1 = r2.

#[export] Instance Message_eq_dec : EqDecision Message.
Proof. solve_decision. Defined.

Section message_theorems.
Context `{ST : Serde ChannelType, SF : Serde FederationScope, SA : Serde AlignmentStatus.t}.
Context `{SP : Serde ServerPolicy, CK : Clock}.

Lemma get_message_row fault msg db :
  messages_unique db → msg ∈ t_rows (messages db) → fault 0%nat = None →
  get_message fault (m_message_id msg) db = Ok msg.
Proof.
  intros Hu Hin Hf. unfold get_message, read. rewrite Hf. cbn [mbind result_bind].
  rewrite (query_row_unique _ _ msg); [done|done|done|]. intros r Hr He. by apply Hu.
Qed.

(** Who may still change a message. *)
Definition may_change (msg : Message) (sender : string) (now : Z) : Prop :=
  m_sender_pseudonym msg = sender ∧ m_deleted_at msg = None ∧
  ∃ created, parse_datetime (m_created_at msg) = Some created ∧ now - created ≤ EDIT_WINDOW_SECONDS.

Lemma author_window_spec fault now msg sender db :
  messages_unique db → msg ∈ t_rows (messages db) →
  (author_window fault now (m_message_id msg) sender db = Ok msg ∧ may_change msg sender now) ∨
  (∃ e, author_window fault now (m_message_id msg) sender db = Err e ∧
        (fault ≠ no_fault ∨ ¬ may_change msg sender now)).
Proof.
  intros Hu Hin. unfold author_window. destruct (fault 0%nat) as [code|] eqn:Hf.
  { right. eexists. unfold get_message, read. rewrite Hf. cbn [mbind result_bind found]. split; [done|].
    left. by intros ->. }
  rewrite get_message_row by done. unfold reject_if, may_change. cbn [mbind result_bind].
  destruct (bool_decide (m_sender_pseudonym msg ≠ sender)) eqn:Hs; cbn [mbind result_bind].
  { apply bool_decide_eq_true in Hs. right. eexists. split; [done|]. right. naive_solver. }
  apply bool_decide_eq_false in Hs. case_bool_decide as Hd; cbn [mbind result_bind].
  { right. eexists. split; [done|]. right. intros (_ & E & _). rewrite E in Hd. by destruct Hd. }
  destruct (parse_datetime (m_created_at msg)) as [t|] eqn:Ht; cbn [mbind result_bind ok_or].
  2: { right. eexists. split; [done|]. right. naive_solver. }
  destruct (EDIT_WINDOW_SECONDS <? now - t) eqn:Hw; cbn [mbind result_bind].
  - right. eexists. split; [done|]. right. intros (_ & _ & t' & [= ->] & Hle). lia.
  - left. split; [done|]. split; [by apply dec_stable|].
    split; [by apply eq_None_not_Some|]. exists t. split; [done|]. lia.
Qed.

(** The table with one message changed. *)
Definition changed (f : Message → Message) (msg : Message) (db : ChannelDb) : ChannelDb :=
  set_messages (Table ((λ r, if decide (r = msg) then f r else r) <$> t_rows (messages db))
                      (t_seq (messages db))) db.

Definition recorded (now : Z) (msg : Message) (db : ChannelDb) : ChannelDb :=
  set_edits (t_insert (λ id, {| e_id := id; e_message_id := m_message_id msg;
                                e_old_content := m_content msg; e_edited_at := now_text now |})
               (message_edits db)).2 db.

(** The UPDATE by message id is the change of that one row. *)
Lemma update_messages_spec msg f db :
  messages_unique db → msg ∈ t_rows (messages db) →
  ∃ n, update_messages (m_message_id msg) f db = (Ok n, changed f msg db).
Proof.
  intros Hu Hin. unfold update_messages, changed. run_M. cbn [t_update]. eexists. do 3 f_equal.
  apply list_fmap_ext. intros i r Hr%list_elem_of_lookup_2. unfold message_is.
  repeat case_decide; try done; [exfalso; eauto|congruence].
Qed.

Lemma changed_unique f msg db :
  (∀ r, m_message_id (f r) = m_message_id r) → messages_unique db → messages_unique (changed f msg db).
Proof.
  intros Hf Hu r1 r2. cbn. rewrite !list_elem_of_fmap. intros (x & -> & Hx) (y & -> & Hy) E.
  assert (x = y) as ->; [|done]. apply Hu; [done..|]. repeat case_decide; rewrite ?Hf in E; done.
Qed.

Lemma elem_of_changed f msg db : msg ∈ t_rows (messages db) → f msg ∈ t_rows (messages (changed f msg db)).
Proof. intros Hin. cbn. apply list_elem_of_fmap. exists msg. by rewrite decide_True. Qed.

Lemma edit_message_cases fault now msg sender content db :
  messages_unique db → msg ∈ t_rows (messages db) →
  let id := m_message_id msg in
  let edited := with_content content (now_text now) in
  edit_message fault now id sender content db = (Ok (edited msg), changed edited msg (recorded now msg db)) ∧
    may_change msg sender now ∨
  ∃ e, (edit_message fault now id sender content db = (Err e, db) ∨
        edit_message fault now id sender content db = (Err e, recorded now msg db) ∨
        edit_message fault now id sender content db = (Err e, changed edited msg (recorded now msg db))) ∧
    (fault = no_fault → edit_message fault now id sender content db = (Err e, db) ∧
     ¬ may_change msg sender now) ∧
    (¬ may_change msg sender now → edit_message fault now id sender content db = (Err e, db)).
Proof.
  intros Hu Hin. cbv zeta.
  assert (messages_unique (recorded now msg db)) as Hu1 by done.
  unfold edit_message. run_M.
  destruct (author_window_spec fault now msg sender db Hu Hin) as [(Haw & Hmay)|(e & Haw & He)]; rewrite Haw.
  2: { right. exists e. split_and!; auto. intros Hnf. by destruct He. }
  unfold exec. destruct (fault 1%nat) as [c1|] eqn:F1.
  { right. eexists. split; [by left|]. split; [intros ->; done|done]. }
  unfold insert_edit. assert (t_exists (message_is (m_message_id msg)) (messages db) = true) as ->
    by (apply t_exists_spec; by exists msg). cbn [negb].
  fold (recorded now msg db). destruct (fault 2%nat) as [c2|] eqn:F2.
  { right. eexists. split; [right; by left|]. split; [intros ->; done|done]. }
  destruct (update_messages_spec msg (with_content content (now_text now)) (recorded now msg db) Hu1 Hin) as (n & Hup).
  rewrite Hup. set (db2 := changed _ _ _).
  destruct (fault 3%nat) as [c3|] eqn:F3.
  { right. unfold get_message, read. replace (3 + 0)%nat with 3%nat by lia. rewrite F3.
    eexists. split; [right; by right|]. split; [intros ->; done|done]. }
  left. split; [|done].
  assert (get_message (λ k, fault (3 + k)%nat) (m_message_id msg) db2 = Ok (with_content content (now_text now) msg)) as ->; [|done].
  change (m_message_id msg) with (m_message_id (with_content content (now_text now) msg)).
  apply get_message_row; [by apply changed_unique|by apply elem_of_changed|done].
Qed.

Lemma delete_message_cases fault now msg sender db :
  messages_unique db → msg ∈ t_rows (messages db) →
  let id := m_message_id msg in
  let deleted := soft_deleted (now_text now) in
  delete_message fault now id sender db = (Ok (deleted msg), changed deleted msg db) ∧
    may_change msg sender now ∨
  ∃ e, (delete_message fault now id sender db = (Err e, db) ∨
        delete_message fault now id sender db = (Err e, changed deleted msg db)) ∧
    (fault = no_fault → delete_message fault now id sender db = (Err e, db) ∧
     ¬ may_change msg sender now) ∧
    (¬ may_change msg sender now → delete_message fault now id sender db = (Err e, db)).
Proof.
  intros Hu Hin. cbv zeta. unfold delete_message. run_M.
  destruct (author_window_spec fault now msg sender db Hu Hin) as [(Haw & Hmay)|(e & Haw & He)]; rewrite Haw.
  2: { right. exists e. split_and!; auto. intros Hnf. by destruct He. }
  unfold exec. destruct (fault 1%nat) as [c1|] eqn:F1.
  { right. eexists. split; [by left|]. split; [intros ->; done|done]. }
  destruct (update_messages_spec msg (soft_deleted (now_text now)) db Hu Hin) as (n & Hup).
  rewrite Hup. set (db2 := changed _ _ _).
  destruct (fault 2%nat) as [c2|] eqn:F2.
  { right. unfold get_message, read. replace (2 + 0)%nat with 2%nat by lia. rewrite F2.
    eexists. split; [by right|]. split; [intros ->; done|done]. }
  left. split; [|done].
  assert (get_message (λ k, fault (2 + k)%nat) (m_message_id msg) db2 = Ok (soft_deleted (now_text now) msg)) as ->; [|done].
  change (m_message_id msg) with (m_message_id (soft_deleted (now_text now) msg)).
  apply get_message_row; [by apply changed_unique|by apply elem_of_changed|done].
Qed.

(** C15. Messages change only by their author, undeleted and within 60 seconds
    of their creation; anyone else, and anything later, leaves the database
    as it is.  An edit replaces the content of that one message and keeps
    the old content in the history, a deletion clears it; other messages stay.  A failing
    statement may leave the old content recorded without the edit. *)
Theorem message_changes_spec fault now msg sender content db :
  messages_unique db → msg ∈ t_rows (messages db) →
  let id := m_message_id msg in
  let edited := with_content content (now_text now) in
  let deleted := soft_deleted (now_text now) in
  (edit_message fault now id sender content db = (Ok (edited msg), changed edited msg (recorded now msg db)) ∧
     may_change msg sender now ∨
   ∃ e, (edit_message fault now id sender content db = (Err e, db) ∨
         edit_message fault now id sender content db = (Err e, recorded now msg db) ∨
         edit_message fault now id sender content db = (Err e, changed edited msg (recorded now msg db))) ∧
     (fault = no_fault → edit_message fault now id sender content db = (Err e, db) ∧
      ¬ may_change msg sender now) ∧
     (¬ may_change msg sender now → edit_message fault now id sender content db = (Err e, db))) ∧
  (delete_message fault now id sender db = (Ok (deleted msg), changed deleted msg db) ∧
     may_change msg sender now ∨
   ∃ e, (delete_message fault now id sender db = (Err e, db) ∨
         delete_message fault now id sender db = (Err e, changed deleted msg db)) ∧
     (fault = no_fault → delete_message fault now id sender db = (Err e, db) ∧
      ¬ may_change msg sender now) ∧
     (¬ may_change msg sender now → delete_message fault now id sender db = (Err e, db))).
Proof. intros Hu Hin. split; [by apply edit_message_cases|by apply delete_message_cases]. Qed.
End message_theorems.

(** ** Constraints *)

(** What SQLite's constraints keep: unique keys and references. *)
Record channels_ok (db : ChannelDb) : Prop := {
  ok_messages : messages_unique db;
  ok_message_ids : ids_ok m_id (messages db);
  ok_channels : ∀ r1 r2, r1 ∈ t_rows (channels db) → r2 ∈ t_rows (channels db) →
    ch_channel_id r1 = ch_channel_id r2 → r1 = r2;
  ok_members : ∀ r1 r2, r1 ∈ t_rows (channel_members db) → r2 ∈ t_rows (channel_members db) →
    member_key (cm_channel_id r1) (cm_pseudonym_id r1) r2 → r1 = r2;
  ok_message_channel : ∀ m, m ∈ t_rows (messages db) →
    t_exists (channel_is (m_channel_id m)) (channels db) = true;
  ok_member_channel : ∀ r, r ∈ t_rows (channel_members db) →
    t_exists (channel_is (cm_channel_id r)) (channels db) = true;
  ok_edit_message : ∀ e, e ∈ t_rows (message_edits db) →
    t_exists (message_is (e_message_id e)) (messages db) = true;
  ok_channel_server : ∀ r, r ∈ t_rows (channels db) → is_Some (servers db !! ch_server_id r);
  ok_retention : ∀ r, r ∈ t_rows (channels db) → in_u32 (ch_retention_days r) = true;
}.

Section creation.
Context `{ST : Serde ChannelType, SF : Serde FederationScope, SA : Serde AlignmentStatus.t}.
Context `{SP : Serde ServerPolicy, CK : Clock}.

(** The retention that applies in a channel: its own, or its server's. *)
Definition retention_of (db : ChannelDb) (r : ChannelRow) : option Z :=
  match ch_retention_days r with
  | Some days => Some days
  | None => (λ text, default_retention_days (policy_of_text text)) <$> servers db !! ch_server_id r
  end.

Lemma resolve_retention_days_spec fault c r db :
  channels_ok db → r ∈ t_rows (channels db) → ch_channel_id r = c →
  resolve_retention_days fault c db = Ok (ch_server_id r, retention_of db r) ∨
  (fault ≠ no_fault ∧ ∃ e, resolve_retention_days fault c db = Err e).
Proof.
  intros Hok Hin Hc. unfold resolve_retention_days, read.
  destruct (fault 0%nat) eqn:F0; cbn [mbind result_bind found].
  { right. split; [by intros ->|by eexists]. }
  rewrite (query_row_unique _ _ r); [|done|done|].
  2: { intros r' Hr' E. apply (ok_channels _ Hok); [done..|]. by rewrite E, Hc. }
  unfold get_u32. rewrite (ok_retention _ Hok r Hin). cbn [found mbind result_bind]. unfold retention_of.
  destruct (ch_retention_days r) as [days|]; [by left|].
  destruct (ok_channel_server _ Hok r Hin) as [text ->].
  destruct (fault 1%nat) eqn:F1; cbn; [right; split; [by intros ->|by eexists]|by left].
Qed.

(** A message is stored exactly when its channel exists and its id is new
    (and no statement fails): as the only new row, unedited, stamped with
    the time, expiring after the retention days of the channel or else of
    its server's policy; it is then found under its id, and in every other
    case the database stays as it is. *)
Theorem create_message_spec fault now p db :
  channels_ok db →
  (∀ r, r ∈ t_rows (channels db) → ch_channel_id r = mp_channel_id p →
   t_exists (message_is (mp_message_id p)) (messages db) = false →
   let msg := message_row now (ch_server_id r) (retention_of db r) p (t_seq (messages db) + 1) in
   let db' := set_messages (Table (t_rows (messages db) ++ [msg]) (t_seq (messages db) + 1)) db in
   (create_message fault now p db = (Ok msg, db') ∧ channels_ok db' ∧
    get_message no_fault (mp_message_id p) db' = Ok msg) ∨
   (fault ≠ no_fault ∧ ∃ e, create_message fault now p db = (Err e, db))) ∧
  (t_exists (channel_is (mp_channel_id p)) (channels db) = false ∨
   t_exists (message_is (mp_message_id p)) (messages db) = true →
   ∃ e, create_message fault now p db = (Err e, db) ∧
     (fault = no_fault →
      e = if t_exists (channel_is (mp_channel_id p)) (channels db) then Database ConstraintUnique
          else NotFound (mp_channel_id p))).
Proof.
  intros Hok. split.
  - intros r Hin Hc Hnew msg db'.
    unfold create_message. run_M.
    fold msg. fold db'.
    destruct (resolve_retention_days_spec fault (mp_channel_id p) r db Hok Hin Hc) as [->|[Hf [e ->]]].
    2: { right. split; [done|]. by exists e. }
    unfold exec. destruct (fault 2%nat) as [code|] eqn:F2.
    { right. split; [by intros ->|]. by eexists. }
    left. assert (insert_message now (ch_server_id r) (retention_of db r) p db = (Ok msg, db')) as ->.
    { unfold insert_message. rewrite Hnew.
      assert (t_exists (channel_is (mp_channel_id p)) (channels db) = true) as ->
        by (apply t_exists_spec; by exists r).
      destruct (ok_channel_server _ Hok r Hin) as [text ->]. reflexivity. }
    split; [done|].
    assert (channels_ok db') as Hok'.
    { destruct Hok as [Hu Hids Hch Hmem Hmc Hmemc Hem Hcs]. unfold db'. split; cbn; try done.
      - intros r1 r2. cbn. rewrite !elem_of_app, !list_elem_of_singleton. rewrite t_exists_false in Hnew.
        intros [H1| ->] [H2| ->] E; [by apply Hu|exfalso; by apply (Hnew _ H1)|exfalso|done].
        by apply (Hnew _ H2).
      - by apply (ids_ok_insert m_id (message_row now (ch_server_id r) (retention_of db r) p)).
      - intros m. rewrite elem_of_app, list_elem_of_singleton. intros [Hm| ->]; [by apply Hmc|].
        apply t_exists_spec. by exists r.
      - intros e He. apply t_exists_spec. destruct (proj1 (t_exists_spec _ _) (Hem e He)) as (m & Hm & ?).
        exists m. split; [|done]. cbn. apply elem_of_app. by left. }
    split; [done|]. change (mp_message_id p) with (m_message_id msg).
    apply get_message_row; [apply Hok'| |done]. cbn. apply elem_of_app. right. by left.
  - intros Hcase. unfold create_message. run_M. unfold resolve_retention_days, read.
    destruct (fault 0%nat) as [code|] eqn:F0; cbn [mbind result_bind found].
    { eexists. split; [done|]. by intros ->. }
    destruct (t_exists (channel_is (mp_channel_id p)) (channels db)) eqn:Hch.
    + destruct Hcase as [|Hdup]; [done|].
      apply t_exists_spec in Hch as (r & Hin & Hc).
      pose proof (resolve_retention_days_spec fault (mp_channel_id p) r db Hok Hin Hc) as Hres.
      unfold resolve_retention_days, read in Hres. rewrite F0 in Hres. cbn [mbind result_bind] in Hres.
      destruct Hres as [->|[Hf [e ->]]]; [|exists e; split; [done|by intros ->]].
      unfold exec. destruct (fault 2%nat) as [code|] eqn:F2; [eexists; split; [done|by intros ->]|].
      unfold insert_message. rewrite Hdup. by eexists.
    + rewrite (query_row_none _ _ _ Hch). by eexists.
Qed.
End creation.

(** ** Members *)

Section membership.
Context `{ST : Serde ChannelType, SF : Serde FederationScope, SA : Serde AlignmentStatus.t}.

Definition member (db : ChannelDb) (s : Z) (c p : string) : bool :=
  t_exists (member_at s c p) (channel_members db).

Lemma get_channel_row c r ch db :
  channels_ok db → r ∈ t_rows (channels db) → ch_channel_id r = c → map_row_to_channel r = Ok ch →
  get_channel no_fault c db = Ok ch.
Proof.
  intros Hok Hin Hc Hr. unfold get_channel, read. cbn [no_fault mbind result_bind].
  rewrite (query_row_unique _ _ r); [by rewrite Hr|done|done|].
  intros r' Hr' E. apply (ok_channels _ Hok); [done..|]. by rewrite E, Hc.
Qed.

Lemma member_removed s c p s' c' p' d :
  (s', c', p') ≠ (s, c, p) →
  member (set_members (t_delete (member_at s c p) (channel_members d)).2 d) s' c' p' = member d s' c' p'.
Proof.
  intros Hne. apply eq_true_iff_eq. unfold member. rewrite !t_exists_spec. cbn.
  setoid_rewrite list_elem_of_filter. unfold member_at.
  split; [naive_solver|]. intros (m & Hin & E). exists m. split; [|done]. split; [|done].
  intros (E1 & E2 & E3). destruct E as (F1 & F2 & F3). apply Hne. congruence.
Qed.

(** Joining a channel makes exactly that identity a member, once: joining
    again changes nothing, and it needs a channel and an identity that
    exist; leaving removes exactly that membership and nothing else, and
    is_member answers accordingly. *)
Theorem membership_spec now s c p r ch db :
  channels_ok db → r ∈ t_rows (channels db) → ch_channel_id r = c → map_row_to_channel r = Ok ch →
  let '(res, db1) := add_member no_fault now s c p db in
  (res = Ok () ↔ t_exists (member_key c p) (channel_members db) = true ∨
                 is_Some (servers db !! s) ∧ t_exists (Platform.is_member s p) (identities db) = true) ∧
  (res ≠ Ok () → res = Err (Database ConstraintForeignKey) ∧ db1 = db) ∧
  (t_exists (member_key c p) (channel_members db) = true → db1 = db) ∧
  (res = Ok () → t_exists (member_key c p) (channel_members db) = false →
   channels_ok db1 ∧
   (∀ s' c' p', is_member no_fault s' c' p' db1 =
                Ok (member db s' c' p' || bool_decide ((s', c', p') = (s, c, p)))) ∧
   add_member no_fault now s c p db1 = (Ok (), db1)) ∧
  (let '(res2, db2) := remove_member no_fault s c p db1 in
   res2 = Ok () ∧ messages db2 = messages db1 ∧ channels db2 = channels db1 ∧
   ∀ s' c' p', is_member no_fault s' c' p' db2 =
               Ok (member db1 s' c' p' && negb (bool_decide ((s', c', p') = (s, c, p))))).
Proof.
  intros Hok Hin Hc Hr. unfold add_member at 1. rewrite (get_channel_row c r ch) by done.
  unfold exec. cbn [no_fault]. unfold insert_member.
  assert (∀ db1, let '(res2, db2) := remove_member no_fault s c p db1 in
   res2 = Ok () ∧ messages db2 = messages db1 ∧ channels db2 = channels db1 ∧
   ∀ s' c' p', is_member no_fault s' c' p' db2 =
               Ok (member db1 s' c' p' && negb (bool_decide ((s', c', p') = (s, c, p))))) as Hremove.
  { intros db1. unfold remove_member. run_M. unfold exec. cbn [no_fault t_delete].
    split_and!; try done. intros s' c' p'. unfold is_member, member, read. cbn [no_fault map_err].
    f_equal. apply eq_true_iff_eq. rewrite andb_true_iff, negb_true_iff, bool_decide_eq_false, !t_exists_spec.
    cbn. setoid_rewrite list_elem_of_filter. unfold member_at. split.
    - intros (x & [Hn Hx] & E). split; [by exists x|]. intros [= -> -> ->]. done.
    - intros [(x & Hx & E) Hne]. exists x. split; [|done]. split; [|done].
      intros (E1 & E2 & E3). destruct E as (F1 & F2 & F3). apply Hne. congruence. }
  destruct (t_exists (member_key c p) (channel_members db)) eqn:Hkey.
  { split_and!; try done; [split; auto|apply Hremove]. }
  assert (t_exists (channel_is c) (channels db) = true) as Hch by (apply t_exists_spec; by exists r).
  rewrite Hch. cbn [negb orb]. rewrite orb_false_r.
  destruct (servers db !! s) as [text|] eqn:Hs.
  2: { rewrite bool_decide_eq_true_2 by done. cbn [orb].
       split_and!; try done; [|apply Hremove]. split; [done|]. intros [|[[] _]]; done. }
  rewrite bool_decide_eq_false_2 by done. cbn [orb].
  destruct (t_exists (Platform.is_member s p) (identities db)) eqn:Hid; cbn [negb].
  2: { split_and!; try done; [|apply Hremove]. split; [done|]. intros [|[_ ?]]; done. }
  set (row := λ id : Z, Build_ChannelMember id s c p "MEMBER" now).
  set (db1 := set_members (t_insert row (channel_members db)).2 db).
  split_and!; try done; [split; [by right|done]| |apply Hremove].
  intros _ _.
  assert (t_exists (member_key c p) (channel_members db1) = true) as Hkey1.
  { apply t_exists_spec. exists (row (t_seq (channel_members db) + 1)). split; [|done].
    apply elem_of_t_insert. by right. }
  rewrite t_exists_false in Hkey.
  assert (channels_ok db1) as Hok1.
  { destruct Hok as [Hu Hids Hcu Hmem Hmc Hmemc Hem Hcs]. split; try done.
    - intros r1 r2. cbn. rewrite !elem_of_app, !list_elem_of_singleton.
      intros [H1| ->] [H2| ->]; [by apply Hmem|..|done].
      + intros [E1 E2]. exfalso. apply (Hkey _ H1). by split.
      + intros E. exfalso. by apply (Hkey _ H2).
    - intros r'. cbn. rewrite elem_of_app, list_elem_of_singleton. intros [H| ->]; [by apply Hmemc|done]. }
  split; [done|]. split.
  - intros s' c' p'. unfold is_member, member, read. cbn [no_fault map_err]. f_equal.
    apply eq_true_iff_eq. rewrite orb_true_iff, bool_decide_eq_true, !t_exists_spec.
    change (channel_members db1) with (t_insert row (channel_members db)).2.
    setoid_rewrite elem_of_t_insert. unfold member_at. split.
    + intros (x & [Hx| ->] & E); [left; by exists x|right]. cbn in E. naive_solver.
    + intros [(x & Hx & E)|[= -> -> ->]]; [exists x; tauto|].
      exists (row (t_seq (channel_members db) + 1)). split; [by right|done].
  - unfold add_member. rewrite (get_channel_row c r ch) by done. unfold exec. cbn [no_fault].
    unfold insert_member. by rewrite Hkey1.
Qed.
End membership.

(** ** Deletion of a channel *)

Lemma t_delete_none {R} (P : R → Prop) `{!∀ r, Decision (P r)} t :
  t_exists P t = false → t_delete P t = (0%nat, t).
Proof.
  intros HE. unfold t_delete. rewrite (proj2 (t_select_nil P t) (proj1 (t_exists_false P t) HE)).
  rewrite t_exists_false in HE. destruct t as [rows seq]. cbn in *. do 2 f_equal.
  induction rows as [|r rows IH]; [done|]. rewrite filter_cons_True by (apply HE; by left).
  f_equal. apply IH. intros r' Hr'. apply HE. by right.
Qed.

Lemma channel_kept c c' (t : table ChannelRow) :
  t_exists (channel_is c') t = true → c' ≠ c → t_exists (channel_is c') (t_delete (channel_is c) t).2 = true.
Proof.
  intros (r & Hr & E)%t_exists_spec Hne. apply t_exists_spec. exists r. split; [|done].
  apply elem_of_t_delete. split; [done|]. unfold channel_is in *. congruence.
Qed.

(** Deleting a channel removes it with all its messages and members and
    nothing else; an unknown channel is NotFound and changes nothing; but as
    soon as one of its messages was ever edited, the history's reference
    makes the deletion fail, and nothing is deleted. *)
Theorem delete_channel_spec c db :
  channels_ok db →
  let edited := ∃ m, m ∈ t_rows (messages db) ∧ m_channel_id m = c ∧
                     t_exists (edit_of (m_message_id m)) (message_edits db) = true in
  (edited → delete_channel no_fault c db = (Err (Database ConstraintForeignKey), db)) ∧
  (¬ edited → t_exists (channel_is c) (channels db) = true →
   ∃ db', delete_channel no_fault c db = (Ok (), db') ∧ channels_ok db' ∧
     t_exists (channel_is c) (channels db') = false ∧
     t_rows (channels db') = filter (λ r, ch_channel_id r ≠ c) (t_rows (channels db)) ∧
     t_rows (messages db') = filter (λ r, m_channel_id r ≠ c) (t_rows (messages db)) ∧
     t_rows (channel_members db') = filter (λ r, cm_channel_id r ≠ c) (t_rows (channel_members db)) ∧
     message_edits db' = message_edits db) ∧
  (¬ edited → t_exists (channel_is c) (channels db) = false →
   delete_channel no_fault c db = (Err (NotFound c), db)).
Proof.
  intros Hok edited. unfold delete_channel. run_M. unfold exec. cbn [no_fault].
  unfold delete_messages.
  assert (edited ↔ Exists (λ m, t_exists (edit_of (m_message_id m)) (message_edits db) = true)
                     (t_select (message_in c) (messages db))) as Hed.
  { rewrite Exists_exists. unfold edited. setoid_rewrite elem_of_t_select. unfold message_in. naive_solver. }
  split.
  { intros He%Hed. by rewrite bool_decide_eq_true_2. }
  assert (t_exists (message_in c) (t_delete (message_in c) (messages db)).2 = false) as Hm2.
  { apply t_exists_false. intros m Hm. by apply elem_of_t_delete in Hm as [_ ?]. }
  assert (t_exists (member_of c) (t_delete (member_of c) (channel_members db)).2 = false) as Hc2.
  { apply t_exists_false. intros m Hm. by apply elem_of_t_delete in Hm as [_ ?]. }
  split; intros Hne Hch; rewrite bool_decide_eq_false_2 by (by rewrite <- Hed).
  - unfold delete_channel_row. cbn [t_delete fst snd map_err messages channel_members channels set_messages set_members] in *.
    rewrite Hm2, Hc2, andb_false_r. cbn [map_err].
    destruct (length (t_select (channel_is c) (channels db))) as [|n] eqn:Hn.
    { apply length_zero_iff_nil in Hn. pose proof (proj1 (t_select_nil _ _) Hn) as Hn'.
      pose proof (proj2 (t_exists_false _ _) Hn'). congruence. }
    eexists. split; [reflexivity|]. cbn [channels messages channel_members message_edits set_channels set_members set_messages].
    split; [|split_and!; try done].
    2: { apply t_exists_false. intros r' Hr'. by apply list_elem_of_filter in Hr' as [? _]. }
    pose proof Hok as [Hu Hids Hcu Hmem Hmc Hmemc Hem Hcs _]. split; cbn.
    + intros r1 r2 [_ H1]%list_elem_of_filter [_ H2]%list_elem_of_filter. by apply Hu.
    + apply (ids_ok_delete m_id (message_in c) _ Hids).
    + intros r1 r2 [_ H1]%list_elem_of_filter [_ H2]%list_elem_of_filter. by apply Hcu.
    + intros r1 r2 [_ H1]%list_elem_of_filter [_ H2]%list_elem_of_filter. by apply Hmem.
    + intros m [Hm1 Hm]%list_elem_of_filter. apply (channel_kept c); [by apply Hmc|done].
    + intros m [Hm1 Hm]%list_elem_of_filter. apply (channel_kept c); [by apply Hmemc|done].
    + intros e He. pose proof (Hem e He) as (m & Hm & E)%t_exists_spec. apply t_exists_spec. exists m.
      split; [|done]. apply list_elem_of_filter. split; [|done]. intros Hin. apply Hne. exists m.
      split_and!; [done..|]. apply t_exists_spec. exists e. by split.
    + intros r' [_ Hr']%list_elem_of_filter. by apply Hcs.
    + intros r' [_ Hr']%list_elem_of_filter. by apply (ok_retention _ Hok).
  - assert (t_exists (message_in c) (messages db) = false) as Hm0.
    { apply t_exists_false. intros m Hm E. pose proof (ok_message_channel _ Hok m Hm) as H.
      rewrite E, Hch in H. done. }
    assert (t_exists (member_of c) (channel_members db) = false) as Hc0.
    { apply t_exists_false. intros m Hm E. pose proof (ok_member_channel _ Hok m Hm) as H.
      rewrite E, Hch in H. done. }
    unfold delete_channel_row. rewrite (t_delete_none _ _ Hm0). cbn [map_err channel_members set_messages].
    rewrite (t_delete_none _ _ Hc0).
    cbn [map_err channels messages channel_members set_members set_messages]. rewrite Hch. cbn [andb].
    rewrite (t_delete_none _ _ Hch). cbn [map_err]. by destruct db.
Qed.

(** ** Retention *)

Section retention_theorems.
Context `{CK : Clock, SO : ScanOrder, SL : !ScanOrderLaws}.

Definition expired_now (now : Z) (db : ChannelDb) : list Message :=
  t_select (is_expired (now_text now)) (messages db).
Definition was_edited (db : ChannelDb) (m : Message) : Prop :=
  t_exists (edit_of (m_message_id m)) (message_edits db) = true.

(** One batch. *)
Lemma batch_rows now db m :
  ids_ok m_id (messages db) → m ∈ t_rows (messages db) →
  row_in (expired_batch now db) m ↔ m ∈ take RETENTION_BATCH_LIMIT (scan (expired_now now db)).
Proof.
  intros Hids Hm. unfold row_in, expired_batch. fold (expired_now now db). rewrite list_elem_of_fmap. split.
  - intros (m' & E & Hm'). assert (m = m') as ->; [|done]. apply (ids_ok_inj m_id _ _ _ Hids Hm); [|done].
    apply elem_of_take in Hm' as (i & Hi & _). apply list_elem_of_lookup_2 in Hi.
    rewrite scan_perm in Hi. by apply elem_of_t_select in Hi as [_ ?].
  - intros Hm'. by exists m.
Qed.

Lemma elem_of_batch now db m :
  m ∈ take RETENTION_BATCH_LIMIT (scan (expired_now now db)) →
  is_expired (now_text now) m ∧ m ∈ t_rows (messages db).
Proof.
  intros (i & Hi & _)%elem_of_take. apply list_elem_of_lookup_2 in Hi.
  rewrite scan_perm in Hi. by apply elem_of_t_select in Hi.
Qed.

Lemma batch_select now db :
  ids_ok m_id (messages db) →
  t_select (row_in (expired_batch now db)) (messages db) ≡ₚ
    take RETENTION_BATCH_LIMIT (scan (expired_now now db)).
Proof.
  intros Hids. pose proof (ids_NoDup m_id _ Hids) as Hnd. apply NoDup_Permutation.
  - by apply NoDup_filter.
  - apply (sublist_NoDup _ (scan (expired_now now db))); [|apply sublist_take].
    rewrite scan_perm. by apply NoDup_filter.
  - intros m. rewrite elem_of_t_select. split.
    + intros [Hr Hm]. by apply batch_rows.
    + intros Hb. pose proof (elem_of_batch now db m Hb) as [_ Hm]. split; [by apply batch_rows|done].
Qed.

Lemma delete_expired_spec now db :
  ids_ok m_id (messages db) →
  (∀ m, m ∈ expired_now now db → ¬ was_edited db m) →
  ∃ t, delete_expired_messages no_fault now db =
         (Ok (Nat.min RETENTION_BATCH_LIMIT (length (expired_now now db))), set_messages t db) ∧
    ids_ok m_id t ∧
    (∀ m, m ∈ t_rows t → m ∈ t_rows (messages db)) ∧
    (∀ m, m ∈ t_rows (messages db) → m ∉ t_rows t → is_expired (now_text now) m) ∧
    (length (t_rows (messages db)) =
       length (t_rows t) + Nat.min RETENTION_BATCH_LIMIT (length (expired_now now db)))%nat ∧
    (length (expired_now now db) < RETENTION_BATCH_LIMIT →
     ∀ m, m ∈ t_rows t → ¬ is_expired (now_text now) m)%nat.
Proof.
  intros Hids Hed. unfold delete_expired_messages. run_M. unfold exec. cbn [no_fault].
  unfold delete_messages. set (ids := expired_batch now db).
  assert (length (t_select (row_in ids) (messages db)) =
          Nat.min RETENTION_BATCH_LIMIT (length (expired_now now db))) as Hlen.
  { unfold ids. rewrite (batch_select now db Hids), length_take. by rewrite scan_perm. }
  rewrite bool_decide_eq_false_2.
  2: { rewrite Exists_exists. intros (m & Hm & E). unfold ids in Hm. rewrite (batch_select now db Hids) in Hm.
       apply elem_of_batch in Hm as [? ?]. apply (Hed m); [|done]. by apply elem_of_t_select. }
  exists (t_delete (row_in ids) (messages db)).2. cbn [t_delete fst snd map_err]. rewrite Hlen.
  split; [done|]. split; [by apply (ids_ok_delete m_id (row_in ids))|].
  split; [by intros m [_ ?]%list_elem_of_filter|]. split; [|split].
  - intros m Hm Hnot. destruct (decide (row_in ids m)) as [Hr|Hr].
    + apply batch_rows in Hr; [|done..]. by apply elem_of_batch in Hr as [? _].
    + exfalso. apply Hnot. by apply list_elem_of_filter.
  - rewrite <- Hlen. unfold t_select.
    pose proof (Permutation_length (filter_app_complement (row_in ids) (t_rows (messages db)))) as HP.
    rewrite length_app in HP. cbn [t_rows]. lia.
  - intros Hlt m [Hr Hm]%list_elem_of_filter He. apply Hr. apply batch_rows; [done..|].
    rewrite take_ge by (rewrite scan_perm; lia). rewrite scan_perm. by apply elem_of_t_select.
Qed.

#[local] Opaque RETENTION_BATCH_LIMIT.

(** C32. The retention task ends (with one iteration more than there are full
    batches): it deletes only messages that had expired at the time of one
    of its iterations, counts them, and leaves no message expired at the
    time of the last one, provided no expired message was ever edited.  When
    one was (and the expired messages fit one batch), the reference from the
    edit history makes the sweep fail without deleting anything. *)
Theorem retention_loop_spec fuel (now : nat → Z) db :
  ids_ok m_id (messages db) →
  ((length (t_rows (messages db)) < RETENTION_BATCH_LIMIT * fuel)%nat →
   (∀ m j, m ∈ t_rows (messages db) → is_expired (now_text (now j)) m → ¬ was_edited db m) →
   ∃ n last t,
     retention_loop fuel (λ _, no_fault) now 0 db = (Ok (Some n), set_messages t db) ∧
     (∀ m, m ∈ t_rows t → m ∈ t_rows (messages db)) ∧
     (∀ m, m ∈ t_rows (messages db) → m ∉ t_rows t → ∃ j, (j ≤ last)%nat ∧ is_expired (now_text (now j)) m) ∧
     (∀ m, m ∈ t_rows t → ¬ is_expired (now_text (now last)) m) ∧
     length (t_rows (messages db)) = (n + length (t_rows t))%nat) ∧
  ((0 < fuel)%nat → (∃ m, m ∈ expired_now (now 0%nat) db ∧ was_edited db m) →
   (length (expired_now (now 0%nat) db) ≤ RETENTION_BATCH_LIMIT)%nat →
   retention_loop fuel (λ _, no_fault) now 0 db = (Err (Database ConstraintForeignKey), db)).
Proof.
  intros Hids. split.
  - assert (∀ total, (length (t_rows (messages db)) < RETENTION_BATCH_LIMIT * fuel)%nat →
      (∀ m j, m ∈ t_rows (messages db) → is_expired (now_text (now j)) m → ¬ was_edited db m) →
      ∃ n last t,
       retention_loop fuel (λ _, no_fault) now total db = (Ok (Some (total + n)%nat), set_messages t db) ∧
       (∀ m, m ∈ t_rows t → m ∈ t_rows (messages db)) ∧
       (∀ m, m ∈ t_rows (messages db) → m ∉ t_rows t →
          ∃ j, (j ≤ last)%nat ∧ is_expired (now_text (now j)) m) ∧
       (∀ m, m ∈ t_rows t → ¬ is_expired (now_text (now last)) m) ∧
       length (t_rows (messages db)) = (n + length (t_rows t))%nat) as Hgen; [|by apply (Hgen 0%nat)].
    revert now db Hids. induction fuel as [|fuel IH]; intros now db Hids total Hfuel Hed; [lia|].
    cbn [retention_loop]. run_M.
    destruct (delete_expired_spec (now 0%nat) db Hids) as (t1 & Hrun & Hids1 & Hsub1 & Hexp1 & Hlen1 & Hall1).
    { intros m [He Hm]%elem_of_t_select. by eapply Hed. }
    rewrite Hrun. change task_batch with RETENTION_BATCH_LIMIT.
    destruct (Nat.min RETENTION_BATCH_LIMIT (length (expired_now (now 0%nat) db)) <? RETENTION_BATCH_LIMIT)%nat eqn:Hlt.
    + apply Nat.ltb_lt in Hlt. exists (Nat.min RETENTION_BATCH_LIMIT (length (expired_now (now 0%nat) db))), 0%nat, t1.
      split_and!; try done; [|apply Hall1; lia|lia].
      intros m Hm Hn. exists 0%nat. split; [lia|]. by apply Hexp1.
    + apply Nat.ltb_ge in Hlt.
      destruct (IH (λ k, now (S k)) (set_messages t1 db) Hids1
        (total + Nat.min RETENTION_BATCH_LIMIT (length (expired_now (now 0%nat) db)))%nat)
        as (n & last & t & -> & Hsub & Hexp & Hnone & Hlen).
      * cbn. lia.
      * intros m j Hm He. apply (Hed m (S j)); [by apply Hsub1|done].
      * cbn in Hlen, Hsub, Hexp.
        exists (Nat.min RETENTION_BATCH_LIMIT (length (expired_now (now 0%nat) db)) + n)%nat, (S last), t.
        split; [by rewrite Nat.add_assoc|]. split; [by auto|]. split; [|split; [done|lia]].
        intros m Hm Hn. destruct (decide (m ∈ t_rows t1)) as [Hin|Hin].
        -- destruct (Hexp m Hin Hn) as (j & Hj & He). exists (S j). split; [lia|done].
        -- exists 0%nat. split; [lia|]. by apply Hexp1.
  - intros Hfuel (m & Hm & Hed) Hfit. destruct fuel as [|fuel]; [lia|]. cbn [retention_loop]. run_M.
    unfold delete_expired_messages. run_M. unfold exec. cbn [no_fault]. unfold delete_messages.
    rewrite bool_decide_eq_true_2; [done|]. apply Exists_exists. exists m. split; [|done].
    rewrite (batch_select (now 0%nat) db Hids). rewrite take_ge; [by rewrite scan_perm|].
    rewrite scan_perm. exact Hfit.
Qed.
End retention_theorems.

(** ** Witnesses *)

Section witnesses.
#[local] Existing Instance toy_clock.

Definition toy_serde {A} (a : A) : Serde A := {| to_json _ := "{}"; from_json _ := Some a |}.
Definition toy_type_serde : Serde ChannelType := toy_serde Text.
Definition toy_scope_serde : Serde FederationScope := toy_serde Local.
Definition toy_alignment_serde : Serde AlignmentStatus.t := toy_serde AlignmentStatus.Aligned.
Definition toy_policy_serde : Serde ServerPolicy := toy_serde ServerPolicy_default.
#[local] Existing Instances toy_type_serde toy_scope_serde toy_alignment_serde toy_policy_serde.
Definition toy_scan : ScanOrder := {| scan l := l |}.
Lemma toy_scan_laws : @ScanOrderLaws toy_scan.
Proof. by split. Qed.

Definition toy_channel : ChannelRow :=
  {| ch_id := 1; ch_server_id := 1; ch_channel_id := "general"; ch_name := "General";
     ch_channel_type := "{}"; ch_topic := None; ch_vrp_topic_binding := None;
     ch_required_capabilities_json := None; ch_agent_min_alignment := None;
     ch_retention_days := Some 1; ch_federation_scope := "{}"; ch_created_at := now_text 0 |}.
Definition toy_message : Message :=
  {| m_id := 1; m_server_id := 1; m_channel_id := "general"; m_message_id := "m1";
     m_sender_pseudonym := "alice"; m_content := "hello"; m_reply_to := None;
     m_created_at := now_text 100; m_expires_at := Some (now_text 200); m_edited_at := None;
     m_deleted_at := None |}.
Definition toy_edit : MessageEdit :=
  {| e_id := 1; e_message_id := "m1"; e_old_content := "hi"; e_edited_at := now_text 110 |}.
Definition toy_db (edits : list MessageEdit) : ChannelDb :=
  {| channels := Table [toy_channel] 1; messages := Table [toy_message] 1;
     message_edits := Table edits 1; channel_members := t_empty; servers := {[ 1 := "{}" ]};
     identities := Table [{| pr_id := 1; pr_server_id := 1; pr_pseudonym_id := "alice";
       pr_participant_type := "HUMAN";
       pr_caps := {| can_voice := true; can_moderate := true; can_invite := true;
                     can_federate := true; can_bridge := false |};
       pr_active := true; pr_created_at := ""; pr_updated_at := "" |}] 1 |}.

Lemma toy_db_ok edits : (∀ e, e ∈ edits → e = toy_edit) → channels_ok (toy_db edits).
Proof.
  intros He. split.
  - intros r1 r2 H1%list_elem_of_singleton H2%list_elem_of_singleton. congruence.
  - split; cbn; [by apply SSorted_cons; [apply SSorted_nil|apply Forall_nil]|].
    apply Forall_singleton. cbn. lia.
  - intros r1 r2 H1%list_elem_of_singleton H2%list_elem_of_singleton. congruence.
  - intros r1 r2 H1. by apply not_elem_of_nil in H1.
  - intros m ->%list_elem_of_singleton. reflexivity.
  - intros m Hm. by apply not_elem_of_nil in Hm.
  - intros e ->%He. reflexivity.
  - intros r ->%list_elem_of_singleton. by eexists.
  - intros r ->%list_elem_of_singleton. reflexivity.
Qed.
Lemma toy_db_ok0 : channels_ok (toy_db []).
Proof. apply toy_db_ok. intros e He. by apply not_elem_of_nil in He. Qed.
Lemma toy_db_ok1 : channels_ok (toy_db [toy_edit]).
Proof. apply toy_db_ok. intros e He. by apply list_elem_of_singleton in He. Qed.

Lemma message_changes_spec_witness :
  (edit_message no_fault 120 "m1" "alice" "bye" (toy_db [])).1 =
    Ok (with_content "bye" (now_text 120) toy_message) ∧
  (∃ e, edit_message no_fault 120 "m1" "bob" "bye" (toy_db []) = (Err e, toy_db [])).
Proof.
  split; [vm_compute; reflexivity|].
  destruct (message_changes_spec no_fault 120 toy_message "bob" "bye" (toy_db [])
    (ok_messages _ toy_db_ok0) ltac:(left)) as [[[_ [Hs _]]|(e & _ & _ & Hno)] _].
  - discriminate Hs.
  - exists e. apply Hno. intros [Hs _]. discriminate Hs.
Defined.

Definition toy_params : CreateMessageParams :=
  {| mp_channel_id := "general"; mp_message_id := "m2"; mp_sender_pseudonym := "alice";
     mp_content := "hi"; mp_reply_to := None |}.

Lemma create_message_spec_witness :
  get_message no_fault "m2" (create_message no_fault 100 toy_params (toy_db [])).2 =
    Ok (message_row 100 1 (Some 1) toy_params 2).
Proof.
  destruct (create_message_spec no_fault 100 toy_params (toy_db []) toy_db_ok0) as [H _].
  destruct (H toy_channel ltac:(left) eq_refl eq_refl) as [(Hrun & _ & Hget)|[Hf _]]; [|by destruct Hf].
  rewrite Hrun. exact Hget.
Defined.

Lemma membership_spec_witness :
  is_member no_fault 1 "general" "alice" (add_member no_fault "now" 1 "general" "alice" (toy_db [])).2 = Ok true.
Proof.
  pose proof (membership_spec "now" 1 "general" "alice" toy_channel _ (toy_db []) toy_db_ok0
    ltac:(left) eq_refl eq_refl) as H.
  destruct (add_member no_fault "now" 1 "general" "alice" (toy_db [])) as [res db1] eqn:E.
  destruct H as (Hiff & _ & _ & Hadd & _).
  destruct Hadd as (_ & Hmem & _); [apply Hiff; right; split; [by eexists|reflexivity]|reflexivity|].
  cbn [snd]. rewrite Hmem. reflexivity.
Defined.

Lemma delete_channel_spec_witness :
  delete_channel no_fault "general" (toy_db [toy_edit]) =
    (Err (Database ConstraintForeignKey), toy_db [toy_edit]) ∧
  (∃ db', delete_channel no_fault "general" (toy_db []) = (Ok (), db')).
Proof.
  split.
  - apply (delete_channel_spec "general" (toy_db [toy_edit]) toy_db_ok1).
    exists toy_message. split; [left|]. split; reflexivity.
  - destruct (delete_channel_spec "general" (toy_db []) toy_db_ok0) as (_ & H & _).
    destruct H as (db' & Hrun & _); [|reflexivity|by exists db'].
    intros (m & Hm%list_elem_of_singleton & _ & Hed). subst m. discriminate Hed.
Defined.

Lemma retention_loop_spec_witness :
  retention_loop (SO := toy_scan) 1 (λ _, no_fault) (λ _, 300) 0 (toy_db [toy_edit]) =
    (Err (Database ConstraintForeignKey), toy_db [toy_edit]).
Proof.
  apply (retention_loop_spec (SO := toy_scan) (SL := toy_scan_laws) 1 (λ _, 300) (toy_db [toy_edit])
    (ok_message_ids _ toy_db_ok1)); [lia| |].
  - exists toy_message. split; [|reflexivity]. apply elem_of_t_select. split; [vm_compute; reflexivity|left].
  - apply (Nat.leb_le _ RETENTION_BATCH_LIMIT). vm_compute. reflexivity.
Defined.
End witnesses.
