(* ===== verification/Text.v ===== *)
(** * Text: the string functions of the standard library

    [starts_with], [ends_with], [contains], [split], [trim] and the digits
    of [char::to_digit], on UTF-8 bytes. *)

From stdpp Require Import pretty.
From S2P Require Import Prelude Bytes.

#[local] Open Scope Z_scope.

Definition starts_with (p s : string) : bool := String.prefix p s.

Fixpoint ends_with (suffix s : string) : bool :=
  bool_decide (s = suffix) || match s with "" => false | String _ s => ends_with suffix s end.

Fixpoint contains (needle s : string) : bool :=
  starts_with needle s || match s with "" => false | String _ s => contains needle s end.

(** [s.split(c)] for an ASCII [c]; never empty. *)
Fixpoint split_char (a : ascii) (s : string) : list string :=
  match s with
  | "" => [""]
  | String c s =>
      if decide (c = a) then "" :: split_char a s
      else match split_char a s with w :: ws => String c w :: ws | [] => [String c ""] end
  end.

(** [s.split(c).next().unwrap_or(s)]. *)
Definition before_char (a : ascii) (s : string) : string := default s (head (split_char a s)).

Fixpoint string_rev_app (s acc : string) : string :=
  match s with "" => acc | String c s => string_rev_app s (String c acc) end.
Definition string_rev (s : string) : string := string_rev_app s "".

(** The character with a given byte. *)
Definition chr (z : Z) : ascii := ascii_of_N (Z.to_N z).

(** [str::trim]: the UTF-8 encodings of the characters with the property
    White_Space, and the same bytes backwards for the end of the text. *)
Definition is_ascii_space (c : ascii) : bool := between 9 13 c || bool_decide (code c = 32).
Definition space2 (a b : Z) : bool := (a =? 194) && ((b =? 133) || (b =? 160)).
Definition space3 (a b c : Z) : bool :=
  ((a =? 225) && (b =? 154) && (c =? 128)) ||
  ((a =? 226) && (b =? 128) && (((128 <=? c) && (c <=? 138)) || (c =? 168) || (c =? 169) || (c =? 175))) ||
  ((a =? 226) && (b =? 129) && (c =? 159)) ||
  ((a =? 227) && (b =? 128) && (c =? 128)).

Fixpoint trim_start_with (back : bool) (s : string) : string :=
  match s with
  | "" => ""
  | String c1 s1 =>
      if is_ascii_space c1 then trim_start_with back s1
      else match s1 with
      | "" => s
      | String c2 s2 =>
          if (if back then space2 (code c2) (code c1) else space2 (code c1) (code c2))
          then trim_start_with back s2
          else match s2 with
          | "" => s
          | String c3 s3 =>
              if (if back then space3 (code c3) (code c2) (code c1)
                  else space3 (code c1) (code c2) (code c3))
              then trim_start_with back s3 else s
          end
      end
  end.
Definition trim (s : string) : string :=
  string_rev (trim_start_with true (string_rev (trim_start_with false s))).

(** [str::replace], for a [from] that is not empty; [skip] characters belong
    to the last match. *)
Fixpoint replace_skipping (skip : nat) (from to s : string) : string :=
  match s with
  | "" => ""
  | String c s' =>
      match skip with
      | S skip => replace_skipping skip from to s'
      | O =>
          if starts_with from s then to +:+ replace_skipping (pred (String.length from)) from to s'
          else String c (replace_skipping 0 from to s')
      end
  end.
Definition replace (from to s : string) : string := replace_skipping 0 from to s.

(** [str::split_whitespace]. *)
Fixpoint split_spaces (w s : string) : list string :=
  match s with
  | "" => [w]
  | String c1 s1 =>
      if is_ascii_space c1 then w :: split_spaces "" s1
      else match s1 with
      | "" => split_spaces (w +:+ String c1 "") s1
      | String c2 s2 =>
          if space2 (code c1) (code c2) then w :: split_spaces "" s2
          else match s2 with
          | "" => split_spaces (w +:+ String c1 "") s1
          | String c3 s3 =>
              if space3 (code c1) (code c2) (code c3) then w :: split_spaces "" s3
              else split_spaces (w +:+ String c1 "") s1
          end
      end
  end.
Definition split_whitespace (s : string) : list string := filter (λ w, w ≠ "") (split_spaces "" s).

(** [trim_start_matches(c)], [trim_end_matches(c)]. *)
Fixpoint trim_start_matches (a : ascii) (s : string) : string :=
  match s with
  | "" => ""
  | String c s' => if decide (c = a) then trim_start_matches a s' else s
  end.
Definition trim_end_matches (a : ascii) (s : string) : string :=
  string_rev (trim_start_matches a (string_rev s)).
(** [trim_matches(c)]. *)
Definition trim_matches (a : ascii) (s : string) : string := trim_end_matches a (trim_start_matches a s).

(** [char::to_digit(radix)] for ASCII. *)
Definition to_digit (radix : Z) (c : ascii) : option Z :=
  d ← (if is_ascii_digit c then Some (code c - 48)
       else if between 97 122 c then Some (code c - 87)
       else if between 65 90 c then Some (code c - 55) else None);
  if d <? radix then Some d else None.

Lemma to_digit_range radix c d : to_digit radix c = Some d → 0 ≤ d < radix.
Proof.
  unfold to_digit, is_ascii_digit, between. generalize (code c). intros x H.
  destruct ((48 <=? x) && (x <=? 57)) eqn:E1; [|destruct ((97 <=? x) && (x <=? 122)) eqn:E2;
    [|destruct ((65 <=? x) && (x <=? 90)) eqn:E3]]; simplify_eq/=; try case_match; simplify_eq; lia.
Qed.

(** ** Unicode text

    Case folding and word boundaries depend on the Unicode tables of the
    standard library: [to_lowercase] and [split(|c| !c.is_alphanumeric())] are
    a parameter, [ascii_text] an instance that is right for ASCII. *)

Class UnicodeText := {
  to_lowercase : string → string;
  split_non_alphanumeric : string → list string;
}.

(** ASCII text. *)
Definition is_ascii_alphanumeric (c : ascii) : bool :=
  is_ascii_digit c || between 65 90 c || between 97 122 c.
Fixpoint ascii_split (s : string) : list string :=
  match s with
  | "" => [""]
  | String c s =>
      if is_ascii_alphanumeric c then
        match ascii_split s with w :: ws => String c w :: ws | [] => [String c ""] end
      else "" :: ascii_split s
  end.
Definition ascii_text : UnicodeText :=
  {| to_lowercase := to_ascii_lowercase; split_non_alphanumeric := ascii_split |}.

Example trim_ex : trim "  a b	 " = "a b". Proof. reflexivity. Qed.
Example before_ex : before_char ":" "host:80" = "host". Proof. reflexivity. Qed.

(** ** Delimited fields *)

(** The character does not occur in the text. *)
Definition lacks (c : ascii) (s : string) : Prop := string_all (λ d, negb (bool_decide (d = c))) s = true.
#[export] Instance lacks_dec c s : Decision (lacks c s).
Proof. unfold lacks. apply _. Defined.

Definition newline : ascii := "010"%char.

Lemma lacks_cons c d s : lacks c (String d s) ↔ d ≠ c ∧ lacks c s.
Proof. unfold lacks. cbn. by rewrite andb_true_iff, negb_true_iff, bool_decide_eq_false. Qed.

Lemma delimited_inj c s1 s2 r1 r2 :
  lacks c s1 → lacks c s2 → s1 +:+ String c r1 = s2 +:+ String c r2 → s1 = s2 ∧ r1 = r2.
Proof.
  revert s2. induction s1 as [|d1 s1 IH]; intros [|d2 s2]; rewrite ?lacks_cons; cbn.
  - by intros _ _ [= ->].
  - intros _ [Hd _] [= E _]. congruence.
  - intros [Hd _] _ [= E _]. congruence.
  - intros [_ H1] [_ H2] E. change (String d1 (s1 +:+ String c r1) = String d2 (s2 +:+ String c r2)) in E.
    injection E as -> E. by destruct (IH _ H1 H2 E) as [-> ->].
Qed.

Lemma not_lacks_delimiter c s r : ¬ lacks c (s +:+ String c r).
Proof. unfold lacks. rewrite string_all_app. cbn. rewrite bool_decide_eq_true_2 by done. by rewrite andb_false_r. Qed.

(** The last delimiter: what follows it lacks the character. *)
Lemma delimited_inj_r c s1 s2 r1 r2 :
  lacks c r1 → lacks c r2 → s1 +:+ String c r1 = s2 +:+ String c r2 → s1 = s2 ∧ r1 = r2.
Proof.
  intros H1 H2. revert s2. induction s1 as [|d1 s1 IH]; intros [|d2 s2].
  - cbn. by intros [= ->].
  - change (String c r1 = String d2 (s2 +:+ String c r2) → "" = String d2 s2 ∧ r1 = r2).
    intros [= _ ->]. by apply not_lacks_delimiter in H1.
  - change (String d1 (s1 +:+ String c r1) = String c r2 → String d1 s1 = "" ∧ r1 = r2).
    intros [= _ <-]. by apply not_lacks_delimiter in H2.
  - change (String d1 (s1 +:+ String c r1) = String d2 (s2 +:+ String c r2) →
            String d1 s1 = String d2 s2 ∧ r1 = r2).
    intros [= -> E]. by destruct (IH _ E) as [-> ->].
Qed.

Lemma join_inj c l1 l2 :
  Forall (lacks c) l1 → Forall (lacks c) l2 → l1 ≠ [] → l2 ≠ [] →
  String.concat (String c "") l1 = String.concat (String c "") l2 → l1 = l2.
Proof.
  intros H1. revert l2. induction H1 as [|s1 l1 Hs1 H1 IH]; [done|].
  intros [|s2 l2] H2 _; [done|]. intros _. apply Forall_cons in H2 as [Hs2 H2].
  destruct l1 as [|t1 l1], l2 as [|t2 l2]; cbn [String.concat].
  - by intros ->.
  - intros ->. by apply not_lacks_delimiter in Hs1.
  - intros <-. by apply not_lacks_delimiter in Hs2.
  - intros [-> E]%delimited_inj; [|done..]. f_equal. by apply IH.
Qed.

(** Decimal numbers are digits. *)
Lemma pretty_N_all (P : ascii → bool) (n : N) :
  forallb P (["0"; "1"; "2"; "3"; "4"; "5"; "6"; "7"; "8"; "9"] : list ascii)%char = true →
  string_all P (pretty n) = true.
Proof.
  intros HP. assert (∀ d, P (pretty_N_char d) = true) as Hd.
  { intros d. unfold pretty_N_char. cbn in HP. rewrite !andb_true_iff in HP.
    destruct HP as (?&?&?&?&?&?&?&?&?&?&_). by repeat case_match. }
  assert (∀ s, string_all P s = true → string_all P (pretty_N_go n s) = true) as Hgo.
  { induction (N.lt_wf_0 n) as [n _ IH]; intros s Hs.
    destruct (decide (n = 0)%N) as [->|Hn]; [done|]. rewrite pretty_N_go_step by lia.
    apply IH; [apply N.div_lt; lia|]. cbn. by rewrite Hd. }
  unfold pretty, pretty_N. case_decide; [cbn|by apply Hgo].
  by rewrite (Hd 0%N : P "0"%char = true).
Qed.
Lemma pretty_N_lacks c (n : N) :
  forallb (λ d, negb (bool_decide (d = c)))
    (["0"; "1"; "2"; "3"; "4"; "5"; "6"; "7"; "8"; "9"] : list ascii)%char = true →
  lacks c (pretty n).
Proof. apply pretty_N_all. Qed.

(** [str::rsplit_once]. *)
Fixpoint rsplit_once (c : ascii) (s : string) : option (string * string) :=
  match s with
  | "" => None
  | String d s =>
      match rsplit_once c s with
      | Some (a, b) => Some (String d a, b)
      | None => if decide (d = c) then Some ("", s) else None
      end
  end.

Lemma rsplit_once_lacks c s : lacks c s → rsplit_once c s = None.
Proof.
  induction s as [|d s IH]; cbn; [done|]. intros [Hd Hs]%lacks_cons. by rewrite IH, decide_False.
Qed.

Lemma rsplit_once_app c a b : lacks c b → rsplit_once c (a +:+ String c b) = Some (a, b).
Proof.
  intros Hb. induction a as [|d a IH].
  - change (rsplit_once c (String c b) = Some ("", b)). cbn. by rewrite rsplit_once_lacks, decide_True.
  - change (rsplit_once c (String d (a +:+ String c b)) = Some (String d a, b)). cbn. by rewrite IH.
Qed.

(** [str::split_once] and [splitn(n, c)]. *)
Fixpoint split_once (c : ascii) (s : string) : option (string * string) :=
  match s with
  | "" => None
  | String d s =>
      if decide (d = c) then Some ("", s)
      else match split_once c s with Some (a, b) => Some (String d a, b) | None => None end
  end.
Fixpoint splitn (n : nat) (c : ascii) (s : string) : list string :=
  match n with
  | 0%nat => []
  | 1%nat => [s]
  | S n => match split_once c s with Some (a, b) => a :: splitn n c b | None => [s] end
  end.

Lemma split_once_app c a b : lacks c a → split_once c (a +:+ String c b) = Some (a, b).
Proof.
  induction a as [|d a IH].
  - intros _. change (split_once c (String c b) = Some ("", b)). cbn. by rewrite decide_True.
  - intros [Hd Ha]%lacks_cons.
    change (split_once c (String d (a +:+ String c b)) = Some (String d a, b)). cbn. by rewrite decide_False, IH.
Qed.
Lemma split_once_inv c s a b : split_once c s = Some (a, b) → s = a +:+ String c b ∧ lacks c a.
Proof.
  revert a. induction s as [|d s IH]; intros a; cbn; [done|]. case_decide as Hd; [by intros [= <- <-]; subst|].
  destruct (split_once c s) as [[a' b']|]; [|done]. intros [= <- <-]. destruct (IH a' eq_refl) as [-> ?].
  split; [done|]. by apply lacks_cons.
Qed.

(** ** Decimal numbers: [str::parse::<u64>] *)

Fixpoint parse_digits (acc : Z) (s : string) : option Z :=
  match s with
  | "" => Some acc
  | String c s =>
      d ← to_digit 10 c;
      if 2 ^ 64 <=? acc * 10 + d then None else parse_digits (acc * 10 + d) s
  end.
Definition parse_u64 (s : string) : option Z :=
  match s with
  | "" => None
  | String "+" "" => None
  | String "+" s => parse_digits 0 s
  | _ => parse_digits 0 s
  end.

Lemma to_digit_pretty (d : N) : (d < 10)%N → to_digit 10 (pretty_N_char d) = Some (Z.of_N d).
Proof.
  intros Hd. rewrite <- (N2Nat.id d). generalize (N.to_nat d) as n, (ltac:(lia) : (N.to_nat d < 10)%nat).
  intros n Hn. do 10 (destruct n as [|n]; [reflexivity|]). lia.
Qed.

Lemma parse_digits_pretty n s :
  (Z.of_N n < 2 ^ 64) → parse_digits 0 (pretty_N_go n s) = parse_digits (Z.of_N n) s.
Proof.
  revert s. induction (N.lt_wf_0 n) as [n _ IH]; intros s Hn.
  destruct (decide (n = 0)%N) as [->|Hn0]; [done|]. rewrite pretty_N_go_step by lia.
  pose proof (N.Div0.div_mod n 10) as Hdm. pose proof (N.mod_lt n 10 ltac:(done)) as Hmod.
  rewrite IH; [|apply N.div_lt; lia|apply (Z.le_lt_trans _ (Z.of_N n)); [|done]; apply N2Z.inj_le, N.Div0.div_le_upper_bound; lia].
  cbn [parse_digits]. rewrite to_digit_pretty by done. cbn [mbind option_bind].
  replace (Z.of_N (n / 10) * 10 + Z.of_N (n mod 10)) with (Z.of_N n) by lia.
  by rewrite (proj2 (Z.leb_gt _ _)).
Qed.

Lemma parse_u64_pretty n : Z.of_N n < 2 ^ 64 → parse_u64 (pretty n) = Some (Z.of_N n).
Proof.
  intros Hn. assert (lacks "+" (pretty n)) as Hl by by apply pretty_N_lacks.
  assert (parse_digits 0 (pretty n) = Some (Z.of_N n)) as Hp.
  { unfold pretty, pretty_N. case_decide as H0; [by subst|]. by rewrite parse_digits_pretty. }
  destruct (pretty n) as [|c s] eqn:E.
  - cbn in Hp. injection Hp as Hp. destruct n; [|done]. done.
  - apply lacks_cons in Hl as [Hc _]. unfold parse_u64. rewrite <- Hp.
    destruct c as [[] [] [] [] [] [] [] []]; try done.
Qed.

(** ** UTF-8: [String::from_utf8] *)

Definition is_continuation (b : byte) : bool := (128 <=? bval b) && (bval b <=? 191).
Definition utf8_lead3 (b1 b2 : byte) : bool :=
  ((bval b1 =? 224) && (160 <=? bval b2) && (bval b2 <=? 191)) ||
  ((225 <=? bval b1) && (bval b1 <=? 236) && is_continuation b2) ||
  ((bval b1 =? 237) && (128 <=? bval b2) && (bval b2 <=? 159)) ||
  ((238 <=? bval b1) && (bval b1 <=? 239) && is_continuation b2).
Definition utf8_lead4 (b1 b2 : byte) : bool :=
  ((bval b1 =? 240) && (144 <=? bval b2) && (bval b2 <=? 191)) ||
  ((241 <=? bval b1) && (bval b1 <=? 243) && is_continuation b2) ||
  ((bval b1 =? 244) && (128 <=? bval b2) && (bval b2 <=? 143)).

Fixpoint is_utf8 (bs : list byte) : bool :=
  match bs with
  | [] => true
  | b1 :: bs1 =>
      if bval b1 <? 128 then is_utf8 bs1
      else match bs1 with
      | [] => false
      | b2 :: bs2 =>
          if (194 <=? bval b1) && (bval b1 <=? 223) then is_continuation b2 && is_utf8 bs2
          else match bs2 with
          | [] => false
          | b3 :: bs3 =>
              if utf8_lead3 b1 b2 then is_continuation b3 && is_utf8 bs3
              else match bs3 with
              | [] => false
              | b4 :: bs4 => utf8_lead4 b1 b2 && is_continuation b3 && is_continuation b4 && is_utf8 bs4
              end
          end
      end
  end.

Definition from_utf8 (bs : list byte) : option string :=
  if is_utf8 bs then Some (String.string_of_list_byte bs) else None.

(** [String::from_utf8_lossy]: U+FFFD for every longest beginning of a
    character that is not continued. *)
Definition replacement : list byte := ["239"; "191"; "189"]%byte.
Fixpoint lossy (bs : list byte) : list byte :=
  match bs with
  | [] => []
  | b1 :: bs1 =>
      if bval b1 <? 128 then b1 :: lossy bs1
      else match bs1 with
      | [] => replacement
      | b2 :: bs2 =>
          if (194 <=? bval b1) && (bval b1 <=? 223) then
            if is_continuation b2 then b1 :: b2 :: lossy bs2 else replacement ++ lossy bs1
          else if utf8_lead3 b1 b2 then
            match bs2 with
            | [] => replacement
            | b3 :: bs3 => if is_continuation b3 then b1 :: b2 :: b3 :: lossy bs3 else replacement ++ lossy bs2
            end
          else if utf8_lead4 b1 b2 then
            match bs2 with
            | [] => replacement
            | b3 :: bs3 =>
                if is_continuation b3 then
                  match bs3 with
                  | [] => replacement
                  | b4 :: bs4 =>
                      if is_continuation b4 then b1 :: b2 :: b3 :: b4 :: lossy bs4 else replacement ++ lossy bs3
                  end
                else replacement ++ lossy bs2
            end
          else replacement ++ lossy bs1
      end
  end.
Definition from_utf8_lossy (bs : list byte) : string := String.string_of_list_byte (lossy bs).

Lemma is_utf8_app bs cs : is_utf8 bs = true → is_utf8 (bs ++ cs) = is_utf8 cs.
Proof.
  remember (length bs) as n eqn:Hn. revert bs Hn.
  induction (lt_wf n) as [n _ IH]; intros bs ->. destruct bs as [|b1 [|b2 [|b3 [|b4 bs]]]]; cbn; [done|..].
  - by destruct (bval b1 <? 128).
  - destruct (bval b1 <? 128); [by destruct (bval b2 <? 128)|].
    destruct (_ && _); [|done]. by intros [-> _]%andb_true_iff.
  - destruct (bval b1 <? 128); [intros H; by apply (IH 2%nat (ltac:(cbn; lia)) [b2; b3])|].
    destruct (_ && _).
    + intros [-> H]%andb_true_iff. by apply (IH 1%nat (ltac:(cbn; lia)) [b3]).
    + destruct (utf8_lead3 b1 b2); [|done]. by intros [-> _]%andb_true_iff.
  - destruct (bval b1 <? 128); [intros H; by apply (IH (length (b2 :: b3 :: b4 :: bs)) (ltac:(cbn; lia)) (b2 :: b3 :: b4 :: bs))|].
    destruct (_ && _).
    + intros [-> H]%andb_true_iff. by apply (IH (length (b3 :: b4 :: bs)) (ltac:(cbn; lia)) (b3 :: b4 :: bs)).
    + destruct (utf8_lead3 b1 b2).
      * intros [-> H]%andb_true_iff. by apply (IH (length (b4 :: bs)) (ltac:(cbn; lia)) (b4 :: bs)).
      * intros [-> H]%andb_true_iff. by apply (IH (length bs) (ltac:(cbn; lia)) bs).
Qed.

Lemma is_utf8_ascii bs : Forall (λ b, bval b < 128) bs → is_utf8 bs = true.
Proof. induction 1 as [|b bs Hb _ IH]; cbn; [done|]. by rewrite (proj2 (Z.ltb_lt _ _)). Qed.

Lemma bval_of_ascii c : bval (byte_of_ascii c) = code c.
Proof. destruct c as [[] [] [] [] [] [] [] []]; reflexivity. Qed.

Lemma is_utf8_text s :
  string_all (λ c, code c <? 128) s = true → is_utf8 (String.list_byte_of_string s) = true.
Proof.
  intros H. apply is_utf8_ascii. induction s as [|c s IH]; [constructor|].
  cbn in H. apply andb_true_iff in H as [Hc%Z.ltb_lt H]. constructor; [by rewrite bval_of_ascii|by apply IH].
Qed.

Lemma list_byte_app s t :
  String.list_byte_of_string (s +:+ t) = String.list_byte_of_string s ++ String.list_byte_of_string t.
Proof.
  induction s as [|c s IH]; [done|].
  change (byte_of_ascii c :: String.list_byte_of_string (s +:+ t) =
          byte_of_ascii c :: (String.list_byte_of_string s ++ String.list_byte_of_string t)). by rewrite IH.
Qed.

Lemma from_utf8_text s : is_utf8 (String.list_byte_of_string s) = true → from_utf8 (String.list_byte_of_string s) = Some s.
Proof. unfold from_utf8. intros ->. by rewrite String.string_of_list_byte_of_string. Qed.
Lemma from_utf8_inv bs s : from_utf8 bs = Some s → bs = String.list_byte_of_string s.
Proof. unfold from_utf8. destruct (is_utf8 bs); [|done]. intros [= <-]. by rewrite String.list_byte_of_string_of_list_byte. Qed.

Lemma lossy_id bs : is_utf8 bs = true → lossy bs = bs.
Proof.
  remember (length bs) as n eqn:Hn. revert bs Hn. induction (lt_wf n) as [n _ IH]; intros bs ->.
  assert (∀ bs', (length bs' < length bs)%nat → is_utf8 bs' = true → lossy bs' = bs') as IH'
    by (intros bs' Hlt; by apply (IH (length bs') Hlt)). clear IH.
  destruct bs as [|b1 bs1]; [done|]. cbn.
  destruct (bval b1 <? 128); [intros H; f_equal; apply IH'; cbn; auto|].
  destruct bs1 as [|b2 bs2]; [done|]. destruct (_ && _).
  { intros [-> H]%andb_true_iff. do 2 f_equal. apply IH'; cbn; auto. }
  destruct bs2 as [|b3 bs3]; [done|]. destruct (utf8_lead3 b1 b2).
  { intros [-> H]%andb_true_iff. do 3 f_equal. apply IH'; cbn; auto. }
  destruct bs3 as [|b4 bs4]; [done|]. intros [[[-> ->]%andb_true_iff ->]%andb_true_iff H]%andb_true_iff.
  do 4 f_equal. apply IH'; cbn; auto.
Qed.

Lemma is_utf8_lossy bs : is_utf8 (lossy bs) = true.
Proof.
  remember (length bs) as n eqn:Hn. revert bs Hn. induction (lt_wf n) as [n _ IH]; intros bs ->.
  assert (∀ bs', (length bs' < length bs)%nat → is_utf8 (lossy bs') = true) as IH'
    by (intros bs' Hlt; by apply (IH (length bs') Hlt)). clear IH.
  assert (∀ bs', (length bs' < length bs)%nat → is_utf8 (replacement ++ lossy bs') = true) as Hr
    by (intros bs' Hlt; rewrite is_utf8_app by done; by apply IH').
  destruct bs as [|b1 bs1]; [done|]. cbn [lossy].
  destruct (bval b1 <? 128) eqn:E1; [cbn; rewrite E1; apply IH'; cbn; auto|].
  destruct bs1 as [|b2 bs2]; [done|]. destruct (_ && _) eqn:E2.
  { destruct (is_continuation b2) eqn:Ec; [|apply Hr; cbn; lia]. cbn [is_utf8]. rewrite E1, E2, Ec. apply IH'. cbn. lia. }
  destruct (utf8_lead3 b1 b2) eqn:E3.
  { destruct bs2 as [|b3 bs3]; [done|]. destruct (is_continuation b3) eqn:Ec; [|apply Hr; cbn; lia].
    cbn [is_utf8]. rewrite E1, E2, E3, Ec. apply IH'. cbn. lia. }
  destruct (utf8_lead4 b1 b2) eqn:E4; [|apply Hr; cbn; lia].
  destruct bs2 as [|b3 bs3]; [done|]. destruct (is_continuation b3) eqn:Ec; [|apply Hr; cbn; lia].
  destruct bs3 as [|b4 bs4]; [done|]. destruct (is_continuation b4) eqn:Ec4; [|apply Hr; cbn; lia].
  cbn [is_utf8]. rewrite E1, E2, E3, E4, Ec, Ec4. apply IH'. cbn. lia.
Qed.

(** A prefix that ends where a character begins. *)
Lemma utf8_lead_continuation b1 b2 :
  is_continuation b2 = false → utf8_lead3 b1 b2 = false ∧ utf8_lead4 b1 b2 = false.
Proof.
  unfold utf8_lead3, utf8_lead4. intros H. rewrite H. unfold is_continuation in H.
  rewrite !andb_false_r. cbn [orb]. split; lia.
Qed.
Lemma is_utf8_prefix bs c cs :
  is_continuation c = false → is_utf8 (bs ++ c :: cs) = true → is_utf8 bs = true.
Proof.
  intros Hc. pose proof (λ b, utf8_lead_continuation b c Hc) as Hl.
  remember (length bs) as n eqn:Hn. revert bs Hn.
  induction (lt_wf n) as [n _ IH]; intros bs ->.
  assert (∀ bs', (length bs' < length bs)%nat → is_utf8 (bs' ++ c :: cs) = true → is_utf8 bs' = true) as IH'
    by (intros bs' Hlt; by apply (IH (length bs') Hlt)).
  destruct bs as [|b1 bs1]; [done|]. cbn.
  destruct (bval b1 <? 128); [apply IH'; cbn; lia|].
  destruct bs1 as [|b2 bs2]; cbn.
  { destruct (Hl b1) as [-> ->]. rewrite Hc. destruct (_ && _); [done|]. by destruct cs as [|c2 [|c3 cs]]. }
  destruct (_ && _).
  { intros [-> H]%andb_true_iff. apply IH'; [cbn; lia|done]. }
  destruct bs2 as [|b3 bs3]; cbn.
  { rewrite Hc. destruct (utf8_lead3 b1 b2); [done|]. destruct cs; [done|]. by rewrite andb_false_r. }
  destruct (utf8_lead3 b1 b2).
  { intros [-> H]%andb_true_iff. apply IH'; [cbn; lia|done]. }
  destruct bs3 as [|b4 bs4]; cbn.
  { by rewrite Hc, andb_false_r. }
  intros [-> H]%andb_true_iff. apply IH'; [cbn; lia|done].
Qed.

(** [trim] of UTF-8 text is UTF-8 text. *)
Definition utf8 (s : string) : Prop := is_utf8 (String.list_byte_of_string s) = true.
#[export] Instance utf8_dec s : Decision (utf8 s).
Proof. unfold utf8. apply _. Defined.

Lemma string_rev_app_spec s acc : string_rev_app s acc = string_rev s +:+ acc.
Proof.
  unfold string_rev. revert acc. induction s as [|c s IH]; intros acc; [done|].
  cbn [string_rev_app]. by rewrite IH, (IH (String c "")), string_app_assoc.
Qed.
Lemma string_rev_cons c s : string_rev (String c s) = string_rev s +:+ String c "".
Proof. exact (string_rev_app_spec s (String c "")). Qed.
Lemma string_rev_snoc s t : string_rev (s +:+ t) = string_rev t +:+ string_rev s.
Proof.
  induction s as [|c s IH].
  - change ("" +:+ t) with t. rewrite <- string_rev_app_spec. unfold string_rev at 2. cbn.
    rewrite string_rev_app_spec. induction (string_rev t) as [|d u IHu]; [done|].
    change (String d u = String d (u +:+ "")). by rewrite <- IHu.
  - change (String c s +:+ t) with (String c (s +:+ t)). by rewrite !string_rev_cons, IH, string_app_assoc.
Qed.
Lemma string_rev_involutive s : string_rev (string_rev s) = s.
Proof. induction s as [|c s IH]; [done|]. by rewrite string_rev_cons, string_rev_snoc, IH. Qed.

Lemma is_continuation_code c : code c < 128 ∨ 192 <= code c → is_continuation (byte_of_ascii c) = false.
Proof. unfold is_continuation. rewrite bval_of_ascii. lia. Qed.
Lemma utf8_before s c t : utf8 (s +:+ String c t) → code c < 128 ∨ 192 <= code c → utf8 s.
Proof.
  unfold utf8. rewrite list_byte_app. cbn. intros H Hc. by apply (is_utf8_prefix _ _ _ (is_continuation_code c Hc)) in H.
Qed.
Lemma utf8_tail c s : code c < 128 → utf8 (String c s) → utf8 s.
Proof. unfold utf8. cbn. rewrite bval_of_ascii. intros Hc. by rewrite (proj2 (Z.ltb_lt _ _) Hc). Qed.
Lemma ascii_space_code c : is_ascii_space c = true → code c < 128.
Proof. unfold is_ascii_space, between. rewrite orb_true_iff, bool_decide_eq_true. lia. Qed.
Lemma space2_code a b : space2 a b = true → a = 194.
Proof. unfold space2. lia. Qed.
Lemma space3_code a b c : space3 a b c = true → 225 <= a <= 227.
Proof. unfold space3. lia. Qed.
Lemma utf8_tail2 a b s : space2 (code a) (code b) = true → utf8 (String a (String b s)) → utf8 s.
Proof.
  intros Ha%space2_code. unfold utf8. cbn. rewrite !bval_of_ascii, Ha. cbn. by intros [_ ?]%andb_true_iff.
Qed.
Lemma utf8_tail3 a b c s :
  space3 (code a) (code b) (code c) = true → utf8 (String a (String b (String c s))) → utf8 s.
Proof.
  intros Ha%space3_code. unfold utf8. cbn. unfold utf8_lead4. rewrite !bval_of_ascii.
  rewrite (proj2 (Z.ltb_ge _ _)), (proj2 (andb_false_iff (194 <=? code a) _)) by (rewrite ?Z.leb_gt; lia).
  destruct (utf8_lead3 _ _); [by intros [_ ?]%andb_true_iff|].
  rewrite (proj2 (Z.eqb_neq (code a) 240)), (proj2 (Z.eqb_neq (code a) 244)), (proj2 (Z.leb_gt 241 (code a))) by lia.
  by destruct s.
Qed.

Lemma trim_start_utf8 (back : bool) s :
  utf8 (if back then string_rev s else s) →
  utf8 (if back then string_rev (trim_start_with back s) else trim_start_with back s).
Proof.
  remember (String.length s) as n eqn:Hn. revert s Hn. induction (lt_wf n) as [n _ IH]; intros s ->.
  assert (∀ t, (String.length t < String.length s)%nat → utf8 (if back then string_rev t else t) →
    utf8 (if back then string_rev (trim_start_with back t) else trim_start_with back t)) as IH'
    by (intros t Ht; by apply (IH _ Ht)).
  clear IH. destruct s as [|c1 s1]; [done|]. cbn [trim_start_with]. destruct (is_ascii_space c1) eqn:E1.
  { apply ascii_space_code in E1. intros H. apply IH'; [cbn; lia|]. destruct back.
    - rewrite string_rev_cons in H. by apply utf8_before in H; [|left].
    - by apply utf8_tail in H. }
  destruct s1 as [|c2 s2]; [done|].
  destruct (if back then space2 (code c2) (code c1) else space2 (code c1) (code c2)) eqn:E2.
  { intros H. apply IH'; [cbn; lia|]. destruct back.
    - apply space2_code in E2. rewrite !string_rev_cons, string_app_assoc in H.
      apply utf8_before in H; [done|lia].
    - by apply utf8_tail2 in H. }
  destruct s2 as [|c3 s3]; [done|].
  destruct (if back then space3 (code c3) (code c2) (code c1) else space3 (code c1) (code c2) (code c3)) eqn:E3; [|done].
  intros H. apply IH'; [cbn; lia|]. destruct back.
  - apply space3_code in E3. rewrite !string_rev_cons, !string_app_assoc in H.
    apply utf8_before in H; [done|lia].
  - by apply utf8_tail3 in H.
Qed.

Lemma trim_utf8 s : utf8 s → utf8 (trim s).
Proof.
  intros H. unfold trim. apply (trim_start_utf8 true). rewrite string_rev_involutive. by apply (trim_start_utf8 false).
Qed.
