(* ===== verification/Float.v ===== *)
(** * Float: rounding of the specification floats

    The standard library gives IEEE 754 arithmetic as functions on
    [spec_float] without theorems.  Here: non-negative floats have a value
    in units of the smallest subnormal, comparison is comparison of values,
    and rounding a sum to nearest keeps it on the same side of every
    representable bound.  [prec] and [emax] are those of the format. *)

From S2P Require Import Prelude Types.

#[local] Open Scope Z_scope.

(** ** Digits and shifts *)

Lemma digits2_pos_bounds (m : positive) :
  2 ^ (Z.pos (digits2_pos m) - 1) ≤ Z.pos m < 2 ^ Z.pos (digits2_pos m).
Proof.
  induction m as [m IH|m IH|]; cbn [digits2_pos]; [| |done];
    rewrite Pos2Z.inj_succ; unfold Z.succ; rewrite Z.add_simpl_r.
  all: assert (2 ^ (Z.pos (digits2_pos m) + 1) = 2 * 2 ^ Z.pos (digits2_pos m)) as ->
         by (rewrite Z.pow_add_r by lia; lia).
  all: assert (2 ^ Z.pos (digits2_pos m) = 2 * 2 ^ (Z.pos (digits2_pos m) - 1)) as E
         by (rewrite <- Z.pow_succ_r by lia; f_equal; lia).
  all: lia.
Qed.

Lemma digits2_pos_unique (m : positive) d :
  0 < d → 2 ^ (d - 1) ≤ Z.pos m < 2 ^ d → Z.pos (digits2_pos m) = d.
Proof.
  intros Hd [H1 H2]. pose proof (digits2_pos_bounds m) as [H3 H4].
  assert (Z.pos (digits2_pos m) - 1 < d) by (apply (Z.pow_lt_mono_r_iff 2); lia).
  assert (d - 1 < Z.pos (digits2_pos m)) by (apply (Z.pow_lt_mono_r_iff 2); lia). lia.
Qed.

Lemma iter_pos_iter {A} (f : A → A) p x : iter_pos f p x = Nat.iter (Pos.to_nat p) f x.
Proof.
  revert x. induction p as [p IH|p IH|]; intros x; cbn [iter_pos]; [| |done].
  - rewrite !IH, <- Nat.iter_add, <- Nat.iter_succ_r, Pos2Nat.inj_xI. f_equal. lia.
  - rewrite !IH, <- Nat.iter_add, Pos2Nat.inj_xO. f_equal. lia.
Qed.

(** Shifting right by [n]: the quotient, and whether bits were lost. *)
Lemma shr_iter n m r0 s0 :
  0 ≤ m →
  let mrs := Nat.iter n shr_1 {| shr_m := m; shr_r := r0; shr_s := s0 |} in
  shr_m mrs = m / 2 ^ Z.of_nat n ∧
  (shr_r mrs || shr_s mrs = false ↔ m mod 2 ^ Z.of_nat n = 0 ∧ r0 || s0 = false).
Proof.
  intros Hm. induction n as [|n [IHm IHl]]; [cbn; rewrite Z.div_1_r, Z.mod_1_r; tauto|].
  rewrite Nat.iter_succ. destruct (Nat.iter n shr_1 _) as [m' r s]. cbn [shr_m shr_r shr_s] in IHm, IHl.
  set (P := 2 ^ Z.of_nat n) in *.
  assert (0 < P) as HP by (apply Z.pow_pos_nonneg; lia).
  assert (2 ^ Z.of_nat (S n) = P * 2) as -> by (rewrite Nat2Z.inj_succ, Z.pow_succ_r by lia; lia).
  rewrite <- Z.div_div, Z.rem_mul_r, <- IHm by lia.
  assert (0 ≤ m') as Hm' by (subst m'; by apply Z.div_pos; lia).
  assert (Z.odd m' || (r || s) = false ↔ m mod P + P * (m' mod 2) = 0 ∧ r0 || s0 = false) as Hgoal.
  { rewrite Zmod_odd, (orb_false_iff (Z.odd m')), IHl. pose proof (Z.mod_pos_bound m P HP).
    destruct (Z.odd m'); [split; [intros [? _]; done|lia]|].
    rewrite Z.mul_0_r, Z.add_0_r. tauto. }
  destruct m' as [|[p|p|]|]; cbn [shr_1 shr_m shr_r shr_s]; (split; [div_lia|exact Hgoal]) || lia.
Qed.

(** ** Values *)

Section format.
Context (prec emax : Z) (Hprec : 1 < prec) (Hemax : prec < emax).

#[local] Abbreviation emin := (emin prec emax).
#[local] Abbreviation fexp := (fexp prec emax).

(** A float of the format that is not negative and not NaN. *)
Definition nonneg (x : spec_float) : Prop :=
  match x with
  | S754_zero false | S754_infinity false => True
  | S754_finite false m e => bounded prec emax m e = true
  | _ => False
  end.

(** The units below infinity. *)
Definition top : Z := 2 ^ (emax - emin).

Lemma top_pos : 0 < top.
Proof. unfold top, SpecFloat.emin. apply Z.pow_pos_nonneg; lia. Qed.

(** The value in units of [2 ^ emin]. *)
Definition value (x : spec_float) : Z :=
  match x with
  | S754_infinity _ => top
  | S754_finite _ m e => Z.pos m * 2 ^ (e - emin)
  | _ => 0
  end.

(** A canonical mantissa is full, unless the exponent is the least. *)
Lemma bounded_spec m e :
  bounded prec emax m e = true →
  emin ≤ e ≤ emax - prec ∧ Z.pos m < 2 ^ prec ∧ (emin < e → 2 ^ (prec - 1) ≤ Z.pos m).
Proof.
  unfold bounded, canonical_mantissa, SpecFloat.fexp. rewrite andb_true_iff, Z.eqb_eq, Z.leb_le.
  intros [Hc He]. pose proof (digits2_pos_bounds m) as [Hlo Hhi].
  assert (Z.pos (digits2_pos m) ≤ prec) as Hd by lia.
  split_and!; [lia..| |].
  - pose proof (Z.pow_le_mono_r 2 _ _ ltac:(lia) Hd). lia.
  - intros Hlt. assert (Z.pos (digits2_pos m) = prec) as <- by lia. done.
Qed.

Lemma value_finite_bounds m e :
  bounded prec emax m e = true → 0 < value (S754_finite false m e) < top.
Proof.
  intros (He & Hm & _)%bounded_spec. cbn [value].
  pose proof (Z.pow_pos_nonneg 2 (e - emin) ltac:(lia) ltac:(lia)). split; [lia|].
  unfold top. apply Z.lt_le_trans with (2 ^ prec * 2 ^ (e - emin)); [nia|].
  rewrite <- Z.pow_add_r by lia. apply Z.pow_le_mono_r; lia.
Qed.

Lemma value_bounds x : nonneg x → 0 ≤ value x ≤ top.
Proof.
  pose proof top_pos.
  destruct x as [[]|[]| |[] m e]; cbn [nonneg]; try done; try (cbn; lia).
  intros Hb%value_finite_bounds. lia.
Qed.

(** Canonical floats are ordered as the pairs of exponent and mantissa. *)
Lemma value_lt_exp m1 e1 m2 e2 :
  bounded prec emax m1 e1 = true → bounded prec emax m2 e2 = true → e1 < e2 →
  Z.pos m1 * 2 ^ (e1 - emin) < Z.pos m2 * 2 ^ (e2 - emin).
Proof.
  intros (He1 & Hm1 & _)%bounded_spec (He2 & _ & Hm2)%bounded_spec Hlt.
  replace (e2 - emin) with ((e1 - emin) + 1 + (e2 - e1 - 1)) by lia.
  rewrite !(Z.pow_add_r 2) by lia.
  pose proof (Z.pow_pos_nonneg 2 (e1 - emin) ltac:(lia) ltac:(lia)).
  pose proof (Z.pow_pos_nonneg 2 (e2 - e1 - 1) ltac:(lia) ltac:(lia)).
  assert (2 ^ prec = 2 * 2 ^ (prec - 1)) as E by (rewrite <- Z.pow_succ_r by lia; f_equal; lia).
  change (2 ^ 1) with 2. pose proof (Hm2 ltac:(lia)) as Hm.
  set (a := 2 ^ (e1 - emin)) in *. set (b := 2 ^ (e2 - e1 - 1)) in *.
  apply Z.lt_le_trans with (2 * Z.pos m2 * a); [apply Z.mul_lt_mono_pos_r; lia|].
  rewrite (Z.mul_comm a 2), <- !Z.mul_assoc, (Z.mul_comm 2), <- !Z.mul_assoc.
  apply Z.mul_le_mono_nonneg_l; [lia|]. nia.
Qed.

Lemma SFleb_value x y : nonneg x → nonneg y → SFleb x y = (value x <=? value y).
Proof.
  intros Hx Hy. pose proof top_pos.
  destruct x as [[]|[]| |[] m1 e1], y as [[]|[]| |[] m2 e2]; cbn [nonneg] in Hx, Hy; try done;
    pose proof Hx as Hx'; pose proof Hy as Hy';
    try (apply value_finite_bounds in Hx'); try (apply value_finite_bounds in Hy');
    unfold SFleb, SFcompare; cbn [value] in *; try (symmetry; (apply Z.leb_le || apply Z.leb_gt); lia).
  destruct (Z.compare_spec e1 e2) as [->|Hlt|Hlt].
  - change (Pos.compare_cont Eq m1 m2) with (m1 ?= m2)%positive.
    apply bounded_spec in Hy as (He & _).
    pose proof (Z.pow_pos_nonneg 2 (e2 - emin) ltac:(lia) ltac:(lia)).
    destruct (Pos.compare_spec m1 m2) as [->|Hm|Hm]; symmetry; (apply Z.leb_le || apply Z.leb_gt); nia.
  - pose proof (value_lt_exp m1 e1 m2 e2 Hx Hy Hlt). symmetry. apply Z.leb_le. lia.
  - pose proof (value_lt_exp m2 e2 m1 e1 Hy Hx Hlt). symmetry. apply Z.leb_gt. lia.
Qed.

(** ** Rounding *)

Lemma shr_spec m r0 s0 e n :
  0 ≤ m → 0 ≤ n →
  ∃ r s, shr {| shr_m := m; shr_r := r0; shr_s := s0 |} e n =
           ({| shr_m := m / 2 ^ n; shr_r := r; shr_s := s |}, e + n) ∧
         (r || s = false ↔ m mod 2 ^ n = 0 ∧ r0 || s0 = false).
Proof.
  intros Hm Hn. destruct n as [|p|p]; [|cbn [shr]|lia].
  - exists r0, s0. cbn. rewrite Z.div_1_r, Z.mod_1_r, Z.add_0_r. tauto.
  - rewrite iter_pos_iter. pose proof (shr_iter (Pos.to_nat p) m r0 s0 Hm) as [H1 H2].
    rewrite positive_nat_Z in H1, H2.
    destruct (Nat.iter (Pos.to_nat p) shr_1 _) as [m' r s]. cbn in H1, H2. subst m'. by exists r, s.
Qed.

(** The result of rounding, from the rounded mantissa. *)
Definition finish (q e : Z) : spec_float :=
  let '(mrs, e') := shr_fexp prec emax q e loc_Exact in
  match shr_m mrs with
  | 0 => S754_zero false
  | Zpos m => if e' <=? emax - prec then S754_finite false m e' else S754_infinity false
  | _ => S754_nan
  end.

Lemma finish_full m e :
  emin ≤ e → Z.pos (digits2_pos m) ≤ prec → (emin < e → 2 ^ (prec - 1) ≤ Z.pos m) →
  let x := if e <=? emax - prec then S754_finite false m e else S754_infinity false in
  nonneg x ∧ value x = Z.min (Z.pos m * 2 ^ (e - emin)) top.
Proof.
  intros He Hd Hfull x. pose proof (digits2_pos_bounds m) as [_ Hhi].
  assert (canonical_mantissa prec emax m e = true) as Hc.
  { unfold canonical_mantissa, SpecFloat.fexp. apply Z.eqb_eq.
    destruct (decide (e = emin)) as [->|Hne]; [lia|].
    rewrite (digits2_pos_unique m prec) by (pose proof (Hfull ltac:(lia));
      pose proof (Z.pow_le_mono_r 2 _ _ ltac:(lia) Hd); lia). lia. }
  unfold x. destruct (e <=? emax - prec) eqn:Hle.
  - assert (bounded prec emax m e = true) as Hb by (unfold bounded; by rewrite Hc, Hle).
    split; [exact Hb|]. pose proof (value_finite_bounds m e Hb) as Hv. cbn [value] in Hv |- *. lia.
  - split; [done|]. apply Z.leb_gt in Hle. cbn [value].
    assert (top ≤ Z.pos m * 2 ^ (e - emin)); [|lia].
    apply Z.le_trans with (2 ^ (prec - 1) * 2 ^ (e - emin)).
    + rewrite <- Z.pow_add_r by (unfold SpecFloat.emin in *; lia).
      unfold top. apply Z.pow_le_mono_r; lia.
    + apply Z.mul_le_mono_nonneg_r; [lia|]. apply Hfull. unfold SpecFloat.emin in *. lia.
Qed.

Lemma finish_spec q e :
  0 ≤ q ≤ 2 ^ prec → emin ≤ e → (emin < e → 2 ^ (prec - 1) ≤ q) →
  nonneg (finish q e) ∧ value (finish q e) = Z.min (q * 2 ^ (e - emin)) top.
Proof.
  intros Hq He Hfull. unfold finish, shr_fexp, SpecFloat.fexp. cbn [shr_record_of_loc].
  pose proof top_pos.
  destruct q as [|m|]; [| |lia].
  - cbn [Zdigits2]. destruct (Z.max (0 + e - prec) emin - e) eqn:E; [| lia|];
      cbn [shr shr_m nonneg value]; (split; [done|lia]).
  - cbn [Zdigits2]. pose proof (digits2_pos_bounds m) as [Hlo Hhi].
    destruct (decide (Z.pos m = 2 ^ prec)) as [Em|Hne].
    + assert (Z.pos (digits2_pos m) = prec + 1) as ->.
      { apply digits2_pos_unique; [lia|]. rewrite Em, Z.add_simpl_r. split; [lia|].
        apply Z.pow_lt_mono_r; lia. }
      replace (Z.max (prec + 1 + e - prec) emin - e) with 1 by lia.
      destruct (shr_spec (Z.pos m) false false e 1 ltac:(lia) ltac:(lia)) as (r & s & -> & _). cbn [shr_m].
      assert (2 ^ prec = 2 * 2 ^ (prec - 1)) as Ep by (rewrite <- Z.pow_succ_r by lia; f_equal; lia).
      pose proof (Z.pow_pos_nonneg 2 (prec - 1) ltac:(lia) ltac:(lia)) as Hp1.
      assert (Z.pos m / 2 ^ 1 = 2 ^ (prec - 1)) as -> by (rewrite Em, Ep; change (2 ^ 1) with 2; div_lia).
      destruct (2 ^ (prec - 1)) as [|m'|] eqn:E1; [lia| |lia].
      assert (Z.pos (digits2_pos m') = prec) as Hd.
      { apply digits2_pos_unique; [lia|]. rewrite <- E1 in *. lia. }
      destruct (finish_full m' (e + 1) ltac:(lia) ltac:(lia)) as [? ->]; [lia|].
      split; [done|]. f_equal. rewrite Em, Ep.
      replace (e + 1 - emin) with (e - emin + 1) by lia. rewrite Z.pow_add_r by lia. lia.
    + assert (Z.pos (digits2_pos m) - 1 < prec) as Hd.
      { apply (Z.pow_lt_mono_r_iff 2); lia. }
      destruct (Z.max (Z.pos (digits2_pos m) + e - prec) emin - e) eqn:E; [|lia|];
        cbn [shr shr_m]; (destruct (finish_full m e ltac:(lia) ltac:(lia) Hfull) as [? ->]); done.
Qed.

Lemma round_nearest_even_spec q r s :
  let q' := round_nearest_even q (loc_of_shr_record {| shr_m := q; shr_r := r; shr_s := s |}) in
  q ≤ q' ≤ q + 1 ∧ (r || s = false → q' = q).
Proof. destruct r, s; cbn; repeat case_match; split; try done; lia. Qed.

(** The unit in the last place of a value [w], in units. *)
Definition ulp (m : positive) (e : Z) : Z := 2 ^ (fexp (Z.pos (digits2_pos m) + e) - emin).

(** Rounding any mantissa that is precise enough. *)
Lemma round_aux_finish m e l :
  0 ≤ m → e ≤ fexp (Zdigits2 m + e) →
  let f := fexp (Zdigits2 m + e) in
  ∃ q, binary_round_aux prec emax false m e l = finish q f ∧
    m / 2 ^ (f - e) ≤ q ≤ m / 2 ^ (f - e) + 1 ∧
    (l = loc_Exact → m mod 2 ^ (f - e) = 0 → q = m / 2 ^ (f - e)) ∧
    0 ≤ q ≤ 2 ^ prec ∧ emin ≤ f ∧ (emin < f → 2 ^ (prec - 1) ≤ q).
Proof.
  intros Hm Hf f. set (D := Zdigits2 m) in *. set (n := f - e).
  assert (f = Z.max (D + e - prec) emin) as Ef by done.
  assert (m < 2 ^ D ∧ 0 ≤ D ∧ (m = 0 ∨ 2 ^ (D - 1) ≤ m)) as (Hhi & HD & Hlo).
  { unfold D. destruct m as [|p|]; [cbn; lia| |lia]. pose proof (digits2_pos_bounds p). cbn [Zdigits2]. lia. }
  pose proof (Z.pow_pos_nonneg 2 n ltac:(lia) ltac:(lia)) as Hn.
  assert (∃ r0 s0, shr_record_of_loc m l = {| shr_m := m; shr_r := r0; shr_s := s0 |} ∧
            (l = loc_Exact → r0 || s0 = false)) as (r0 & s0 & Hrec & Hl)
    by (destruct l as [|[]]; cbn; eexists _, _; split; done).
  assert (binary_round_aux prec emax false m e l =
    let '(mrs', e') := shr (shr_record_of_loc m l) e n in
    finish (round_nearest_even (shr_m mrs') (loc_of_shr_record mrs')) e') as -> by reflexivity.
  rewrite Hrec. destruct (shr_spec m r0 s0 e n ltac:(lia) ltac:(lia)) as (r & s & -> & Hrs). cbn [shr_m].
  replace (e + n) with f by lia.
  pose proof (round_nearest_even_spec (m / 2 ^ n) r s) as [Hq Hexact].
  set (q := round_nearest_even _ _) in *. exists q.
  assert (m / 2 ^ n < 2 ^ prec) as Hlt.
  { apply Z.div_lt_upper_bound; [lia|]. rewrite <- Z.pow_add_r by lia.
    apply Z.lt_le_trans with (2 ^ D); [lia|]. apply Z.pow_le_mono_r; lia. }
  assert (0 ≤ m / 2 ^ n) as Hpos by (apply Z.div_pos; lia).
  split_and!; try done; try lia.
  - intros Hle Hmod. apply Hexact, Hrs. split; [done|by apply Hl].
  - intros Hfe. apply Z.le_trans with (m / 2 ^ n); [|lia].
    destruct Hlo as [->|Hlo]; [unfold D in Ef; cbn in Ef; lia|].
    apply Z.div_le_lower_bound; [lia|]. rewrite <- Z.pow_add_r by lia.
    apply Z.le_trans with (2 ^ (D - 1)); [|lia]. apply Z.pow_le_mono_r; lia.
Qed.

Lemma round_aux_nonneg m e l :
  0 ≤ m → e ≤ fexp (Zdigits2 m + e) → nonneg (binary_round_aux prec emax false m e l).
Proof.
  intros Hm He. destruct (round_aux_finish m e l Hm He) as (q & -> & _ & _ & Hq & Hf & Hfull).
  by apply finish_spec.
Qed.

(** An exact mantissa goes to one of the two neighbouring multiples of the
    last place, and to its value when it is one. *)
Lemma round_aux_spec m e :
  emin ≤ e ≤ fexp (Z.pos (digits2_pos m) + e) →
  let w := Z.pos m * 2 ^ (e - emin) in
  ∃ q, w / ulp m e ≤ q ≤ w / ulp m e + 1 ∧ (w mod ulp m e = 0 → q = w / ulp m e) ∧
    value (binary_round_aux prec emax false (Z.pos m) e loc_Exact) = Z.min (q * ulp m e) top.
Proof.
  intros [He Hle]. cbv zeta.
  destruct (round_aux_finish (Z.pos m) e loc_Exact ltac:(lia) Hle) as (q & -> & Hq & Hex & Hb & Hf & Hfull).
  cbn [Zdigits2] in *. unfold ulp. set (f := fexp _) in *.
  pose proof (Z.pow_pos_nonneg 2 (e - emin) ltac:(lia) ltac:(lia)) as Ha.
  pose proof (Z.pow_pos_nonneg 2 (f - e) ltac:(lia) ltac:(lia)) as Hn.
  assert (2 ^ (f - emin) = 2 ^ (f - e) * 2 ^ (e - emin)) as Eu
    by (rewrite <- Z.pow_add_r by lia; f_equal; lia).
  assert (Z.pos m * 2 ^ (e - emin) / 2 ^ (f - emin) = Z.pos m / 2 ^ (f - e)) as Ediv
    by (rewrite Eu; apply Z.div_mul_cancel_r; lia).
  assert (Z.pos m * 2 ^ (e - emin) mod 2 ^ (f - emin) = 0 → Z.pos m mod 2 ^ (f - e) = 0) as Emod.
  { rewrite Eu, Z.mul_mod_distr_r by lia. intros [?|?]%Z.mul_eq_0; lia. }
  exists q. rewrite Ediv. split; [lia|]. split; [auto|]. by apply finish_spec.
Qed.

(** A number of units a float can hold. *)
Definition representable (g : Z) : Prop :=
  0 ≤ g ≤ top ∧ ∃ a k, g = a * 2 ^ k ∧ 0 ≤ a < 2 ^ prec ∧ 0 ≤ k.

(** Multiples of the last place stay on their side. *)
Lemma round_multiple w u q t :
  0 < u → w / u ≤ q ≤ w / u + 1 → (w mod u = 0 → q = w / u) → t mod u = 0 →
  (t ≤ w → t ≤ q * u) ∧ (w ≤ t → q * u ≤ t).
Proof.
  intros Hu Hq Hex Ht.
  assert (t = u * (t / u)) as Et by (pose proof (Z.div_mod t u ltac:(lia)); lia).
  pose proof (Z.div_mod w u ltac:(lia)) as Ew. pose proof (Z.mod_pos_bound w u Hu) as Hmod.
  set (a := t / u) in *. set (b := w / u) in *. clearbody a b. split; intros H.
  - assert (a ≤ b); [|nia]. assert (u * a < u * (b + 1)) by lia. nia.
  - destruct (decide (w mod u = 0)) as [H0|H0].
    + rewrite (Hex H0). lia.
    + assert (b < a); [|nia]. assert (u * b < u * a) by lia. nia.
Qed.

Lemma pow_mod_0 a b : 0 ≤ b ≤ a → 2 ^ a mod 2 ^ b = 0.
Proof.
  intros H. replace a with (a - b + b) by lia. rewrite Z.pow_add_r by lia.
  apply Z.mod_mul. pose proof (Z.pow_pos_nonneg 2 b). lia.
Qed.

(** Rounding respects representable bounds, from below and from above. *)
Lemma round_aux_bracket m e g :
  emin ≤ e ≤ fexp (Z.pos (digits2_pos m) + e) → representable g →
  let w := Z.pos m * 2 ^ (e - emin) in
  let x := binary_round_aux prec emax false (Z.pos m) e loc_Exact in
  (g ≤ w → g ≤ value x) ∧ (w ≤ g → value x ≤ g).
Proof.
  intros He [Hg (a & k & Eg & Ha & Hk)] w x.
  destruct (round_aux_spec m e He) as (q & Hq & Hex & Hv). fold w x in Hq, Hex, Hv.
  pose proof (digits2_pos_bounds m) as [Hlo Hhi].
  set (D := Z.pos (digits2_pos m)) in *. set (u := ulp m e) in *. set (d := D + (e - emin)).
  assert (u = 2 ^ Z.max (d - prec) 0) as Eu
    by (unfold u, ulp, SpecFloat.fexp, d; fold D; f_equal; lia).
  assert (0 < u) as Hu by (rewrite Eu; apply Z.pow_pos_nonneg; lia).
  pose proof (Z.pow_pos_nonneg 2 (e - emin) ltac:(lia) ltac:(lia)) as Hpe.
  assert (2 ^ (d - 1) ≤ w < 2 ^ d) as [Hwlo Hwhi].
  { unfold w, d. rewrite (Z.pow_add_r 2 D) by lia.
    replace (D + (e - emin) - 1) with (D - 1 + (e - emin)) by lia. rewrite Z.pow_add_r by lia. nia. }
  assert (2 ^ (d - 1) mod u = 0 ∨ u = 1) as Hb1.
  { destruct (decide (d - prec ≤ 0)); [right; rewrite Eu, Z.max_r by lia; done|left].
    rewrite Eu. apply pow_mod_0. lia. }
  assert (2 ^ d mod u = 0) as Hb2 by (rewrite Eu; apply pow_mod_0; lia).
  assert (2 ^ (d - 1) ≤ g → g mod u = 0) as Hgu.
  { intros Hge. rewrite Eu, Eg. assert (Z.max (d - prec) 0 ≤ k) as Hdk.
    { assert (2 ^ (d - 1) < 2 ^ (prec + k)) as Hpow.
      { rewrite Z.pow_add_r by lia. pose proof (Z.pow_pos_nonneg 2 k ltac:(lia) ltac:(lia)). nia. }
      apply Z.pow_lt_mono_r_iff in Hpow; lia. }
    replace k with (k - Z.max (d - prec) 0 + Z.max (d - prec) 0) by lia.
    rewrite Z.pow_add_r, Z.mul_assoc by lia. apply Z.mod_mul. rewrite <- Eu. lia. }
  pose proof (round_multiple w u q) as Hround. rewrite Hv. split; intros Hgw.
  - assert (g ≤ q * u); [|lia]. destruct (decide (2 ^ (d - 1) ≤ g)) as [Hd|Hd].
    + by apply Hround; [..|apply Hgu|].
    + destruct Hb1 as [Hb1|Hb1].
      * apply Z.le_trans with (2 ^ (d - 1)); [lia|]. by apply Hround.
      * apply Hround; try done. rewrite Hb1. apply Z.mod_1_r.
  - assert (q * u ≤ g); [|lia]. destruct (decide (2 ^ d ≤ g)) as [Hd|Hd].
    + apply Z.le_trans with (2 ^ d); [|lia]. apply Hround; try done. lia.
    + apply Hround; try done. apply Hgu. lia.
Qed.
(** ** Operations *)

Lemma shl_align_spec m e e' :
  let '(m', e1) := shl_align m e e' in
  e1 = Z.min e e' ∧ Z.pos m' = Z.pos m * 2 ^ (e - e1) ∧
  Z.pos (digits2_pos m') + e1 = Z.pos (digits2_pos m) + e.
Proof.
  unfold shl_align. destruct (e' - e) as [|d|d] eqn:Ed.
  1,2: rewrite Z.sub_diag, Z.mul_1_r; split_and!; lia.
  assert (Z.pos (Pos.iter xO m d) = Z.pos m * 2 ^ Z.pos d) as Em.
  { clear Ed. induction d as [|d IH] using Pos.peano_ind; [cbn; lia|].
    rewrite Pos.iter_succ, Pos2Z.inj_succ, Z.pow_succ_r, Pos2Z.inj_xO, IH by lia. lia. }
  replace (e - e') with (Z.pos d) by lia. split; [lia|]. split; [done|].
  pose proof (digits2_pos_bounds m) as [Hlo Hhi].
  pose proof (Z.pow_pos_nonneg 2 (Z.pos d) ltac:(lia) ltac:(lia)).
  rewrite (digits2_pos_unique _ (Z.pos (digits2_pos m) + Z.pos d)); [lia..|].
  rewrite Em. replace (Z.pos (digits2_pos m) + Z.pos d - 1) with (Z.pos (digits2_pos m) - 1 + Z.pos d) by lia.
  rewrite !Z.pow_add_r by lia. nia.
Qed.

(** Rounding an exact non-negative sum. *)
Lemma normalize_spec m e g :
  0 ≤ m → emin ≤ e → representable g →
  let x := binary_normalize prec emax m e false in
  nonneg x ∧ (g ≤ m * 2 ^ (e - emin) → g ≤ value x) ∧ (m * 2 ^ (e - emin) ≤ g → value x ≤ g).
Proof.
  intros Hm He Hg. destruct m as [|m|]; [cbn; lia| |lia]. cbn [binary_normalize]. unfold binary_round.
  pose proof (shl_align_spec m e (fexp (Z.pos (digits2_pos m) + e))) as Hs.
  destruct (shl_align _ _ _) as [mz ez]. destruct Hs as (Eez & Emz & Ed).
  assert (emin ≤ ez ≤ fexp (Z.pos (digits2_pos mz) + ez)) as Hez.
  { rewrite Ed. unfold SpecFloat.fexp in *. lia. }
  assert (Z.pos m * 2 ^ (e - emin) = Z.pos mz * 2 ^ (ez - emin)) as ->.
  { rewrite Emz, <- Z.mul_assoc, <- Z.pow_add_r by lia. do 2 f_equal. lia. }
  split; [apply round_aux_nonneg; cbn [Zdigits2]; lia|]. by apply round_aux_bracket.
Qed.

Lemma representable_value x : nonneg x → representable (value x).
Proof.
  intros Hx. split; [by apply value_bounds|]. pose proof top_pos.
  pose proof (Z.pow_pos_nonneg 2 prec ltac:(lia) ltac:(lia)).
  destruct x as [[]|[]| |[] m e]; cbn [nonneg] in Hx; try done.
  - exists 0, 0. cbn. lia.
  - exists 1, (emax - emin). cbn [value]. unfold top, SpecFloat.emin in *. split_and!; try lia.
    apply Z.pow_gt_1; lia.
  - apply bounded_spec in Hx as (He & Hm & _). exists (Z.pos m), (e - emin). cbn [value]. lia.
Qed.

(** Integers below [2 ^ prec] are exact. *)
Definition unit : Z := 2 ^ (- emin).

Lemma of_Z_spec n :
  0 ≤ n < 2 ^ prec →
  nonneg (binary_normalize prec emax n 0 false) ∧
  value (binary_normalize prec emax n 0 false) = n * unit.
Proof.
  intros Hn. unfold unit. assert (emin ≤ 0) as He by (unfold SpecFloat.emin; lia).
  pose proof (Z.pow_pos_nonneg 2 (- emin) ltac:(lia) ltac:(lia)).
  assert (representable (n * 2 ^ (- emin))) as Hg.
  { split; [|exists n, (- emin); lia]. split; [lia|].
    apply Z.le_trans with (2 ^ prec * 2 ^ (- emin)); [nia|].
    rewrite <- Z.pow_add_r by lia. apply Z.pow_le_mono_r; lia. }
  destruct (normalize_spec n 0 _ ltac:(lia) He Hg) as (Hnn & Hlo & Hhi).
  split; [done|]. replace (0 - emin) with (- emin) in * by lia. lia.
Qed.

(** The mantissas [SFadd] and [SFsub] align. *)
Lemma align_value m e ez :
  emin ≤ ez ≤ e → Z.pos (shl_align m e ez).1 * 2 ^ (ez - emin) = Z.pos m * 2 ^ (e - emin).
Proof.
  intros He. pose proof (shl_align_spec m e ez) as Hs. destruct (shl_align m e ez) as [m' e1].
  destruct Hs as (-> & Em & _). cbn [fst]. rewrite Em, Z.min_r, <- Z.mul_assoc, <- Z.pow_add_r by lia.
  do 2 f_equal. lia.
Qed.

Lemma SFadd_spec x y g :
  nonneg x → nonneg y → representable g →
  let z := SFadd prec emax x y in
  nonneg z ∧ (g ≤ value x + value y → g ≤ value z) ∧ (value x + value y ≤ g → value z ≤ g).
Proof.
  intros Hx Hy Hg. pose proof (value_bounds x Hx). pose proof (value_bounds y Hy).
  pose proof (proj1 Hg).
  destruct x as [[]|[]| |[] m1 e1], y as [[]|[]| |[] m2 e2]; cbn [nonneg] in Hx, Hy; try done;
    cbn [SFadd]; try (cbn [nonneg value] in *; split_and!; (done || lia)).
  apply bounded_spec in Hx as (He1 & _), Hy as (He2 & _). cbn [cond_Zopp].
  pose proof (align_value m1 e1 (Z.min e1 e2) ltac:(lia)) as E1.
  pose proof (align_value m2 e2 (Z.min e1 e2) ltac:(lia)) as E2.
  cbn [value]. rewrite <- E1, <- E2, <- Z.mul_add_distr_r. apply normalize_spec; [lia..|done].
Qed.

Lemma SFsub_spec x y g :
  nonneg x → nonneg y → value y ≤ value x < top → representable g →
  let z := SFsub prec emax x y in
  nonneg z ∧ (g ≤ value x - value y → g ≤ value z) ∧ (value x - value y ≤ g → value z ≤ g).
Proof.
  intros Hx Hy Hle Hg. pose proof (proj1 Hg). pose proof (value_bounds x Hx). pose proof (value_bounds y Hy).
  destruct x as [[]|[]| |[] m1 e1], y as [[]|[]| |[] m2 e2]; cbn [nonneg] in Hx, Hy; try done;
    cbn [SFsub]; try (cbn [nonneg value] in *; split_and!; (done || lia)).
  - apply value_finite_bounds in Hy. cbn [value] in *. lia.
  - apply bounded_spec in Hx as (He1 & _), Hy as (He2 & _). cbn [cond_Zopp].
    pose proof (align_value m1 e1 (Z.min e1 e2) ltac:(lia)) as E1.
    pose proof (align_value m2 e2 (Z.min e1 e2) ltac:(lia)) as E2.
    cbn [value] in Hle |- *. rewrite <- E1, <- E2 in *. rewrite <- Z.mul_sub_distr_r in *.
    pose proof (Z.pow_pos_nonneg 2 (Z.min e1 e2 - emin) ltac:(lia) ltac:(lia)).
    apply normalize_spec; [nia|lia|done].
Qed.
(** The product of two mantissas is precise enough to be rounded. *)
Lemma product_precise m1 e1 m2 e2 :
  bounded prec emax m1 e1 = true → bounded prec emax m2 e2 = true →
  e1 + e2 ≤ fexp (Zdigits2 (Z.pos (m1 * m2)) + (e1 + e2)).
Proof.
  intros (He1 & _ & Hm1)%bounded_spec (He2 & _ & Hm2)%bounded_spec. cbn [Zdigits2].
  pose proof (digits2_pos_bounds (m1 * m2)) as [_ Hhi]. rewrite Pos2Z.inj_mul in Hhi.
  assert (∀ k, 2 ^ (prec - 1) ≤ Z.pos k → prec - 1 < Z.pos (digits2_pos (m1 * m2)) ∨
            Z.pos m1 * Z.pos m2 < Z.pos k) as Hd.
  { intros k Hk. destruct (decide (Z.pos m1 * Z.pos m2 < Z.pos k)) as [|Hge]; [by right|left].
    apply (Z.pow_lt_mono_r_iff 2); lia. }
  unfold SpecFloat.fexp in *. destruct (decide (emin < e1)) as [H1|H1]; [|destruct (decide (emin < e2)) as [H2|H2]].
  - destruct (Hd m1 (Hm1 H1)); [lia|nia].
  - destruct (Hd m2 (Hm2 H2)); [lia|nia].
  - unfold SpecFloat.emin in *. lia.
Qed.

Lemma SFmul_nonneg x y :
  nonneg x → nonneg y → value x < top → value y < top → nonneg (SFmul prec emax x y).
Proof.
  intros Hx Hy Hxt Hyt.
  destruct x as [[]|[]| |[] m1 e1], y as [[]|[]| |[] m2 e2]; cbn [nonneg] in Hx, Hy; try done;
    try (cbn [value] in *; lia).
  cbn [SFmul xorb]. apply round_aux_nonneg; [lia|]. by apply product_precise.
Qed.

(** Products of values of at least one. *)
Lemma SFmul_spec x y g :
  nonneg x → nonneg y → unit ≤ value x < top → unit ≤ value y < top → representable g →
  let z := SFmul prec emax x y in
  (g * unit ≤ value x * value y → g ≤ value z) ∧ (value x * value y ≤ g * unit → value z ≤ g).
Proof.
  intros Hx Hy Hxu Hyu Hg. unfold unit in *.
  assert (0 < 2 ^ (- emin)) as Hu by (apply Z.pow_pos_nonneg; unfold SpecFloat.emin; lia).
  destruct x as [[]|[]| |[] m1 e1], y as [[]|[]| |[] m2 e2]; cbn [nonneg] in Hx, Hy; try done;
    try (cbn [value] in *; lia).
  pose proof (product_precise m1 e1 m2 e2 Hx Hy) as Hprod.
  assert (∀ m e, bounded prec emax m e = true → 2 ^ (- emin) ≤ Z.pos m * 2 ^ (e - emin) → - prec < e) as Hexp.
  { intros m e (He & Hm & _)%bounded_spec Hge.
    assert (2 ^ (- emin) < 2 ^ (prec + (e - emin))) as Hlt.
    { rewrite Z.pow_add_r by lia. pose proof (Z.pow_pos_nonneg 2 (e - emin) ltac:(lia) ltac:(lia)). nia. }
    apply Z.pow_lt_mono_r_iff in Hlt; unfold SpecFloat.emin in *; lia. }
  cbn [value] in Hxu, Hyu.
  pose proof (Hexp m1 e1 Hx (proj1 Hxu)). pose proof (Hexp m2 e2 Hy (proj1 Hyu)).
  apply bounded_spec in Hx as (He1 & _), Hy as (He2 & _).
  assert (emin ≤ e1 + e2) as He by (unfold SpecFloat.emin; lia).
  assert (emin ≤ 0) as Hneg by (unfold SpecFloat.emin; lia).
  destruct (round_aux_bracket (m1 * m2) (e1 + e2) g (conj He Hprod) Hg) as [Hlo Hhi].
  assert (value (S754_finite false m1 e1) * value (S754_finite false m2 e2) =
          Z.pos (m1 * m2) * 2 ^ (e1 + e2 - emin) * 2 ^ (- emin)) as ->.
  { cbn [value]. rewrite Pos2Z.inj_mul.
    assert (2 ^ (e1 + e2 - emin) * 2 ^ (- emin) = 2 ^ (e1 - emin) * 2 ^ (e2 - emin)) as E
      by (rewrite <- !Z.pow_add_r by lia; f_equal; lia).
    rewrite <- (Z.mul_assoc (_ * _) (2 ^ _)), E. ring. }
  cbn [SFmul xorb]. split; intros H'; [apply Hlo|apply Hhi]; nia.
Qed.
(** Quotients by a positive finite number. *)
Lemma SFdiv_nonneg x y :
  nonneg x → nonneg y → 0 < value y < top → nonneg (SFdiv prec emax x y).
Proof.
  intros Hx Hy Hyt.
  destruct x as [[]|[]| |[] m1 e1], y as [[]|[]| |[] m2 e2]; cbn [nonneg] in Hx, Hy; try done;
    try (cbn [value] in *; lia).
  cbn [SFdiv xorb]. unfold SFdiv_core_binary. cbn [Zdigits2].
  set (d1 := Z.pos (digits2_pos m1)). set (d2 := Z.pos (digits2_pos m2)).
  set (e' := Z.min _ _). set (s := e1 - e2 - e'). set (m' := match s with 0 => _ | _ => _ end).
  assert (0 ≤ s) as Hs by lia.
  assert (m' = Z.pos m1 * 2 ^ s) as Em'.
  { unfold m'. destruct s as [|p|]; [by rewrite Z.mul_1_r| |lia]. by rewrite Z.shiftl_mul_pow2 by lia. }
  pose proof (Z.pow_pos_nonneg 2 s ltac:(lia) ltac:(lia)).
  pose proof (Z_div_mod m' (Z.pos m2) ltac:(lia)) as Hdiv.
  destruct (Z.div_eucl m' (Z.pos m2)) as [q r]. destruct Hdiv as [Hq Hr].
  assert (0 ≤ q) as Hq0 by nia.
  apply round_aux_nonneg; [done|].
  pose proof (digits2_pos_bounds m1) as [Hlo1 _]. pose proof (digits2_pos_bounds m2) as [_ Hhi2].
  fold d1 in Hlo1. fold d2 in Hhi2.
  assert (q < 2 ^ Zdigits2 q ∧ 0 ≤ Zdigits2 q) as [Hqd Hqd0].
  { destruct q as [|p|]; [cbn; lia| |lia]. pose proof (digits2_pos_bounds p). cbn [Zdigits2]. lia. }
  assert (d1 - 1 + s < d2 + Zdigits2 q) as Hdig.
  { apply (Z.pow_lt_mono_r_iff 2); [lia..|]. rewrite !Z.pow_add_r by lia.
    pose proof (Z.pow_pos_nonneg 2 d2 ltac:(lia) ltac:(lia)).
    apply Z.le_lt_trans with m'; [rewrite Em'; nia|]. rewrite Hq.
    apply Z.lt_le_trans with (Z.pos m2 * (q + 1)); [lia|]. nia. }
  unfold SpecFloat.fexp in *. lia.
Qed.

(** [f64::min] of numbers. *)
Lemma SFltb_value x y : nonneg x → nonneg y → SFltb x y = (value x <? value y).
Proof.
  intros Hx Hy. pose proof (SFleb_value x y Hx Hy) as H1. pose proof (SFleb_value y x Hy Hx) as H2.
  unfold SFltb, SFleb in *. rewrite Z.ltb_antisym, <- H2.
  assert (SFcompare y x = CompOpp <$> SFcompare x y) as Hanti.
  { clear. destruct x as [[]|[]| |[] m1 e1], y as [[]|[]| |[] m2 e2]; try done; cbn [SFcompare];
      assert (Pos.compare_cont Eq m2 m1 = CompOpp (Pos.compare_cont Eq m1 m2)) as ->
        by (by rewrite Pos.compare_cont_antisym); rewrite (Z.compare_antisym e1 e2);
      destruct (e1 ?= e2); try done; destruct (Pos.compare_cont Eq m1 m2); done. }
  rewrite Hanti in *. destruct (SFcompare x y) as [[]|]; try done. cbn in *.
  symmetry in H1, H2. apply Z.leb_gt in H1, H2. lia.
Qed.
End format.
