(* ===== verification/Vrp.v ===== *)
(** * Vrp: crates/annex-vrp

    The value-resonance handshake: anchors (hashes of a policy), capability
    contracts, transfer scopes, the semantic comparison of principles, and
    the reputation computed from the handshake log. *)

From S2P Require Import Prelude Sql Bytes Types Identity Text.

#[local] Open Scope Z_scope.

(** ** Types: types.rs *)

Module VrpAlignmentStatus.
Inductive t := Aligned | Partial | Conflict.
#[export] Instance eq_dec : EqDecision t.
Proof. solve_decision. Defined.
End VrpAlignmentStatus.
Import VrpAlignmentStatus.
Abbreviation status := VrpAlignmentStatus.t.

Definition status_text (s : status) : string :=
  match s with Aligned => "ALIGNED" | Partial => "PARTIAL" | Conflict => "CONFLICT" end.

Definition status_from_str (s : string) : option status :=
  if decide (s = "ALIGNED") then Some Aligned
  else if decide (s = "PARTIAL") then Some Partial
  else if decide (s = "CONFLICT") then Some Conflict
  else None.

Inductive VrpTransferScope := NoTransfer | ReflectionSummariesOnly | FullKnowledgeBundle.
#[export] Instance VrpTransferScope_eq_dec : EqDecision VrpTransferScope.
Proof. solve_decision. Defined.

(** The derived order of the variants. *)
Definition scope_rank (s : VrpTransferScope) : nat :=
  match s with NoTransfer => 0 | ReflectionSummariesOnly => 1 | FullKnowledgeBundle => 2 end.
Definition scope_ltb (a b : VrpTransferScope) : bool := (scope_rank a <? scope_rank b)%nat.

Definition scope_text (s : VrpTransferScope) : string :=
  match s with
  | NoTransfer => "NO_TRANSFER"
  | ReflectionSummariesOnly => "REFLECTION_SUMMARIES_ONLY"
  | FullKnowledgeBundle => "FULL_KNOWLEDGE_BUNDLE"
  end.

Definition scope_from_str (s : string) : option VrpTransferScope :=
  if decide (s = "NO_TRANSFER") then Some NoTransfer
  else if decide (s = "REFLECTION_SUMMARIES_ONLY") then Some ReflectionSummariesOnly
  else if decide (s = "FULL_KNOWLEDGE_BUNDLE") then Some FullKnowledgeBundle
  else None.

Record VrpAnchorSnapshot := {
  principles_hash : string;
  prohibited_actions_hash : string;
  timestamp : Z;
  anchor_principles : list string;
  anchor_prohibited_actions : list string;
}.

Record VrpCapabilitySharingContract := {
  required_capabilities : list string;
  offered_capabilities : list string;
  redacted_topics : list string;
}.

Record VrpFederationHandshake := {
  anchor_snapshot : VrpAnchorSnapshot;
  capability_contract : VrpCapabilitySharingContract;
}.

Record VrpAlignmentConfig := {
  semantic_alignment_required : bool;
  min_alignment_score : f32;
}.

Record VrpTransferAcceptanceConfig := {
  allow_reflection_summaries : bool;
  allow_full_knowledge : bool;
}.

Record VrpValidationReport := {
  alignment_status : status;
  transfer_scope : VrpTransferScope;
  alignment_score : f32;
  negotiation_notes : list string;
}.

Inductive VrpTransferAcceptanceError :=
  | Rejected (msg : string)
  | ConflictError.

(** ** Semantic comparison: semantic.rs *)

Definition tokenize `{UnicodeText} (text : string) : list string :=
  filter (λ w, (2 ≤ String.length w)%nat) (split_non_alphanumeric (to_lowercase text)).

(** The vocabulary in [BTreeSet] order; the index of a word is its
    position.  A word occurs once. *)
Definition build_vocab `{UnicodeText} (texts : list string) : list string :=
  merge_sort String.le (remove_dups (texts ≫= tokenize)).

Fixpoint word_index (vocab : list string) (word : string) : option nat :=
  match vocab with
  | [] => None
  | w :: vocab => if decide (w = word) then Some 0%nat else S <$> word_index vocab word
  end.

(** [iter().sum()]: on products of components the start value 0.0 and -0.0
    give the same sum. *)
Definition f32_sum (l : list f32) : f32 := foldl f32_add f32_zero l.
Definition f32_norm (v : list f32) : f32 := f32_sqrt (f32_sum ((λ x, f32_mul x x) <$> v)).

(** [BagOfWordsEmbedder::embed]; the error message is not modelled. *)
Definition embed `{UnicodeText} (vocab : list string) (text : string) : option (list f32) :=
  match vocab with
  | [] => None
  | _ =>
      let vec := foldl (λ v word, match word_index vocab word with
                                  | Some idx => alter (λ x, f32_add x f32_one) idx v
                                  | None => v
                                  end)
                   (replicate (length vocab) f32_zero) (tokenize text) in
      let norm := f32_norm vec in
      Some (if SFltb f32_zero norm then (λ v, f32_div v norm) <$> vec else vec)
  end.

Definition cosine_similarity (a b : list f32) : f32 :=
  if bool_decide (length a ≠ length b) || bool_decide (a = []) then f32_zero
  else
    let dot_product := f32_sum (zip_with f32_mul a b) in
    let norm_a := f32_norm a in
    let norm_b := f32_norm b in
    if SFeqb norm_a f32_zero || SFeqb norm_b f32_zero then f32_zero
    else f32_div dot_product (f32_mul norm_a norm_b).

(** The loop of [compute_centroid]. *)
Fixpoint centroid_sum (embedder : string → option (list f32)) (principles : list string)
    (sum_vec : list f32) (count : Z) : option (list f32 * Z) :=
  match principles with
  | [] => Some (sum_vec, count)
  | principle :: principles =>
      embedding ← embedder principle;
      match sum_vec with
      | [] => centroid_sum embedder principles embedding (count + 1)
      | _ =>
          if bool_decide (length sum_vec ≠ length embedding) then None
          else centroid_sum embedder principles (zip_with f32_add sum_vec embedding) (count + 1)
      end
  end.

Definition compute_centroid (embedder : string → option (list f32)) (principles : list string) :
    option (list f32) :=
  match principles with
  | [] => Some []
  | _ =>
      '(sum_vec, count) ← centroid_sum embedder principles [] 0;
      if count =? 0 then Some [] else Some ((λ val, f32_div val (f32_of_Z count)) <$> (sum_vec : list f32))
  end.

Definition calculate_semantic_alignment (local_principles remote_principles : list string)
    (embedder : string → option (list f32)) : option f32 :=
  match local_principles, remote_principles with
  | [], [] => Some f32_one
  | [], _ | _, [] => Some f32_zero
  | _, _ =>
      local_centroid ← compute_centroid embedder local_principles;
      remote_centroid ← compute_centroid embedder remote_principles;
      match local_centroid, remote_centroid with
      | [], _ | _, [] => Some f32_zero
      | _, _ => Some (cosine_similarity local_centroid remote_centroid)
      end
  end.

(** ** The handshake: lib.rs *)

Section handshake.
Context `{HX : HexCrate, SH : Sha256, UT : UnicodeText}.

(** The bytes [hash_list] feeds to SHA-256, and its digest. *)
Definition hash_list_input (items : list string) : list byte :=
  merge_sort String.le items ≫= λ item,
    be_bytes 8 (Z.of_nat (String.length item)) ++ str_bytes item.

Definition hash_list (items : list string) : string := hex_encode (sha256 (hash_list_input items)).

(** [VrpAnchorSnapshot::new]; [None] is a clock before the epoch. *)
Definition new_anchor (clock : option Z) (principles prohibited_actions : list string) :
    option VrpAnchorSnapshot :=
  timestamp ← clock;
  Some {| principles_hash := hash_list principles;
          prohibited_actions_hash := hash_list prohibited_actions;
          timestamp := timestamp;
          anchor_principles := principles;
          anchor_prohibited_actions := prohibited_actions |}.

Definition compare_peer_anchor (local remote : VrpAnchorSnapshot) (config : VrpAlignmentConfig) :
    status :=
  if bool_decide (principles_hash local = principles_hash remote) &&
     bool_decide (prohibited_actions_hash local = prohibited_actions_hash remote)
  then Aligned
  else if bool_decide (prohibited_actions_hash local ≠ prohibited_actions_hash remote)
  then Conflict
  else if semantic_alignment_required config &&
          negb (bool_decide (anchor_principles local = [])) &&
          negb (bool_decide (anchor_principles remote = []))
  then
    let vocab := build_vocab (anchor_principles local ++ anchor_principles remote) in
    match calculate_semantic_alignment (anchor_principles local) (anchor_principles remote)
            (embed vocab) with
    | Some score => if SFleb (min_alignment_score config) score then Partial else Conflict
    | None => Conflict
    end
  else Conflict.
End handshake.

Definition contracts_mutually_accepted (local remote : VrpCapabilitySharingContract) : bool :=
  forallb (λ req, bool_decide (req ∈ offered_capabilities local)) (required_capabilities remote) &&
  forallb (λ req, bool_decide (req ∈ offered_capabilities remote)) (required_capabilities local).

Definition resolve_transfer_scope (s : status) (config : VrpTransferAcceptanceConfig) :
    VrpTransferScope :=
  match s with
  | Aligned =>
      if allow_full_knowledge config then FullKnowledgeBundle
      else if allow_reflection_summaries config then ReflectionSummariesOnly
      else NoTransfer
  | Partial =>
      if allow_reflection_summaries config then ReflectionSummariesOnly else NoTransfer
  | Conflict => NoTransfer
  end.

Definition validate_federation_handshake `{UnicodeText} (local_anchor : VrpAnchorSnapshot)
    (local_contract : VrpCapabilitySharingContract) (handshake : VrpFederationHandshake)
    (alignment_config : VrpAlignmentConfig) (transfer_config : VrpTransferAcceptanceConfig) :
    VrpValidationReport :=
  let status := compare_peer_anchor local_anchor (anchor_snapshot handshake) alignment_config in
  let contracts_ok := contracts_mutually_accepted local_contract (capability_contract handshake) in
  let '(final_status, notes) :=
    if negb contracts_ok then (Conflict, ["Capability contracts incompatible"]) else (status, []) in
  {| alignment_status := final_status;
     transfer_scope := resolve_transfer_scope final_status transfer_config;
     alignment_score := match final_status with
                        | Aligned => f32_one | Partial => f32_half | Conflict => f32_zero end;
     negotiation_notes := notes |}.

Definition check_transfer_acceptance (report : VrpValidationReport)
    (required_scope : VrpTransferScope) : result VrpTransferAcceptanceError unit :=
  _ ← reject_if (bool_decide (alignment_status report = Conflict)) ConflictError;
  _ ← reject_if (scope_ltb (transfer_scope report) required_scope)
        (Rejected ("Insufficient transfer scope: negotiated " +:+ scope_text (transfer_scope report)
                   +:+ ", required " +:+ scope_text required_scope));
  Ok ().

(** ** Policy roots: server_root.rs *)

Record ServerPolicyRoot := {
  root_principles : list string;
  root_prohibited_actions : list string;
}.

Definition from_policy (p : ServerPolicy) : ServerPolicyRoot :=
  {| root_principles := principles p; root_prohibited_actions := prohibited_actions p |}.

Definition to_anchor_snapshot `{HexCrate, Sha256} (clock : option Z) (r : ServerPolicyRoot) :
    option VrpAnchorSnapshot :=
  new_anchor clock (root_principles r) (root_prohibited_actions r).

(** ** Reputation: reputation.rs *)

Record HandshakeRow := {
  hs_id : Z;
  hs_server_id : Z;
  hs_peer_pseudonym : string;
  hs_peer_type : string;
  hs_alignment_status : string;
  hs_report_json : string;
  hs_created_at : string;
}.

Definition handshake_row `{Serde VrpValidationReport} (now : string) (s : Z) (peer peer_type : string)
    (report : VrpValidationReport) (id : Z) : HandshakeRow :=
  {| hs_id := id; hs_server_id := s; hs_peer_pseudonym := peer; hs_peer_type := peer_type;
     hs_alignment_status := status_text (alignment_status report);
     hs_report_json := to_json report; hs_created_at := now |}.

(** server_id REFERENCES servers. *)
Definition record_vrp_outcome `{Serde VrpValidationReport} (fault : faults) (servers : gset Z) (now : string) (s : Z)
    (peer peer_type : string) (report : VrpValidationReport) :
    M (table HandshakeRow) sql_error unit :=
  exec fault 0 (λ log,
    if bool_decide (s ∉ servers) then (Err ConstraintForeignKey, log)
    else (Ok (), (t_insert (handshake_row now s peer peer_type report) log).2)).

Definition of_peer (s : Z) (peer : string) (r : HandshakeRow) : Prop :=
  hs_server_id r = s ∧ hs_peer_pseudonym r = peer.
#[export] Instance of_peer_dec s peer r : Decision (of_peer s peer r).
Proof. unfold of_peer. apply _. Defined.

(** [ORDER BY created_at DESC LIMIT 1000], then [ORDER BY created_at ASC]. *)
Definition reputation_window (log : table HandshakeRow) (s : Z) (peer : string) : list string :=
  hs_alignment_status <$>
    order_by String.le hs_created_at
      (take 1000 (order_by (flip String.le) hs_created_at (t_select (of_peer s peer) log))).

Definition f32_0_1 : f32 := f32_lit 13421773 (-27).
Definition f32_0_05 : f32 := f32_lit 13421773 (-28).
Definition f32_0_2 : f32 := f32_lit 13421773 (-26).

Definition reputation_step (score : f32) (status_str : string) : f32 :=
  if decide (status_str = "ALIGNED") then
    f32_add score (f32_mul f32_0_1 (f32_sub f32_one score))
  else if decide (status_str = "PARTIAL") then f32_sub score (f32_mul f32_0_05 score)
  else if decide (status_str = "CONFLICT") then f32_sub score (f32_mul f32_0_2 score)
  else score.

Definition check_reputation_score (fault : faults) (log : table HandshakeRow) (s : Z)
    (peer : string) : result sql_error f32 :=
  rows ← read fault 0 (reputation_window log s peer);
  let score := foldl reputation_step f32_half rows in
  Ok (f32_clamp score f32_zero f32_one).

(** * Theorems *)

(** ** Hashes of lists *)

Lemma str_bytes_inj s1 s2 : str_bytes s1 = str_bytes s2 → s1 = s2.
Proof. apply list_byte_of_string_inj. Qed.

Definition short (s : string) : Prop := Z.of_nat (String.length s) < 2 ^ 64.

Definition frame (item : string) : list byte :=
  be_bytes 8 (Z.of_nat (String.length item)) ++ str_bytes item.

Lemma frame_inj s1 s2 r1 r2 :
  short s1 → short s2 → frame s1 ++ r1 = frame s2 ++ r2 → s1 = s2 ∧ r1 = r2.
Proof.
  unfold short, frame. intros H1 H2. rewrite <- !app_assoc.
  intros [Hl Hr]%app_inj_1; [|by rewrite !be_bytes_length].
  apply (f_equal be_val) in Hl. rewrite !be_val_be_bytes in Hl.
  change (256 ^ Z.of_nat 8) with (2 ^ 64) in Hl. rewrite !Z.mod_small in Hl by lia.
  apply app_inj_1 in Hr as [Hs Hr]; [|rewrite !str_bytes_length; lia].
  split; [by apply str_bytes_inj|done].
Qed.

Lemma frames_cons s l : (s :: l) ≫= frame = frame s ++ (l ≫= frame).
Proof. done. Qed.

Lemma frame_nonempty s r : frame s ++ r ≠ [].
Proof.
  intros E%(f_equal length). unfold frame in E.
  rewrite !length_app, be_bytes_length in E. cbn [length] in E. lia.
Qed.

Lemma frames_inj l1 l2 :
  Forall short l1 → Forall short l2 → (l1 ≫= frame) = (l2 ≫= frame) → l1 = l2.
Proof.
  intros H1. revert l2. induction H1 as [|s1 l1 Hs1 _ IH]; intros l2 H2 E.
  - destruct l2 as [|s2 l2]; [done|]. symmetry in E. rewrite frames_cons in E.
    by apply frame_nonempty in E.
  - destruct H2 as [|s2 l2 Hs2 H2]; rewrite frames_cons in E; [by apply frame_nonempty in E|].
    rewrite frames_cons in E. apply frame_inj in E as [-> E]; [|done..]. f_equal. by apply IH.
Qed.

Lemma merge_sort_strings l1 l2 : merge_sort String.le l1 = merge_sort String.le l2 ↔ l1 ≡ₚ l2.
Proof.
  split.
  - intros E. rewrite <- (merge_sort_Permutation String.le l1), E. apply merge_sort_Permutation.
  - intros HP. apply (StronglySorted_unique String.le).
    + apply StronglySorted_merge_sort; apply _.
    + apply StronglySorted_merge_sort; apply _.
    + by rewrite !merge_sort_Permutation.
Qed.

Section anchors.
Context `{HX : HexCrate, !HexLaws HX, SH : Sha256, UT : UnicodeText}.

Lemma hash_list_spec l1 l2 :
  Forall short l1 → Forall short l2 →
  (l1 ≡ₚ l2 → hash_list l1 = hash_list l2) ∧
  (hash_list l1 = hash_list l2 → l1 ≡ₚ l2 ∨ ∃ x y, x ≠ y ∧ sha256 x = sha256 y).
Proof.
  intros H1 H2. unfold hash_list, hash_list_input. split.
  - intros HP. by rewrite (proj2 (merge_sort_strings l1 l2) HP).
  - intros E%hex_encode_inj.
    destruct (decide (merge_sort String.le l1 = merge_sort String.le l2)) as [Hs|Hs].
    + left. by apply merge_sort_strings.
    + right. eexists _, _. split; [|exact E]. intros Hb. apply Hs.
      apply frames_inj; [by rewrite merge_sort_Permutation..|exact Hb].
Qed.

(** Anchors stand for policies: two servers whose snapshots were made
    from their policies are classified [Aligned] exactly when they list the
    same principles and the same prohibited actions, in any order, and
    [Conflict] whenever their prohibited actions differ, unless SHA-256
    collides; the semantic comparison cannot override this. *)
Theorem anchors_aligned_iff_same_policy t1 t2 p1 a1 p2 a2 x y config :
  Forall short p1 → Forall short p2 → Forall short a1 → Forall short a2 →
  new_anchor t1 p1 a1 = Some x → new_anchor t2 p2 a2 = Some y →
  (p1 ≡ₚ p2 ∧ a1 ≡ₚ a2 → compare_peer_anchor x y config = Aligned) ∧
  (compare_peer_anchor x y config = Aligned →
     (p1 ≡ₚ p2 ∧ a1 ≡ₚ a2) ∨ ∃ b c, b ≠ c ∧ sha256 b = sha256 c) ∧
  (¬ a1 ≡ₚ a2 →
     compare_peer_anchor x y config = Conflict ∨ ∃ b c, b ≠ c ∧ sha256 b = sha256 c).
Proof.
  intros Hp1 Hp2 Ha1 Ha2 Hx Hy. unfold new_anchor in Hx, Hy.
  destruct t1, t2; try done. injection Hx as <-. injection Hy as <-.
  destruct (hash_list_spec p1 p2 Hp1 Hp2) as [HP1 HP2].
  destruct (hash_list_spec a1 a2 Ha1 Ha2) as [HA1 HA2].
  unfold compare_peer_anchor. cbn [principles_hash prohibited_actions_hash].
  split; [|split].
  - intros [HP HA]. by rewrite (bool_decide_eq_true_2 _ (HP1 HP)), (bool_decide_eq_true_2 _ (HA1 HA)).
  - case_bool_decide as HP; [case_bool_decide as HA|]; cbn [andb].
    + intros _. destruct (HP2 HP), (HA2 HA); auto.
    + by rewrite bool_decide_eq_true_2.
    + repeat case_match; done.
  - intros HN. destruct (decide (hash_list a1 = hash_list a2)) as [HA|HA].
    + destruct (HA2 HA); [done|by right].
    + left. rewrite (bool_decide_eq_false_2 (hash_list a1 = hash_list a2)), andb_false_r by done.
      by rewrite bool_decide_eq_true_2.
Qed.
End anchors.

(** ** Symmetry *)

Lemma f32_mul_comm a b : f32_mul a b = f32_mul b a.
Proof.
  unfold f32_mul, SFmul. destruct a, b; cbn; try reflexivity; rewrite (xorb_comm _ _); try reflexivity.
  by rewrite (Pos.mul_comm _ _), (Z.add_comm _ _).
Qed.

Lemma zip_mul_comm (a b : list f32) : zip_with f32_mul a b = zip_with f32_mul b a.
Proof.
  revert b. induction a as [|x a IH]; intros [|y b]; cbn; [done..|]. by rewrite f32_mul_comm, IH.
Qed.

Lemma cosine_similarity_sym a b : cosine_similarity a b = cosine_similarity b a.
Proof.
  unfold cosine_similarity. destruct (decide (length a = length b)) as [Hl|Hl].
  - rewrite (bool_decide_eq_false_2 (length a ≠ length b)) by (intros ?; done).
    rewrite (bool_decide_eq_false_2 (length b ≠ length a)) by (intros ?; done). cbn [orb].
    destruct a as [|x a], b as [|y b]; try done. rewrite !bool_decide_eq_false_2 by done.
    by rewrite orb_comm, zip_mul_comm, (f32_mul_comm (f32_norm (y :: b))).
  - rewrite (bool_decide_eq_true_2 (length a ≠ length b)) by done.
    by rewrite (bool_decide_eq_true_2 (length b ≠ length a)) by done.
Qed.

Section symmetry.
Context `{UT : UnicodeText}.

Lemma build_vocab_sym l r : build_vocab (l ++ r) = build_vocab (r ++ l).
Proof.
  unfold build_vocab. apply merge_sort_strings. apply NoDup_Permutation; [apply NoDup_remove_dups..|].
  intros w. rewrite !elem_of_remove_dups, !bind_app, !elem_of_app. tauto.
Qed.

Lemma semantic_alignment_sym l r embedder :
  calculate_semantic_alignment l r embedder = calculate_semantic_alignment r l embedder.
Proof.
  unfold calculate_semantic_alignment. destruct l as [|x l], r as [|y r]; try done.
  destruct (compute_centroid embedder (x :: l)) as [[|a la]|],
           (compute_centroid embedder (y :: r)) as [[|b lb]|]; cbn; try done.
  by rewrite cosine_similarity_sym.
Qed.

Lemma compare_peer_anchor_sym local remote config :
  compare_peer_anchor local remote config = compare_peer_anchor remote local config.
Proof.
  unfold compare_peer_anchor. rewrite build_vocab_sym, semantic_alignment_sym.
  rewrite !(bool_decide_ext (principles_hash local = _) (principles_hash remote = principles_hash local)) by done.
  rewrite !(bool_decide_ext (prohibited_actions_hash local = _)
              (prohibited_actions_hash remote = prohibited_actions_hash local)) by done.
  rewrite !(bool_decide_ext (prohibited_actions_hash local ≠ _)
              (prohibited_actions_hash remote ≠ prohibited_actions_hash local)) by done.
  do 2 (case_match; [done|]). rewrite <- !andb_assoc.
  by rewrite (andb_comm (negb (bool_decide (anchor_principles local = [])))).
Qed.

Lemma contracts_sym a b : contracts_mutually_accepted a b = contracts_mutually_accepted b a.
Proof. unfold contracts_mutually_accepted. apply andb_comm. Qed.

Lemma contracts_mutually_accepted_spec a b :
  contracts_mutually_accepted a b = true ↔
  (∀ c, c ∈ required_capabilities b → c ∈ offered_capabilities a) ∧
  (∀ c, c ∈ required_capabilities a → c ∈ offered_capabilities b).
Proof.
  unfold contracts_mutually_accepted. rewrite andb_true_iff, !forallb_forall.
  setoid_rewrite bool_decide_eq_true. by setoid_rewrite list_elem_of_In.
Qed.

(** The handshake is symmetric: two parties with the same alignment and
    transfer configuration, each validating the other's anchor and contract
    against its own, reach the same report (status, scope, score and notes),
    semantic comparison included. *)
Theorem handshake_symmetric (a b : VrpFederationHandshake) alignment_config transfer_config :
  validate_federation_handshake (anchor_snapshot a) (capability_contract a) b
    alignment_config transfer_config =
  validate_federation_handshake (anchor_snapshot b) (capability_contract b) a
    alignment_config transfer_config.
Proof.
  unfold validate_federation_handshake.
  by rewrite compare_peer_anchor_sym, (contracts_sym (capability_contract a)).
Qed.

Lemma compare_peer_anchor_cases x y config :
  (compare_peer_anchor x y config = Aligned →
     principles_hash x = principles_hash y ∧ prohibited_actions_hash x = prohibited_actions_hash y) ∧
  (compare_peer_anchor x y config ≠ Conflict →
     prohibited_actions_hash x = prohibited_actions_hash y).
Proof.
  unfold compare_peer_anchor. case_bool_decide; case_bool_decide; cbn [andb]; [done|..].
  - by rewrite bool_decide_eq_true_2.
  - rewrite bool_decide_eq_false_2 by (intros ?; done). split; [|done]. repeat case_match; done.
  - by rewrite bool_decide_eq_true_2.
Qed.

(** What a handshake permits: incompatible contracts are a conflict
    whatever the anchors; a conflict transfers nothing; a scope is accepted
    exactly when the status is no conflict and the scope is at most the
    negotiated one, so full bundles need identical policy hashes and
    permission, summaries need at least partial alignment and permission. *)
Theorem validate_federation_handshake_spec local_anchor local_contract handshake
    alignment_config transfer_config required :
  let report := validate_federation_handshake local_anchor local_contract handshake
                  alignment_config transfer_config in
  (alignment_status report = Conflict ↔
     contracts_mutually_accepted local_contract (capability_contract handshake) = false ∨
     compare_peer_anchor local_anchor (anchor_snapshot handshake) alignment_config = Conflict) ∧
  (alignment_status report = Conflict → transfer_scope report = NoTransfer) ∧
  (check_transfer_acceptance report required = Ok () ↔
     alignment_status report ≠ Conflict ∧
     (scope_rank required ≤ scope_rank (transfer_scope report))%nat) ∧
  (check_transfer_acceptance report FullKnowledgeBundle = Ok () →
     principles_hash local_anchor = principles_hash (anchor_snapshot handshake) ∧
     prohibited_actions_hash local_anchor = prohibited_actions_hash (anchor_snapshot handshake) ∧
     allow_full_knowledge transfer_config = true) ∧
  (check_transfer_acceptance report ReflectionSummariesOnly = Ok () →
     prohibited_actions_hash local_anchor = prohibited_actions_hash (anchor_snapshot handshake) ∧
     (allow_full_knowledge transfer_config = true ∨ allow_reflection_summaries transfer_config = true)).
Proof.
  intros report. unfold report, validate_federation_handshake, check_transfer_acceptance.
  pose proof (compare_peer_anchor_cases local_anchor (anchor_snapshot handshake) alignment_config)
    as [HA HC].
  destruct (contracts_mutually_accepted _ _); cbn [negb alignment_status transfer_scope].
  2: { cbn. naive_solver. }
  destruct (compare_peer_anchor _ _ _); cbn; unfold reject_if, scope_ltb;
    rewrite ?bool_decide_eq_false_2 by done; rewrite ?bool_decide_eq_true_2 by done; cbn.
  - destruct (HA eq_refl) as [-> ->].
    destruct (allow_full_knowledge _), (allow_reflection_summaries _), required; cbn; split_and!;
      try done; try (intros; naive_solver lia); split; naive_solver lia.
  - rewrite (HC ltac:(done)).
    destruct (allow_full_knowledge _), (allow_reflection_summaries _), required; cbn; split_and!;
      try done; try (intros; naive_solver lia); split; naive_solver lia.
  - naive_solver.
Qed.
End symmetry.

(** ** Reputation *)

(** The peer's outcomes, oldest first. *)
Definition peer_history (log : table HandshakeRow) (s : Z) (peer : string) : list HandshakeRow :=
  t_select (of_peer s peer) log.

Definition chronological (log : table HandshakeRow) (s : Z) (peer : string) : Prop :=
  StronglySorted text_lt (hs_created_at <$> peer_history log s peer).

Lemma reputation_window_last log s peer :
  chronological log s peer →
  reputation_window log s peer =
  hs_alignment_status <$> drop (length (peer_history log s peer) - 1000) (peer_history log s peer).
Proof.
  unfold reputation_window, chronological. fold (peer_history log s peer).
  set (l := peer_history log s peer). intros Hs. f_equal.
  rewrite (order_by_chronological_desc _ l) by done.
  rewrite take_reverse. apply order_by_chronological; [|apply reverse_Permutation].
  rewrite fmap_drop. by apply StronglySorted_drop.
Qed.

Definition f32_is_nan (x : f32) : bool := match x with S754_nan => true | _ => false end.

Lemma SFcompare_total x y :
  f32_is_nan x = false → f32_is_nan y = false → SFltb y x = false → SFleb x y = true.
Proof.
  intros Hx Hy. unfold SFltb, SFleb.
  destruct x as [sx|sx| |sx mx ex], y as [sy|sy| |sy my ey]; try done; cbn [SFcompare];
    try (destruct sx; done); try (destruct sy; done); try (destruct sx, sy; done).
  rewrite (Z.compare_antisym ex ey).
  assert (Pos.compare_cont Eq my mx = CompOpp (Pos.compare_cont Eq mx my)) as ->
    by (by rewrite Pos.compare_cont_antisym).
  destruct sx, sy; try done; destruct (ex ?= ey); cbn; try done;
    destruct (Pos.compare_cont Eq mx my); done.
Qed.

Lemma f32_clamp_between x lo hi :
  f32_is_nan x = false → f32_is_nan lo = false → f32_is_nan hi = false →
  f32_leb lo hi = true → f32_leb lo lo = true → f32_leb hi hi = true →
  f32_leb lo (f32_clamp x lo hi) = true ∧ f32_leb (f32_clamp x lo hi) hi = true.
Proof.
  intros Hx Hlo Hhi Hlh Hll Hhh. unfold f32_clamp. destruct (SFltb x lo) eqn:E1; [done|].
  destruct (SFltb hi x) eqn:E2; [done|]. split; by apply SFcompare_total.
Qed.

(** The reputation of a peer is a function of its own outcomes only:
    when they were logged at increasing times, it is the neutral score moved
    by the last 1000 of them in order, oldest first, and clamped to [0, 1]
    (so inside it unless it is not a number); logging one more outcome adds
    it as the newest and leaves every other peer's reputation as it was. *)
Theorem check_reputation_score_spec `{Serde VrpValidationReport} fault servers log s peer now ty report :
  chronological log s peer → fault 0%nat = None → s ∈ servers →
  (∀ r, r ∈ peer_history log s peer → text_lt (hs_created_at r) now) →
  let history log := hs_alignment_status <$> peer_history log s peer in
  let score h := foldl reputation_step f32_half (drop (length h - 1000) h) in
  check_reputation_score fault log s peer =
    Ok (f32_clamp (score (history log)) f32_zero f32_one) ∧
  (f32_is_nan (score (history log)) = false →
     ∃ x, check_reputation_score fault log s peer = Ok x ∧
          f32_leb f32_zero x = true ∧ f32_leb x f32_one = true) ∧
  ∃ log', record_vrp_outcome fault servers now s peer ty report log = (Ok (), log') ∧
    check_reputation_score fault log' s peer =
      Ok (f32_clamp (score (history log ++ [status_text (alignment_status report)])) f32_zero f32_one) ∧
    ∀ s' peer', (s', peer') ≠ (s, peer) →
      check_reputation_score fault log' s' peer' = check_reputation_score fault log s' peer'.
Proof.
  intros Hc Hf Hs Hnow history score.
  assert (∀ log, chronological log s peer → check_reputation_score fault log s peer =
            Ok (f32_clamp (score (history log)) f32_zero f32_one)) as Hscore.
  { intros l Hl. unfold check_reputation_score, read. rewrite Hf. cbn [mbind result_bind].
    rewrite reputation_window_last by done. unfold score, history.
    by rewrite length_fmap, fmap_drop. }
  split; [by apply Hscore|]. split.
  { intros Hn. eexists. split; [by apply Hscore|]. apply f32_clamp_between; [done|reflexivity..]. }
  unfold record_vrp_outcome, exec. rewrite Hf, bool_decide_eq_false_2 by tauto. set (row := handshake_row now s peer ty report).
  exists (t_insert row log).2. split; [done|].
  assert (peer_history (t_insert row log).2 s peer =
          peer_history log s peer ++ [row (t_seq log + 1)]) as Hhist.
  { unfold peer_history, t_select. cbn [t_insert snd t_rows]. rewrite filter_app.
    f_equal. apply (filter_singleton_True _ _ []). split; reflexivity. }
  split.
  - rewrite Hscore; [unfold history; by rewrite Hhist, fmap_app|].
    unfold chronological. rewrite Hhist, fmap_app. apply StronglySorted_snoc. split; [exact Hc|].
    apply Forall_fmap, Forall_forall. exact Hnow.
  - intros s' peer' Hne. unfold check_reputation_score, reputation_window, t_select.
    cbn [t_insert snd t_rows]. rewrite filter_app, (filter_singleton_False _ _ []), app_nil_r; [done|].
    intros [Es Ep]. cbn in Es, Ep. congruence.
Qed.

(** ** Witnesses *)

Definition toy_config : VrpAlignmentConfig :=
  {| semantic_alignment_required := true; min_alignment_score := f32_half |}.

(** The comparison runs: half of the words in common is partial alignment. *)
Example partial_alignment :
  match @new_anchor hex_reference toy_sha256 (Some 0) ["be kind"] [],
        @new_anchor hex_reference toy_sha256 (Some 0) ["Be honest."] [] with
  | Some x, Some y => compare_peer_anchor (UT := ascii_text) x y toy_config
  | _, _ => Conflict
  end = Partial.
Proof. vm_compute. reflexivity. Qed.

Section witnesses.
#[local] Existing Instances hex_reference toy_sha256 ascii_text.

Lemma anchors_aligned_iff_same_policy_witness :
  ∃ x y, new_anchor (Some 0) ["a"; "b"] ["c"] = Some x ∧
         new_anchor (Some 0) ["b"; "a"] ["c"] = Some y ∧
         compare_peer_anchor x y toy_config = Aligned.
Proof.
  eexists _, _. split; [reflexivity|]. split; [reflexivity|].
  apply (anchors_aligned_iff_same_policy (Some 0) (Some 0) ["a"; "b"] ["c"] ["b"; "a"] ["c"] _ _ toy_config);
    try reflexivity; try (repeat constructor; unfold short; cbn; lia).
Defined.

Definition toy_report_serde : Serde VrpValidationReport :=
  {| to_json _ := "{}"; from_json _ := None |}.

Lemma check_reputation_score_spec_witness :
  check_reputation_score no_fault t_empty 1 "p" = Ok f32_half.
Proof.
  exact (proj1 (check_reputation_score_spec (H := toy_report_serde) no_fault {[1]} t_empty 1 "p" "now" "AGENT"
    {| alignment_status := Aligned; transfer_scope := NoTransfer; alignment_score := f32_one;
       negotiation_notes := [] |} ltac:(constructor) eq_refl ltac:(set_solver)
    ltac:(intros r Hr; apply not_elem_of_nil in Hr; destruct Hr))).
Defined.
End witnesses.
