(* ===== verification/Net.v ===== *)
(** * Net: IP addresses of the standard library

    [IpAddr], its predicates, and [IpAddr::from_str] (the recursive descent
    parser of [core::net::parser]). *)

From S2P Require Import Prelude Bytes Text.

#[local] Open Scope Z_scope.

(** Four octets, or eight 16-bit segments. *)
Inductive IpAddr :=
  | V4 (a b c d : Z)
  | V6 (s0 s1 s2 s3 s4 s5 s6 s7 : Z).
#[export] Instance IpAddr_eq_dec : EqDecision IpAddr.
Proof. solve_decision. Defined.

Definition ip_code (ip : IpAddr) : Z * Z * Z * Z + Z * Z * Z * Z * Z * Z * Z * Z :=
  match ip with
  | V4 a b c d => inl (a, b, c, d)
  | V6 s0 s1 s2 s3 s4 s5 s6 s7 => inr (s0, s1, s2, s3, s4, s5, s6, s7)
  end.
Definition ip_decode (x : Z * Z * Z * Z + Z * Z * Z * Z * Z * Z * Z * Z) : IpAddr :=
  match x with
  | inl (a, b, c, d) => V4 a b c d
  | inr (s0, s1, s2, s3, s4, s5, s6, s7) => V6 s0 s1 s2 s3 s4 s5 s6 s7
  end.
#[export] Program Instance IpAddr_countable : Countable IpAddr :=
  inj_countable' ip_code ip_decode _.
Next Obligation. by intros []. Qed.

Definition u8 (z : Z) : Prop := 0 ≤ z < 256.
Definition u16 (z : Z) : Prop := 0 ≤ z < 65536.
Definition ip_ok (ip : IpAddr) : Prop :=
  match ip with
  | V4 a b c d => Forall u8 [a; b; c; d]
  | V6 s0 s1 s2 s3 s4 s5 s6 s7 => Forall u16 [s0; s1; s2; s3; s4; s5; s6; s7]
  end.

(** ** Predicates *)

Definition v4_is_loopback (a b c d : Z) : bool := a =? 127.
Definition v4_is_private (a b c d : Z) : bool :=
  (a =? 10) || ((a =? 172) && (16 <=? b) && (b <=? 31)) || ((a =? 192) && (b =? 168)).
Definition v4_is_link_local (a b c d : Z) : bool := (a =? 169) && (b =? 254).
Definition v4_is_broadcast (a b c d : Z) : bool :=
  (a =? 255) && (b =? 255) && (c =? 255) && (d =? 255).
Definition v4_is_unspecified (a b c d : Z) : bool :=
  (a =? 0) && (b =? 0) && (c =? 0) && (d =? 0).

Definition v6_is_loopback (segs : list Z) : bool := bool_decide (segs = [0; 0; 0; 0; 0; 0; 0; 1]).
Definition v6_is_unspecified (segs : list Z) : bool := bool_decide (segs = [0; 0; 0; 0; 0; 0; 0; 0]).
(** fc00::/7 and fe80::/10, as the source spells them. *)
Definition v6_is_unique_local (s0 : Z) : bool := Z.land s0 0xfe00 =? 0xfc00.
Definition v6_is_link_local (s0 : Z) : bool := Z.land s0 0xffc0 =? 0xfe80.

(** [Ipv6Addr::to_ipv4_mapped]. *)
Definition to_ipv4_mapped (segs : list Z) : option (Z * Z * Z * Z) :=
  match segs with
  | [s0; s1; s2; s3; s4; s5; ab; cd] =>
      if bool_decide ([s0; s1; s2; s3; s4; s5] = [0; 0; 0; 0; 0; 0xffff])
      then Some (ab / 256, ab mod 256, cd / 256, cd mod 256) else None
  | _ => None
  end.

(** ** Parsing *)

Definition parser (A : Type) : Type := string → option (A * string).

Fixpoint read_digits (radix : Z) (max_digits : nat) (s : string) (acc : Z) (count : nat) :
    option (Z * nat * string) :=
  match s with
  | String c s' =>
      match to_digit radix c with
      | Some d =>
          if (max_digits <? S count)%nat then None
          else read_digits radix max_digits s' (acc * radix + d) (S count)
      | None => Some (acc, count, s)
      end
  | "" => Some (acc, count, s)
  end.

Definition read_number (radix : Z) (max_digits : nat) (allow_zero_prefix : bool) (limit : Z) : parser Z :=
  λ s,
    let has_leading_zero := match s with String "0" _ => true | _ => false end in
    '(n, count, rest) ← read_digits radix max_digits s 0 0;
    if (count =? 0)%nat then None
    else if negb allow_zero_prefix && has_leading_zero && (1 <? count)%nat then None
    else if n <? limit then Some (n, rest) else None.

Definition read_given_char (a : ascii) (s : string) : option string :=
  match s with String c s' => if decide (c = a) then Some s' else None | "" => None end.

Definition read_separator {A} (sep : ascii) (i : nat) (p : parser A) : parser A := λ s,
  if (0 <? i)%nat then read_given_char sep s ≫= p else p s.

Definition read_octet (i : nat) : parser Z := read_separator "." i (read_number 10 3 false 256).

Definition read_ipv4_addr : parser (Z * Z * Z * Z) := λ s,
  '(a, s) ← read_octet 0 s;
  '(b, s) ← read_octet 1 s;
  '(c, s) ← read_octet 2 s;
  '(d, s) ← read_octet 3 s;
  Some ((a, b, c, d), s).

(** [read_groups] with [n] groups left, of which [i] were read. *)
Fixpoint read_groups (n i : nat) (s : string) : list Z * bool * string :=
  match n with
  | O => ([], false, s)
  | S n' =>
      match (if (0 <? n')%nat then read_separator ":" i read_ipv4_addr s else None) with
      | Some ((a, b, c, d), s') => ([a * 256 + b; c * 256 + d], true, s')
      | None =>
          match read_separator ":" i (read_number 16 4 true 65536) s with
          | Some (g, s') =>
              let '(gs, ipv4, s'') := read_groups n' (S i) s' in (g :: gs, ipv4, s'')
          | None => ([], false, s)
          end
      end
  end.

Definition read_ipv6_addr : parser (list Z) := λ s,
  let '(head, head_ipv4, s1) := read_groups 8 0 s in
  if (length head =? 8)%nat then Some (head, s1)
  else if head_ipv4 then None
  else
    s2 ← read_given_char ":" s1 ≫= read_given_char ":";
    let '(tail, _, s3) := read_groups (8 - (length head + 1)) 0 s2 in
    Some (head ++ replicate (8 - length tail - length head) 0 ++ tail, s3).

Definition of_segments (segs : list Z) : option IpAddr :=
  match segs with
  | [s0; s1; s2; s3; s4; s5; s6; s7] => Some (V6 s0 s1 s2 s3 s4 s5 s6 s7)
  | _ => None
  end.

Definition parse_ip (s : string) : option IpAddr :=
  '(ip, rest) ← (match read_ipv4_addr s with
                 | Some ((a, b, c, d), rest) => Some (V4 a b c d, rest)
                 | None => '(segs, rest) ← read_ipv6_addr s; ip ← of_segments segs; Some (ip, rest)
                 end);
  if is_empty rest then Some ip else None.

Example parse_v4 : parse_ip "192.168.0.1" = Some (V4 192 168 0 1). Proof. reflexivity. Qed.
Example parse_v4_zero : parse_ip "192.168.00.1" = None. Proof. reflexivity. Qed.
Example parse_v6 : parse_ip "fe80::1:2" = Some (V6 0xfe80 0 0 0 0 0 1 2). Proof. reflexivity. Qed.
Example parse_v6_v4 : parse_ip "::ffff:10.0.0.1" = Some (V6 0 0 0 0 0 0xffff 0x0a00 1).
Proof. reflexivity. Qed.
Example parse_v6_brackets : parse_ip "[::1]" = None. Proof. reflexivity. Qed.

(** What is parsed is an address: octets and groups are in range. *)
Lemma read_digits_nonneg radix n s acc count v k rest :
  0 ≤ radix → 0 ≤ acc → read_digits radix n s acc count = Some (v, k, rest) → 0 ≤ v.
Proof.
  intros Hr. revert acc count. induction s as [|c s IH]; intros acc count Ha; cbn [read_digits]; [intros [= <- _ _]; done|].
  destruct (to_digit radix c) as [d|] eqn:Ed; [|intros [= <- _ _]; done].
  destruct (n <? S count)%nat; [done|]. apply IH. apply to_digit_range in Ed. nia.
Qed.
Lemma read_number_range radix n z limit s v rest :
  0 ≤ radix → read_number radix n z limit s = Some (v, rest) → 0 ≤ v < limit.
Proof.
  intros Hr. unfold read_number. destruct (read_digits radix n s 0 0) as [[[v' k] rest']|] eqn:E; cbn; [|done].
  apply read_digits_nonneg in E; [|done..]. repeat case_match; try done.
  all: intros [= <- _]; lia.
Qed.
Lemma read_separator_inv {A} sep i (p : parser A) s x :
  read_separator sep i p s = Some x → ∃ s', p s' = Some x.
Proof.
  unfold read_separator. destruct (0 <? i)%nat; [|by exists s].
  destruct (read_given_char sep s) as [s'|]; [by exists s'|done].
Qed.
Lemma read_octet_u8 i s v rest : read_octet i s = Some (v, rest) → u8 v.
Proof. intros (s' & H)%read_separator_inv. by apply read_number_range in H. Qed.
Lemma read_ipv4_u8 s a b c d rest : read_ipv4_addr s = Some (a, b, c, d, rest) → Forall u8 [a; b; c; d].
Proof.
  unfold read_ipv4_addr.
  destruct (read_octet 0 s) as [[a' s1]|] eqn:Ea; cbn [mbind option_bind]; [|done].
  destruct (read_octet 1 s1) as [[b' s2]|] eqn:Eb; cbn [mbind option_bind]; [|done].
  destruct (read_octet 2 s2) as [[c' s3]|] eqn:Ec; cbn [mbind option_bind]; [|done].
  destruct (read_octet 3 s3) as [[d' s4]|] eqn:Ed; cbn [mbind option_bind]; [|done].
  intros [= <- <- <- <- <-]. repeat constructor; by eapply read_octet_u8.
Qed.
Lemma read_groups_u16 n i s gs v4 rest : read_groups n i s = (gs, v4, rest) → Forall u16 gs.
Proof.
  revert i s gs v4 rest. induction n as [|n IH]; intros i s gs v4 rest; cbn [read_groups]; [intros [= <- _ _]; constructor|].
  destruct (if (0 <? n)%nat then _ else _) as [[[[[a b] c] d] s']|] eqn:E4.
  - intros [= <- _ _]. destruct (0 <? n)%nat; [|done]. apply read_separator_inv in E4 as (s0 & E4).
    apply read_ipv4_u8 in E4. rewrite !Forall_cons in E4. unfold u8 in E4.
    repeat constructor; unfold u16; lia.
  - destruct (read_separator ":" i (read_number 16 4 true 65536) s) as [[g s']|] eqn:Eg; [|intros [= <- _ _]; constructor].
    apply read_separator_inv in Eg as (s0 & Eg). apply read_number_range in Eg; [|done].
    destruct (read_groups n (S i) s') as [[gs' v4'] s''] eqn:E. apply IH in E.
    intros [= <- _ _]. by constructor.
Qed.
Lemma read_ipv6_u16 s segs rest : read_ipv6_addr s = Some (segs, rest) → Forall u16 segs.
Proof.
  unfold read_ipv6_addr. destruct (read_groups 8 0 s) as [[hd v4] s1] eqn:E1. apply read_groups_u16 in E1.
  destruct (length hd =? 8)%nat; [by intros [= <- _]|]. destruct v4; [done|].
  destruct (read_given_char ":" s1 ≫= read_given_char ":") as [s2|]; cbn [mbind option_bind]; [|done].
  destruct (read_groups _ 0 s2) as [[tl v4'] s3] eqn:E2. apply read_groups_u16 in E2. intros [= <- _].
  apply Forall_app. split; [done|]. apply Forall_app. split; [|done]. by apply Forall_replicate.
Qed.
Lemma parse_ip_ok s ip : parse_ip s = Some ip → ip_ok ip.
Proof.
  unfold parse_ip. destruct (read_ipv4_addr s) as [[[[[a b] c] d] rest]|] eqn:E4; cbn [mbind option_bind].
  - destruct (is_empty rest); [|done]. intros [= <-]. by apply read_ipv4_u8 in E4.
  - destruct (read_ipv6_addr s) as [[segs rest]|] eqn:E6; cbn [mbind option_bind]; [|done].
    destruct (of_segments segs) as [ip'|] eqn:Es; cbn [mbind option_bind]; [|done].
    destruct (is_empty rest); [|done]. intros [= <-]. apply read_ipv6_u16 in E6.
    destruct segs as [|? [|? [|? [|? [|? [|? [|? [|? [|? ?]]]]]]]]]; try done. injection Es as <-. done.
Qed.

(** ** Blocks of addresses *)

(** The address as a number. *)
Definition v4_bits (a b c d : Z) : Z := a * 2 ^ 24 + b * 2 ^ 16 + c * 2 ^ 8 + d.
Definition v6_bits (segs : list Z) : Z := foldl (λ acc s, acc * 65536 + s) 0 segs.

(** [base/len] in addresses of [width] bits: the first [len] bits agree. *)
Definition in_block (width : Z) (x : Z) (block : Z * Z) : Prop :=
  let '(base, len) := block in x / 2 ^ (width - len) = base / 2 ^ (width - len).

(** Masking the upper bits of a [w]-bit word. *)
Lemma land_upper (w s k : Z) :
  0 ≤ k ≤ w → 0 ≤ s < 2 ^ w → Z.land s (2 ^ w - 2 ^ k) = s / 2 ^ k * 2 ^ k.
Proof.
  intros Hk Hs. rewrite <- Z.shiftl_mul_pow2, <- Z.shiftr_div_pow2 by lia.
  assert (2 ^ w - 2 ^ k = Z.shiftl (Z.ones (w - k)) k) as ->.
  { rewrite Z.shiftl_mul_pow2, Z.ones_equiv by lia.
    replace (2 ^ w) with (2 ^ (w - k) * 2 ^ k) by (rewrite <- Z.pow_add_r by lia; f_equal; lia).
    rewrite <- Z.sub_1_r. ring. }
  apply Z.bits_inj'. intros n Hn. rewrite Z.land_spec, !Z.shiftl_spec by lia.
  destruct (decide (n < k)) as [Hlt|Hge].
  - rewrite !(Z.testbit_neg_r _ (n - k)) by lia. apply andb_false_r.
  - rewrite Z.shiftr_spec by lia. replace (n - k + k) with n by lia.
    destruct (decide (n < w)) as [Hw|Hw].
    + rewrite Z.ones_spec_low by lia. apply andb_true_r.
    + replace (Z.testbit s n) with false; [done|]. symmetry.
      destruct (decide (s = 0)) as [->|]; [apply Z.bits_0|].
      apply Z.bits_above_log2; [lia|]. apply Z.lt_le_trans with w; [|lia].
      apply Z.log2_lt_pow2; lia.
Qed.

Lemma land_upper_eqb w s k m :
  0 ≤ k ≤ w → 0 ≤ s < 2 ^ w →
  (Z.land s (2 ^ w - 2 ^ k) =? m * 2 ^ k) = (s / 2 ^ k =? m).
Proof.
  intros Hk Hs. rewrite (land_upper w) by done. apply eq_true_iff_eq. rewrite !Z.eqb_eq.
  pose proof (Z.pow_pos_nonneg 2 k ltac:(lia) ltac:(lia)). split; [|by intros ->].
  intros E. apply Z.mul_reg_r in E; lia.
Qed.
