(* ===== verification/Upload.v ===== *)
(** * Upload: crates/annex-server/src/api_upload.rs

    Content type detection, stripping of image metadata, the size and
    category checks, and the two upload handlers.  The loops over a buffer
    at an index [i] are loops over the rest [data[i..]]. *)

From S2P Require Import Prelude Sql Bytes Types Identity Platform Observe Channels.

#[local] Open Scope Z_scope.

(** ** Categories and types *)

Inductive UploadCategory := Image | Video | File.
#[export] Instance UploadCategory_eq_dec : EqDecision UploadCategory.
Proof. solve_decision. Defined.

Definition category_as_str (c : UploadCategory) : string :=
  match c with Image => "image" | Video => "video" | File => "file" end.
Definition subdir (c : UploadCategory) : string :=
  match c with Image => "images" | Video => "videos" | File => "files" end.

Definition ALLOWED_IMAGE_TYPES : list string := ["image/jpeg"; "image/png"; "image/gif"; "image/webp"].
Definition ALLOWED_VIDEO_TYPES : list string := ["video/mp4"; "video/webm"; "video/quicktime"].
Definition BLOCKED_TYPES : list string :=
  ["application/x-executable"; "application/x-dosexec"; "application/x-sharedlib"].
Definition MAX_SERVER_IMAGE_SIZE : Z := 10 * 1024 * 1024.
Definition UPLOAD_STREAM_CEILING : Z := 50 * 1024 * 1024.

Definition ext_from_content_type (ct : string) : string :=
  if decide (ct = "image/jpeg") then "jpg"
  else if decide (ct = "image/png") then "png"
  else if decide (ct = "image/gif") then "gif"
  else if decide (ct = "image/webp") then "webp"
  else if decide (ct = "video/mp4") then "mp4"
  else if decide (ct = "video/webm") then "webm"
  else if decide (ct = "video/quicktime") then "mov"
  else if decide (ct = "application/pdf") then "pdf"
  else if decide (ct = "application/zip") then "zip"
  else if decide (ct = "text/plain") then "txt"
  else "bin".

(** Literal bytes, and [data[i..i + n] == bytes] with the length check. *)
Definition bytes (l : list Z) : list byte := byte_of_Z <$> l.
Definition has_at (i : nat) (b data : list byte) : bool :=
  bool_decide (take (length b) (drop i data) = b).

Definition png_sig : list byte := bytes [137; 80; 78; 71; 13; 10; 26; 10].

Definition detect_content_type (data : list byte) : option (string * UploadCategory) :=
  if has_at 0 (bytes [0xFF; 0xD8]) data then Some ("image/jpeg", Image)
  else if has_at 0 png_sig data then Some ("image/png", Image)
  else if has_at 0 (str_bytes "GIF8") data then Some ("image/gif", Image)
  else if has_at 0 (str_bytes "RIFF") data && has_at 8 (str_bytes "WEBP") data
  then Some ("image/webp", Image)
  else if (12 <=? length data)%nat && has_at 4 (str_bytes "ftyp") data then
    if has_at 8 (str_bytes "qt  ") data then Some ("video/quicktime", Video)
    else Some ("video/mp4", Video)
  else if has_at 0 (bytes [0x1A; 0x45; 0xDF; 0xA3]) data then Some ("video/webm", Video)
  else if has_at 0 (str_bytes "%PDF") data then Some ("application/pdf", File)
  else if has_at 0 (bytes [0x50; 0x4B; 0x03; 0x04]) data then Some ("application/zip", File)
  else if has_at 0 (bytes [0x7F; 0x45; 0x4C; 0x46]) data then Some ("application/x-executable", File)
  else if has_at 0 (bytes [0x4D; 0x5A]) data then Some ("application/x-dosexec", File)
  else None.

Definition max_size_for_category (policy : ServerPolicy) (c : UploadCategory) : Z :=
  match c with
  | Image => max_image_size_mb policy
  | Video => max_video_size_mb policy
  | File => max_file_size_mb policy
  end * 1024 * 1024.

Definition is_category_enabled (policy : ServerPolicy) (c : UploadCategory) : bool :=
  match c with
  | Image => images_enabled policy
  | Video => videos_enabled policy
  | File => files_enabled policy
  end.

(** ** JPEG *)

(** [matches!(marker, 0xE1 | 0xEC | 0xED | 0xFE)]. *)
Definition jpeg_metadata (marker : Z) : bool :=
  (marker =? 0xE1) || (marker =? 0xEC) || (marker =? 0xED) || (marker =? 0xFE).
(** Markers without a length. *)
Definition jpeg_standalone (marker : Z) : bool :=
  (marker =? 0xD8) || (marker =? 0xD9) || ((0xD0 <=? marker) && (marker <=? 0xD7)).

(** The loop: [rest] is [data[i..]], the result what it appends. *)
Fixpoint strip_jpeg_loop (fuel : nat) (rest : list byte) : list byte :=
  match fuel with
  | O => []
  | S fuel =>
      match rest with
      | b0 :: b1 :: tail =>
          if negb (bval b0 =? 0xFF) then rest
          else
            let marker := bval b1 in
            if marker =? 0xDA then rest
            else if jpeg_standalone marker then b0 :: b1 :: strip_jpeg_loop fuel tail
            else
              match tail with
              | b2 :: b3 :: _ =>
                  let seg_len := Z.lor (Z.shiftl (bval b2) 8) (bval b3) in
                  let total_len := Z.to_nat (seg_len + 2) in
                  if (length rest <? total_len)%nat then rest
                  else
                    (if jpeg_metadata marker then [] else take total_len rest) ++
                    strip_jpeg_loop fuel (drop total_len rest)
              | _ => []
              end
      | _ => []
      end
  end.

Definition strip_jpeg_metadata (data : list byte) : list byte :=
  if has_at 0 (bytes [0xFF; 0xD8]) data
  then bytes [0xFF; 0xD8] ++ strip_jpeg_loop (length data) (drop 2 data)
  else data.

(** ** PNG *)

Definition png_metadata (chunk_type : list byte) : bool :=
  bool_decide (chunk_type ∈ [str_bytes "tEXt"; str_bytes "iTXt"; str_bytes "zTXt"; str_bytes "eXIf"]).

(** The loop: what it appends to the result, and the [data[i..]] it stops
    at. *)
Fixpoint strip_png_loop (fuel : nat) (rest : list byte) : list byte * list byte :=
  match fuel with
  | O => ([], rest)
  | S fuel =>
      if (length rest <? 12)%nat then ([], rest)
      else
        let len := be_val (take 4 rest) in
        let chunk_type := take 4 (drop 4 rest) in
        let total := Z.to_nat (12 + len) in
        if (length rest <? total)%nat then (rest, rest)
        else
          let '(out, stop) := strip_png_loop fuel (drop total rest) in
          ((if png_metadata chunk_type then [] else take total rest) ++ out, stop)
  end.

(** After the loop the bytes from [i] on are appended, also when the loop
    ended on a partial chunk, which it had copied already. *)
Definition strip_png_metadata (data : list byte) : list byte :=
  if has_at 0 png_sig data then
    let '(out, stop) := strip_png_loop (length data) (drop 8 data) in
    png_sig ++ out ++ stop
  else data.

Definition strip_metadata (data : list byte) (content_type : string) : list byte :=
  if decide (content_type = "image/jpeg") then strip_jpeg_metadata data
  else if decide (content_type = "image/png") then strip_png_metadata data
  else data.

(** ** Handlers *)

(** A multipart field: its file name and the chunks of its body as they
    arrive, [None] being a failed read. *)
Record Field := {
  file_name : option string;
  field_chunks : list (option (list byte));
}.

Fixpoint read_field_capped (chunks : list (option (list byte))) (max_bytes : Z) (buf : list byte) :
    result http_error (list byte) :=
  match chunks with
  | [] => Ok buf
  | None :: _ => Err 400
  | Some chunk :: chunks =>
      if max_bytes <? Z.of_nat (length buf) + Z.of_nat (length chunk) then Err 400
      else read_field_capped chunks max_bytes (buf ++ chunk)
  end.

(** [next_field()]: a multipart error ([None]), no field, or the first field. *)
Definition first_field (multipart : option (option Field)) : result http_error Field :=
  field ← ok_or multipart 400;
  ok_or field 400.

Record UploadRow := {
  up_id : Z;
  up_server_id : Z;
  up_upload_id : string;
  up_uploader_pseudonym : string;
  up_original_filename : string;
  up_content_type : string;
  up_size_bytes : Z;
  up_purpose : string;
  up_channel_id : option string;
  up_category : string;
}.

(** The upload directory, the uploads table, the image of every server, and
    the event log. *)
Record UploadState := {
  files : gmap string (list byte);
  uploads : table UploadRow;
  server_images : gmap Z (option string);
  events : EventSink;
}.

Definition upload_id_is (u : string) (r : UploadRow) : Prop := up_upload_id r = u.
#[export] Instance upload_id_is_dec u r : Decision (upload_id_is u r).
Proof. unfold upload_id_is. apply _. Defined.

(** The file system: directory creation and the write may fail. *)
Definition write_file (create_ok write_ok : bool) (path : string) (data : list byte) :
    M UploadState http_error unit := λ st,
  if negb create_ok || negb write_ok then (Err 500, st)
  else (Ok (), {| files := <[path := data]> (files st); uploads := uploads st;
                  server_images := server_images st; events := events st |}).

(** [INSERT INTO uploads]: UNIQUE (upload_id), foreign key to the server. *)
Definition insert_upload (mk : Z → UploadRow) : M UploadState sql_error unit := λ st,
  if t_exists (upload_id_is (up_upload_id (mk 0))) (uploads st) then (Err ConstraintUnique, st)
  else if bool_decide (server_images st !! up_server_id (mk 0) = None) then (Err ConstraintForeignKey, st)
  else (Ok (), {| files := files st; uploads := (t_insert mk (uploads st)).2;
                  server_images := server_images st; events := events st |}).

(** [UPDATE servers SET image_url = ?1 WHERE id = ?2]. *)
Definition set_server_image (s : Z) (url : string) : M UploadState sql_error unit := λ st,
  (Ok (), {| files := files st; uploads := uploads st;
             server_images := alter (λ _, Some url) s (server_images st); events := events st |}).

Record UploadResponse := {
  r_upload_id : string;
  r_url : string;
  r_filename : string;
  r_content_type : string;
  r_category : UploadCategory;
  r_size : Z;
  r_metadata_stripped_bytes : Z;
}.

(** The checks of [upload_chat_handler] on the bytes of an upload: the
    detected type and category of an acceptable one. *)
Definition check_upload (policy : ServerPolicy) (data : list byte) :
    result http_error (string * UploadCategory) :=
  let '(detected_ct, category) :=
    default ("application/octet-stream", File) (detect_content_type data) in
  _ ← reject_if (bool_decide (detected_ct ∈ BLOCKED_TYPES)) 400;
  _ ← reject_if (negb (is_category_enabled policy category)) 400;
  _ ← reject_if (max_size_for_category policy category <? Z.of_nat (length data)) 400;
  _ ← reject_if (bool_decide (category = Image) && negb (bool_decide (detected_ct ∈ ALLOWED_IMAGE_TYPES))) 400;
  _ ← reject_if (bool_decide (category = Video) && negb (bool_decide (detected_ct ∈ ALLOWED_VIDEO_TYPES))) 400;
  Ok (detected_ct, category).

(** What the environment of an upload decides. *)
Record UploadEnv := {
  uuid : string;
  create_ok : bool;
  write_ok : bool;
  db_fault : faults;
  db_pool : nat → bool;
}.

Definition catch_500 {S A} (m : M S sql_error A) : M S http_error A := catch_map (λ _, 500) m.

(** [policy] is [None] when its lock is poisoned; statement 0 of
    [db_fault] is the membership query, 1 the INSERT. *)
Definition upload_chat_handler (env : UploadEnv) (server_id : Z) (upload_dir : string) (db : ChannelDb)
    (policy : option ServerPolicy) (identity : PlatformIdentity) (channel_id : string)
    (multipart : option (option Field)) : M UploadState http_error UploadResponse :=
  _ ← lift (reject_if (negb (db_pool env 0)) 500);
  is_member_result ← lift (map_err (λ _, 500)
    (is_member (db_fault env) server_id channel_id (pi_pseudonym_id identity) db));
  _ ← lift (reject_if (negb is_member_result) 403);
  policy ← lift (ok_or policy 500);
  field ← lift (first_field multipart);
  let original_filename := default "upload" (file_name field) in
  data ← lift (read_field_capped (field_chunks field) UPLOAD_STREAM_CEILING []);
  '(detected_ct, category) ← lift (check_upload policy data);
  let cleaned := strip_metadata data detected_ct in
  (* a [usize] subtraction, which wraps in a release build *)
  let stripped_bytes := (Z.of_nat (length data) - Z.of_nat (length cleaned)) mod 2 ^ 64 in
  let safe_filename := uuid env +:+ "." +:+ ext_from_content_type detected_ct in
  let chat_dir := upload_dir +:+ "/chat/" +:+ subdir category in
  _ ← write_file (create_ok env) (write_ok env) (chat_dir +:+ "/" +:+ safe_filename) cleaned;
  let size := Z.of_nat (length cleaned) in
  _ ← lift (reject_if (negb (db_pool env 1)) 500);
  _ ← catch_500 (exec (db_fault env) 1 (insert_upload (λ id,
        {| up_id := id; up_server_id := server_id; up_upload_id := uuid env;
           up_uploader_pseudonym := pi_pseudonym_id identity;
           up_original_filename := original_filename; up_content_type := detected_ct;
           up_size_bytes := size; up_purpose := "chat"; up_channel_id := Some channel_id;
           up_category := category_as_str category |})));
  mret {| r_upload_id := uuid env;
          r_url := "/uploads/chat/" +:+ subdir category +:+ "/" +:+ safe_filename;
          r_filename := original_filename; r_content_type := detected_ct; r_category := category;
          r_size := size; r_metadata_stripped_bytes := stripped_bytes |}.

(** Statement 0 is the UPDATE, 1 the INSERT, 2 the event. *)
Definition upload_server_image_handler `{Serde EventPayload.t} (env : UploadEnv) (now : string)
    (server_id : Z) (upload_dir : string) (identity : PlatformIdentity)
    (multipart : option (option Field)) : M UploadState http_error (string * string) :=
  _ ← lift (reject_if (negb (can_moderate (pi_caps identity))) 403);
  field ← lift (first_field multipart);
  let original_filename := default "image" (file_name field) in
  data ← lift (read_field_capped (field_chunks field) MAX_SERVER_IMAGE_SIZE []);
  '(detected_ct, category) ← lift (ok_or (detect_content_type data) 400);
  _ ← lift (reject_if (bool_decide (category ≠ Image) ||
                       negb (bool_decide (detected_ct ∈ ALLOWED_IMAGE_TYPES))) 400);
  let cleaned := strip_metadata data detected_ct in
  let filename := "server_" +:+ uuid env +:+ "." +:+ ext_from_content_type detected_ct in
  let server_dir := upload_dir +:+ "/server" in
  _ ← write_file (create_ok env) (write_ok env) (server_dir +:+ "/" +:+ filename) cleaned;
  let image_url := "/uploads/server/" +:+ filename in
  _ ← lift (reject_if (negb (db_pool env 0)) 500);
  _ ← catch_500 (exec (db_fault env) 0 (set_server_image server_id image_url));
  _ ← catch_500 (exec (db_fault env) 1 (insert_upload (λ id,
        {| up_id := id; up_server_id := server_id; up_upload_id := uuid env;
           up_uploader_pseudonym := pi_pseudonym_id identity;
           up_original_filename := original_filename; up_content_type := detected_ct;
           up_size_bytes := Z.of_nat (length cleaned); up_purpose := "server_image";
           up_channel_id := None; up_category := "image" |})));
  st ← get;
  _ ← put {| files := files st; uploads := uploads st; server_images := server_images st;
             events := emit_and_broadcast (λ k, db_fault env (2 + k)%nat) now server_id
                         (pi_pseudonym_id identity)
                         (EventPayload.ModerationAction (pi_pseudonym_id identity) "server_image_upload" None
                            "Server image updated") (events st) |};
  mret (uuid env, image_url).

(** * Theorems *)

(** ** Bytes *)

Lemma has_at_app b data : has_at 0 b (b ++ data) = true.
Proof. unfold has_at. rewrite drop_0, take_app_length. by apply bool_decide_eq_true. Qed.

Lemma has_at_split b data : has_at 0 b data = true → data = b ++ drop (length b) data.
Proof.
  unfold has_at. rewrite bool_decide_eq_true, drop_0. intros E. rewrite <- E at 1.
  by rewrite take_drop.
Qed.

Lemma lor_shiftl_8 a b : 0 ≤ b < 256 → Z.lor (Z.shiftl a 8) b = a * 256 + b.
Proof.
  intros Hb. pose proof (Z.add_lor_land (Z.shiftl a 8) b) as H.
  assert (Z.land (Z.shiftl a 8) b = 0) as H0.
  { apply Z.bits_inj'. intros n Hn. rewrite Z.land_spec, Z.bits_0, Z.shiftl_spec by lia.
    destruct (decide (n < 8)) as [Hlt|Hge]; [by rewrite Z.testbit_neg_r by lia|].
    rewrite (Z.bits_above_log2 b n); [apply andb_false_r|lia|].
    destruct (decide (b = 0)) as [->|]; [cbn; lia|]. apply Z.lt_le_trans with 8; [|lia].
    apply Z.log2_lt_pow2; lia. }
  rewrite Z.shiftl_mul_pow2 in * by lia. change (2 ^ 8) with 256 in *. lia.
Qed.

(** ** JPEG *)

(** A segment of a JPEG file before the scan. *)
Inductive segment :=
  | Standalone (marker : byte)
  | Segment (marker : byte) (payload : list byte).

Definition encode_segment (s : segment) : list byte :=
  match s with
  | Standalone m => [xff; m]
  | Segment m payload => [xff; m] ++ be_bytes 2 (Z.of_nat (length payload) + 2) ++ payload
  end.
Definition segment_ok (s : segment) : Prop :=
  match s with
  | Standalone m => jpeg_standalone (bval m) = true
  | Segment m payload =>
      jpeg_standalone (bval m) = false ∧ bval m ≠ 0xDA ∧ Z.of_nat (length payload) + 2 < 2 ^ 16
  end.
Definition segment_kept (s : segment) : Prop :=
  match s with Standalone _ => True | Segment m _ => jpeg_metadata (bval m) = false end.
#[export] Instance segment_kept_dec s : Decision (segment_kept s).
Proof. destruct s; cbn; apply _. Defined.

(** The fuel of the loops does not matter once it is more than the bytes that are left:
    every turn takes two of them at least (PNG: twelve). *)
Lemma strip_jpeg_fuel n m rest :
  (length rest < n)%nat → (length rest < m)%nat → strip_jpeg_loop n rest = strip_jpeg_loop m rest.
Proof.
  revert m rest. induction n as [|n IH]; intros [|m] rest Hn Hm; [lia..|]. cbn [strip_jpeg_loop].
  destruct rest as [|b0 [|b1 tail]]; [done..|]. cbn [length] in *. case_match; [done|]. case_match; [done|].
  case_match; [by rewrite (IH m) by lia|]. destruct tail as [|b2 [|b3 tail]]; [done..|]. cbn [length] in *.
  set (total := Z.to_nat _). assert (2 <= total)%nat.
  { unfold total. pose proof (bval_bound b2). pose proof (bval_bound b3). rewrite lor_shiftl_8 by done. lia. }
  case_match; [done|]. by rewrite (IH m) by (rewrite length_drop; cbn [length]; lia).
Qed.
Lemma strip_png_fuel n m rest :
  (length rest < n)%nat → (length rest < m)%nat → strip_png_loop n rest = strip_png_loop m rest.
Proof.
  revert m rest. induction n as [|n IH]; intros [|m] rest Hn Hm; [lia..|]. cbn [strip_png_loop].
  destruct (length rest <? 12)%nat eqn:E; [done|]. apply Nat.ltb_ge in E.
  set (total := Z.to_nat _). assert (12 <= total)%nat by (unfold total; pose proof (be_val_bound (take 4 rest)); lia).
  case_match; [done|]. by rewrite (IH m) by (rewrite length_drop; lia).
Qed.

Lemma strip_jpeg_segment fuel s rest :
  segment_ok s →
  strip_jpeg_loop (S fuel) (encode_segment s ++ rest) =
    (if decide (segment_kept s) then encode_segment s else []) ++ strip_jpeg_loop fuel rest.
Proof.
  destruct s as [m|m payload]; cbn [segment_ok encode_segment].
  - intros Hm. cbn [app strip_jpeg_loop]. change (bval xff =? 255) with true. cbn [negb].
    rewrite Hm. assert (bval m =? 0xDA = false) as ->.
    { unfold jpeg_standalone in Hm. lia. }
    by rewrite decide_True.
  - intros (Hs & HDA & Hlen). set (n := Z.of_nat (length payload) + 2) in *.
    assert (∃ b2 b3, be_bytes 2 n = [b2; b3] ∧ bval b2 * 256 + bval b3 = n) as (b2 & b3 & Eb & Ev).
    { exists (byte_of_Z (n / 256)), (byte_of_Z n). split; [done|]. rewrite !bval_byte_of_Z. div_lia. }
    rewrite Eb. cbn [app strip_jpeg_loop]. change (bval xff =? 255) with true. cbn [negb].
    rewrite (proj2 (Z.eqb_neq _ _) HDA), Hs, lor_shiftl_8, Ev by apply bval_bound.
    assert (Z.to_nat (n + 2) = S (S (S (S (length payload))))) as -> by lia.
    cbn [length take drop]. rewrite length_app.
    assert ((S (S (S (S (length payload + length rest)))) <? S (S (S (S (length payload)))))%nat = false) as ->
      by (apply Nat.ltb_ge; lia).
    rewrite take_app_length, drop_app_length.
    destruct (decide (segment_kept (Segment m payload))) as [Hk|Hk]; cbn [segment_kept] in Hk;
      [by rewrite Hk|by rewrite (not_false_is_true _ Hk)].
Qed.

(** What may follow the segments: nothing, or the scan. *)
Definition scan_ok (scan : list byte) : Prop := scan = [] ∨ ∃ s, scan = xff :: xda :: s.

Lemma strip_jpeg_scan fuel scan : scan_ok scan → strip_jpeg_loop (S fuel) scan = scan.
Proof. by intros [->|[s ->]]. Qed.

Lemma encode_segment_length s : (2 ≤ length (encode_segment s))%nat.
Proof. destruct s; cbn; lia. Qed.

Lemma strip_jpeg_segments fuel segs scan :
  Forall segment_ok segs → scan_ok scan →
  (length (concat (encode_segment <$> segs) ++ scan) < fuel)%nat →
  strip_jpeg_loop fuel (concat (encode_segment <$> segs) ++ scan) =
    concat (encode_segment <$> filter segment_kept segs) ++ scan.
Proof.
  intros Hsegs Hscan. revert fuel. induction Hsegs as [|s segs Hs _ IH]; intros fuel Hfuel.
  - cbn [concat fmap list_fmap app] in *. destruct fuel as [|fuel]; [lia|]. by apply strip_jpeg_scan.
  - rewrite fmap_cons in *. cbn [concat] in *. rewrite <- app_assoc in *.
    destruct fuel as [|fuel]; [lia|]. rewrite strip_jpeg_segment by done.
    rewrite length_app in Hfuel. pose proof (encode_segment_length s).
    rewrite IH by lia. rewrite filter_cons. case_decide; [|done].
    rewrite fmap_cons. cbn [concat]. by rewrite app_assoc.
Qed.

Lemma strip_jpeg_length fuel rest : (length (strip_jpeg_loop fuel rest) ≤ length rest)%nat.
Proof.
  revert rest. induction fuel as [|fuel IH]; intros rest; [cbn; lia|].
  destruct rest as [|b0 [|b1 tail]]; [cbn; lia..|]. cbn [strip_jpeg_loop].
  destruct (negb _); [done|]. destruct (bval b1 =? 0xDA); [done|].
  destruct (jpeg_standalone _).
  { cbn [length]. specialize (IH tail). lia. }
  destruct tail as [|b2 [|b3 tail]]; [cbn; lia..|]. set (rest := b0 :: b1 :: b2 :: b3 :: tail).
  set (total := Z.to_nat _). destruct (length rest <? total)%nat eqn:E; [done|].
  apply Nat.ltb_ge in E. rewrite length_app. specialize (IH (drop total rest)). rewrite length_drop in IH.
  destruct (jpeg_metadata _); cbn [length]; rewrite ?length_take; lia.
Qed.

Definition soi : list byte := bytes [0xFF; 0xD8].

Lemma strip_jpeg_soi data :
  strip_jpeg_metadata (soi ++ data) = soi ++ strip_jpeg_loop (S (S (length data))) data.
Proof. unfold strip_jpeg_metadata. fold soi. by rewrite has_at_app. Qed.

(** Of a JPEG file the EXIF/XMP, Ducky, IPTC and comment segments before
    the scan are removed, and nothing else; stripping never makes a file
    longer.  A fill byte before a metadata segment, which the format
    allows, defeats it: the segment is kept. *)
Theorem strip_jpeg_metadata_spec :
  (∀ segs scan, Forall segment_ok segs → scan_ok scan →
   strip_jpeg_metadata (soi ++ concat (encode_segment <$> segs) ++ scan) =
     soi ++ concat (encode_segment <$> filter segment_kept segs) ++ scan) ∧
  (∀ data, (length (strip_jpeg_metadata data) ≤ length data)%nat) ∧
  (∀ payload scan, Z.of_nat (length payload + length scan) < 57000 →
   let exif := Segment xe1 payload in
   strip_jpeg_metadata (soi ++ [xff] ++ encode_segment exif ++ scan) =
     soi ++ [xff] ++ encode_segment exif ++ scan).
Proof.
  split_and!.
  - intros segs scan Hsegs Hscan. rewrite strip_jpeg_soi, strip_jpeg_segments by (done || lia). done.
  - intros data. unfold strip_jpeg_metadata. destruct (has_at _ _ _) eqn:E; [|done].
    apply has_at_split in E. rewrite E at 3. rewrite !length_app.
    pose proof (strip_jpeg_length (length data) (drop 2 data)).
    change (length (bytes [255; 216])) with 2%nat in *. lia.
  - intros payload scan Hlen exif. rewrite strip_jpeg_soi. f_equal.
    unfold exif. cbn [encode_segment app strip_jpeg_loop].
    change (bval xff =? 255) with true. cbn [negb].
    change (bval xff =? 0xDA) with false. change (jpeg_standalone (bval xff)) with false. cbn match.
    set (n := Z.of_nat (length payload) + 2).
    assert (∃ b2 b3, be_bytes 2 n = [b2; b3]) as (b2 & b3 & ->) by (eexists _, _; reflexivity).
    cbn [app]. rewrite lor_shiftl_8 by apply bval_bound. pose proof (bval_bound b2).
    change (bval xe1) with 225.
    rewrite (proj2 (Nat.ltb_lt _ _)); [done|]. cbn [length]. rewrite length_app. lia.
Qed.

(** ** PNG *)

Record chunk := { chunk_type : list byte; chunk_data : list byte; chunk_crc : list byte }.
Definition encode_chunk (c : chunk) : list byte :=
  be_bytes 4 (Z.of_nat (length (chunk_data c))) ++ chunk_type c ++ chunk_data c ++ chunk_crc c.
Definition chunk_ok (c : chunk) : Prop :=
  length (chunk_type c) = 4%nat ∧ length (chunk_crc c) = 4%nat ∧
  Z.of_nat (length (chunk_data c)) < 2 ^ 32.
Definition chunk_kept (c : chunk) : Prop := png_metadata (chunk_type c) = false.
#[export] Instance chunk_kept_dec c : Decision (chunk_kept c).
Proof. unfold chunk_kept. apply _. Defined.

Lemma encode_chunk_length c : chunk_ok c → length (encode_chunk c) = (12 + length (chunk_data c))%nat.
Proof. intros (Ht & Hc & _). unfold encode_chunk. rewrite !length_app, be_bytes_length. lia. Qed.

Lemma strip_png_chunk fuel c rest :
  chunk_ok c →
  strip_png_loop (S fuel) (encode_chunk c ++ rest) =
    (let '(out, stop) := strip_png_loop fuel rest in
     ((if decide (chunk_kept c) then encode_chunk c else []) ++ out, stop)).
Proof.
  intros Hok. pose proof (encode_chunk_length c Hok) as Hlen. destruct Hok as (Ht & Hc & Hd).
  cbn [strip_png_loop]. rewrite length_app, Hlen.
  rewrite (proj2 (Nat.ltb_ge _ 12)) by lia.
  assert (be_val (take 4 (encode_chunk c ++ rest)) = Z.of_nat (length (chunk_data c))) as ->.
  { unfold encode_chunk. rewrite <- app_assoc, take_app_length' by (by rewrite be_bytes_length).
    rewrite be_val_be_bytes. apply Z.mod_small. change (256 ^ Z.of_nat 4) with (2 ^ 32). lia. }
  assert (take 4 (drop 4 (encode_chunk c ++ rest)) = chunk_type c) as ->.
  { unfold encode_chunk. rewrite <- app_assoc, drop_app_length' by (by rewrite be_bytes_length).
    rewrite <- app_assoc. by rewrite take_app_length'. }
  assert (Z.to_nat (12 + Z.of_nat (length (chunk_data c))) = length (encode_chunk c)) as -> by lia.
  rewrite (proj2 (Nat.ltb_ge _ _)) by lia. rewrite take_app_length, drop_app_length.
  destruct (strip_png_loop fuel rest) as [out stop].
  destruct (decide (chunk_kept c)) as [Hk|Hk]; unfold chunk_kept in Hk;
    [by rewrite Hk|by rewrite (not_false_is_true _ Hk)].
Qed.

(** What may follow the chunks: fewer than 12 bytes, or a partial chunk. *)
Definition partial_chunk (tail : list byte) : Prop :=
  (12 ≤ length tail)%nat ∧ Z.of_nat (length tail) < 12 + be_val (take 4 tail).

Lemma strip_png_tail fuel tail :
  ((length tail < 12)%nat → strip_png_loop (S fuel) tail = ([], tail)) ∧
  (partial_chunk tail → strip_png_loop (S fuel) tail = (tail, tail)).
Proof.
  cbn [strip_png_loop]. split.
  - intros H. by rewrite (proj2 (Nat.ltb_lt _ _)).
  - intros [H1 H2]. rewrite (proj2 (Nat.ltb_ge _ _)) by lia. by rewrite (proj2 (Nat.ltb_lt _ _)) by lia.
Qed.

Lemma strip_png_chunks fuel chunks tail out :
  Forall chunk_ok chunks →
  (∀ f, strip_png_loop (S f) tail = (out, tail)) →
  (length (concat (encode_chunk <$> chunks) ++ tail) < fuel)%nat →
  strip_png_loop fuel (concat (encode_chunk <$> chunks) ++ tail) =
    (concat (encode_chunk <$> filter chunk_kept chunks) ++ out, tail).
Proof.
  intros Hchunks Htail. revert fuel. induction Hchunks as [|c chunks Hc _ IH]; intros fuel Hfuel.
  - cbn [concat fmap list_fmap app] in *. destruct fuel as [|fuel]; [lia|]. apply Htail.
  - rewrite fmap_cons in *. cbn [concat] in *. rewrite <- app_assoc in *.
    destruct fuel as [|fuel]; [lia|]. rewrite strip_png_chunk by done.
    rewrite length_app, encode_chunk_length in Hfuel by done.
    rewrite IH by lia. rewrite filter_cons. case_decide; [|done].
    rewrite fmap_cons. cbn [concat]. by rewrite app_assoc.
Qed.

(** Of a PNG file the tEXt, iTXt, zTXt and eXIf chunks are removed, and
    nothing else, when fewer than 12 bytes follow the last chunk; the bytes
    of a partial last chunk, however, are written twice, so that the result
    can be longer than the upload. *)
Theorem strip_png_metadata_spec chunks tail :
  Forall chunk_ok chunks →
  let kept := concat (encode_chunk <$> filter chunk_kept chunks) in
  let file := png_sig ++ concat (encode_chunk <$> chunks) ++ tail in
  ((length tail < 12)%nat → strip_png_metadata file = png_sig ++ kept ++ tail) ∧
  (partial_chunk tail → strip_png_metadata file = png_sig ++ kept ++ tail ++ tail) ∧
  (partial_chunk tail → Forall chunk_kept chunks →
   (length file < length (strip_png_metadata file))%nat).
Proof.
  intros Hchunks kept file.
  assert (∀ out, (∀ f, strip_png_loop (S f) tail = (out, tail)) →
    strip_png_metadata file = png_sig ++ (kept ++ out) ++ tail) as Hgen.
  { intros out Hout. unfold strip_png_metadata, file. rewrite has_at_app.
    rewrite (drop_app_length' png_sig) by done. rewrite (strip_png_chunks _ _ _ out); try done.
    rewrite (length_app png_sig). change (length png_sig) with 8%nat. lia. }
  assert (partial_chunk tail → strip_png_metadata file = png_sig ++ kept ++ tail ++ tail) as Hpartial.
  { intros Hp. rewrite (Hgen tail), <- app_assoc; [done|]. intros f. by apply strip_png_tail. }
  split_and!.
  - intros Hlt. rewrite (Hgen []), app_nil_r; [done|]. intros f. by apply strip_png_tail.
  - done.
  - intros Hp Hk. rewrite Hpartial by done. unfold file, kept.
    replace (filter chunk_kept chunks) with chunks.
    + rewrite !length_app. destruct Hp. lia.
    + clear -Hk. induction Hk as [|c chunks Hc _ IH]; [done|]. rewrite filter_cons_True by done. by f_equal.
Qed.

(** ** The chat upload *)

Lemma read_field_capped_spec chunks max_bytes buf :
  Z.of_nat (length buf) ≤ max_bytes →
  match read_field_capped chunks max_bytes buf with
  | Ok data => ∃ cs, chunks = Some <$> cs ∧ data = buf ++ concat cs ∧ Z.of_nat (length data) ≤ max_bytes
  | Err e => e = 400
  | Panic => False
  end.
Proof.
  revert buf. induction chunks as [|[c|] chunks IH]; intros buf Hb; cbn [read_field_capped]; [..|done].
  - exists []. cbn. by rewrite app_nil_r.
  - destruct (max_bytes <? _) eqn:E; [done|].
    specialize (IH (buf ++ c) ltac:(rewrite length_app; lia)).
    destruct (read_field_capped chunks max_bytes (buf ++ c)) as [data|e|]; [|done..].
    destruct IH as (cs & -> & -> & Hl). exists (c :: cs). cbn. by rewrite app_assoc.
Qed.

(** What an upload must be. *)
Definition acceptable (policy : ServerPolicy) (data : list byte) (ct : string) (c : UploadCategory) : Prop :=
  default ("application/octet-stream", File) (detect_content_type data) = (ct, c) ∧
  ct ∉ BLOCKED_TYPES ∧ is_category_enabled policy c = true ∧
  Z.of_nat (length data) ≤ max_size_for_category policy c ∧
  (c = Image → ct ∈ ALLOWED_IMAGE_TYPES) ∧ (c = Video → ct ∈ ALLOWED_VIDEO_TYPES).

Lemma check_upload_spec policy data :
  match check_upload policy data with
  | Ok (ct, c) => acceptable policy data ct c
  | Err e => e = 400 ∧ ∀ ct c, ¬ acceptable policy data ct c
  | Panic => False
  end.
Proof.
  unfold check_upload, acceptable, reject_if.
  destruct (default _ (detect_content_type data)) as [ct c].
  assert (∀ b : bool, (if b then Err 400 else Ok ()) = (if b then @Err http_error unit 400 else Ok ())) as _ by done.
  destruct (bool_decide (ct ∈ BLOCKED_TYPES)) eqn:E1; cbn [mbind result_bind].
  { apply bool_decide_eq_true in E1. split; [done|]. intros ct' c' ([= <- <-] & ? & _). done. }
  apply bool_decide_eq_false in E1. destruct (is_category_enabled policy c) eqn:E2; cbn [negb mbind result_bind].
  2: { split; [done|]. intros ct' c' ([= <- <-] & _ & ? & _). congruence. }
  destruct (max_size_for_category policy c <? Z.of_nat (length data)) eqn:E3; cbn [mbind result_bind].
  { split; [done|]. intros ct' c' ([= <- <-] & _ & _ & ? & _). lia. }
  destruct (bool_decide (c = Image) && negb (bool_decide (ct ∈ ALLOWED_IMAGE_TYPES))) eqn:E4; cbn [mbind result_bind].
  { apply andb_true_iff in E4 as [->%bool_decide_eq_true E4]. apply negb_true_iff, bool_decide_eq_false in E4.
    split; [done|]. intros ct' c' ([= <- <-] & _ & _ & _ & H & _). auto. }
  destruct (bool_decide (c = Video) && negb (bool_decide (ct ∈ ALLOWED_VIDEO_TYPES))) eqn:E5; cbn [mbind result_bind].
  { apply andb_true_iff in E5 as [->%bool_decide_eq_true E5]. apply negb_true_iff, bool_decide_eq_false in E5.
    split; [done|]. intros ct' c' ([= <- <-] & _ & _ & _ & _ & H). auto. }
  split_and!; try done; [lia|..]; intros ->.
  - rewrite bool_decide_eq_true_2 in E4 by done. cbn in E4. by apply negb_false_iff, bool_decide_eq_true in E4.
  - rewrite bool_decide_eq_true_2 in E5 by done. cbn in E5. by apply negb_false_iff, bool_decide_eq_true in E5.
Qed.

(** A stored chat upload. *)
Definition chat_stored (env : UploadEnv) (dir c : string) (identity : PlatformIdentity) (ct : string)
    (cat : UploadCategory) (data : list byte) (st st' : UploadState) (resp : UploadResponse) : Prop :=
  let stored := strip_metadata data ct in
  let name := uuid env +:+ "." +:+ ext_from_content_type ct in
  files st' = <[dir +:+ "/chat/" +:+ subdir cat +:+ "/" +:+ name := stored]> (files st) ∧
  (∃ row, t_rows (uploads st') = t_rows (uploads st) ++ [row] ∧ up_upload_id row = uuid env ∧
     up_content_type row = ct ∧ up_size_bytes row = Z.of_nat (length stored) ∧
     up_channel_id row = Some c ∧ up_uploader_pseudonym row = pi_pseudonym_id identity) ∧
  r_url resp = "/uploads/chat/" +:+ subdir cat +:+ "/" +:+ name ∧
  r_size resp = Z.of_nat (length stored).

(** A refused one: nothing is recorded. *)
Definition chat_refused (st st' : UploadState) (e : http_error) : Prop :=
  uploads st' = uploads st ∧ e ∈ [400; 403; 500] ∧
  (files st' = files st ∨ e = 500 ∧ ∃ path data, files st' = <[path := data]> (files st)).

(** C33. A chat upload succeeds only for a member of the channel and an
    acceptable file: its type by magic bytes not an executable and allowed
    in its category, the category enabled, its size within the policy's
    limit and 50 MiB.  What is stored is the file with its metadata
    stripped, under a name made of a fresh id and the extension of the
    detected type, recorded in one new row with its true size.  A refused
    upload records nothing, and writes nothing either unless the failure is
    internal. *)
Theorem upload_chat_handler_spec env s dir db policy identity c multipart st :
  let '(r, st') := upload_chat_handler env s dir db policy identity c multipart st in
  server_images st' = server_images st ∧ events st' = events st ∧
  match r with
  | Ok resp => ∃ pol field chunks ct cat,
      policy = Some pol ∧ multipart = Some (Some field) ∧ field_chunks field = Some <$> chunks ∧
      member db s c (pi_pseudonym_id identity) = true ∧
      acceptable pol (concat chunks) ct cat ∧
      Z.of_nat (length (concat chunks)) ≤ UPLOAD_STREAM_CEILING ∧
      chat_stored env dir c identity ct cat (concat chunks) st st' resp
  | Err e => chat_refused st st' e
  | Panic => False
  end.
Proof.
  assert (∀ e, e ∈ [400; 403; 500] → chat_refused st st e) as Hstop by (intros e He; split_and!; auto).
  assert (400 ∈ [400; 403; 500] ∧ 403 ∈ [400; 403; 500] ∧ 500 ∈ [400; 403; 500]) as (H400 & H403 & H500)
    by (split_and!; by repeat constructor).
  unfold upload_chat_handler. run_M.
  destruct (db_pool env 0); cbn [negb]; [|by auto].
  unfold is_member, read. destruct (db_fault env 0%nat); cbn [map_err]; [by auto|].
  fold (member db s c (pi_pseudonym_id identity)).
  destruct (member db s c (pi_pseudonym_id identity)) eqn:Hmem; cbn [negb]; [|by auto].
  destruct policy as [pol|]; cbn [ok_or]; [|by auto].
  unfold first_field. destruct multipart as [[field|]|]; cbn [mbind result_bind ok_or]; [|by auto..].
  pose proof (read_field_capped_spec (field_chunks field) UPLOAD_STREAM_CEILING [] ltac:(done)) as Hread.
  destruct (read_field_capped _ _ _) as [data|e|]; [|subst e; by auto|done].
  destruct Hread as (chunks & Hchunks & -> & Hlen). cbn [app] in *.
  pose proof (check_upload_spec pol (concat chunks)) as Hcheck.
  destruct (check_upload pol (concat chunks)) as [[ct cat]|e|]; [|destruct Hcheck as [-> _]; by auto|done].
  unfold write_file. destruct (negb (create_ok env) || negb (write_ok env)); [by auto|].
  set (path := dir +:+ _). set (st1 := {| files := _; uploads := _; server_images := _; events := _ |}).
  assert (chat_refused st st1 500) as Hstop1.
  { split_and!; try done. right. split; [done|]. by eexists _, _. }
  destruct (db_pool env 1); cbn [negb]; [|by auto].
  unfold catch_500, catch_map, exec. destruct (db_fault env 1%nat); cbn [map_err]; [by auto|].
  unfold insert_upload. cbn [up_upload_id up_server_id].
  destruct (t_exists _ (uploads st1)); cbn [map_err]; [by auto|].
  destruct (bool_decide _); cbn [map_err]; [by auto|].
  split_and!; try done. exists pol, field, chunks, ct, cat. do 6 (split; [done|]).
  split; [cbn [files st1]; unfold path; by rewrite !string_app_assoc|].
  split_and!; try done. eexists. split_and!; reflexivity.
Qed.

(** ** Witnesses *)

Lemma strip_jpeg_metadata_spec_witness :
  strip_jpeg_metadata (soi ++ concat (encode_segment <$> [Segment xe0 [x01]; Segment xe1 [x02; x03]]) ++ []) =
    soi ++ concat (encode_segment <$> [Segment xe0 [x01]]) ++ [].
Proof.
  apply (proj1 strip_jpeg_metadata_spec [Segment xe0 [x01]; Segment xe1 [x02; x03]] []); [|by left].
  repeat constructor; vm_compute; congruence.
Defined.

(** A text chunk is removed; a partial chunk of 13 bytes comes out twice. *)
Definition toy_text : chunk := {| chunk_type := str_bytes "tEXt"; chunk_data := [x01]; chunk_crc := bytes [0; 0; 0; 0] |}.
Definition toy_tail : list byte := bytes [0; 0; 0; 9; 73; 68; 65; 84; 1; 2; 3; 4; 5].

Lemma strip_png_metadata_spec_witness :
  strip_png_metadata (png_sig ++ concat (encode_chunk <$> [toy_text]) ++ toy_tail) =
    png_sig ++ toy_tail ++ toy_tail.
Proof.
  destruct (strip_png_metadata_spec [toy_text] toy_tail) as (_ & H & _).
  - repeat constructor.
  - rewrite H by (split; [cbn; lia|vm_compute; reflexivity]). reflexivity.
Defined.
