(* ===== verification/LinkPreview.v ===== *)
(** * LinkPreview: crates/annex-server/src/api_link_preview.rs

    The preview and image proxy: which addresses are private, the fetch that
    follows redirects with a DNS check at every hop, the body limit, the two
    handlers and their caches.  The url, reqwest and scraper crates and the
    DNS are parameters. *)

From S2P Require Import Prelude Bytes Text Net.
From stdpp Require Import pretty.

#[local] Open Scope Z_scope.

(** ** Constants *)

Definition MAX_HTML_BYTES : Z := 512 * 1024.
Definition MAX_IMAGE_BYTES : Z := 5 * 1024 * 1024.
Definition MAX_CACHE_ENTRIES : nat := 2000.
Definition MAX_IMAGE_CACHE_ENTRIES : nat := 500.
(** Durations in nanoseconds. *)
Definition CACHE_TTL : Z := 600 * 10 ^ 9.
Definition IMAGE_CACHE_TTL : Z := 300 * 10 ^ 9.
Definition MAX_REDIRECT_HOPS : nat := 5.

(** ** The url crate *)

Inductive Host :=
  | Ipv4 (a b c d : Z)
  | Ipv6 (s0 s1 s2 s3 s4 s5 s6 s7 : Z)
  | Domain (name : string).

Class UrlCrate := {
  Url : Type;
  url_parse : string → option Url;
  url_join : Url → string → option Url;
  url_scheme : Url → string;
  url_host : Url → option Host;
  url_host_str : Url → option string;
  port_or_known_default : Url → option Z;
  url_to_string : Url → string;
  url_path : Url → string;
}.

Definition is_http (scheme : string) : bool :=
  bool_decide (scheme = "http") || bool_decide (scheme = "https").

(** What the code relies on: [host_str] of a domain is the domain, and the
    host of an http or https URL is a domain only if it is no IP address. *)
Class UrlLaws `{UrlCrate} := {
  host_str_domain : ∀ u d, url_host u = Some (Domain d) → url_host_str u = Some d;
  domain_not_ip : ∀ u d, is_http (url_scheme u) = true → url_host u = Some (Domain d) →
    parse_ip d = None;
}.

(** ** Private addresses *)

Definition is_private_v4 (a b c d : Z) : bool :=
  v4_is_loopback a b c d || v4_is_private a b c d || v4_is_link_local a b c d ||
  v4_is_broadcast a b c d || v4_is_unspecified a b c d ||
  ((a =? 169) && (b =? 254)) ||
  ((a =? 100) && (Z.land b 0xC0 =? 64)).

Definition is_private_ip (ip : IpAddr) : bool :=
  match ip with
  | V4 a b c d => is_private_v4 a b c d
  | V6 s0 s1 s2 s3 s4 s5 s6 s7 =>
      let segs := [s0; s1; s2; s3; s4; s5; s6; s7] in
      match to_ipv4_mapped segs with
      | Some (a, b, c, d) => is_private_v4 a b c d
      | None =>
          v6_is_loopback segs || v6_is_unspecified segs ||
          v6_is_unique_local s0 || v6_is_link_local s0
      end
  end.

Section urls.
Context `{UC : UrlCrate, UT : UnicodeText}.

Definition is_private_or_reserved (url : string) : bool :=
  match url_parse url with
  | None => true
  | Some parsed =>
      if negb (is_http (url_scheme parsed)) then true
      else
        match url_host parsed with
        | Some (Ipv4 a b c d) => is_private_ip (V4 a b c d)
        | Some (Ipv6 s0 s1 s2 s3 s4 s5 s6 s7) => is_private_ip (V6 s0 s1 s2 s3 s4 s5 s6 s7)
        | Some (Domain domain) =>
            let lower := to_lowercase domain in
            bool_decide (lower = "localhost") || ends_with ".local" lower ||
            ends_with ".internal" lower || bool_decide (lower = "metadata.google.internal") ||
            starts_with "169.254." lower
        | None => true
        end
  end.

Definition image_extensions : list string :=
  [".jpg"; ".jpeg"; ".png"; ".gif"; ".webp"; ".svg"; ".ico"; ".bmp"; ".avif"].

Definition lower_path (url : string) : string :=
  match url_parse url with Some u => to_lowercase (url_path u) | None => "" end.

Definition url_has_image_extension (url : string) : bool :=
  existsb (λ ext, ends_with ext (lower_path url)) image_extensions.

Definition infer_image_content_type (url : string) : string :=
  let path := lower_path url in
  if ends_with ".png" path then "image/png"
  else if ends_with ".gif" path then "image/gif"
  else if ends_with ".webp" path then "image/webp"
  else if ends_with ".svg" path then "image/svg+xml"
  else if ends_with ".ico" path then "image/x-icon"
  else if ends_with ".bmp" path then "image/bmp"
  else if ends_with ".avif" path then "image/avif"
  else "image/jpeg".
End urls.

(** ** The network *)

Record Response := {
  resp_status : Z;
  resp_location : option string;
  resp_content_type : option string;
  resp_content_length : option Z;
  (** The chunks of the body as they arrive; [None] is a failed read. *)
  resp_chunks : list (option (list byte));
}.
Definition is_redirection (status : Z) : bool := (300 <=? status) && (status <? 400).
Definition is_success (status : Z) : bool := (200 <=? status) && (status <? 300).

Definition SocketAddr : Type := IpAddr * Z.

(** An HTTP client without redirects; [resolve] pins a host name. *)
Record Client := { resolve : option (string * SocketAddr); user_agent : string }.

(** The DNS and the servers, which may answer every hop as they like.  A
    request reports the addresses it connected to. *)
Class World `{UrlCrate} := {
  lookup_host : nat → string → option (list SocketAddr);
  client_builds : nat → bool;
  send : nat → Client → Url → string → option Response * list IpAddr;
}.

Definition host_ip (h : Host) : option IpAddr :=
  match h with
  | Ipv4 a b c d => Some (V4 a b c d)
  | Ipv6 s0 s1 s2 s3 s4 s5 s6 s7 => Some (V6 s0 s1 s2 s3 s4 s5 s6 s7)
  | Domain _ => None
  end.

(** The documented behaviour of the client: an address in the URL is used as
    it is, a pinned name connects to the pinned address only. *)
Class WorldLaws `{UC : UrlCrate, !World} := {
  send_literal : ∀ n client u accept h ip, url_host u = Some h → host_ip h = Some ip →
    Forall (ip =.) (send n client u accept).2;
  send_pinned : ∀ n client u accept d addr, url_host u = Some (Domain d) →
    resolve client = Some (d, addr) → Forall (addr.1 =.) (send n client u accept).2;
}.

Section fetch.
Context `{UC : UrlCrate, UT : UnicodeText, W : !World}.

Definition resolve_and_validate (n : nat) (host : string) (port : Z) : option SocketAddr :=
  addrs ← lookup_host n (host +:+ ":" +:+ pretty port);
  match addrs with
  | [] => None
  | addr :: _ => if existsb (λ a : SocketAddr, is_private_ip a.1) addrs then None else Some addr
  end.

(** The requests made: the URL and the addresses connected to. *)
Definition requests : Type := list (string * list IpAddr).

Definition do_send (n : nat) (client : Client) (u : Url) (url accept : string) :
    M requests http_error Response := λ log,
  let '(resp, ips) := send n client u accept in
  (ok_or resp 502, log ++ [(url, ips)]).

Definition client_for (n : nat) (host : string) (port : Z) (agent : string) :
    result http_error Client :=
  if bool_decide (is_Some (parse_ip host)) then Ok {| resolve := None; user_agent := agent |}
  else
    pinned_addr ← ok_or (resolve_and_validate n host port) 403;
    _ ← reject_if (negb (client_builds n)) 500;
    Ok {| resolve := Some (host, pinned_addr); user_agent := agent |}.

(** The loop of [fetch_with_redirect_validation], [n] hops before its end. *)
Fixpoint fetch_loop (n hop : nat) (current_url accept agent : string) :
    M requests http_error Response :=
  match n with
  | O => throw 502
  | S n =>
      _ ← lift (reject_if (bool_decide (hop = MAX_REDIRECT_HOPS)) 502);
      _ ← lift (reject_if (is_private_or_reserved current_url) 403);
      parsed ← lift (ok_or (url_parse current_url) 400);
      host ← lift (ok_or (url_host_str parsed) 400);
      let port := default 443 (port_or_known_default parsed) in
      client ← lift (client_for hop host port agent);
      resp ← do_send hop client parsed current_url accept;
      if is_redirection (resp_status resp) then
        location ← lift (ok_or (resp_location resp) 502);
        next_url ← lift (ok_or (url_join parsed location) 502);
        _ ← lift (reject_if (negb (is_http (url_scheme next_url))) 403);
        fetch_loop n (S hop) (url_to_string next_url) accept agent
      else mret resp
  end.

Definition fetch_with_redirect_validation (initial_url accept agent : string) :
    M requests http_error Response :=
  fetch_loop (S MAX_REDIRECT_HOPS) 0 initial_url accept agent.
End fetch.

(** ** Bodies *)

Fixpoint read_chunks (chunks : list (option (list byte))) (max_bytes : Z) (body : list byte) :
    result http_error (list byte) :=
  match chunks with
  | [] => Ok body
  | None :: _ => Err 502
  | Some chunk :: chunks =>
      if max_bytes <? Z.of_nat (length body) + Z.of_nat (length chunk) then Err 502
      else read_chunks chunks max_bytes (body ++ chunk)
  end.

Definition read_body_capped (resp : Response) (max_bytes : Z) : result http_error (list byte) :=
  match resp_content_length resp with
  | Some cl => if max_bytes <? cl then Err 502 else read_chunks (resp_chunks resp) max_bytes []
  | None => read_chunks (resp_chunks resp) max_bytes []
  end.

(** ** Metadata *)

Record PreviewResponse := {
  title : option string;
  description : option string;
  image_url : option string;
  site_name : option string;
}.
Definition no_preview : PreviewResponse :=
  {| title := None; description := None; image_url := None; site_name := None |}.

(** The selectors of the source. *)
Inductive Selector :=
  | MetaProperty (property : string)
  | MetaName (name : string)
  | MetaItemprop (prop : string)
  | LinkRel (rel : string)
  | TitleTag.

(** The scraper crate: the elements a selector finds, in document order. *)
Class Scraper := {
  Document : Type;
  Element : Type;
  parse_document : list byte → Document;
  select : Document → Selector → list Element;
  attr : Element → string → option string;
  element_text : Element → string;
}.

Definition non_empty (s : string) : option string := if is_empty s then None else Some s.

Section metadata.
Context `{SC : Scraper}.

(** The trimmed attribute of the first match, unless it is empty. *)
Definition select_attr (doc : Document) (sel : Selector) (name : string) : option string :=
  el ← head (select doc sel);
  s ← attr el name;
  non_empty (trim s).

Definition og (doc : Document) (prop : string) : option string :=
  match select_attr doc (MetaProperty ("og:" +:+ prop)) "content" with
  | Some s => Some s
  | None => select_attr doc (MetaName ("og:" +:+ prop)) "content"
  end.

Definition or_else {A} (o1 o2 : option A) : option A :=
  match o1 with Some x => Some x | None => o2 end.

Definition parse_og_metadata (html : list byte) : PreviewResponse :=
  let document := parse_document html in
  {| title := or_else (og document "title")
       (el ← head (select document TitleTag); non_empty (trim (element_text el)));
     description := or_else (og document "description")
       (select_attr document (MetaName "description") "content");
     image_url :=
       or_else (or_else (or_else (og document "image")
         (select_attr document (MetaName "twitter:image") "content"))
         (select_attr document (LinkRel "image_src") "href"))
         (select_attr document (MetaItemprop "image") "content");
     site_name := og document "site_name" |}.
End metadata.

(** ** Caches *)

Record Cached (A : Type) := { data : A; fetched_at : Z }.
Arguments data {A} c.
Arguments fetched_at {A} c.
Arguments Build_Cached {A} data fetched_at.

Abbreviation Cache A := (gmap string (Cached A)).

(** [fetched_at.elapsed() < ttl]; [elapsed] saturates at zero. *)
Definition fresh {A} (now ttl : Z) (entry : Cached A) : bool := Z.max 0 (now - fetched_at entry) <? ttl.

Definition cache_lookup {A} (cache : Cache A) (url : string) (now ttl : Z) : option A :=
  entry ← cache !! url;
  if fresh now ttl entry then Some (data entry) else None.

(** The iteration order of a [HashMap]. *)
Class HashOrder := { entries {A} : Cache A → list (string * Z) }.
Class HashOrderLaws `{HashOrder} := {
  entries_perm {A} (cache : Cache A) :
    entries cache ≡ₚ (λ '(k, v), (k, fetched_at v)) <$> map_to_list cache;
}.

Definition older (x y : string * Z) : Prop := x.2 ≤ y.2.
#[export] Instance older_dec : RelDecision older.
Proof. intros x y. unfold older. apply _. Defined.

Section caches.
Context `{HO : HashOrder}.

Definition evict {A} (max_entries : nat) (cache : Cache A) : Cache A :=
  if bool_decide (max_entries ≤ size cache)%nat then
    let sorted := merge_sort older (entries cache) in
    let to_remove := (length (entries cache) / 10)%nat in
    foldr (λ '(key, _) c, delete key c) cache (take (Nat.max to_remove 1) sorted)
  else cache.

Definition cache_store {A} (max_entries : nat) (url : string) (x : A) (now : Z)
    (cache : Cache A) : Cache A :=
  <[url := {| data := x; fetched_at := now |}]> (evict max_entries cache).
End caches.

(** ** Handlers *)

Record ImageResponse := { img_status : Z; img_content_type : option string; img_body : list byte }.

(** Visible ASCII, space and tab, and the bytes from 0x80: a header value. *)
Definition header_value_ok (s : string) : bool :=
  string_all (λ c, ((32 <=? code c) && negb (code c =? 127)) || (code c =? 9)) s.

Definition build_image_response (content_type : string) (body : list byte) : ImageResponse :=
  if header_value_ok content_type then
    {| img_status := 200; img_content_type := Some content_type; img_body := body |}
  else {| img_status := 500; img_content_type := None; img_body := [] |}.

Definition PREVIEW_USER_AGENT : string := "AnnexBot/1.0 (link-preview)".
Definition IMAGE_USER_AGENT : string :=
  "Mozilla/5.0 (compatible; AnnexImageProxy/1.0; +https://annex.chat)".

(** The state a handler works on: a cache and the requests made so far. *)
Definition PreviewState (A : Type) : Type := Cache A * requests.

(** An image and its content type. *)
Abbreviation CachedImage := (list byte * string)%type.

Section handlers.
Context `{UC : UrlCrate, UT : UnicodeText, W : !World, SC : Scraper, HO : HashOrder}.

(** The checks both handlers begin with. *)
Definition validate_url (url : string) : result http_error unit :=
  _ ← reject_if (is_empty url || (2048 <? Z.of_nat (String.length url))) 400;
  reject_if (is_private_or_reserved url) 403.

Definition fetch {A} (url accept agent : string) : M (PreviewState A) http_error Response :=
  zoom snd (λ l s, (s.1, l)) (fetch_with_redirect_validation url accept agent).

Definition resolve_image (url : string) (preview : PreviewResponse) : PreviewResponse :=
  match image_url preview with
  | Some img =>
      if negb (starts_with "http://" img) && negb (starts_with "https://" img) then
        match base ← url_parse url; url_join base img with
        | Some resolved =>
            {| title := title preview; description := description preview;
               image_url := Some (url_to_string resolved); site_name := site_name preview |}
        | None => preview
        end
      else preview
  | None => preview
  end.

(** [now0] and [now1] are the instants of the cache lookup and of the
    store; [lossy] is [String::from_utf8_lossy]; [join_ok] says that the
    blocking task did not panic. *)
Definition link_preview_handler (lossy : list byte → list byte) (join_ok : bool) (now0 now1 : Z)
    (param : string) : M (PreviewState PreviewResponse) http_error PreviewResponse :=
  let url := trim param in
  _ ← lift (validate_url url);
  '(cache, _) ← get;
  match cache_lookup cache url now0 CACHE_TTL with
  | Some entry => mret entry
  | None =>
      resp ← fetch url "text/html,application/xhtml+xml" PREVIEW_USER_AGENT;
      _ ← lift (reject_if (negb (is_success (resp_status resp))) 502);
      let content_type := default "" (resp_content_type resp) in
      if negb (contains "text/html" content_type) && negb (contains "application/xhtml" content_type)
      then mret no_preview
      else
        bytes ← lift (read_body_capped resp MAX_HTML_BYTES);
        _ ← lift (reject_if (negb join_ok) 500);
        let preview := resolve_image url (parse_og_metadata (lossy bytes)) in
        '(cache, log) ← get;
        _ ← put (cache_store MAX_CACHE_ENTRIES url preview now1 cache, log);
        mret preview
  end.

(** The proxy after a cache miss. *)
Definition image_fetch (now1 : Z) (url : string) : M (PreviewState CachedImage) http_error ImageResponse :=
  resp ← fetch url "image/*" IMAGE_USER_AGENT;
  _ ← lift (reject_if (negb (is_success (resp_status resp))) 502);
  let content_type := default "application/octet-stream" (resp_content_type resp) in
  let is_image_content := starts_with "image/" content_type in
  let is_octet_stream_with_image_ext :=
    bool_decide (content_type = "application/octet-stream") && url_has_image_extension url in
  _ ← lift (reject_if (negb is_image_content && negb is_octet_stream_with_image_ext) 415);
  let content_type := if is_image_content then content_type else infer_image_content_type url in
  body ← lift (read_body_capped resp MAX_IMAGE_BYTES);
  '(cache, log) ← get;
  _ ← put (cache_store MAX_IMAGE_CACHE_ENTRIES url (body, content_type) now1 cache, log);
  mret (build_image_response content_type body).

Definition image_proxy_handler (now0 now1 : Z) (param : string) :
    M (PreviewState CachedImage) http_error ImageResponse :=
  let url := trim param in
  _ ← lift (validate_url url);
  '(cache, _) ← get;
  match cache_lookup cache url now0 IMAGE_CACHE_TTL with
  | Some (bytes, content_type) => mret (build_image_response content_type bytes)
  | None => image_fetch now1 url
  end.
End handlers.

(** * Theorems *)

(** ** Private addresses *)

(** The private blocks, as [base/length]. *)
Definition private_blocks4 : list (Z * Z) :=
  [(v4_bits 127 0 0 0, 8); (v4_bits 10 0 0 0, 8); (v4_bits 172 16 0 0, 12);
   (v4_bits 192 168 0 0, 16); (v4_bits 169 254 0 0, 16); (v4_bits 100 64 0 0, 10);
   (v4_bits 255 255 255 255, 32); (v4_bits 0 0 0 0, 32)].
(** ::1, ::, fc00::/7, fe80::/10. *)
Definition private_blocks6 : list (Z * Z) :=
  [(1, 128); (0, 128); (0xfc00 * 2 ^ 112, 7); (0xfe80 * 2 ^ 112, 10)].
(** The block ::ffff:base/(96 + len). *)
Definition mapped_block (block : Z * Z) : Z * Z := (0xffff * 2 ^ 32 + block.1, 96 + block.2).

(** Blocks of octets, by the octets. *)
Lemma in_block4 a b c d :
  Forall u8 [a; b; c; d] →
  let x := v4_bits a b c d in
  (∀ n, in_block 32 x (v4_bits n 0 0 0, 8) ↔ a = n) ∧
  (∀ n, in_block 32 x (v4_bits n 16 0 0, 12) ↔ a = n ∧ 16 ≤ b ≤ 31) ∧
  (∀ n, in_block 32 x (v4_bits n 64 0 0, 10) ↔ a = n ∧ b / 64 = 1) ∧
  (∀ n m, u8 n → u8 m → in_block 32 x (v4_bits n m 0 0, 16) ↔ a = n ∧ b = m) ∧
  (∀ n, u8 n → in_block 32 x (v4_bits n n n n, 32) ↔ a = n ∧ b = n ∧ c = n ∧ d = n).
Proof.
  rewrite !Forall_cons. unfold u8. intros (Ha & Hb & Hc & Hd & _).
  cbv zeta. unfold in_block, v4_bits.
  change (32 - 8) with 24. change (32 - 12) with 20. change (32 - 16) with 16.
  change (32 - 10) with 22. change (32 - 32) with 0.
  change (2 ^ 24) with 16777216. change (2 ^ 20) with 1048576. change (2 ^ 16) with 65536.
  change (2 ^ 22) with 4194304. change (2 ^ 0) with 1. change (2 ^ 8) with 256.
  split_and!; intros; try split; intros; div_lia.
Qed.

Lemma is_private_v4_spec a b c d :
  Forall u8 [a; b; c; d] →
  is_private_v4 a b c d = true ↔ Exists (in_block 32 (v4_bits a b c d)) private_blocks4.
Proof.
  intros Hok. destruct (in_block4 a b c d Hok) as (H8 & H12 & H10 & H16 & H32).
  rewrite !Forall_cons in Hok. destruct Hok as (Ha & Hb & Hc & Hd & _). unfold u8 in *.
  unfold private_blocks4. rewrite !Exists_cons, Exists_nil.
  rewrite (H8 127), (H8 10), (H12 172), (H16 192 168), (H16 169 254), (H10 100), (H32 255), (H32 0)
    by (unfold u8; lia). clear H8 H12 H10 H16 H32.
  unfold is_private_v4, v4_is_loopback, v4_is_private, v4_is_link_local, v4_is_broadcast,
    v4_is_unspecified.
  pose proof (land_upper_eqb 8 b 6 1 ltac:(lia) ltac:(lia)) as HL.
  change (2 ^ 8 - 2 ^ 6) with 0xC0 in HL. change (1 * 2 ^ 6) with 64 in HL. rewrite HL.
  change (2 ^ 6) with 64. rewrite !orb_true_iff, !andb_true_iff, !Z.eqb_eq, !Z.leb_le. tauto.
Qed.

Lemma in_mapped_block hi lo base len :
  0 ≤ lo < 2 ^ 32 → 0 ≤ base < 2 ^ 32 → 0 ≤ len ≤ 32 →
  in_block 128 (hi * 2 ^ 32 + lo) (mapped_block (base, len)) ↔
  hi = 0xffff ∧ in_block 32 lo (base, len).
Proof.
  intros Hlo Hbase Hlen. unfold in_block, mapped_block. cbn [fst snd].
  replace (128 - (96 + len)) with (32 - len) by lia. set (k := 32 - len).
  assert (2 ^ 32 = 2 ^ len * 2 ^ k) as E by (rewrite <- Z.pow_add_r by lia; f_equal; lia).
  pose proof (Z.pow_pos_nonneg 2 len ltac:(lia) ltac:(lia)).
  pose proof (Z.pow_pos_nonneg 2 k ltac:(lia) ltac:(lia)).
  rewrite E, !Z.mul_assoc, !Z.div_add_l by lia.
  assert (∀ y, 0 ≤ y < 2 ^ 32 → 0 ≤ y / 2 ^ k < 2 ^ len) as Hdiv.
  { intros y Hy. split; [apply Z.div_pos; lia|]. apply Z.div_lt_upper_bound; lia. }
  pose proof (Hdiv lo Hlo). pose proof (Hdiv base Hbase).
  split; [|intros [-> ->]; done].
  intros Heq. rewrite !(Z.mul_comm _ (2 ^ len)) in Heq.
  apply Z.div_mod_unique in Heq; [done|left; lia..].
Qed.

Lemma Exists_mapped hi lo :
  0 ≤ lo < 2 ^ 32 →
  Exists (in_block 128 (hi * 2 ^ 32 + lo)) (mapped_block <$> private_blocks4) ↔
  hi = 0xffff ∧ Exists (in_block 32 lo) private_blocks4.
Proof.
  intros Hlo. assert (Forall (λ '(base, len), 0 ≤ base < 2 ^ 32 ∧ 0 ≤ len ≤ 32) private_blocks4) as Hok.
  { unfold private_blocks4. repeat constructor; vm_compute; congruence. }
  induction Hok as [|[base len] l [Hb Hl] _ IH]; [rewrite fmap_nil, !Exists_nil; tauto|].
  rewrite fmap_cons, !Exists_cons, IH, in_mapped_block by done. tauto.
Qed.

Lemma in_block6 s0 s1 s2 s3 s4 s5 s6 s7 :
  Forall u16 [s0; s1; s2; s3; s4; s5; s6; s7] →
  let segs := [s0; s1; s2; s3; s4; s5; s6; s7] in
  let x := v6_bits segs in
  let hi := (((s0 * 65536 + s1) * 65536 + s2) * 65536 + s3) * 65536 * 65536 + s4 * 65536 + s5 in
  let lo := s6 * 65536 + s7 in
  (in_block 128 x (1, 128) ↔ segs = [0; 0; 0; 0; 0; 0; 0; 1]) ∧
  (in_block 128 x (0, 128) ↔ segs = [0; 0; 0; 0; 0; 0; 0; 0]) ∧
  (in_block 128 x (0xfc00 * 2 ^ 112, 7) ↔ s0 / 2 ^ 9 = 126) ∧
  (in_block 128 x (0xfe80 * 2 ^ 112, 10) ↔ s0 / 2 ^ 6 = 1018) ∧
  (x = hi * 2 ^ 32 + lo) ∧ 0 ≤ lo < 2 ^ 32 ∧
  (hi = 0xffff ↔ [s0; s1; s2; s3; s4; s5] = [0; 0; 0; 0; 0; 0xffff]).
Proof.
  rewrite !Forall_cons. unfold u16. intros (H0 & H1 & H2 & H3 & H4 & H5 & H6 & H7 & _).
  cbv zeta. unfold in_block, v6_bits. cbn [foldl].
  change (2 ^ (128 - 128)) with 1. rewrite !Z.div_1_r.
  change (2 ^ (128 - 7)) with (2 ^ 121). change (2 ^ (128 - 10)) with (2 ^ 118).
  change (0xfc00 * 2 ^ 112 / 2 ^ 121) with 126. change (0xfe80 * 2 ^ 112 / 2 ^ 118) with 1018.
  set (y := (((((s1 * 65536 + s2) * 65536 + s3) * 65536 + s4) * 65536 + s5) * 65536 + s6) * 65536 + s7).
  assert (0 ≤ y < 2 ^ 112) by (unfold y; lia).
  assert (∀ x, x = s0 * 2 ^ 112 + y → x / 2 ^ 121 = s0 / 2 ^ 9 ∧ x / 2 ^ 118 = s0 / 2 ^ 6) as Hd.
  { intros x ->. change (2 ^ 121) with (2 ^ 112 * 2 ^ 9). change (2 ^ 118) with (2 ^ 112 * 2 ^ 6).
    rewrite <- !Z.div_div, !Z.div_add_l, (Z.div_small y) by lia. by rewrite Z.add_0_r. }
  match goal with |- context [?x / 2 ^ 121] => destruct (Hd x) as [-> ->]; [unfold y; lia|] end.
  split_and!; try done; try lia.
  - split; [intros; repeat f_equal; lia|intros [= -> -> -> -> -> -> -> ->]; done].
  - split; [intros; repeat f_equal; lia|intros [= -> -> -> -> -> -> -> ->]; done].
  - split; [intros; repeat f_equal; lia|intros [= -> -> -> -> -> ->]; done].
Qed.

(** C30. An address is refused exactly when it lies in one of the private
    blocks: the eight IPv4 blocks, ::1, ::, fc00::/7, fe80::/10, and the
    IPv4-mapped image of every IPv4 block. *)
Theorem is_private_ip_spec (ip : IpAddr) :
  ip_ok ip →
  is_private_ip ip = true ↔
  match ip with
  | V4 a b c d => Exists (in_block 32 (v4_bits a b c d)) private_blocks4
  | V6 s0 s1 s2 s3 s4 s5 s6 s7 =>
      Exists (in_block 128 (v6_bits [s0; s1; s2; s3; s4; s5; s6; s7]))
        (private_blocks6 ++ (mapped_block <$> private_blocks4))
  end.
Proof.
  destruct ip as [a b c d|s0 s1 s2 s3 s4 s5 s6 s7]; [apply is_private_v4_spec|].
  intros Hok. destruct (in_block6 _ _ _ _ _ _ _ _ Hok) as (E1 & E0 & Eul & Ell & Ex & Hlo & Ehi).
  cbn [ip_ok] in Hok. rewrite !Forall_cons in Hok. unfold u16 in Hok.
  destruct Hok as (H0 & H1 & H2 & H3 & H4 & H5 & H6 & H7 & _).
  rewrite Exists_app. unfold private_blocks6. rewrite !Exists_cons, Exists_nil.
  rewrite E1, E0, Eul, Ell. rewrite Ex at 1.
  set (hi := _ + s5) in *. set (lo := s6 * 65536 + s7) in *.
  rewrite Exists_mapped by done.
  rewrite Ehi. unfold is_private_ip, to_ipv4_mapped. case_bool_decide as Hm.
  - assert (v4_bits (s6 / 256) (s6 mod 256) (s7 / 256) (s7 mod 256) = lo) as Elo
      by (unfold v4_bits, lo; div_lia).
    rewrite is_private_v4_spec, Elo.
    + injection Hm as -> -> -> -> -> ->. change (0 / 2 ^ 9) with 0. change (0 / 2 ^ 6) with 0.
      split; [auto|]. intros [[?|[?|[?|[?|[]]]]]|[_ ?]]; done.
    + rewrite !Forall_cons. unfold u8. split_and!; try done; div_lia.
  - rewrite !orb_true_iff. unfold v6_is_loopback, v6_is_unspecified, v6_is_unique_local, v6_is_link_local.
    rewrite !bool_decide_eq_true.
    pose proof (land_upper_eqb 16 s0 9 126 ltac:(lia) ltac:(lia)) as Lul.
    pose proof (land_upper_eqb 16 s0 6 1018 ltac:(lia) ltac:(lia)) as Lll.
    change (2 ^ 16 - 2 ^ 9) with 0xfe00 in Lul. change (126 * 2 ^ 9) with 0xfc00 in Lul.
    change (2 ^ 16 - 2 ^ 6) with 0xffc0 in Lll. change (1018 * 2 ^ 6) with 0xfe80 in Lll.
    rewrite Lul, Lll, !Z.eqb_eq. clear -Hm. tauto.
Qed.

Lemma is_private_ip_spec_witness :
  ip_ok (V4 10 1 2 3) ∧ is_private_ip (V4 10 1 2 3) = true.
Proof.
  assert (ip_ok (V4 10 1 2 3)) as Hok by (repeat constructor; done).
  split; [exact Hok|]. apply (is_private_ip_spec (V4 10 1 2 3) Hok).
  apply Exists_exists. exists (v4_bits 10 0 0 0, 8). split; [|reflexivity].
  unfold private_blocks4. apply list_elem_of_In. cbn. tauto.
Defined.

(** ** Fetching *)

Definition public (ip : IpAddr) : Prop := is_private_ip ip = false.

Section fetch_safe.
Context `{UC : UrlCrate, UL : !UrlLaws, UT : UnicodeText, W : !World, WL : !WorldLaws}.

Lemma resolve_and_validate_public n host port addr :
  resolve_and_validate n host port = Some addr → public addr.1.
Proof.
  unfold resolve_and_validate, public. destruct (lookup_host _ _) as [[|a addrs]|]; cbn; try done.
  destruct (is_private_ip a.1) eqn:E; cbn; [done|]. destruct (existsb _ _); [done|]. by intros [= <-].
Qed.

(** A URL that passes the check names an address that is public, or a
    domain that is not an address. *)
Lemma not_reserved url u :
  is_private_or_reserved url = false → url_parse url = Some u →
  is_http (url_scheme u) = true ∧
  ((∃ h ip, url_host u = Some h ∧ host_ip h = Some ip ∧ public ip) ∨
   (∃ d, url_host u = Some (Domain d) ∧ parse_ip d = None)).
Proof.
  unfold is_private_or_reserved. intros H Hp. rewrite Hp in H.
  destruct (is_http (url_scheme u)) eqn:Hs; cbn [negb] in H; [|done]. split; [done|].
  destruct (url_host u) as [[| |d]|] eqn:Hh; try done.
  - left. eexists _, _. by split_and!.
  - left. eexists _, _. by split_and!.
  - right. exists d. split; [done|]. eapply domain_not_ip; done.
Qed.

(** Whatever client the code builds for a URL that passes the check, it
    connects to public addresses only. *)
Lemma send_public n url u host port agent accept client :
  is_private_or_reserved url = false → url_parse url = Some u → url_host_str u = Some host →
  client_for n host port agent = Ok client →
  Forall public (send n client u accept).2.
Proof.
  intros Hr Hp Hstr Hc. destruct (not_reserved url u Hr Hp) as [_ [(h & ip & Hh & Hip & Hpub)|(d & Hh & Hd)]].
  - eapply Forall_impl; [by eapply send_literal|]. by intros ? <-.
  - rewrite (host_str_domain u d Hh) in Hstr. injection Hstr as ->.
    unfold client_for in Hc. rewrite bool_decide_eq_false_2 in Hc by (rewrite Hd; by intros []).
    destruct (resolve_and_validate n host port) as [addr|] eqn:Er; cbn in Hc; [|done].
    destruct (client_builds n); cbn in Hc; [|done]. injection Hc as <-.
    eapply Forall_impl; [by eapply send_pinned|]. intros ? <-.
    by eapply resolve_and_validate_public.
Qed.

(** A request the guard allows. *)
Definition safe_request (r : string * list IpAddr) : Prop :=
  is_private_or_reserved r.1 = false ∧ Forall public r.2.

(** What [n] more hops may do: at most [n - 1] requests (the last hop is
    refused), all of them safe. *)
Lemma fetch_loop_safe n hop url accept agent log r log' :
  (hop + n = S MAX_REDIRECT_HOPS)%nat →
  fetch_loop n hop url accept agent log = (r, log') →
  ∃ reqs, log' = log ++ reqs ∧ (length reqs ≤ n - 1)%nat ∧ Forall safe_request reqs ∧
    r ≠ Panic ∧ (∀ resp, r = Ok resp → is_redirection (resp_status resp) = false).
Proof.
  revert hop url log. induction n as [|n IH]; intros hop url log Hn Hrun.
  { injection Hrun as <- <-. exists []. rewrite app_nil_r. by split_and!. }
  cbn [fetch_loop] in Hrun.
  assert (∀ e, r = Err e → log' = log → ∃ reqs, log' = log ++ reqs ∧ (length reqs ≤ S n - 1)%nat ∧
    Forall safe_request reqs ∧ r ≠ Panic ∧
    (∀ resp, r = Ok resp → is_redirection (resp_status resp) = false)) as Hstop.
  { intros e -> ->. exists []. rewrite app_nil_r. split_and!; try done. cbn. lia. }
  revert Hrun. run_M. case_bool_decide as Hhop; [intros [= <- <-]; by eapply Hstop|].
  destruct (is_private_or_reserved url) eqn:Hr; [intros [= <- <-]; by eapply Hstop|].
  destruct (url_parse url) as [u|] eqn:Hp; [|intros [= <- <-]; by eapply Hstop].
  cbn [ok_or]. destruct (url_host_str u) as [host|] eqn:Hs; [|intros [= <- <-]; by eapply Hstop].
  cbn [ok_or]. destruct (client_for hop host _ agent) as [client|e|] eqn:Hc.
  2: intros [= <- <-]; by eapply Hstop.
  2: { unfold client_for in Hc. case_bool_decide; [done|].
       destruct (resolve_and_validate _ _ _); cbn in Hc; [|done]. by destruct (client_builds hop). }
  pose proof (send_public hop url u host _ agent accept client Hr Hp Hs Hc) as Hpub.
  unfold do_send. destruct (send hop client u accept) as [resp ips]. cbn [snd] in Hpub.
  assert (n ≠ O) as Hn0 by (unfold MAX_REDIRECT_HOPS in *; lia).
  assert (safe_request (url, ips)) as Hsafe by done.
  assert (∀ r0, (r0, log ++ [(url, ips)]) = (r, log') → r0 ≠ Panic →
    (∀ resp, r0 = Ok resp → is_redirection (resp_status resp) = false) →
    ∃ reqs, log' = log ++ reqs ∧ (length reqs ≤ S n - 1)%nat ∧
    Forall safe_request reqs ∧ r ≠ Panic ∧
    (∀ resp, r = Ok resp → is_redirection (resp_status resp) = false)) as Hone.
  { intros r0 [= <- <-] ??. exists [(url, ips)]. split_and!; try done; [cbn; lia|by constructor]. }
  destruct resp as [resp|]; cbn [ok_or]; [|intros H; by eapply Hone].
  destruct (is_redirection (resp_status resp)) eqn:Hred.
  2: { intros H. eapply Hone; [done..|]. by intros ? [= <-]. }
  destruct (resp_location resp) as [loc|]; cbn [ok_or]; [|intros H; by eapply Hone].
  destruct (url_join u loc) as [next|]; cbn [ok_or]; [|intros H; by eapply Hone].
  destruct (is_http (url_scheme next)); cbn [negb]; [|intros H; by eapply Hone].
  intros H. apply IH in H as (reqs & -> & Hlen & Hall & Hpanic & Hok); [|lia].
  exists ((url, ips) :: reqs). rewrite <- app_assoc. split_and!; try done; [cbn; lia|by constructor].
Qed.

(** C7. Server-side request forgery: whatever the DNS answers at each hop and
    wherever the servers redirect, a fetch only requests URLs that pass the
    check and only connects to public addresses, makes at most five
    requests, never panics, and returns a response only when it is not a
    redirect; a URL that fails the check is refused with 403 before any
    request. *)
Theorem fetch_with_redirect_validation_safe url accept agent :
  ∃ r reqs, fetch_with_redirect_validation url accept agent [] = (r, reqs) ∧
    Forall (λ req, is_private_or_reserved req.1 = false ∧
                   Forall (λ ip, is_private_ip ip = false) req.2) reqs ∧
    (length reqs ≤ 5)%nat ∧ r ≠ Panic ∧
    (∀ resp, r = Ok resp → is_redirection (resp_status resp) = false) ∧
    (is_private_or_reserved url = true → r = Err 403 ∧ reqs = []).
Proof.
  destruct (fetch_with_redirect_validation url accept agent []) as [r log] eqn:H.
  exists r, log. split; [done|]. pose proof H as H'.
  apply fetch_loop_safe in H' as (reqs & -> & Hlen & Hall & Hpanic & Hok); [|done].
  split_and!; try done. intros Hr. revert H.
  unfold fetch_with_redirect_validation, MAX_REDIRECT_HOPS. cbn [fetch_loop]. run_M.
  rewrite Hr. by intros [= <- <-].
Qed.
End fetch_safe.

(** ** Bodies and caches *)

Lemma read_chunks_spec chunks max_bytes body r :
  Z.of_nat (length body) ≤ max_bytes → read_chunks chunks max_bytes body = r →
  (∃ cs, chunks = Some <$> cs ∧ r = Ok (body ++ concat cs) ∧
         Z.of_nat (length (body ++ concat cs)) ≤ max_bytes) ∨
  (r = Err 502 ∧ ∀ cs, chunks = Some <$> cs →
     max_bytes < Z.of_nat (length (body ++ concat cs))).
Proof.
  revert body. induction chunks as [|[c|] chunks IH]; cbn; intros body Hb <-.
  - left. exists []. cbn. by rewrite app_nil_r.
  - case_match eqn:E.
    + right. split; [done|]. intros [|c' cs] [= -> ->]. cbn. rewrite !length_app. lia.
    + destruct (IH (body ++ c) ltac:(rewrite length_app; lia) eq_refl) as [(cs & -> & -> & Hl)|[-> Hl]].
      * left. exists (c :: cs). cbn. by rewrite app_assoc.
      * right. split; [done|]. intros [|c' cs] [= -> Hcs]. cbn. rewrite app_assoc. by apply Hl.
  - right. split; [done|]. by intros [|c' cs].
Qed.

Lemma read_body_capped_bound resp max_bytes :
  0 ≤ max_bytes →
  match read_body_capped resp max_bytes with
  | Ok body => Z.of_nat (length body) ≤ max_bytes
  | Err e => e = 502
  | Panic => False
  end.
Proof.
  intros Hm. unfold read_body_capped.
  assert (∀ r, read_chunks (resp_chunks resp) max_bytes [] = r →
    match r with Ok body => Z.of_nat (length body) ≤ max_bytes | Err e => e = 502 | Panic => False end) as H.
  { intros r Hr. apply read_chunks_spec in Hr as [(cs & _ & -> & ?)|[-> _]]; done. }
  destruct (resp_content_length resp) as [cl|]; [destruct (max_bytes <? cl)|]; [done|by apply H..].
Qed.

Section cache_bound.
Context `{HO : HashOrder, HL : !HashOrderLaws}.

Lemma delete_all_subseteq {A} (keys : list (string * Z)) (cache : Cache A) :
  foldr (λ '(key, _) c, delete key c) cache keys ⊆ cache.
Proof.
  induction keys as [|[k t] keys IH]; cbn; [done|].
  transitivity (foldr (λ '(key, _) c, delete key c) cache keys); [apply delete_subseteq|done].
Qed.

Lemma evict_subseteq {A} n (cache : Cache A) : evict n cache ⊆ cache.
Proof. unfold evict. case_bool_decide; [apply delete_all_subseteq|done]. Qed.

(** Eviction makes room: the stored cache keeps its bound. *)
Lemma evict_size {A} n (cache : Cache A) :
  (0 < n)%nat → (size cache ≤ n)%nat → (size (evict n cache) < n)%nat.
Proof.
  intros Hn Hs. unfold evict. case_bool_decide as Hfull; [|lia].
  pose proof (merge_sort_Permutation older (entries cache)) as HP.
  rewrite entries_perm in HP at 2.
  destruct (merge_sort older (entries cache)) as [|[k t] l] eqn:E.
  { apply Permutation_nil in HP. apply (f_equal length) in HP.
    rewrite length_fmap, length_map_to_list in HP. cbn in HP. lia. }
  assert (is_Some (cache !! k)) as Hk.
  { assert ((k, t) ∈ (λ '(k, v), (k, fetched_at v)) <$> map_to_list cache) as Hin
      by (rewrite <- HP; by left).
    apply list_elem_of_fmap in Hin as ([k' v] & [= -> ->] & Hv). exists v. by apply elem_of_map_to_list. }
  destruct (Nat.max _ 1) as [|m] eqn:Em; [lia|]. cbn [take foldr].
  set (rest := foldr _ cache _).
  assert (delete k rest ⊆ delete k cache) as Hsub by (apply delete_mono, delete_all_subseteq).
  apply map_subseteq_size in Hsub.
  pose proof (map_size_delete_Some k cache Hk). lia.
Qed.

Lemma cache_store_spec {A} n url (x : A) now cache :
  (0 < n)%nat →
  ((size cache ≤ n)%nat → (size (cache_store n url x now cache) ≤ n)%nat) ∧
  cache_store n url x now cache !! url = Some {| data := x; fetched_at := now |} ∧
  (∀ k, k ≠ url → ∀ e, cache_store n url x now cache !! k = Some e → cache !! k = Some e).
Proof.
  intros Hn. unfold cache_store. split_and!.
  - intros Hs. pose proof (evict_size n cache Hn Hs).
    rewrite map_size_insert. case_match; cbn; lia.
  - apply lookup_insert_eq.
  - intros k Hk e. rewrite lookup_insert_ne by done.
    intros He. eapply lookup_weaken; [done|apply evict_subseteq].
Qed.
End cache_bound.

(** ** The image proxy *)

(** What the cache holds: images within the limits. *)
Definition image_ok (image : CachedImage) : Prop :=
  starts_with "image/" image.2 = true ∧ Z.of_nat (length image.1) ≤ MAX_IMAGE_BYTES.
Definition image_cache_ok (cache : Cache CachedImage) : Prop :=
  (size cache ≤ MAX_IMAGE_CACHE_ENTRIES)%nat ∧ map_Forall (λ _ e, image_ok (data e)) cache.

Definition served_ok (resp : ImageResponse) : Prop :=
  (img_status resp = 200 ∧ ∃ ct, img_content_type resp = Some ct ∧ image_ok (img_body resp, ct)) ∨
  (img_status resp = 500 ∧ img_body resp = []).

Lemma build_image_response_ok ct body : image_ok (body, ct) → served_ok (build_image_response ct body).
Proof.
  intros H. unfold build_image_response. case_match; [left|by right]. split; [done|]. by exists ct.
Qed.

Section proxy.
Context `{UC : UrlCrate, UL : !UrlLaws, UT : UnicodeText, W : !World, WL : !WorldLaws}.
Context `{HO : HashOrder, HL : !HashOrderLaws}.

Lemma infer_image_content_type_image url : starts_with "image/" (infer_image_content_type url) = true.
Proof. unfold infer_image_content_type. repeat case_match; reflexivity. Qed.

(** After a miss: either nothing is stored, or the image served is. *)
Lemma image_fetch_spec now1 url cache log :
  image_cache_ok cache →
  ∃ r cache' reqs,
    image_fetch now1 url (cache, log) = (r, (cache', log ++ reqs)) ∧
    image_cache_ok cache' ∧ Forall safe_request reqs ∧ (length reqs ≤ 5)%nat ∧
    match r with
    | Ok resp => ∃ image, image_ok image ∧ resp = build_image_response image.2 image.1 ∧
        cache' !! url = Some {| data := image; fetched_at := now1 |} ∧
        ∀ k, k ≠ url → ∀ e, cache' !! k = Some e → cache !! k = Some e
    | Err e => cache' = cache
    | Panic => False
    end.
Proof.
  intros Hcache. unfold image_fetch, fetch. run_M.
  destruct (fetch_with_redirect_validation url "image/*" IMAGE_USER_AGENT log) as [r0 log0] eqn:Hf.
  apply fetch_loop_safe in Hf as (reqs & -> & Hreqs & Hsafe & Hpanic & _); [|done].
  destruct r0 as [resp|e|]; [|by exists (Err e), cache, reqs|done].
  destruct (is_success _); cbn [negb]; [|by exists (Err 502), cache, reqs].
  set (ct0 := default _ _). set (is_image := starts_with "image/" ct0).
  destruct (negb is_image && _); [by exists (Err 415), cache, reqs|].
  set (ct := if is_image then ct0 else _).
  assert (starts_with "image/" ct = true) as Hct.
  { unfold ct. destruct is_image eqn:E; [done|apply infer_image_content_type_image]. }
  pose proof (read_body_capped_bound resp MAX_IMAGE_BYTES ltac:(done)) as Hbody.
  destruct (read_body_capped resp MAX_IMAGE_BYTES) as [body|e|]; [|by exists (Err e), cache, reqs|done].
  pose proof (cache_store_spec MAX_IMAGE_CACHE_ENTRIES url (body, ct) now1 cache
    ltac:(unfold MAX_IMAGE_CACHE_ENTRIES; lia)) as (Hsz & Hat & Hother).
  eexists (Ok _), _, reqs. split; [done|]. destruct Hcache as [Hs Hall].
  assert (image_ok (body, ct)) as Hok by done.
  split; [|split; [done|split; [done|by exists (body, ct)]]]. split; [by apply Hsz|].
  intros k e He. destruct (decide (k = url)) as [->|Hk]; [|by eapply Hall, Hother].
  pose proof (eq_trans (eq_sym He) Hat) as [= ->]. done.
Qed.

(** The image proxy serves images only, each of at most 5 MiB, and keeps
    that of its cache, whose size stays bounded; a fresh entry answers
    without any request, an invalid or private URL is refused without any;
    otherwise the requests are those of a safe fetch.  The cache changes
    only when an image is served, and then holds it under the URL. *)
Theorem image_proxy_handler_spec now0 now1 param cache log :
  image_cache_ok cache →
  let url := trim param in
  ∃ r cache' reqs,
    image_proxy_handler now0 now1 param (cache, log) = (r, (cache', log ++ reqs)) ∧
    image_cache_ok cache' ∧
    Forall safe_request reqs ∧ (length reqs ≤ 5)%nat ∧
    match r with
    | Ok resp =>
        served_ok resp ∧
        ((∃ image, cache_lookup cache url now0 IMAGE_CACHE_TTL = Some image ∧
                   resp = build_image_response image.2 image.1 ∧ cache' = cache ∧ reqs = []) ∨
         (∃ image, cache_lookup cache url now0 IMAGE_CACHE_TTL = None ∧
                   resp = build_image_response image.2 image.1 ∧
                   cache' !! url = Some {| data := image; fetched_at := now1 |} ∧
                   ∀ k, k ≠ url → ∀ e, cache' !! k = Some e → cache !! k = Some e))
    | Err e => cache' = cache
    | Panic => False
    end ∧
    (url = "" ∨ 2048 < Z.of_nat (String.length url) → r = Err 400 ∧ reqs = []) ∧
    (url ≠ "" → Z.of_nat (String.length url) ≤ 2048 → is_private_or_reserved url = true →
     r = Err 403 ∧ reqs = []).
Proof.
  intros Hcache url. unfold image_proxy_handler, validate_url. fold url. run_M.
  destruct (is_empty url || (2048 <? Z.of_nat (String.length url))) eqn:Hlen; cbn [mbind result_bind].
  { exists (Err 400), cache, []. rewrite app_nil_r. split_and!; try done; try (cbn; lia).
    apply orb_true_iff in Hlen. unfold is_empty in Hlen. rewrite bool_decide_eq_true in Hlen.
    intros ?? _. destruct Hlen; [done|lia]. }
  apply orb_false_iff in Hlen as [Hne Hshort]. apply bool_decide_eq_false in Hne.
  assert (¬ (url = "" ∨ 2048 < Z.of_nat (String.length url))) as Hvalid by (intros [?|?]; [done|lia]).
  destruct (is_private_or_reserved url) eqn:Hpriv.
  { exists (Err 403), cache, []. rewrite app_nil_r. split_and!; try done; cbn; lia. }
  destruct (cache_lookup cache url now0 IMAGE_CACHE_TTL) as [[bytes ct]|] eqn:Hhit.
  { eexists _, cache, []. rewrite app_nil_r. split_and!; try done; try (cbn; lia).
    split; [|left; by exists (bytes, ct)]. apply build_image_response_ok. unfold cache_lookup in Hhit.
      destruct (cache !! url) as [e|] eqn:He; cbn in Hhit; [|done].
      destruct (fresh _ _ _); [|done]. injection Hhit as Hd. rewrite <- Hd. by apply (proj2 Hcache url). }
  destruct (image_fetch_spec now1 url cache log Hcache) as (r & cache' & reqs & -> & Hc' & Hsafe & Hlen & Hr).
  exists r, cache', reqs. split_and!; try done. destruct r as [resp|e|]; try done.
  destruct Hr as (image & Hok & -> & Hat & Hother). split; [|right; by exists image].
  apply build_image_response_ok. by destruct image.
Qed.
End proxy.

(** ** Witnesses *)

(** A concrete url crate: [http://host/]. *)
Definition toy_host (s : string) : Host :=
  match parse_ip s with
  | Some (V4 a b c d) => Ipv4 a b c d
  | Some (V6 s0 s1 s2 s3 s4 s5 s6 s7) => Ipv6 s0 s1 s2 s3 s4 s5 s6 s7
  | None => Domain s
  end.
Definition toy_parse (s : string) : option string :=
  if starts_with "http://" s then Some (String.substring 7 (String.length s - 7) s) else None.
Definition toy_url : UrlCrate :=
  {| Url := string; url_parse := toy_parse; url_join _ l := toy_parse l; url_scheme _ := "http";
     url_host u := Some (toy_host u); url_host_str u := Some u; port_or_known_default _ := Some 80;
     url_to_string u := "http://" +:+ u; url_path _ := "/" |}.

Lemma toy_host_domain s d : toy_host s = Domain d → s = d ∧ parse_ip s = None.
Proof. unfold toy_host. destruct (parse_ip s) as [[]|]; naive_solver. Qed.

Lemma toy_url_laws : @UrlLaws toy_url.
Proof.
  split; cbn; intros u d; [intros [= Hd]|intros _ [= Hd]];
    apply toy_host_domain in Hd as [-> ?]; done.
Qed.

(** The name of the world resolves to 8.8.8.8; every server redirects to an
    internal address. *)
Definition toy_send (client : Client) (u : string) : list IpAddr :=
  match host_ip (toy_host u) with
  | Some ip => [ip]
  | None => match resolve client with
            | Some (d, addr) => if decide (d = u) then [addr.1] else []
            | None => []
            end
  end.
Definition toy_response : Response :=
  {| resp_status := 302; resp_location := Some "http://10.0.0.1"; resp_content_type := None;
     resp_content_length := None; resp_chunks := [] |}.
Definition toy_world : @World toy_url :=
  @Build_World toy_url (λ _ _, Some [(V4 8 8 8 8, 80)]) (λ _, true)
    (λ _ client u _, (Some toy_response, toy_send client u)).

Lemma toy_world_laws : @WorldLaws toy_url toy_world.
Proof.
  split; cbn; unfold toy_send.
  - intros _ client u _ h ip [= <-] ->. by constructor.
  - intros _ client u _ d addr [= Hd] Hr. rewrite Hd. apply toy_host_domain in Hd as [-> _].
    cbn. rewrite Hr. rewrite decide_True by done. by constructor.
Qed.

Section witnesses.
#[local] Existing Instances toy_url toy_url_laws ascii_text toy_world toy_world_laws.

(** A redirect from a public name to an internal address is refused after
    the one request to the public address. *)
Lemma fetch_with_redirect_validation_safe_witness :
  fetch_with_redirect_validation "http://example.org" "*/*" "agent" [] =
    (Err 403, [("http://example.org", [V4 8 8 8 8])]) ∧
  fetch_with_redirect_validation "http://10.0.0.1" "*/*" "agent" [] = (Err 403, []).
Proof.
  split; [vm_compute; reflexivity|].
  destruct (fetch_with_redirect_validation_safe "http://10.0.0.1" "*/*" "agent")
    as (r & reqs & Hrun & _ & _ & _ & _ & Hpriv).
  destruct (Hpriv ltac:(vm_compute; reflexivity)) as [-> ->]. exact Hrun.
Defined.

Definition toy_order : HashOrder :=
  {| entries A cache := (λ '(k, v), (k, fetched_at v)) <$> map_to_list cache |}.
Lemma toy_order_laws : @HashOrderLaws toy_order.
Proof. split. done. Qed.

Lemma image_proxy_handler_spec_witness :
  image_proxy_handler (HO := toy_order) 0 0 " http://10.0.0.1 " (∅, []) = (Err 403, (∅, [])).
Proof.
  destruct (image_proxy_handler_spec (HO := toy_order) (HL := toy_order_laws) 0 0 " http://10.0.0.1 " ∅ []
    ltac:(split; [vm_compute; lia|apply map_Forall_empty])) as (r & cache' & reqs & Hrun & _ & _ & _ & Hr & _ & Hpriv).
  destruct Hpriv as [-> ->]; [vm_compute; congruence..|].
  cbn in Hr. rewrite Hr in Hrun. exact Hrun.
Defined.
End witnesses.
