(* ===== verification/RateLimit.v ===== *)
(** * RateLimit: crates/annex-server/src/middleware.rs

    Authentication by bearer pseudonym, the sliding-window rate limiter in
    binary64 arithmetic, and the rate limiting middleware with the detection
    of the server's public URL.  Instants are nanoseconds. *)

From S2P Require Import Prelude Sql Bytes Types Text Net Float Platform.

#[local] Open Scope Z_scope.

(** ** The sliding window *)

Inductive RateLimitCategory := Registration | Verification | DefaultCategory.
#[export] Instance RateLimitCategory_eq_dec : EqDecision RateLimitCategory.
Proof. solve_decision. Defined.

Inductive RateLimitKey :=
  | Ip (ip : IpAddr) (category : RateLimitCategory)
  | Pseudonym (pseudonym_id : string) (category : RateLimitCategory).
#[export] Instance RateLimitKey_eq_dec : EqDecision RateLimitKey.
Proof. solve_decision. Defined.

Definition category_code (c : RateLimitCategory) : nat :=
  match c with Registration => 0 | Verification => 1 | DefaultCategory => 2 end.
Definition category_of (n : nat) : RateLimitCategory :=
  match n with 0%nat => Registration | 1%nat => Verification | _ => DefaultCategory end.
Definition key_code (k : RateLimitKey) : (IpAddr + string) * nat :=
  match k with
  | Ip ip c => (inl ip, category_code c)
  | Pseudonym p c => (inr p, category_code c)
  end.
Definition key_of (x : (IpAddr + string) * nat) : RateLimitKey :=
  match x with
  | (inl ip, n) => Ip ip (category_of n)
  | (inr p, n) => Pseudonym p (category_of n)
  end.
#[export] Program Instance RateLimitKey_countable : Countable RateLimitKey :=
  inj_countable' key_code key_of _.
Next Obligation. by intros [? []|? []]. Qed.

Record WindowState := {
  prev_count : Z;
  curr_count : Z;
  window_start : Z;
}.

Abbreviation RateLimiter := (gmap RateLimitKey WindowState).

Definition RATE_LIMIT_WINDOW : Z := 60 * 10 ^ 9.

(** [Instant::duration_since], which saturates at zero. *)
Definition duration_since (now start : Z) : Z := Z.max 0 (now - start).

(** binary64. *)
Definition f64_of_Z (z : Z) : f64 := binary_normalize 53 1024 z 0 false.
Definition f64_add : f64 → f64 → f64 := SFadd 53 1024.
Definition f64_sub : f64 → f64 → f64 := SFsub 53 1024.
Definition f64_mul : f64 → f64 → f64 := SFmul 53 1024.
Definition f64_div : f64 → f64 → f64 := SFdiv 53 1024.
Definition f64_one : f64 := f64_of_Z 1.
(** [f64::min]: a NaN gives the other argument. *)
Definition f64_min (x y : f64) : f64 :=
  match x with
  | S754_nan => y
  | _ => match y with S754_nan => x | _ => if SFltb y x then y else x end
  end.

(** [Duration::as_secs_f64] on a non-negative number of nanoseconds. *)
Definition as_secs_f64 (ns : Z) : f64 :=
  f64_add (f64_of_Z (ns / 10 ^ 9)) (f64_div (f64_of_Z (ns mod 10 ^ 9)) (f64_of_Z (10 ^ 9))).

Definition expired (now : Z) (entry : RateLimitKey * WindowState) : Prop :=
  RATE_LIMIT_WINDOW * 2 < duration_since now (window_start entry.2).
#[export] Instance expired_dec now entry : Decision (expired now entry).
Proof. unfold expired. apply _. Defined.

(** [state.retain(..)]. *)
Definition cleanup_expired (now : Z) (state : RateLimiter) : RateLimiter :=
  filter (λ entry, ¬ expired now entry) state.

Definition new_window (now : Z) : WindowState :=
  {| prev_count := 0; curr_count := 0; window_start := now |}.

(** The window after rotation and after counting the request; [curr_count]
    is a [u32] that wraps in a release build. *)
Definition rotate (now : Z) (ws : WindowState) : WindowState :=
  if RATE_LIMIT_WINDOW <? duration_since now (window_start ws)
  then {| prev_count := curr_count ws; curr_count := 0; window_start := now |} else ws.
Definition count (ws : WindowState) : WindowState :=
  {| prev_count := prev_count ws; curr_count := (curr_count ws + 1) mod 2 ^ 32;
     window_start := window_start ws |}.

Definition prev_weight (now : Z) (ws : WindowState) : f64 :=
  let elapsed_frac := f64_div (as_secs_f64 (duration_since now (window_start ws)))
                        (as_secs_f64 RATE_LIMIT_WINDOW) in
  f64_sub f64_one (f64_min elapsed_frac f64_one).
Definition effective (now : Z) (ws : WindowState) : f64 :=
  f64_add (f64_mul (f64_of_Z (prev_count ws)) (prev_weight now ws)) (f64_of_Z (curr_count ws)).

Definition check (key : RateLimitKey) (limit now : Z) (state : RateLimiter) : bool * RateLimiter :=
  let state := if (5000 <? size state)%nat then cleanup_expired now state else state in
  let ws := count (rotate now (default (new_window now) (state !! key))) in
  (SFleb (effective now ws) (f64_of_Z limit), <[key := ws]> state).

(** ** Requests *)

(** The part of a request the middleware reads: the value of a header, the
    peer address ([ConnectInfo]) and the authenticated identity, when an
    inner layer has set one. *)
Record Request := {
  header : string → option string;
  uri_path : string;
  connect_info : option IpAddr;
  identity_context : option PlatformIdentity;
}.

(** [HeaderValue::to_str]: visible ASCII, space and tab. *)
Definition to_str (value : string) : option string :=
  if string_all (λ c, between 32 126 c || (code c =? 9)) value then Some value else None.

Fixpoint strip_prefix (prefix s : string) : option string :=
  match prefix, s with
  | "", _ => Some s
  | String a prefix, String c s => if decide (a = c) then strip_prefix prefix s else None
  | _, "" => None
  end.

Definition bearer_pseudonym (req : Request) : result http_error string :=
  match header req "X-Annex-Pseudonym" with
  | Some val => ok_or (to_str val) 401
  | None =>
      match header req "Authorization" with
      | Some val =>
          val_str ← ok_or (to_str val) 401;
          ok_or (strip_prefix "Bearer " val_str) 401
      | None => Err 401
      end
  end.

(** [auth_middleware]: the identity the handlers behind it see.  [pool_ok]
    says that the pool gave a connection. *)
Definition auth_middleware (fault : faults) (pool_ok : bool) (server_id : Z) (db : table PlatformRow)
    (req : Request) : result http_error Request :=
  pseudonym ← bearer_pseudonym req;
  _ ← reject_if (negb pool_ok) 500;
  identity ← map_err (λ _, 401) (get_platform_identity fault server_id pseudonym db);
  _ ← reject_if (negb (pi_active identity)) 401;
  Ok {| header := header req; uri_path := uri_path req; connect_info := connect_info req;
        identity_context := Some identity |}.

(** ** Detection of the public URL *)

Definition peer_is_trusted (req : Request) : bool :=
  match connect_info req with
  | Some (V4 a b c d) => v4_is_loopback a b c d || v4_is_private a b c d || v4_is_link_local a b c d
  | Some (V6 s0 s1 s2 s3 s4 s5 s6 s7) =>
      v6_is_loopback [s0; s1; s2; s3; s4; s5; s6; s7] || v6_is_unique_local s0 || v6_is_link_local s0
  | None => false
  end.

Definition is_internal_ip (ip : IpAddr) : bool :=
  match ip with
  | V4 a b c d =>
      v4_is_loopback a b c d || v4_is_private a b c d || v4_is_link_local a b c d ||
      v4_is_unspecified a b c d
  | V6 s0 s1 s2 s3 s4 s5 s6 s7 =>
      let segs := [s0; s1; s2; s3; s4; s5; s6; s7] in
      v6_is_loopback segs || v6_is_unspecified segs || v6_is_unique_local s0 || v6_is_link_local s0
  end.

Definition bare_host (host_name : string) : string :=
  trim_end_matches "]" (trim_start_matches "[" host_name).

Definition is_internal_host (host_name : string) : bool :=
  bool_decide (host_name ∈ ["localhost"; "127.0.0.1"; "[::1]"; "0.0.0.0"]) ||
  ends_with ".local" host_name || ends_with ".internal" host_name ||
  match parse_ip (bare_host host_name) with Some ip => is_internal_ip ip | None => false end.

Definition looks_plausible (host_name : string) : bool :=
  contains "." host_name || bool_decide (is_Some (parse_ip (bare_host host_name))).

(** The public URL after the request. *)
Definition detect_public_url (req : Request) (public_url : string) : string :=
  if is_empty public_url && peer_is_trusted req then
    let proto := default "http" (header req "x-forwarded-proto" ≫= to_str) in
    let value := match header req "x-forwarded-host" with
                 | Some v => Some v | None => header req "host" end in
    match value ≫= to_str with
    | Some host =>
        let host_name := before_char ":" host in
        if negb (is_internal_host host_name) && looks_plausible host_name
        then proto +:+ "://" +:+ host else public_url
    | None => public_url
    end
  else public_url.

(** ** The middleware *)

Record LimitState := {
  public_url : string;
  rate_limiter : RateLimiter;
}.

Definition endpoint_limit (config : RateLimitConfig) (path : string) : RateLimitCategory * Z :=
  if decide (path = "/api/registry/register") then (Registration, registration_limit config)
  else if decide (path = "/api/zk/verify-membership") then (Verification, verification_limit config)
  else (DefaultCategory, default_limit config).

Definition request_key (req : Request) (category : RateLimitCategory) : result http_error RateLimitKey :=
  match identity_context req with
  | Some identity => Ok (Pseudonym (pi_pseudonym_id identity) category)
  | None =>
      match connect_info req with
      | Some ip => Ok (Ip ip category)
      | None => Err 500
      end
  end.

(** [Ok true]: the request goes on; [Ok false]: the answer is 429 with a
    Retry-After of 60 seconds.  [policy] is [None] when its lock is
    poisoned. *)
Definition rate_limit_middleware (policy : option RateLimitConfig) (now : Z) (req : Request) :
    M LimitState http_error bool := λ st,
  let url := detect_public_url req (public_url st) in
  let st := {| public_url := url; rate_limiter := rate_limiter st |} in
  match policy with
  | None => (Err 500, st)
  | Some config =>
      let '(category, limit) := endpoint_limit config (uri_path req) in
      match request_key req category with
      | Ok key =>
          let '(allowed, limiter) := check key limit now (rate_limiter st) in
          (Ok allowed, {| public_url := url; rate_limiter := limiter |})
      | Err e => (Err e, st)
      | Panic => (Panic, st)
      end
  end.

(** * Theorems *)

Lemma auth_middleware_ok fault pool_ok s db req req' :
  auth_middleware fault pool_ok s db req = Ok req' →
  ∃ p identity, bearer_pseudonym req = Ok p ∧ get_platform_identity fault s p db = Ok identity ∧
    pi_active identity = true ∧ identity_context req' = Some identity ∧ uri_path req' = uri_path req.
Proof.
  unfold auth_middleware. destruct (bearer_pseudonym req) as [p| |]; cbn; [|done..].
  destruct pool_ok; cbn; [|done]. destruct (get_platform_identity fault s p db) as [identity| |] eqn:E; cbn; [|done..].
  destruct (pi_active identity) eqn:Ea; cbn; [|done]. intros [= <-]. by exists p, identity.
Qed.

(** ** The weight of the previous window *)

Abbreviation f64_ok := (nonneg 53 1024).
Abbreviation f64_value := (value 53 1024).
Abbreviation one_unit := (unit 53 1024).

Lemma f64_of_Z_spec n : 0 ≤ n < 2 ^ 53 → f64_ok (f64_of_Z n) ∧ f64_value (f64_of_Z n) = n * one_unit.
Proof. apply of_Z_spec; lia. Qed.

Lemma one_unit_pos : 0 < one_unit.
Proof. apply Z.pow_pos_nonneg; [lia|]. by vm_compute. Qed.

Lemma units_below_top n : 0 ≤ n < 2 ^ 53 → n * one_unit < top 53 1024.
Proof.
  intros Hn. apply Z.lt_le_trans with (2 ^ 53 * one_unit).
  - apply Z.mul_lt_mono_pos_r; [apply one_unit_pos|lia].
  - unfold unit, top. rewrite <- Z.pow_add_r by (vm_compute; congruence).
    apply Z.pow_le_mono_r; [lia|]. vm_compute. congruence.
Qed.

Lemma f64_prec : 1 < 53 ∧ 53 < 1024. Proof. lia. Qed.

Lemma f64_int_representable n : 0 ≤ n < 2 ^ 53 → representable 53 1024 (n * one_unit).
Proof.
  intros Hn. destruct (f64_of_Z_spec n Hn) as [Hok <-]. by apply representable_value.
Qed.

Lemma f64_of_Z_ok n : 0 ≤ n → f64_ok (f64_of_Z n).
Proof.
  intros Hn. apply (normalize_spec 53 1024 ltac:(lia) ltac:(lia) n 0 (0 * one_unit)); [done|by vm_compute|].
  apply f64_int_representable. lia.
Qed.

Lemma f64_add_ok x y : f64_ok x → f64_ok y → f64_ok (f64_add x y).
Proof.
  intros Hx Hy. apply (SFadd_spec 53 1024 ltac:(lia) ltac:(lia) x y (0 * one_unit)); [done..|].
  apply f64_int_representable. lia.
Qed.

Lemma as_secs_f64_ok ns : 0 ≤ ns → f64_ok (as_secs_f64 ns).
Proof.
  intros Hns. unfold as_secs_f64. apply f64_add_ok; [apply f64_of_Z_ok; div_lia|].
  apply SFdiv_nonneg; [lia..|apply f64_of_Z_ok; div_lia|by vm_compute|].
  split; by vm_compute.
Qed.

Lemma f64_min_one x : f64_ok x → f64_ok (f64_min x f64_one) ∧ f64_value (f64_min x f64_one) ≤ one_unit.
Proof.
  intros Hx. destruct (f64_of_Z_spec 1 ltac:(lia)) as [H1 V1]. fold f64_one in H1, V1.
  assert (f64_min x f64_one = if SFltb f64_one x then f64_one else x) as ->
    by (destruct x; [reflexivity..|done|reflexivity]).
  rewrite (SFltb_value 53 1024) by (done || lia).
  destruct (f64_value f64_one <? f64_value x) eqn:E; split; try done; lia.
Qed.

(** The weight is a number in [0, 1]; at the start of a window it is 1. *)
Lemma prev_weight_ok now ws :
  f64_ok (prev_weight now ws) ∧ f64_value (prev_weight now ws) ≤ one_unit.
Proof.
  unfold prev_weight. cbv zeta.
  assert (f64_ok (f64_div (as_secs_f64 (duration_since now (window_start ws)))
            (as_secs_f64 RATE_LIMIT_WINDOW))) as Hfrac.
  { apply SFdiv_nonneg; [lia..| |by vm_compute|split; by vm_compute].
    apply as_secs_f64_ok. unfold duration_since. lia. }
  destruct (f64_min_one _ Hfrac) as [Hmin Vmin]. set (x := f64_min _ _) in *. clearbody x.
  destruct (f64_of_Z_spec 1 ltac:(lia)) as [H1 V1]. fold f64_one in H1, V1.
  pose proof (value_bounds 53 1024 ltac:(lia) ltac:(lia) x Hmin).
  pose proof (units_below_top 1 ltac:(lia)).
  destruct (SFsub_spec 53 1024 ltac:(lia) ltac:(lia) f64_one x (1 * one_unit) H1 Hmin) as (Hok & _ & Hle);
    [lia|apply f64_int_representable; lia|].
  split; [exact Hok|]. unfold f64_sub. lia.
Qed.

Lemma prev_weight_start ws : prev_weight (window_start ws) ws = f64_one.
Proof.
  unfold prev_weight, duration_since. rewrite Z.sub_diag. vm_compute. reflexivity.
Qed.

(** ** The effective count *)

Definition window_ok (ws : WindowState) : Prop :=
  0 ≤ prev_count ws < 2 ^ 32 ∧ 0 ≤ curr_count ws < 2 ^ 32.

(** The effective count is a number at least the count of the window; it is
    exactly the sum of both counts when the previous one is zero or the
    window has just begun. *)
Lemma effective_spec now ws :
  window_ok ws →
  f64_ok (effective now ws) ∧ curr_count ws * one_unit ≤ f64_value (effective now ws) ∧
  (prev_count ws = 0 ∨ window_start ws = now →
   f64_value (effective now ws) = (prev_count ws + curr_count ws) * one_unit).
Proof.
  intros [Hp Hc]. unfold effective. pose proof one_unit_pos as Hu.
  destruct (f64_of_Z_spec (prev_count ws) ltac:(lia)) as [Hpok Vp].
  destruct (f64_of_Z_spec (curr_count ws) ltac:(lia)) as [Hcok Vc].
  destruct (prev_weight_ok now ws) as [Hw Vw].
  pose proof (units_below_top 1 ltac:(lia)) as Ht1.
  pose proof (units_below_top (prev_count ws) ltac:(lia)) as Htp.
  assert (f64_ok (f64_mul (f64_of_Z (prev_count ws)) (prev_weight now ws))) as Hm
    by (apply SFmul_nonneg; done || lia).
  pose proof (value_bounds 53 1024 ltac:(lia) ltac:(lia) _ Hm) as Vm.
  split; [by apply f64_add_ok|]. split.
  - apply (SFadd_spec 53 1024 ltac:(lia) ltac:(lia)); try done; [|lia].
    apply f64_int_representable. lia.
  - intros Hex.
    assert (f64_value (f64_mul (f64_of_Z (prev_count ws)) (prev_weight now ws)) =
            prev_count ws * one_unit) as Em.
    { destruct (decide (prev_count ws = 0)) as [H0|H0].
      - rewrite H0. revert Hw Vw. generalize (prev_weight now ws).
        intros [[]|[]| |[] m e] Hw Vw; try done.
      - destruct Hex as [?|Hs]; [done|].
        assert (prev_weight now ws = f64_one) as Ew by (rewrite <- Hs; apply prev_weight_start).
        rewrite Ew. destruct (f64_of_Z_spec 1 ltac:(lia)) as [H1 V1]. fold f64_one in H1, V1.
        destruct (SFmul_spec 53 1024 ltac:(lia) ltac:(lia) (f64_of_Z (prev_count ws)) f64_one
          (prev_count ws * one_unit) Hpok H1) as [Hlo Hhi];
          [nia|lia|apply f64_int_representable; lia|].
        rewrite Vp, V1, Z.mul_1_l in Hlo, Hhi. unfold f64_mul. lia. }
    destruct (SFadd_spec 53 1024 ltac:(lia) ltac:(lia) _ _ ((prev_count ws + curr_count ws) * one_unit) Hm Hcok)
      as (_ & Hlo & Hhi); [apply f64_int_representable; lia|].
    rewrite Em, Vc in Hlo, Hhi. unfold f64_add. lia.
Qed.

Lemma effective_leb now ws limit :
  window_ok ws → 0 ≤ limit < 2 ^ 32 →
  (SFleb (effective now ws) (f64_of_Z limit) = true → curr_count ws ≤ limit) ∧
  (prev_count ws = 0 ∨ window_start ws = now →
   SFleb (effective now ws) (f64_of_Z limit) = true ↔ prev_count ws + curr_count ws ≤ limit).
Proof.
  intros Hws Hl. destruct (effective_spec now ws Hws) as (Hok & Hge & Heq).
  destruct (f64_of_Z_spec limit ltac:(lia)) as [Hlok Vl]. pose proof one_unit_pos.
  rewrite (SFleb_value 53 1024), Z.leb_le, Vl by (done || lia). split.
  - intros Hle. apply (Z.mul_le_mono_pos_r _ _ one_unit); lia.
  - intros Hcase. rewrite (Heq Hcase). symmetry. by apply Z.mul_le_mono_pos_r.
Qed.

(** ** One request *)

Definition limiter_ok (st : RateLimiter) : Prop := map_Forall (λ _ ws, window_ok ws) st.

(** The state a request sees: entries idle for two windows may be gone. *)
Lemma retained st now k :
  let st' := if (5000 <? size st)%nat then cleanup_expired now st else st in
  (st' !! k = st !! k) ∨
  (st' !! k = None ∧ (5000 < size st)%nat ∧
   ∃ ws, st !! k = Some ws ∧ RATE_LIMIT_WINDOW * 2 < duration_since now (window_start ws)).
Proof.
  cbv zeta. destruct (5000 <? size st)%nat eqn:E; [|by left]. apply Nat.ltb_lt in E.
  unfold cleanup_expired. destruct (st !! k) as [ws|] eqn:Hk.
  - destruct (decide (expired now (k, ws))) as [He|He].
    + right. split; [|split; [done|by exists ws]]. apply map_lookup_filter_None. right.
      intros ws' Hws' Hn. rewrite Hk in Hws'. by injection Hws' as <-.
    + left. by apply map_lookup_filter_Some.
  - left. apply map_lookup_filter_None. by left.
Qed.

Lemma rotate_ok now ws : window_ok ws → window_ok (rotate now ws).
Proof. intros [??]. unfold rotate. case_match; [split; cbn; lia|done]. Qed.
Lemma count_ok ws : window_ok ws → window_ok (count ws).
Proof. intros [??]. split; cbn; [done|]. apply Z.mod_pos_bound. lia. Qed.

(** One request: the windows of other keys stay as they are (idle ones may
    be dropped); a request is allowed only while the requests of its window,
    itself included, are within the limit, and exactly then when the
    previous window was empty; after more than one idle window the whole old
    count still weighs on the first request of the new one, so a client that
    used up its limit stays refused. *)
Theorem check_spec key limit now st :
  limiter_ok st → 0 ≤ limit < 2 ^ 32 →
  let '(allowed, st') := check key limit now st in
  limiter_ok st' ∧
  (∀ k ws, k ≠ key → st' !! k = Some ws → st !! k = Some ws) ∧
  (∀ k ws, k ≠ key → st !! k = Some ws → duration_since now (window_start ws) ≤ RATE_LIMIT_WINDOW * 2 →
     st' !! k = Some ws) ∧
  (∃ ws', st' !! key = Some ws' ∧ (allowed = true → curr_count ws' ≤ limit) ∧
     (prev_count ws' = 0 → allowed = true ↔ curr_count ws' ≤ limit)) ∧
  (∀ ws, st !! key = Some ws →
     RATE_LIMIT_WINDOW < duration_since now (window_start ws) ≤ RATE_LIMIT_WINDOW * 2 →
     allowed = true ↔ curr_count ws + 1 ≤ limit).
Proof.
  intros Hok Hl. unfold check. set (st1 := if (5000 <? size st)%nat then _ else _).
  pose proof (λ k, retained st now k) as Hret. cbv zeta in Hret. fold st1 in Hret.
  assert (window_ok (default (new_window now) (st1 !! key))) as Hws.
  { destruct (Hret key) as [->|[-> _]]; [|done].
    destruct (st !! key) as [ws|] eqn:E; [by apply (Hok key)|done]. }
  pose proof (count_ok _ (rotate_ok now _ Hws)) as Hws'.
  set (ws' := count _) in *. destruct (effective_leb now ws' limit Hws' Hl) as [Hle Hiff].
  split_and!.
  - apply map_Forall_insert_2; [done|]. intros k ws Hk.
    destruct (Hret k) as [E|[E _]]; rewrite E in Hk; [by apply (Hok k)|done].
  - intros k ws Hne. rewrite lookup_insert_ne by done. destruct (Hret k) as [->|[-> _]]; done.
  - intros k ws Hne Hk Hd. rewrite lookup_insert_ne by done.
    destruct (Hret k) as [->|(_ & _ & ws0 & E & Hlt)]; [done|]. rewrite Hk in E. injection E as <-. lia.
  - exists ws'. rewrite lookup_insert_eq. split; [done|]. split; [done|]. intros Hp.
    rewrite Hiff by auto. by rewrite Hp.
  - intros ws Hk [Hd Hd2].
    assert (st1 !! key = Some ws) as E.
    { destruct (Hret key) as [->|(_ & _ & ws0 & E & Hlt)]; [done|]. rewrite Hk in E. injection E as <-. lia. }
    assert (ws' = {| prev_count := curr_count ws; curr_count := 1; window_start := now |}) as Ews.
    { unfold ws'. rewrite E. cbn [default]. unfold rotate. rewrite (proj2 (Z.ltb_lt _ _)) by done. done. }
    rewrite Hiff by (right; by rewrite Ews). by rewrite Ews.
Qed.

(** ** A window of requests *)

(** A request: its key, the limit of its endpoint and its instant. *)
Record Arrival := { arr_key : RateLimitKey; arr_limit : Z; arr_now : Z }.

Fixpoint run (arrivals : list Arrival) (st : RateLimiter) : list (RateLimitKey * bool) :=
  match arrivals with
  | [] => []
  | a :: arrivals =>
      let '(allowed, st) := check (arr_key a) (arr_limit a) (arr_now a) st in
      (arr_key a, allowed) :: run arrivals st
  end.

Definition answers (key : RateLimitKey) (results : list (RateLimitKey * bool)) : list bool :=
  snd <$> filter (λ r, r.1 = key) results.
Definition arrivals_of (key : RateLimitKey) (arrivals : list Arrival) : list Arrival :=
  filter (λ a, arr_key a = key) arrivals.

(** [n] requests of the key so far, all in one window that began in
    [t0, t0 + 60 s]. *)
Definition in_window (st : RateLimiter) (key : RateLimitKey) (t0 n : Z) : Prop :=
  (n = 0 ∧ st !! key = None) ∨
  (∃ s, st !! key = Some {| prev_count := 0; curr_count := n; window_start := s |} ∧
        t0 ≤ s ≤ t0 + RATE_LIMIT_WINDOW).

Lemma check_in_window key a st t0 n :
  limiter_ok st → 0 ≤ arr_limit a < 2 ^ 32 → t0 ≤ arr_now a ≤ t0 + RATE_LIMIT_WINDOW →
  in_window st key t0 n → 0 ≤ n < 2 ^ 32 - 1 →
  let '(allowed, st') := check (arr_key a) (arr_limit a) (arr_now a) st in
  (arr_key a = key → (allowed = true ↔ n + 1 ≤ arr_limit a) ∧ in_window st' key t0 (n + 1)) ∧
  (arr_key a ≠ key → in_window st' key t0 n).
Proof.
  intros Hok Hl Ht Hin Hn. unfold check. set (st1 := if (5000 <? size st)%nat then _ else _).
  assert (st1 !! key = st !! key) as Hret.
  { destruct (retained st (arr_now a) key) as [E|(_ & _ & ws & E & Hlt)]; [done|].
    destruct Hin as [[_ Hn0]|(s & Hs & Hst)]; [congruence|]. rewrite Hs in E. injection E as <-.
    unfold duration_since, RATE_LIMIT_WINDOW in *. cbn in Hlt. lia. }
  split; intros Hk.
  - rewrite Hk, Hret. set (now := arr_now a) in *.
    assert (∃ s, rotate now (default (new_window now) (st !! key)) =
              {| prev_count := 0; curr_count := n; window_start := s |} ∧
              t0 ≤ s ≤ t0 + RATE_LIMIT_WINDOW) as (s & -> & Hs).
    { destruct Hin as [[-> ->]|(s & -> & Hs)]; unfold rotate, new_window; cbn [from_option id window_start];
        rewrite (proj2 (Z.ltb_ge _ _)) by (unfold duration_since, RATE_LIMIT_WINDOW in *; lia).
      - by exists now.
      - by exists s. }
    unfold count. cbn [prev_count curr_count window_start]. rewrite Z.mod_small by lia.
    set (ws := {| prev_count := 0; curr_count := n + 1; window_start := s |}).
    split; [|right; exists s; split; [apply lookup_insert_eq|done]].
    destruct (effective_leb now ws (arr_limit a)) as [_ Hiff]; [split; cbn; lia|done|].
    rewrite Hiff by (by left). done.
  - destruct Hin as [[-> Hnone]|(s & Hs & Hst)]; [left|right; exists s]; (split; [done|]) || idtac.
    + by rewrite lookup_insert_ne, Hret by done.
    + by rewrite lookup_insert_ne, Hret by done.
Qed.

Lemma check_limiter_ok key limit now st : limiter_ok st → limiter_ok (check key limit now st).2.
Proof.
  intros Hok. unfold check. cbn [snd]. set (st1 := if (5000 <? size st)%nat then _ else _).
  assert (limiter_ok st1) as Hok1.
  { intros k ws Hk. unfold st1 in Hk. destruct (retained st now k) as [E|[E _]]; rewrite E in Hk;
      [by apply (Hok k)|done]. }
  apply map_Forall_insert_2; [|done]. apply count_ok, rotate_ok.
  destruct (st1 !! key) as [ws|] eqn:E; [by apply (Hok1 key)|done].
Qed.

Lemma run_in_window key limit t0 arrivals st n :
  limiter_ok st → 0 ≤ limit < 2 ^ 32 → 0 ≤ n → in_window st key t0 n →
  Forall (λ a, 0 ≤ arr_limit a < 2 ^ 32 ∧ t0 ≤ arr_now a ≤ t0 + RATE_LIMIT_WINDOW ∧
               (arr_key a = key → arr_limit a = limit)) arrivals →
  n + Z.of_nat (length (arrivals_of key arrivals)) < 2 ^ 32 →
  answers key (run arrivals st) =
    (λ i, bool_decide (i < limit)) <$> seqZ n (Z.of_nat (length (arrivals_of key arrivals))).
Proof.
  intros Hok Hlim. revert st n Hok. induction arrivals as [|a arrivals IH]; intros st n Hok Hn Hin Hall Hlen; [done|].
  apply Forall_cons in Hall as [(Hal & Hat & Hak) Hall]. cbn [run].
  pose proof (check_limiter_ok (arr_key a) (arr_limit a) (arr_now a) st Hok) as Hok'.
  assert (0 ≤ n < 2 ^ 32 - 1 ∨ arr_key a ≠ key) as Hn1.
  { destruct (decide (arr_key a = key)) as [E|]; [left|by right].
    unfold arrivals_of in Hlen. rewrite filter_cons_True in Hlen by done. cbn in Hlen. lia. }
  destruct (decide (arr_key a = key)) as [Hk|Hk].
  - destruct Hn1 as [Hn1|]; [|done].
    pose proof (check_in_window key a st t0 n Hok Hal Hat Hin Hn1) as Hstep.
    destruct (check (arr_key a) (arr_limit a) (arr_now a) st) as [allowed st'].
    destruct Hstep as [[Hiff Hin']%(λ f, f Hk) _].
    unfold answers, arrivals_of in *. rewrite !filter_cons_True in * by done.
    cbn [length] in *. rewrite Nat2Z.inj_succ in *. rewrite seqZ_cons, !fmap_cons by lia.
    rewrite (Hak Hk) in Hiff. cbn [snd]. f_equal.
    + apply eq_true_iff_eq. rewrite Hiff, bool_decide_eq_true. lia.
    + rewrite Z.pred_succ. apply IH; [done|lia|done..|lia].
  - unfold answers, arrivals_of in *.
    assert (∃ n', n' = n) as [n' En] by by exists n.
    destruct (check (arr_key a) (arr_limit a) (arr_now a) st) as [allowed st'] eqn:E.
    rewrite !filter_cons_False in * by done. apply IH; [done|done| |done|done].
    destruct Hin as [[-> Hnone]|(s & Hs & Hst)].
    + left. split; [done|]. unfold check in E. injection E as _ <-.
      rewrite lookup_insert_ne by done. by destruct (retained st (arr_now a) key) as [->|[-> _]].
    + right. exists s. split; [|done]. unfold check in E. injection E as _ <-.
      rewrite lookup_insert_ne by done.
      destruct (retained st (arr_now a) key) as [->|(_ & _ & ws & E & Hlt)]; [done|].
      rewrite Hs in E. injection E as <-.
      unfold duration_since, RATE_LIMIT_WINDOW in *. cbn in Hlt. lia.
Qed.

(** C31. Within 60 seconds, whatever other clients do in between, the requests
    of a client unknown to the limiter are answered thus: exactly the first
    [limit] of them are allowed, all later ones are refused. *)
Theorem window_admits_exactly_limit key limit t0 arrivals st :
  limiter_ok st → st !! key = None → 0 ≤ limit < 2 ^ 32 →
  Forall (λ a, 0 ≤ arr_limit a < 2 ^ 32 ∧ t0 ≤ arr_now a ≤ t0 + RATE_LIMIT_WINDOW ∧
               (arr_key a = key → arr_limit a = limit)) arrivals →
  let n := length (arrivals_of key arrivals) in
  Z.of_nat n < 2 ^ 32 →
  answers key (run arrivals st) =
    replicate (Nat.min n (Z.to_nat limit)) true ++ replicate (n - Z.to_nat limit) false.
Proof.
  intros Hok Hnone Hl Hall n Hn.
  rewrite (run_in_window key limit t0 arrivals st 0) by (done || lia || by left). fold n.
  apply list_eq. intros i. rewrite list_lookup_fmap.
  destruct (decide (i < n)%nat) as [Hi|Hi].
  - rewrite lookup_seqZ_lt by lia. cbn. destruct (decide (i < Z.to_nat limit)%nat) as [Hil|Hil].
    + rewrite bool_decide_eq_true_2, lookup_app_l by (rewrite ?length_replicate; lia).
      symmetry. apply lookup_replicate. lia.
    + rewrite bool_decide_eq_false_2, lookup_app_r by (rewrite ?length_replicate; lia).
      symmetry. apply lookup_replicate. rewrite length_replicate. lia.
  - rewrite lookup_seqZ_ge by lia. symmetry. apply lookup_ge_None_2.
    rewrite length_app, !length_replicate. lia.
Qed.

(** ** Witnesses *)

Definition toy_key : RateLimitKey := Ip (V4 8 8 8 8) DefaultCategory.
Definition toy_arrival (t : Z) : Arrival := {| arr_key := toy_key; arr_limit := 2; arr_now := t |}.

Lemma window_admits_exactly_limit_witness :
  answers toy_key (run [toy_arrival 0; toy_arrival 1; toy_arrival 2] ∅) = [true; true; false].
Proof.
  apply (window_admits_exactly_limit toy_key 2 0 [toy_arrival 0; toy_arrival 1; toy_arrival 2] ∅);
    [apply map_Forall_empty|apply lookup_empty|lia| |reflexivity].
  repeat constructor; vm_compute; congruence.
Defined.

(** A client that spent its limit of one and waited 61 seconds, longer than
    the Retry-After it was told, is refused. *)
Definition spent : RateLimiter :=
  {[ toy_key := {| prev_count := 0; curr_count := 1; window_start := 0 |} ]}.

Lemma check_spec_witness : (check toy_key 1 (61 * 10 ^ 9) spent).1 = false.
Proof.
  pose proof (check_spec toy_key 1 (61 * 10 ^ 9) spent
    ltac:(apply map_Forall_singleton; split; cbn; lia) ltac:(lia)) as H.
  destruct (check toy_key 1 (61 * 10 ^ 9) spent) as [allowed st'].
  destruct H as (_ & _ & _ & _ & H).
  specialize (H _ (lookup_singleton_eq _ _) ltac:(vm_compute; split; congruence)).
  cbn in H |- *. destruct allowed; [|reflexivity]. destruct H as [H _]. specialize (H eq_refl). lia.
Defined.
