(* ===== verification/Connections.v ===== *)
(** * Connections: the ConnectionManager of crates/annex-server/src/api_ws.rs

    The manager is shared by every WebSocket task and every handler, and
    guards three maps with one RwLock each.  Its methods are programs whose
    atomic actions are the acquisition and release of a lock and one access
    to the shared maps; [alone] runs a method without interference, and
    [step] interleaves any number of them. *)

From S2P Require Import Prelude.

(** ** The shared state *)

(** A receiver of [mpsc::channel::<String>(256)]. *)
Record Mailbox := { queue : list string; closed : bool }.
Definition CHANNEL_CAPACITY : nat := 256.

(** A session is its id ([Uuid]) and the sending half of a mailbox. *)
Record Manager := {
  sessions : gmap string (Z * nat);
  channel_subscriptions : gmap string (gset string);
  user_subscriptions : gmap string (gset string);
  mailboxes : gmap nat Mailbox;
}.

Definition Manager_new (mail : gmap nat Mailbox) : Manager :=
  {| sessions := ∅; channel_subscriptions := ∅; user_subscriptions := ∅; mailboxes := mail |}.

Definition set_sessions f (m : Manager) : Manager :=
  {| sessions := f (sessions m); channel_subscriptions := channel_subscriptions m;
     user_subscriptions := user_subscriptions m; mailboxes := mailboxes m |}.
Definition set_channel_subs f (m : Manager) : Manager :=
  {| sessions := sessions m; channel_subscriptions := f (channel_subscriptions m);
     user_subscriptions := user_subscriptions m; mailboxes := mailboxes m |}.
Definition set_user_subs f (m : Manager) : Manager :=
  {| sessions := sessions m; channel_subscriptions := channel_subscriptions m;
     user_subscriptions := f (user_subscriptions m); mailboxes := mailboxes m |}.
Definition set_mailboxes f (m : Manager) : Manager :=
  {| sessions := sessions m; channel_subscriptions := channel_subscriptions m;
     user_subscriptions := user_subscriptions m; mailboxes := f (mailboxes m) |}.

(** ** Maps of sets *)

Abbreviation subs := (gmap string (gset string)).

(** The set under a key; no entry is the empty set. *)
Definition under (k : string) (t : subs) : gset string := default ∅ (t !! k).

(** [entry(k).or_default().insert(x)]. *)
Definition sub_insert (k x : string) (t : subs) : subs := <[k := {[x]} ∪ under k t]> t.

(** [if let Some(s) = t.get_mut(k) { s.remove(x); if s.is_empty() { t.remove(k) } }]. *)
Definition sub_remove (k x : string) (t : subs) : subs :=
  match t !! k with
  | Some s =>
      let s := s ∖ {[x]} in
      if decide (s = ∅) then delete k t else <[k := s]> t
  | None => t
  end.

(** [for channel_id in channels { ... remove pseudonym ... }]. *)
Definition drop_listener (p : string) (channels : gset string) (t : subs) : subs :=
  foldr (λ c t, sub_remove c p t) t (elements channels).

(** [sender.try_send(message)]: dropped when the mailbox is full or closed. *)
Definition try_send (h : nat) (msg : string) (mail : gmap nat Mailbox) : gmap nat Mailbox :=
  match mail !! h with
  | Some b =>
      if closed b || bool_decide (CHANNEL_CAPACITY ≤ length (queue b))%nat then mail
      else <[h := {| queue := queue b ++ [msg]; closed := closed b |}]> mail
  | None => mail
  end.

(** The body of the loop of [broadcast] for one listener. *)
Definition send_to (m : Manager) (msg p : string) (mail : gmap nat Mailbox) : gmap nat Mailbox :=
  match sessions m !! p with
  | Some (_, h) => try_send h msg mail
  | None => mail
  end.

(** ** Programs *)

Inductive lock := Sessions | ChannelSubs | UserSubs.
Inductive mode := Read | Write.
#[export] Instance lock_eq_dec : EqDecision lock.
Proof. solve_decision. Defined.
#[export] Instance mode_eq_dec : EqDecision mode.
Proof. solve_decision. Defined.

Inductive prog (A : Type) : Type :=
  | Done (a : A)
  | Acquire (l : lock) (md : mode) (k : prog A)
  | Release (l : lock) (md : mode) (k : prog A)
  | Access (f : Manager → Manager) (k : Manager → prog A).
Arguments Done {A} a.
Arguments Acquire {A} l md k.
Arguments Release {A} l md k.
Arguments Access {A} f k.

#[export] Instance prog_ret : MRet prog := @Done.
#[export] Instance prog_bind : MBind prog := λ A B g,
  fix go (p : prog A) : prog B :=
    match p with
    | Done a => g a
    | Acquire l md k => Acquire l md (go k)
    | Release l md k => Release l md (go k)
    | Access f k => Access f (λ m, go (k m))
    end.

Definition acquire (l : lock) (md : mode) : prog unit := Acquire l md (Done ()).
Definition release (l : lock) (md : mode) : prog unit := Release l md (Done ()).
Definition peek {B} (g : Manager → B) : prog B := Access (λ m, m) (λ m, Done (g m)).
Definition modify (f : Manager → Manager) : prog unit := Access f (λ _, Done ()).

(** ** The methods *)

(** The clean-up shared by [add_session] and [remove_session]: the channels
    of the user, then their listeners, then the user's own entry. *)
Definition drop_subscriptions (p : string) : prog unit :=
  acquire UserSubs Read;;
  channels ← peek (λ m, user_subscriptions m !! p);
  release UserSubs Read;;
  match channels with
  | Some channels =>
      acquire ChannelSubs Write;;
      modify (set_channel_subs (drop_listener p channels));;
      release ChannelSubs Write;;
      acquire UserSubs Write;;
      modify (set_user_subs (delete p));;
      release UserSubs Write
  | None => mret ()
  end.

(** The fresh [session_id] the method draws and returns is an argument. *)
Definition add_session (session_id : Z) (p : string) (sender : nat) : prog unit :=
  acquire Sessions Read;;
  had_previous ← peek (λ m, bool_decide (is_Some (sessions m !! p)));
  release Sessions Read;;
  (if had_previous : bool then drop_subscriptions p else mret ());;
  acquire Sessions Write;;
  modify (set_sessions (<[p := (session_id, sender)]>));;
  release Sessions Write.

Definition remove_session (p : string) (session_id : Z) : prog unit :=
  acquire Sessions Write;;
  current ← peek (λ m, fst <$> sessions m !! p);
  if decide (current = Some session_id) then
    modify (set_sessions (delete p));;
    release Sessions Write;;
    drop_subscriptions p;;
    mret ()
  else release Sessions Write.

Definition disconnect_user (p : string) : prog unit :=
  acquire Sessions Read;;
  session_id ← peek (λ m, fst <$> sessions m !! p);
  release Sessions Read;;
  match session_id with
  | Some id => remove_session p id
  | None => mret ()
  end.

Definition subscribe (c p : string) : prog unit :=
  acquire ChannelSubs Write;;
  modify (set_channel_subs (sub_insert c p));;
  acquire UserSubs Write;;
  modify (set_user_subs (sub_insert p c));;
  release UserSubs Write;;
  release ChannelSubs Write.

Definition unsubscribe (c p : string) : prog unit :=
  acquire ChannelSubs Write;;
  modify (set_channel_subs (sub_remove c p));;
  acquire UserSubs Write;;
  modify (set_user_subs (sub_remove p c));;
  release UserSubs Write;;
  release ChannelSubs Write.

(** The listeners are visited in the iteration order of a [HashSet]; every
    listener has a mailbox of its own. *)
Definition broadcast (c msg : string) : prog unit :=
  acquire ChannelSubs Read;;
  listeners ← peek (λ m, channel_subscriptions m !! c);
  match listeners with
  | Some listeners =>
      acquire Sessions Read;;
      modify (λ m, set_mailboxes (λ mail, foldr (send_to m msg) mail (elements listeners)) m);;
      release Sessions Read
  | None => mret ()
  end;;
  release ChannelSubs Read.

Definition send (p msg : string) : prog unit :=
  acquire Sessions Read;;
  modify (λ m, set_mailboxes (send_to m msg p) m);;
  release Sessions Read.

(** A method without interference. *)
Fixpoint alone {A} (p : prog A) (m : Manager) : A * Manager :=
  match p with
  | Done a => (a, m)
  | Acquire _ _ k => alone k m
  | Release _ _ k => alone k m
  | Access f k => alone (k m) (f m)
  end.

(** ** Interleaving

    A task is the locks it holds and the rest of its program.  A lock is
    granted when no other task holds it in a conflicting mode. *)

Record task := { held : list (lock * mode); code : prog unit }.
Abbreviation config := (Manager * list task)%type.

Definition conflicts (l : lock) (md : mode) (h : lock * mode) : bool :=
  bool_decide (h.1 = l) && negb (bool_decide (md = Read ∧ h.2 = Read)).
Definition free_for (l : lock) (md : mode) (t : task) : bool :=
  forallb (λ h, negb (conflicts l md h)) (held t).

Fixpoint remove_one {A} `{EqDecision A} (x : A) (l : list A) : list A :=
  match l with [] => [] | y :: l => if decide (y = x) then l else y :: remove_one x l end.

(** One action of task [i], when it is not blocked. *)
Definition fire (i : nat) (cfg : config) : option config :=
  let '(m, ts) := cfg in
  t ← ts !! i;
  match code t with
  | Done _ => None
  | Acquire l md k =>
      if forallb (free_for l md) (delete i ts)
      then Some (m, <[i := {| held := (l, md) :: held t; code := k |}]> ts) else None
  | Release l md k => Some (m, <[i := {| held := remove_one (l, md) (held t); code := k |}]> ts)
  | Access f k => Some (f m, <[i := {| held := held t; code := k m |}]> ts)
  end.

(** The calls the server makes, from any number of tasks. *)
Inductive call :=
  | CallAddSession (session_id : Z) (p : string) (sender : nat)
  | CallRemoveSession (p : string) (session_id : Z)
  | CallDisconnectUser (p : string)
  | CallSubscribe (c p : string)
  | CallUnsubscribe (c p : string)
  | CallBroadcast (c msg : string)
  | CallSend (p msg : string).
Definition call_code (q : call) : prog unit :=
  match q with
  | CallAddSession id p h => add_session id p h
  | CallRemoveSession p id => remove_session p id
  | CallDisconnectUser p => disconnect_user p
  | CallSubscribe c p => subscribe c p
  | CallUnsubscribe c p => unsubscribe c p
  | CallBroadcast c msg => broadcast c msg
  | CallSend p msg => send p msg
  end.
Definition spawn (q : call) : task := {| held := []; code := call_code q |}.

Inductive run : config → config → Prop :=
  | run_fire i cfg cfg' : fire i cfg = Some cfg' → run cfg cfg'.

(** A mailbox is drained, or closed, by the task that owns the socket. *)
Inductive step : config → config → Prop :=
  | step_run cfg cfg' : run cfg cfg' → step cfg cfg'
  | step_spawn q m ts : step (m, ts) (m, ts ++ [spawn q])
  | step_mail h b m ts :
      step (m, ts) (set_mailboxes (<[h := b]>) m, ts).

Definition start (mail : gmap nat Mailbox) : config := (Manager_new mail, []).
Definition reachable (cfg : config) : Prop := ∃ mail, rtc step (start mail) cfg.
Definition finished (cfg : config) : Prop := Forall (λ t, code t = Done ()) cfg.2.

(** ** Lemmas on maps of sets *)

Lemma under_sub_insert k x k' t :
  under k' (sub_insert k x t) = if decide (k' = k) then {[x]} ∪ under k t else under k' t.
Proof.
  unfold under, sub_insert. case_decide; subst; [by rewrite lookup_insert_eq|by rewrite lookup_insert_ne].
Qed.

Lemma under_sub_remove k x k' t :
  under k' (sub_remove k x t) = if decide (k' = k) then under k t ∖ {[x]} else under k' t.
Proof.
  unfold under, sub_remove. destruct (t !! k) as [s|] eqn:E.
  - case_decide as HE; (destruct (decide (k' = k)) as [->|Hne];
      [|by rewrite ?lookup_insert_ne, ?lookup_delete_ne by done]).
    + by rewrite lookup_delete_eq.
    + by rewrite lookup_insert_eq.
  - case_decide; subst; [rewrite E; cbn; set_solver|done].
Qed.

Lemma elem_sub_insert k x k' x' t :
  x' ∈ under k' (sub_insert k x t) ↔ (k' = k ∧ x' = x) ∨ x' ∈ under k' t.
Proof. rewrite under_sub_insert. case_decide; set_solver. Qed.

Lemma elem_sub_remove k x k' x' t :
  x' ∈ under k' (sub_remove k x t) ↔ x' ∈ under k' t ∧ ¬ (k' = k ∧ x' = x).
Proof. rewrite under_sub_remove. case_decide; set_solver. Qed.

Lemma elem_drop_listener p cs c x t :
  x ∈ under c (drop_listener p cs t) ↔ x ∈ under c t ∧ ¬ (c ∈ cs ∧ x = p).
Proof.
  unfold drop_listener. rewrite <- (elem_of_elements cs c). induction (elements cs) as [|c' l IH]; cbn.
  - set_solver.
  - rewrite elem_sub_remove, IH, elem_of_cons. naive_solver.
Qed.

Lemma elem_delete p k x (t : subs) : x ∈ under k (delete p t) ↔ x ∈ under k t ∧ k ≠ p.
Proof.
  unfold under. destruct (decide (k = p)) as [->|Hne].
  - rewrite lookup_delete_eq. set_solver.
  - rewrite lookup_delete_ne by done. set_solver.
Qed.

Definition no_empty (t : subs) : Prop := map_Forall (λ _ s, s ≠ ∅) t.

Lemma no_empty_insert k x t : no_empty t → no_empty (sub_insert k x t).
Proof. intros Ht. apply map_Forall_insert_2; [set_solver|done]. Qed.

Lemma no_empty_delete k t : no_empty t → no_empty (delete k t).
Proof. apply map_Forall_delete. Qed.

Lemma no_empty_remove k x t : no_empty t → no_empty (sub_remove k x t).
Proof.
  intros Ht. unfold sub_remove. case_match; [|done].
  case_decide; [by apply no_empty_delete|by apply map_Forall_insert_2].
Qed.

Lemma no_empty_drop p cs t : no_empty t → no_empty (drop_listener p cs t).
Proof. intros Ht. unfold drop_listener. induction (elements cs); [done|by apply no_empty_remove]. Qed.

(** ** The methods without interference *)

(** [p] listens to [c]. *)
Definition listens (m : Manager) (c p : string) : Prop := p ∈ under c (channel_subscriptions m).
#[export] Instance listens_dec m c p : Decision (listens m c p).
Proof. unfold listens. apply _. Defined.

(** The two maps mirror each other and hold no empty set. *)
Record consistent (m : Manager) : Prop := {
  mirror : ∀ c p, listens m c p ↔ c ∈ under p (user_subscriptions m);
  channels_no_empty : no_empty (channel_subscriptions m);
  users_no_empty : no_empty (user_subscriptions m);
}.

(** [m'] differs from [m] in the subscriptions only. *)
Definition same_sessions (m m' : Manager) : Prop :=
  sessions m' = sessions m ∧ mailboxes m' = mailboxes m.

Lemma consistent_new mail : consistent (Manager_new mail).
Proof. split; [|apply map_Forall_empty..]. intros c p. unfold listens, under; cbn. rewrite !lookup_empty. done. Qed.

Lemma consistent_mail f m : consistent m → consistent (set_mailboxes f m).
Proof. by intros []. Qed.
Lemma consistent_sessions f m : consistent m → consistent (set_sessions f m).
Proof. by intros []. Qed.

Lemma drop_subscriptions_alone p m :
  consistent m →
  let m' := (alone (drop_subscriptions p) m).2 in
  consistent m' ∧ same_sessions m m' ∧ ∀ c' p', listens m' c' p' ↔ listens m c' p' ∧ p' ≠ p.
Proof.
  intros [Hm Hc Hu]. unfold same_sessions, listens in *. cbn.
  destruct (user_subscriptions m !! p) as [cs|] eqn:E; cbn.
  - assert (under p (user_subscriptions m) = cs) as Hcs by (unfold under; by rewrite E).
    assert (∀ c' p', p' ∈ under c' (drop_listener p cs (channel_subscriptions m)) ↔
                     p' ∈ under c' (channel_subscriptions m) ∧ p' ≠ p) as Hl.
    { intros c' p'. rewrite elem_drop_listener. split; [|naive_solver].
      intros [Hin Hn]. split; [done|]. intros ->. apply Hn. split; [|done]. rewrite <- Hcs. by apply Hm. }
    split_and!; [|done|done|exact Hl]. split; cbn.
    + unfold listens; cbn. intros c' p'. rewrite Hl, elem_delete. by rewrite Hm.
    + by apply no_empty_drop.
    + by apply no_empty_delete.
  - split_and!; [by split|done|done|]. intros c' p'. split; [|naive_solver]. intros Hin. split; [done|].
    intros ->. apply Hm in Hin. unfold under in Hin. rewrite E in Hin. cbn in Hin. set_solver.
Qed.

Lemma alone_bind {A B} (p : prog A) (g : A → prog B) m :
  alone (p ≫= g) m = alone (g (alone p m).1) (alone p m).2.
Proof. revert m. induction p as [a|l md k IH|l md k IH|f k IH]; intros m; cbn; [done|apply IH..]. Qed.

Lemma remove_session_alone p id m :
  consistent m →
  let m' := (alone (remove_session p id) m).2 in
  consistent m' ∧ mailboxes m' = mailboxes m ∧
  (if decide (fst <$> sessions m !! p = Some id)
   then sessions m' = delete p (sessions m) ∧ ∀ c' p', listens m' c' p' ↔ listens m c' p' ∧ p' ≠ p
   else m' = m).
Proof.
  intros Hm. cbn [remove_session mbind prog_bind acquire peek alone]. case_decide as Hcur; [|by cbn].
  change (alone _ m) with (alone (drop_subscriptions p ≫= λ _, mret ()) (set_sessions (delete p) m)).
  rewrite alone_bind. cbn [alone snd mret prog_ret].
  pose proof (drop_subscriptions_alone p _ (consistent_sessions (delete p) m Hm)) as (H1 & [H2 H3] & H4).
  split_and!; done.
Qed.

#[local] Opaque drop_subscriptions.
Lemma add_session_alone id p h m :
  consistent m →
  let m' := (alone (add_session id p h) m).2 in
  consistent m' ∧ mailboxes m' = mailboxes m ∧ sessions m' = <[p := (id, h)]> (sessions m) ∧
  ∀ c' p', listens m' c' p' ↔ listens m c' p' ∧ (p' = p → sessions m !! p = None).
Proof.
  intros Hm. cbn [add_session mbind prog_bind acquire peek release alone].
  case_bool_decide as Hs; cbn [mbind prog_bind].
  - rewrite alone_bind. pose proof (drop_subscriptions_alone p m Hm) as (H1 & [H2 H3] & H4).
    destruct (alone (drop_subscriptions p) m) as [u m1].
    cbn in *. split_and!; [by apply consistent_sessions|done|by rewrite H2|].
    intros c' p'. unfold listens in *; cbn. rewrite H4. destruct Hs as [x Hx].
    split; intros [? Hp]; (split; [done|]); [naive_solver|].
    intros ->. specialize (Hp eq_refl). congruence.
  - cbn. split_and!; [by apply consistent_sessions|done..|]. intros c' p'. unfold listens; cbn.
    split; [|naive_solver]. intros ?. split; [done|]. intros ->. by apply eq_None_not_Some.
Qed.

#[local] Transparent drop_subscriptions.

Lemma subscribe_alone c p m :
  consistent m →
  let m' := (alone (subscribe c p) m).2 in
  consistent m' ∧ same_sessions m m' ∧
  ∀ c' p', listens m' c' p' ↔ listens m c' p' ∨ (c' = c ∧ p' = p).
Proof.
  intros [Hm Hc Hu]. unfold same_sessions, listens in *. cbn.
  assert (∀ c' p', p' ∈ under c' (sub_insert c p (channel_subscriptions m)) ↔
                   p' ∈ under c' (channel_subscriptions m) ∨ (c' = c ∧ p' = p)) as Hl
    by (intros; rewrite elem_sub_insert; tauto).
  split_and!; [|done..|exact Hl]. split; [|by apply no_empty_insert..].
  unfold listens; cbn. intros c' p'. rewrite Hl, elem_sub_insert, Hm. tauto.
Qed.

Lemma unsubscribe_alone c p m :
  consistent m →
  let m' := (alone (unsubscribe c p) m).2 in
  consistent m' ∧ same_sessions m m' ∧
  ∀ c' p', listens m' c' p' ↔ listens m c' p' ∧ ¬ (c' = c ∧ p' = p).
Proof.
  intros [Hm Hc Hu]. unfold same_sessions, listens in *. cbn.
  split_and!; [|done..|by intros; apply elem_sub_remove]. split; [|by apply no_empty_remove..].
  unfold listens; cbn. intros c' p'. rewrite !elem_sub_remove, Hm. tauto.
Qed.

(** Whatever the state of the subscriptions, the session is gone. *)
Lemma disconnect_user_sessions p m :
  sessions (alone (disconnect_user p) m).2 = delete p (sessions m).
Proof.
  change ((alone (disconnect_user p) m).2) with
    (alone (match fst <$> sessions m !! p with
            | Some id => remove_session p id | None => mret () end) m).2.
  destruct (sessions m !! p) as [[id h]|] eqn:E; cbn.
  - rewrite E; cbn. rewrite decide_True by done. cbn. by destruct (user_subscriptions m !! p).
  - by rewrite delete_id.
Qed.

(** ** Broadcasting *)

(** What [try_send] leaves in a mailbox. *)
Definition pushed (msg : string) (b : Mailbox) : Mailbox :=
  if closed b || bool_decide (CHANNEL_CAPACITY ≤ length (queue b))%nat then b
  else {| queue := queue b ++ [msg]; closed := closed b |}.

Lemma try_send_alter h msg mail : try_send h msg mail = alter (pushed msg) h mail.
Proof.
  apply map_eq. intros h'. unfold try_send, pushed.
  destruct (decide (h' = h)) as [->|Hne].
  - rewrite lookup_alter_eq. destruct (mail !! h) as [b|] eqn:E; cbn; [|done].
    case_match; [done|by rewrite lookup_insert_eq].
  - rewrite lookup_alter_ne by done. destruct (mail !! h); [|done]. case_match; [done|].
    by rewrite lookup_insert_ne.
Qed.

(** No two sessions share a mailbox: every socket creates its own. *)
Definition own_mailbox (m : Manager) : Prop :=
  ∀ p1 p2 id1 id2 h, sessions m !! p1 = Some (id1, h) → sessions m !! p2 = Some (id2, h) → p1 = p2.

Lemma send_all_spec m msg l mail h :
  own_mailbox m → NoDup l →
  ((∃ p id, p ∈ l ∧ sessions m !! p = Some (id, h)) →
     foldr (send_to m msg) mail l !! h = pushed msg <$> mail !! h) ∧
  ((∀ p id, p ∈ l → sessions m !! p ≠ Some (id, h)) →
     foldr (send_to m msg) mail l !! h = mail !! h).
Proof.
  intros Hown Hnd. induction Hnd as [|q l Hq Hnd [IH1 IH2]]; cbn [foldr].
  - split; [|done]. intros (p & id & Hin & _). set_solver.
  - unfold send_to at 1 3. destruct (sessions m !! q) as [[id' h']|] eqn:E.
    + rewrite !try_send_alter. destruct (decide (h' = h)) as [->|Hne].
      * rewrite lookup_alter_eq, IH2.
        -- split; [done|]. intros Hn. exfalso. eapply Hn; [left|done].
        -- intros p id Hp Hs. by rewrite (Hown p q _ _ _ Hs E) in Hp.
      * rewrite lookup_alter_ne by done. split; intros HH; [apply IH1|apply IH2].
        -- destruct HH as (p & id & [->|Hp]%elem_of_cons & Hs); [congruence|eauto].
        -- intros p id Hp. apply HH. by right.
    + split; intros HH; [apply IH1|apply IH2].
      * destruct HH as (p & id & [->|Hp]%elem_of_cons & Hs); [congruence|eauto].
      * intros p id Hp. apply HH. by right.
Qed.

Lemma broadcast_alone c msg m :
  alone (broadcast c msg) m =
  ((), set_mailboxes (λ mail, foldr (send_to m msg) mail (elements (under c (channel_subscriptions m)))) m).
Proof.
  cbn. unfold under. destruct (channel_subscriptions m !! c) as [ls|]; cbn; [done|].
  rewrite elements_empty. by destruct m.
Qed.

(** ** Progress

    Locks are taken in an order: a task that holds one only asks for a
    higher one. *)

Definition rank (l : lock) : nat := match l with ChannelSubs => 0 | UserSubs | Sessions => 1 end.

Fixpoint ordered (held : list (lock * mode)) (p : prog unit) : Prop :=
  match p with
  | Done _ => held = []
  | Acquire l md k => Forall (λ h, rank h.1 < rank l)%nat held ∧ ordered ((l, md) :: held) k
  | Release l md k => (l, md) ∈ held ∧ ordered (remove_one (l, md) held) k
  | Access f k => ∀ m, ordered held (k m)
  end.

(** At most [n] actions remain. *)
Fixpoint takes (n : nat) (p : prog unit) {struct p} : Prop :=
  match p, n with
  | Done _, _ => True
  | _, O => False
  | Acquire _ _ k, S n | Release _ _ k, S n => takes n k
  | Access _ k, S n => ∀ m, takes n (k m)
  end.

Definition max_actions : nat := 24.

Ltac walk_call :=
  repeat (progress cbn || match goal with
    | |- ∀ _, _ => intros ?
    | |- _ ∧ _ => split
    | |- Forall _ _ => constructor
    | |- ?x ∈ ?x :: _ => left
    | |- ?x ∈ _ :: _ => right
    | |- context [match ?x with _ => _ end] => destruct x
    end); try done; try lia.

Lemma call_ordered q : ordered [] (call_code q).
Proof. destruct q; walk_call. Qed.

Lemma call_takes q : takes max_actions (call_code q).
Proof. unfold max_actions. destruct q; walk_call. Qed.

(** What one action does to its task. *)
Definition acts (m m' : Manager) (t t' : task) : Prop :=
  match code t with
  | Done _ => False
  | Acquire l md k => m' = m ∧ t' = {| held := (l, md) :: held t; code := k |}
  | Release l md k => m' = m ∧ t' = {| held := remove_one (l, md) (held t); code := k |}
  | Access f k => m' = f m ∧ t' = {| held := held t; code := k m |}
  end.

Lemma fire_inv i m ts m' ts' :
  fire i (m, ts) = Some (m', ts') →
  ∃ t t', ts !! i = Some t ∧ ts' = <[i := t']> ts ∧ acts m m' t t' ∧
    ∀ l md k, code t = Acquire l md k →
      ∀ j u, j ≠ i → ts !! j = Some u → free_for l md u = true.
Proof.
  cbn [fire]. intros (t & Ht & HE)%bind_Some. exists t. unfold acts.
  destruct (code t) as [a|l md k|l md k|f k]; [done|..]; try (destruct (forallb _ _) eqn:Efree); simplify_eq;
    eexists; (split_and!; [done..|]); [|done..].
  intros l' md' k' [= -> -> ->] j u Hj Hu. rewrite forallb_forall in Efree. apply Efree.
  apply list_elem_of_In, list_elem_of_lookup. destruct (decide (j < i)%nat).
  - exists j. by rewrite list_lookup_delete_lt.
  - exists (j - 1)%nat. rewrite list_lookup_delete_ge by lia. by replace (S (j - 1)) with j by lia.
Qed.

(** The tasks keep a property of theirs that actions preserve. *)
Lemma Forall_fire (I : task → Prop) cfg cfg' :
  (∀ m m' t t', I t → acts m m' t t' → I t') →
  run cfg cfg' → Forall I cfg.2 → Forall I cfg'.2.
Proof.
  intros Hact [i [m ts] [m' ts'] Hf] HI. apply fire_inv in Hf as (t & t' & Ht & -> & Ha & _).
  cbn in *. apply Forall_insert; [done|]. eapply Hact; [|done]. by eapply Forall_lookup_1.
Qed.

Definition orderly (t : task) : Prop := ordered (held t) (code t).

Lemma acts_orderly m m' t t' : orderly t → acts m m' t t' → orderly t'.
Proof.
  unfold orderly, acts. destruct (code t) as [a|l md k|l md k|f k] eqn:E; cbn; [done|..].
  - by intros [_ ?] [-> ->].
  - by intros [_ ?] [-> ->].
  - intros Ho [-> ->]. apply Ho.
Qed.

Lemma reachable_invariant (I : config → Prop) :
  (∀ mail, I (start mail)) →
  (∀ cfg cfg', I cfg → step cfg cfg' → I cfg') →
  ∀ cfg, reachable cfg → I cfg.
Proof.
  intros H0 Hs cfg [mail Hr]. specialize (H0 mail). revert H0.
  induction Hr as [c0|c0 c1 c2 Hc _ IH]; [done|]. intros HI. by apply IH, (Hs c0).
Qed.

Lemma reachable_orderly cfg : reachable cfg → Forall orderly cfg.2.
Proof.
  apply (reachable_invariant (λ cfg, Forall orderly cfg.2)); [constructor|].
  intros c c' HI Hs. revert HI. destruct Hs; intros HI; cbn in *.
  - eapply (Forall_fire orderly); [apply acts_orderly|done|done].
  - apply Forall_app. split; [done|]. repeat constructor. apply call_ordered.
  - done.
Qed.

(** In a configuration of orderly tasks, the one that waits for the highest
    lock is not blocked. *)
Definition wanted (t : task) : nat :=
  match code t with Done _ => 0 | Acquire l _ _ => S (rank l) | _ => 3 end.

Lemma fire_blocked m ts i t :
  ts !! i = Some t → fire i (m, ts) = None →
  code t = Done () ∨
  ∃ l md k j u, code t = Acquire l md k ∧ ts !! j = Some u ∧ free_for l md u = false.
Proof.
  intros Ht. cbn [fire]. rewrite Ht. cbn [mbind option_bind].
  destruct (code t) as [[]|l md k|l md k|f k]; [by left| |done..].
  destruct (forallb _ _) eqn:Ef; [done|].
  intros _. right. exists l, md, k. apply not_true_iff_false in Ef. rewrite forallb_forall in Ef.
  destruct (decide (Forall (λ u, free_for l md u = true) (delete i ts))) as [HF|HF].
  - exfalso. apply Ef. intros u Hu%list_elem_of_In. by eapply Forall_forall in HF.
  - apply not_Forall_Exists, Exists_exists in HF as (u & [j Hj]%list_elem_of_lookup & Hu); [|apply _].
    apply not_true_iff_false in Hu.
    rewrite list_lookup_delete in Hj. case_decide; eauto 10.
Qed.

Lemma orderly_higher l md t :
  orderly t → free_for l md t = false → (S (rank l) < wanted t)%nat.
Proof.
  intros Ho Hf. assert (∃ md', (l, md') ∈ held t) as [md' Hin].
  { unfold free_for in Hf. apply not_true_iff_false in Hf. rewrite forallb_forall in Hf.
    destruct (decide (l ∈ (held t).*1)) as [Hl|Hl].
    - apply list_elem_of_fmap in Hl as ([l' md'] & -> & ?). by exists md'.
    - exfalso. apply Hf. intros [l' md'] Hin%list_elem_of_In. unfold conflicts; cbn.
      case_bool_decide; [|done]. subst. destruct Hl. by apply (list_elem_of_fmap_2 fst) in Hin. }
  unfold orderly, wanted in *. destruct (code t) as [a|l' md2 k|l' md2 k|f k]; cbn in Ho.
  - rewrite Ho in Hin. set_solver.
  - destruct Ho as [Hr _]. eapply Forall_forall in Hr; [|done]. cbn in Hr. lia.
  - destruct l; cbn; lia.
  - destruct l; cbn; lia.
Qed.

Lemma orderly_progress m ts :
  Forall orderly ts → finished (m, ts) ∨ ∃ cfg', run (m, ts) cfg'.
Proof.
  intros Ho. destruct (decide (Forall (λ t, wanted t = 0%nat) ts)) as [Hd|Hd].
  { left. apply (Forall_impl _ _ _ Hd). intros t. unfold wanted. destruct (code t) as [[]|[]| |]; done. }
  right. apply not_Forall_Exists, Exists_exists in Hd as (t0 & [i0 Hi0]%list_elem_of_lookup & Hw0); [|apply _].
  assert (∀ n i t, ts !! i = Some t → wanted t ≠ 0%nat → (4 ≤ n + wanted t)%nat → ∃ cfg', run (m, ts) cfg') as Hind;
    [|apply (Hind 4%nat i0 t0 Hi0 Hw0); lia].
  induction n as [|n IH]; intros i t Hi Hw Hn.
  { unfold wanted in Hn. destruct (code t) as [|[]| |]; cbn in Hn; lia. }
  destruct (fire i (m, ts)) as [cfg'|] eqn:Ef; [exists cfg'; by exists i|].
  destruct (fire_blocked m ts i t Hi Ef) as [Hc|(l & md & k & j & u & Hc & Hu & Hf)].
  { unfold wanted in Hw. by rewrite Hc in Hw. }
  apply orderly_higher in Hf; [|by eapply Forall_lookup_1].
  assert (wanted t = S (rank l)) as Ht by (unfold wanted; by rewrite Hc).
  apply (IH j u); [done|lia..].
Qed.

(** The actions left in every task. *)
Definition left_in (ns : list nat) (ts : list task) : Prop := Forall2 (λ n t, takes n (code t)) ns ts.

Lemma takes_acts m m' t t' n : takes n (code t) → acts m m' t t' → ∃ n', n = S n' ∧ takes n' (code t').
Proof.
  unfold acts. destruct (code t) as [a|l md k|l md k|f k], n as [|n]; cbn; try done;
    intros Hk [-> ->]; exists n; (split; [done|apply Hk]).
Qed.

Lemma sum_list_insert ns i n n' :
  ns !! i = Some n → (sum_list (<[i := n']> ns) + n = sum_list ns + n')%nat.
Proof.
  revert i. induction ns as [|a ns IH]; intros [|i]; csimpl; [done..| |].
  - intros [= ->]. unfold id. lia.
  - intros Hi. specialize (IH i Hi). unfold id in *. lia.
Qed.

Lemma run_decreases ns cfg cfg' :
  left_in ns cfg.2 → run cfg cfg' →
  ∃ ns', left_in ns' cfg'.2 ∧ (S (sum_list ns') = sum_list ns)%nat ∧ length ns' = length ns.
Proof.
  intros Hns Hr. revert Hns. destruct Hr as [i [m ts] [m' ts'] Hf]. intros Hns.
  apply fire_inv in Hf as (t & t' & Ht & -> & Ha & _). cbn in *.
  destruct (Forall2_lookup_r _ _ _ _ _ Hns Ht) as (n & Hn & Hk).
  destruct (takes_acts _ _ _ _ _ Hk Ha) as (n' & -> & Hk').
  exists (<[i := n']> ns). split_and!.
  - by apply Forall2_insert.
  - pose proof (sum_list_insert ns i _ n' Hn). lia.
  - by rewrite length_insert.
Qed.

Lemma takes_mono n n' p : (n ≤ n')%nat → takes n p → takes n' p.
Proof.
  revert n n'. induction p as [a|l md k IH|l md k IH|f k IH]; intros [|n] [|n'] Hle; cbn; try done; try lia.
  - apply IH. lia.
  - apply IH. lia.
  - intros H m. apply (IH m n); [lia|done].
Qed.

Lemma reachable_bounded cfg : reachable cfg → left_in (replicate (length cfg.2) max_actions) cfg.2.
Proof.
  intros Hr. apply Forall2_replicate_l; [done|]. revert cfg Hr.
  apply (reachable_invariant (λ cfg, Forall (λ t, takes max_actions (code t)) cfg.2)); [constructor|].
  intros c c' HI Hs. revert HI. destruct Hs; intros HI; cbn in *; [|apply Forall_app; split; [done|]; repeat constructor; apply call_takes|done].
  eapply Forall_fire; [|done..]. intros m m' t t' Ht Ha.
  destruct (takes_acts _ _ _ _ _ Ht Ha) as (n' & E & Hk). eapply takes_mono; [|done]. lia.
Qed.

(** C34. Whatever calls the server has made on the connection manager, from
    however many tasks and at whatever moments, they never deadlock and all
    complete: a state in which no call can act is one where every call has
    returned, and without new calls that state is reached within 24 actions
    per call, whatever the scheduler does. *)
Theorem calls_complete cfg :
  reachable cfg →
  (∀ n cfg', nsteps run n cfg cfg' → (n ≤ max_actions * length cfg.2)%nat) ∧
  (∀ cfg', rtc run cfg cfg' → finished cfg' ∨ ∃ cfg'', run cfg' cfg'') ∧
  (∃ cfg', rtc run cfg cfg' ∧ finished cfg').
Proof.
  intros Hr.
  assert (∀ c', rtc run cfg c' → finished c' ∨ ∃ c'', run c' c'') as Hprog.
  { intros c' Hrun. assert (reachable c') as Hr'.
    { destruct Hr as [mail Hr]. exists mail. etransitivity; [done|].
      eapply rtc_congruence with (f := λ c, c); [|done]. intros; by apply step_run. }
    destruct c'. apply orderly_progress, (reachable_orderly _ Hr'). }
  assert (∀ n c c' ns, left_in ns c.2 → nsteps run n c c' →
    ∃ ns', left_in ns' c'.2 ∧ (n + sum_list ns' = sum_list ns)%nat) as Hdec.
  { intros n. induction n as [|n IH]; intros c c' ns Hns Hn; inversion Hn as [|? ? c1 ? Hc Hn']; subst.
    - by exists ns.
    - destruct (run_decreases ns c c1 Hns Hc) as (ns1 & H1 & H2 & _).
      destruct (IH _ _ _ H1 Hn') as (ns' & ? & ?). exists ns'. split; [done|lia]. }
  pose proof (reachable_bounded cfg Hr) as Hb.
  assert (sum_list (replicate (length cfg.2) max_actions) = max_actions * length cfg.2)%nat as Hsum.
  { rewrite sum_list_replicate. lia. }
  split_and!; [|done|].
  - intros n c' Hn. destruct (Hdec _ _ _ _ Hb Hn) as (ns' & _ & ?). lia.
  - assert (∀ k ns c, left_in ns c.2 → (sum_list ns ≤ k)%nat → rtc run cfg c →
      ∃ c', rtc run c c' ∧ finished c') as Hfin; [|by eapply Hfin].
    induction k as [|k IH]; intros ns c Hns Hk Hc;
      (destruct (Hprog c Hc) as [?|[c1 Hc1]]; [by exists c|]);
      destruct (run_decreases ns c c1 Hns Hc1) as (ns1 & H1 & H2 & _); [lia|].
    destruct (IH ns1 c1 H1) as (c' & ? & ?); [lia|by eapply rtc_r|].
    exists c'. split; [by eapply rtc_l|done].
Qed.

(** ** Safety under interleaving

    A user entry without its listener is a broken pair.  A task may leave
    broken pairs behind only while it still has to repair them: [repairs]
    says so of a program, [owed] being the pairs it has to repair and [view]
    what it knows of the channel map while it holds its lock. *)

Definition broken (m : Manager) (x : string * string) : Prop :=
  x.1 ∈ under x.2 (user_subscriptions m) ∧ ¬ listens m x.1 x.2.

Definition knows (view : option subs) (m : Manager) : Prop :=
  ∀ t, view = Some t → channel_subscriptions m = t.

Fixpoint repairs (view : option subs) (owed : string * string → Prop)
    (held : list (lock * mode)) (p : prog unit) : Prop :=
  match p with
  | Done _ => ∀ x, ¬ owed x
  | Acquire l md k => repairs view owed ((l, md) :: held) k
  | Release l md k =>
      repairs (if decide (l = ChannelSubs) then None else view) owed (remove_one (l, md) held) k
  | Access f k => ∀ m, knows view m →
      (channel_subscriptions (f m) ≠ channel_subscriptions m → (ChannelSubs, Write) ∈ held) ∧
      ∃ view' owed',
        knows view' (f m) ∧
        (view' ≠ None → ChannelSubs ∈ held.*1) ∧
        (∀ x, broken (f m) x → owed' x ∨ (broken m x ∧ ¬ owed x)) ∧
        repairs view' owed' held (k m)
  end.

Definition nothing : string * string → Prop := λ _, False.

Lemma repairs_acquire view owed held l md k :
  repairs view owed ((l, md) :: held) k → repairs view owed held (Acquire l md k).
Proof. done. Qed.

Lemma repairs_release owed held l md k :
  repairs None owed held k → repairs None owed ((l, md) :: held) (Release l md k).
Proof.
  cbn [repairs remove_one]. destruct (decide ((l, md) = (l, md))); [|done]. by destruct (decide (l = _)).
Qed.

(** An access that changes neither of the two maps. *)
Lemma repairs_neutral f k held :
  (∀ m, user_subscriptions (f m) = user_subscriptions m) →
  (∀ m, channel_subscriptions (f m) = channel_subscriptions m) →
  (∀ m, repairs None nothing held (k m)) →
  repairs None nothing held (Access f k).
Proof.
  intros Hu Hc Hr m _. split; [by rewrite Hc|]. exists None, nothing. split_and!; [done|done| |done].
  intros x [H1 H2]. right. split; [|by intros []]. unfold broken, listens. by rewrite <- Hu, <- Hc.
Qed.

Ltac calm :=
  repeat lazymatch goal with
    | |- repairs ?v ?o ?h ?p =>
        let p' := eval hnf in p in
        lazymatch p' with
        | Acquire _ _ _ => apply repairs_acquire
        | Release _ _ _ => apply repairs_release
        | Access _ _ => let m := fresh "m" in apply repairs_neutral; [by intros []..|intros m]
        | Done _ => by intros ? []
        end
    end.

Lemma drop_subscriptions_repairs p (k : prog unit) :
  repairs None nothing [] k → repairs None nothing [] (drop_subscriptions p;; k).
Proof.
  intros Hk. calm. destruct (user_subscriptions m !! p) as [cs|]; [|done]. apply repairs_acquire.
  intros m1 _. split; [by left|]. exists None, (λ x, x.2 = p ∧ x.1 ∈ cs). split_and!; [done|done| |].
  { intros [c q] [Hin Hn]. cbn in *. destruct (decide (q = p ∧ c ∈ cs)) as [[-> ?]|Hd]; [by left|right].
    split; [|by intros []]. split; [done|]. intros Hl. apply Hn. apply elem_drop_listener. naive_solver. }
  apply repairs_release, repairs_acquire.
  intros m2 _. split; [done|]. exists None, nothing. split_and!; [done|done| |by apply repairs_release].
  intros [c q] [Hin Hn]. cbn in *. apply elem_delete in Hin as [Hin Hne]. right. split; [done|]. naive_solver.
Qed.

Lemma subscribe_repairs c p : repairs None nothing [] (subscribe c p).
Proof.
  apply repairs_acquire. intros m _. split; [by left|].
  exists (Some (sub_insert c p (channel_subscriptions m))), nothing. split_and!; [by intros ? [= <-]|by left| |].
  { intros [c' p'] [Hin Hn]. right. split; [|by intros []]. split; [done|]. intros Hl. apply Hn.
    apply elem_sub_insert. by right. }
  apply repairs_acquire. intros m1 Hm1. split; [done|].
  exists None, nothing. split_and!; [done|done| |calm].
  intros [c' p'] [Hin Hn]. cbn in *. right. split; [|by intros []]. unfold broken, listens in *. cbn in *.
  split; [|done]. apply elem_sub_insert in Hin as [[-> ->]|Hin]; [|done].
  exfalso. apply Hn. rewrite (Hm1 _ eq_refl). apply elem_sub_insert. by left.
Qed.

Lemma unsubscribe_repairs c p : repairs None nothing [] (unsubscribe c p).
Proof.
  apply repairs_acquire. intros m _. split; [by left|].
  exists None, (λ x, x = (c, p)). split_and!; [done|done| |].
  { intros [c' p'] [Hin Hn]. unfold broken, listens in *. cbn in *.
    destruct (decide ((c', p') = (c, p))) as [?|Hne]; [by left|right]. split; [|by intros []].
    split; [done|]. intros Hl. apply Hn, elem_sub_remove. naive_solver. }
  apply repairs_acquire. intros m1 _. split; [done|].
  exists None, nothing. split_and!; [done|done| |calm].
  intros [c' p'] [Hin Hn]. cbn in *. apply elem_sub_remove in Hin as [Hin Hne]. right. split; [done|]. naive_solver.
Qed.

#[local] Opaque drop_subscriptions.
Lemma remove_session_repairs p id : repairs None nothing [] (remove_session p id).
Proof. calm. case_decide; calm. apply drop_subscriptions_repairs. calm. Qed.

Lemma call_repairs q : repairs None nothing [] (call_code q).
Proof.
  destruct q; cbn [call_code];
    [|apply remove_session_repairs| |apply subscribe_repairs|apply unsubscribe_repairs| |calm].
  - calm. case_bool_decide; calm. apply drop_subscriptions_repairs. calm.
  - calm. case_match; [apply remove_session_repairs|calm].
  - calm. case_match; calm.
Qed.
#[local] Transparent drop_subscriptions.

(** No lock is held by one task for writing and by another at all. *)
Definition exclusive (ts : list task) : Prop :=
  ∀ i j t u l, i ≠ j → ts !! i = Some t → ts !! j = Some u →
    (l, Write) ∈ held t → l ∉ (held u).*1.

Lemma free_for_no_write l t : free_for l Read t = true → (l, Write) ∉ held t.
Proof.
  unfold free_for. rewrite forallb_forall. intros H Hin%list_elem_of_In%H. unfold conflicts in Hin.
  cbn in Hin. case_bool_decide; [|done]. cbn in Hin. by case_bool_decide; naive_solver.
Qed.

Lemma free_for_write l t : free_for l Write t = true → l ∉ (held t).*1.
Proof.
  unfold free_for. rewrite forallb_forall. intros H ([l' md] & E & Hin%list_elem_of_In%H)%list_elem_of_fmap.
  cbn in E. subst l'. unfold conflicts in Hin. cbn in Hin. case_bool_decide; [|done]. by case_bool_decide; naive_solver.
Qed.

Lemma elem_remove_one {A} `{EqDecision A} (x y : A) l : y ∈ remove_one x l → y ∈ l.
Proof. induction l as [|z l IH]; cbn; [done|]. case_decide; set_solver. Qed.

Lemma exclusive_insert ts i t t' :
  exclusive ts → ts !! i = Some t →
  (∀ h, h ∈ held t' → h ∈ held t ∨
     ∀ j u, j ≠ i → ts !! j = Some u → (h.1, Write) ∉ held u ∧ (h.2 = Write → h.1 ∉ (held u).*1)) →
  exclusive (<[i := t']> ts).
Proof.
  intros He Ht Hh a b ta tb l Hab Ha Hb Hw.
  pose proof (lookup_lt_Some _ _ _ Ht) as Hi.
  destruct (decide (a = i)) as [->|Hai]; [|destruct (decide (b = i)) as [->|Hbi]].
  - rewrite list_lookup_insert_eq in Ha by done. rewrite list_lookup_insert_ne in Hb by done. simplify_eq.
    destruct (Hh _ Hw) as [Hin|Hn]; [by eapply He|]. by apply (Hn b tb); [|done|].
  - rewrite list_lookup_insert_eq in Hb by done. rewrite list_lookup_insert_ne in Ha by done. simplify_eq.
    intros ([l' md] & E & Hin)%list_elem_of_fmap. cbn in E. subst l'. destruct (Hh _ Hin) as [Hin'|Hn].
    + eapply (He a i ta t); [done..|]. by apply (list_elem_of_fmap_2 fst) in Hin'.
    + by destruct (Hn a ta Hai Ha) as [? _].
  - rewrite list_lookup_insert_ne in Ha by done. rewrite list_lookup_insert_ne in Hb by done. by eapply (He a b).
Qed.

Lemma fire_exclusive cfg cfg' : run cfg cfg' → exclusive cfg.2 → exclusive cfg'.2.
Proof.
  intros [i [m ts] [m' ts'] Hf] He. apply fire_inv in Hf as (t & t' & Ht & -> & Ha & Hfree).
  cbn in *. eapply exclusive_insert; [done..|]. unfold acts in Ha.
  destruct (code t) as [a|l md k|l md k|f k]; [done|..]; destruct Ha as [-> ->]; cbn.
  - intros h [->|?]%elem_of_cons; [|by left]. right. intros j u Hj Hu. cbn.
    specialize (Hfree _ _ _ eq_refl j u Hj Hu). destruct md; split.
    + by apply free_for_no_write.
    + done.
    + intros Hin. apply (free_for_write _ _ Hfree). by apply (list_elem_of_fmap_2 fst) in Hin.
    + intros _. by apply free_for_write.
  - intros h Hh%elem_remove_one. by left.
  - by left.
Qed.

Abbreviation ghost := (option subs * (string * string → Prop))%type.
Definition paired (m : Manager) (g : ghost) (t : task) : Prop :=
  repairs g.1 g.2 (held t) (code t) ∧ knows g.1 m ∧ (g.1 ≠ None → ChannelSubs ∈ (held t).*1).
Definition accounted (cfg : config) : Prop :=
  exclusive cfg.2 ∧ ∃ gs, Forall2 (paired cfg.1) gs cfg.2 ∧
    ∀ x, broken cfg.1 x → ∃ i g, gs !! i = Some g ∧ g.2 x.

(** An action of one task: the others keep what they know. *)
Lemma paired_acts m m' t t' g :
  paired m g t → acts m m' t t' →
  ∃ g', paired m' g' t' ∧
    (channel_subscriptions m' ≠ channel_subscriptions m → (ChannelSubs, Write) ∈ held t) ∧
    (∀ x, broken m' x → g'.2 x ∨ (broken m x ∧ ¬ g.2 x) ∨ (m' = m ∧ g'.2 = g.2)).
Proof.
  unfold paired, acts. destruct g as [view owed].
  destruct (code t) as [a|l md k|l md k|f k]; [done|..]; cbn; intros (Hr & Hk & Hv) [-> ->].
  - exists (view, owed). cbn. split_and!; [done..|set_solver|done|by auto].
  - exists (if decide (l = ChannelSubs) then None else view, owed). cbn. split_and!; [done|..|done|by auto].
    + by case_decide.
    + case_decide as Hl; [done|]. intros Hin%Hv. clear -Hin Hl. induction (held t) as [|h hs IH]; cbn in *; [done|].
      case_decide; subst; cbn in *; set_solver.
  - destruct (Hr m Hk) as (H1 & view' & owed' & H2 & H3 & H4 & H5).
    exists (view', owed'). cbn. split_and!; [done..|]. intros x Hx. destruct (H4 x Hx); auto.
Qed.

Lemma run_accounted cfg cfg' : run cfg cfg' → accounted cfg → accounted cfg'.
Proof.
  intros Hr [He (gs & Hgs & Hb)]. pose proof (fire_exclusive _ _ Hr He) as He'.
  revert He Hgs Hb He'. destruct Hr as [i [m ts] [m' ts'] Hf]. intros He Hgs Hb He'.
  apply fire_inv in Hf as (t & t' & Ht & -> & Ha & _). cbn in *.
  destruct (Forall2_lookup_r _ _ _ _ _ Hgs Ht) as (g & Hg & Hp).
  destruct (paired_acts _ _ _ _ _ Hp Ha) as (g' & Hp' & Hch & Hbr).
  pose proof (lookup_lt_Some _ _ _ Ht) as Hit. pose proof (lookup_lt_Some _ _ _ Hg) as Hig.
  split; [done|]. exists (<[i := g']> gs). cbn. split.
  - apply Forall2_same_length_lookup_2; [rewrite !length_insert; by eapply Forall2_length|].
    intros j g1 t1 Hg1 Ht1. destruct (decide (j = i)) as [->|Hne].
    { rewrite list_lookup_insert_eq in Hg1 by done. rewrite list_lookup_insert_eq in Ht1 by done. by simplify_eq. }
    rewrite list_lookup_insert_ne in Hg1 by done. rewrite list_lookup_insert_ne in Ht1 by done.
    destruct (Forall2_lookup_lr _ _ _ _ _ _ Hgs Hg1 Ht1) as (H1 & H2 & H3). split_and!; [done| |done].
    destruct (decide (channel_subscriptions m' = channel_subscriptions m)) as [E|E].
    + unfold knows. by rewrite E.
    + intros v Hv. exfalso. eapply (He i j); [done..| |apply H3; congruence]. by apply Hch.
  - intros x Hx.
    assert (∀ j g1, gs !! j = Some g1 → g1.2 x → ¬ g.2 x ∨ g'.2 x →
      ∃ j g1, <[i := g']> gs !! j = Some g1 ∧ g1.2 x) as Hkeep.
    { intros j g1 Hj Hgx Hn. destruct (decide (j = i)) as [->|Hne].
      - simplify_eq. destruct Hn; [done|]. exists i, g'. by rewrite list_lookup_insert_eq.
      - exists j, g1. by rewrite list_lookup_insert_ne. }
    destruct (Hbr x Hx) as [Hx'|[[Hbx Hn]|[-> Hsame]]].
    + exists i, g'. by rewrite list_lookup_insert_eq.
    + destruct (Hb x Hbx) as (j & g1 & Hj & Hgx). eauto.
    + destruct (Hb x Hx) as (j & g1 & Hj & Hgx). destruct (decide (j = i)) as [->|Hne].
      * simplify_eq. exists i, g'. rewrite list_lookup_insert_eq by done. by rewrite Hsame.
      * exists j, g1. by rewrite list_lookup_insert_ne.
Qed.

Lemma reachable_accounted cfg : reachable cfg → accounted cfg.
Proof.
  apply reachable_invariant.
  - intros mail. split; [by intros [] ?|]. exists []. split; [constructor|].
    intros x [Hx _]. unfold under in Hx. cbn in Hx. rewrite lookup_empty in Hx. set_solver.
  - intros c c' HI Hs. revert HI. destruct Hs as [c c' Hr|q m ts|h b m ts]; intros [He (gs & Hgs & Hb)].
    + apply (run_accounted _ _ Hr). split; [done|eauto].
    + cbn in *. split.
      * intros i j t u l Hij Ht Hu Hw.
        apply lookup_snoc_Some in Ht as [[_ Ht]|[_ <-]]; [|by apply not_elem_of_nil in Hw].
        apply lookup_snoc_Some in Hu as [[_ Hu]|[_ <-]]; [by eapply He|]. apply not_elem_of_nil.
      * exists (gs ++ [(None, nothing)]). cbn. split.
        -- apply Forall2_app; [done|]. repeat constructor; [apply call_repairs|done|done].
        -- intros x Hx. destruct (Hb x Hx) as (i & g & Hg & ?). exists i, g. split; [|done].
           by apply lookup_app_l_Some.
    + split; [done|]. exists gs. split; [|done]. exact Hgs.
Qed.

(** An invariant of the shared maps that every single access preserves. *)
Fixpoint keeps (I : Manager → Prop) (p : prog unit) : Prop :=
  match p with
  | Done _ => True
  | Acquire _ _ k | Release _ _ k => keeps I k
  | Access f k => ∀ m, (I m → I (f m)) ∧ keeps I (k m)
  end.

Lemma reachable_keeps (I : Manager → Prop) cfg :
  (∀ q, keeps I (call_code q)) → (∀ mail, I (Manager_new mail)) → (∀ f m, I m → I (set_mailboxes f m)) →
  reachable cfg → I cfg.1.
Proof.
  intros Hq Hn Hm Hr. enough (I cfg.1 ∧ Forall (λ t, keeps I (code t)) cfg.2) as [? _]; [done|].
  revert cfg Hr. apply reachable_invariant; [intros mail; split; [apply Hn|constructor]|].
  intros c c' HI Hs. revert HI. destruct Hs as [c c' [i [m ts] [m' ts'] Hf]|q m ts|h b m ts]; intros [Hi Hk]; cbn in *.
  - apply fire_inv in Hf as (t & t' & Ht & -> & Ha & _).
    pose proof (Forall_lookup_1 _ _ _ _ Hk Ht) as Hkt. cbn in Hkt. unfold acts in Ha.
    destruct (code t) as [a|l md k|l md k|f k]; [done|..]; destruct Ha as [-> ->]; cbn in Hkt;
      (split; [|apply Forall_insert]); try done; by apply (Hkt m).
  - split; [done|]. apply Forall_app. split; [done|]. repeat constructor. apply Hq.
  - split; [by apply Hm|done].
Qed.

Definition both_no_empty (m : Manager) : Prop :=
  no_empty (channel_subscriptions m) ∧ no_empty (user_subscriptions m).

Lemma call_no_empty q : keeps both_no_empty (call_code q).
Proof.
  destruct q; walk_call; match goal with H : both_no_empty _ |- _ => destruct H; split; cbn end;
    auto using no_empty_insert, no_empty_remove, no_empty_drop, no_empty_delete.
Qed.

(** C19. Under any interleaving of any calls, the two subscription maps never
    hold an empty set, and in every state where no call is under way each
    channel in a user's entry really has that user as a listener: a
    subscription the manager has recorded is one that broadcasts reach. *)
Theorem recorded_subscriptions_listen cfg :
  reachable cfg →
  no_empty (channel_subscriptions cfg.1) ∧ no_empty (user_subscriptions cfg.1) ∧
  (finished cfg → ∀ c p, c ∈ under p (user_subscriptions cfg.1) → listens cfg.1 c p).
Proof.
  intros Hr. destruct (reachable_keeps both_no_empty cfg call_no_empty) as [H1 H2]; [by split; apply map_Forall_empty|by intros ? []|done|]. split_and!; [done..|].
  intros Hf c p Hin. destruct (decide (listens cfg.1 c p)) as [?|Hn]; [done|exfalso].
  destruct (reachable_accounted _ Hr) as [_ (gs & Hgs & Hb)].
  destruct (Hb (c, p)) as (i & g & Hg & Ho); [by split|].
  destruct (Forall2_lookup_l _ _ _ _ _ Hgs Hg) as (t & Ht & (Hrep & _)).
  rewrite (Forall_lookup_1 _ _ _ _ Hf Ht) in Hrep. by apply (Hrep (c, p)).
Qed.

(** Run one at a time, the methods keep the two subscription maps mirror
    images of each other and do what their names say: [subscribe] and
    [unsubscribe] change exactly one pair; [add_session] replaces the session
    and, when there was one, drops the user's subscriptions; [remove_session]
    with the current id ends the session and all of the user's subscriptions,
    and with any other id does nothing; [disconnect_user] ends whatever
    session there is. *)
Theorem manager_methods_spec m c p id h :
  consistent m →
  let after q := (alone (call_code q) m).2 in
  let gone m' := ∀ c' p', listens m' c' p' ↔ listens m c' p' ∧ p' ≠ p in
  (consistent (after (CallSubscribe c p)) ∧ same_sessions m (after (CallSubscribe c p)) ∧
   ∀ c' p', listens (after (CallSubscribe c p)) c' p' ↔ listens m c' p' ∨ (c' = c ∧ p' = p)) ∧
  (consistent (after (CallUnsubscribe c p)) ∧ same_sessions m (after (CallUnsubscribe c p)) ∧
   ∀ c' p', listens (after (CallUnsubscribe c p)) c' p' ↔ listens m c' p' ∧ ¬ (c' = c ∧ p' = p)) ∧
  (consistent (after (CallAddSession id p h)) ∧
   mailboxes (after (CallAddSession id p h)) = mailboxes m ∧
   sessions (after (CallAddSession id p h)) = <[p := (id, h)]> (sessions m) ∧
   ∀ c' p', listens (after (CallAddSession id p h)) c' p' ↔
     listens m c' p' ∧ (p' = p → sessions m !! p = None)) ∧
  (consistent (after (CallRemoveSession p id)) ∧
   mailboxes (after (CallRemoveSession p id)) = mailboxes m ∧
   if decide (fst <$> sessions m !! p = Some id)
   then sessions (after (CallRemoveSession p id)) = delete p (sessions m) ∧
        gone (after (CallRemoveSession p id))
   else after (CallRemoveSession p id) = m) ∧
  (consistent (after (CallDisconnectUser p)) ∧
   mailboxes (after (CallDisconnectUser p)) = mailboxes m ∧
   if decide (sessions m !! p = None) then after (CallDisconnectUser p) = m
   else sessions (after (CallDisconnectUser p)) = delete p (sessions m) ∧
        gone (after (CallDisconnectUser p))).
Proof.
  intros Hm after gone. subst after gone. cbv beta. split; [|split; [|split; [|split]]].
  - by apply subscribe_alone.
  - by apply unsubscribe_alone.
  - by apply add_session_alone.
  - by apply remove_session_alone.
  - change ((alone (call_code (CallDisconnectUser p)) m).2) with
      (alone (match fst <$> sessions m !! p with
              | Some id => remove_session p id | None => mret () end) m).2.
    case_decide as Hs; [by rewrite Hs|].
    destruct (sessions m !! p) as [[id' h']|] eqn:E; [|done]. cbn [fmap option_fmap option_map fst].
    pose proof (remove_session_alone p id' m Hm) as Hr. rewrite E in Hr.
    cbn [fmap option_fmap option_map fst] in Hr. by rewrite decide_True in Hr.
Qed.

(** A broadcast reaches exactly the connected listeners of the channel:
    the message is appended to the mailbox of every session whose user listens
    there, unless that mailbox is closed or already holds 256 messages, in
    which case it is dropped; no other mailbox and none of the maps change,
    and no mailbox ever outgrows its capacity. *)
Theorem broadcast_spec c msg m h :
  own_mailbox m →
  let m' := (alone (broadcast c msg) m).2 in
  ((∃ p id, listens m c p ∧ sessions m !! p = Some (id, h)) →
     mailboxes m' !! h = pushed msg <$> mailboxes m !! h) ∧
  ((∀ p id, listens m c p → sessions m !! p ≠ Some (id, h)) →
     mailboxes m' !! h = mailboxes m !! h) ∧
  sessions m' = sessions m ∧
  channel_subscriptions m' = channel_subscriptions m ∧
  user_subscriptions m' = user_subscriptions m ∧
  (∀ b b', mailboxes m !! h = Some b → (length (queue b) ≤ CHANNEL_CAPACITY)%nat →
     mailboxes m' !! h = Some b' → (length (queue b') ≤ CHANNEL_CAPACITY)%nat).
Proof.
  intros Hown. rewrite broadcast_alone. cbn.
  destruct (send_all_spec m msg (elements (under c (channel_subscriptions m))) (mailboxes m) h Hown
    (NoDup_elements _)) as [H1 H2].
  assert (Hin : (∃ p id, listens m c p ∧ sessions m !! p = Some (id, h)) →
    foldr (send_to m msg) (mailboxes m) (elements (under c (channel_subscriptions m))) !! h =
    pushed msg <$> mailboxes m !! h).
  { intros (p & id & Hl & Hs). apply H1. exists p, id. by rewrite elem_of_elements. }
  assert (Hout : (∀ p id, listens m c p → sessions m !! p ≠ Some (id, h)) →
    foldr (send_to m msg) (mailboxes m) (elements (under c (channel_subscriptions m))) !! h =
    mailboxes m !! h).
  { intros Hn. apply H2. intros p id Hp. rewrite elem_of_elements in Hp. by apply Hn. }
  split_and!; [done..|]. intros b b' Hb Hlen Hb'.
  assert (b' = b ∨ b' = pushed msg b) as [->| ->]; [|done|].
  { destruct (decide (Exists (λ p, snd <$> sessions m !! p = Some h)
      (elements (under c (channel_subscriptions m))))) as [HE|HE].
    - right. apply Exists_exists in HE as (p & Hp & Hs). rewrite elem_of_elements in Hp.
      destruct (sessions m !! p) as [[id h']|] eqn:E; [|done]. cbn in Hs. simplify_eq.
      rewrite Hin, Hb in Hb' by eauto. by simplify_eq/=.
    - left. rewrite Hout, Hb in Hb'; [by simplify_eq|]. intros p id Hl Hs. apply HE.
      apply Exists_exists. exists p. by rewrite elem_of_elements, Hs. }
  unfold pushed. case_match eqn:E; [done|]. cbn. rewrite length_app. cbn.
  apply orb_false_iff in E as [_ E%bool_decide_eq_false]. lia.
Qed.

(** ** Runs *)

(** A schedule: which call starts, or which task acts, next. *)
Inductive event := Start (q : call) | Act (i : nat).
Definition play (e : event) (cfg : config) : option config :=
  match e with
  | Start q => Some (cfg.1, cfg.2 ++ [spawn q])
  | Act i => fire i cfg
  end.
Fixpoint play_all (es : list event) (cfg : config) : option config :=
  match es with [] => Some cfg | e :: es => cfg' ← play e cfg; play_all es cfg' end.

Lemma play_all_reachable es cfg cfg' : reachable cfg → play_all es cfg = Some cfg' → reachable cfg'.
Proof.
  revert cfg. induction es as [|e es IH]; intros cfg Hr; cbn; [by intros [= <-]|].
  intros (c1 & He & Hes)%bind_Some. apply (IH c1); [|done]. destruct Hr as [mail Hr]. exists mail.
  eapply rtc_r; [done|]. destruct e as [q|i]; cbn in He.
  - simplify_eq. destruct cfg. apply step_spawn.
  - apply step_run. by exists i.
Qed.

(** Let the newest task run to its end. *)
Definition whole (i n : nat) (q : call) : list event := Start q :: replicate n (Act i).

Definition two_mailboxes : gmap nat Mailbox :=
  {[ 1%nat := {| queue := []; closed := false |}; 2%nat := {| queue := []; closed := false |} ]}.

(** A user's second socket replaces the session of the first and closes; then
    the first socket, still open, subscribes and closes. *)
Definition replaced_socket : list event :=
  whole 0 6 (CallAddSession 1 "alice" 1) ++ whole 1 9 (CallAddSession 2 "alice" 2) ++
  whole 2 7 (CallRemoveSession "alice" 2) ++ whole 3 6 (CallSubscribe "c" "alice") ++
  whole 4 3 (CallRemoveSession "alice" 1).

(** The first socket subscribes while the removal of the second one's session
    is between its last two steps. *)
Definition late_subscribe : list event :=
  whole 0 6 (CallAddSession 1 "alice" 1) ++ whole 1 9 (CallAddSession 2 "alice" 2) ++
  whole 2 6 (CallSubscribe "c1" "alice") ++
  whole 3 10 (CallRemoveSession "alice" 2) ++ whole 4 6 (CallSubscribe "c2" "alice") ++
  replicate 3 (Act 3).

Ltac by_eval := refine (bool_decide_unpack _ _); vm_compute; exact I.

(** What is left of [cfg] when every call has returned, in short. *)
Definition quiet (cfg : config) : bool :=
  forallb (λ t, match code t with Done _ => true | _ => false end) cfg.2.

Lemma quiet_finished cfg : quiet cfg = true → finished cfg.
Proof.
  unfold quiet, finished. rewrite forallb_forall. intros H. apply Forall_forall. intros t Ht%list_elem_of_In%H.
  by destruct (code t) as [[]| | |].
Qed.

(** A listener may outlive the session it belongs to.  In a first run,
    calls one after the other, a socket that was replaced subscribes after
    the newer socket has gone; in a second, the subscription falls between
    the last two steps of [remove_session], and even the user's own entry no
    longer knows of it, so that no later clean-up finds it.  In both every
    call has returned, the user has no session, and is still a listener; a
    session the user opens next receives the channel without subscribing. *)
Theorem listener_without_session :
  ∃ cfg1 cfg2, reachable cfg1 ∧ finished cfg1 ∧ reachable cfg2 ∧ finished cfg2 ∧
    sessions cfg1.1 = ∅ ∧ listens cfg1.1 "c" "alice" ∧
    sessions cfg2.1 = ∅ ∧ listens cfg2.1 "c2" "alice" ∧
    user_subscriptions cfg2.1 !! "alice" = None ∧
    ∀ c, c = "c2" →
      listens (alone (add_session 3 "alice" 1) cfg2.1).2 c "alice" ∧
      ∃ b, mailboxes (alone (add_session 3 "alice" 1;; broadcast c "m") cfg2.1).2 !! 1%nat = Some b ∧
           queue b = ["m"].
Proof.
  destruct (play_all replaced_socket (start two_mailboxes)) as [cfg1|] eqn:E1; [|by vm_compute in E1].
  destruct (play_all late_subscribe (start two_mailboxes)) as [cfg2|] eqn:E2; [|by vm_compute in E2].
  exists cfg1, cfg2.
  assert (∀ es cfg, play_all es (start two_mailboxes) = Some cfg → reachable cfg) as Hr.
  { intros es cfg. apply play_all_reachable. by exists two_mailboxes. }
  pose proof (Hr _ _ E1). pose proof (Hr _ _ E2). clear Hr.
  vm_compute in E1, E2. simplify_eq.
  split_and!; try done; try (by apply quiet_finished); try (by_eval).
  intros c ->. split; [by_eval|].
  eexists. split; [by vm_compute|done].
Qed.

(** ** Witnesses *)

Definition alice_listens : Manager :=
  (alone (add_session 1 "alice" 1;; subscribe "c" "alice") (Manager_new two_mailboxes)).2.

Lemma alice_consistent : consistent alice_listens.
Proof.
  assert (consistent (alone (add_session 1 "alice" 1) (Manager_new two_mailboxes)).2) as H
    by (apply add_session_alone, consistent_new).
  unfold alice_listens. rewrite alone_bind. by apply subscribe_alone.
Qed.

Lemma alice_mailbox : own_mailbox alice_listens.
Proof.
  assert (sessions alice_listens = {[ "alice" := (1%Z, 1%nat) ]}) as E by (by vm_compute).
  intros p1 p2 id1 id2 h. rewrite E. intros [<- _]%lookup_singleton_Some [<- _]%lookup_singleton_Some. done.
Qed.

Lemma alice_reachable : reachable (start two_mailboxes).
Proof. by exists two_mailboxes. Qed.

Lemma calls_complete_witness :
  ∃ cfg, play_all (take 30 late_subscribe) (start two_mailboxes) = Some cfg ∧
    ∃ cfg', rtc run cfg cfg' ∧ finished cfg'.
Proof.
  assert (is_Some (play_all (take 30 late_subscribe) (start two_mailboxes))) as [cfg E].
  { apply (bool_decide_unpack (is_Some _)). by vm_compute. }
  exists cfg. split; [exact E|].
  exact (proj2 (proj2 (calls_complete cfg (play_all_reachable _ _ _ alice_reachable E)))).
Defined.

Lemma recorded_subscriptions_listen_witness :
  ∃ cfg, play_all replaced_socket (start two_mailboxes) = Some cfg ∧ finished cfg ∧
    listens cfg.1 "c" "alice".
Proof.
  destruct (play_all replaced_socket (start two_mailboxes)) as [cfg|] eqn:E; [|by vm_compute in E].
  exists cfg. split; [done|].
  assert (finished cfg ∧ "c" ∈ under "alice" (user_subscriptions cfg.1)) as [Hf Hin].
  { vm_compute in E. simplify_eq. split; [by apply quiet_finished|by_eval]. }
  split; [done|].
  exact (proj2 (proj2 (recorded_subscriptions_listen cfg (play_all_reachable _ _ _ alice_reachable E))) Hf _ _ Hin).
Defined.

Lemma manager_methods_spec_witness :
  consistent alice_listens ∧ sessions (alone (call_code (CallDisconnectUser "alice")) alice_listens).2 = ∅.
Proof.
  split; [apply alice_consistent|].
  destruct (manager_methods_spec alice_listens "c" "alice" 1 1 alice_consistent) as (_ & _ & _ & _ & _ & _ & H).
  rewrite decide_False in H by (by vm_compute). by rewrite (proj1 H).
Defined.

Lemma broadcast_spec_witness :
  own_mailbox alice_listens ∧
  mailboxes (alone (broadcast "c" "hi") alice_listens).2 !! 1%nat =
    Some {| queue := ["hi"]; closed := false |}.
Proof.
  split; [apply alice_mailbox|].
  destruct (broadcast_spec "c" "hi" alice_listens 1 alice_mailbox) as [H _].
  rewrite H; [by vm_compute|]. exists "alice", 1%Z. split; [|done]. by_eval.
Defined.
