(* ===== verification/Handlers.v ===== *)
(** * Handlers: what the request handlers of the server share

    A handler works on its part [D] of the database and sends things: public
    events and presence events on the broadcast channels of the AppState
    (crates/annex-server/src/lib.rs), texts to WebSocket sessions, requests to
    other servers.  [effects] lists what was sent, in order.  A transaction
    covers the database only: what was sent stays sent when it rolls back. *)

From S2P Require Import Prelude Sql Types Observe.

#[local] Open Scope Z_scope.

Inductive effect :=
  | EventSent (e : PublicEvent)                 (* observe_tx.send *)
  | PresenceSent (e : PresenceEvent.t)          (* presence_tx.send *)
  | WsSent (pseudonym json : string)            (* connection_manager.send *)
  | WsBroadcast (channel json : string)         (* connection_manager.broadcast *)
  | Posted (url json : string).                 (* reqwest post *)

Record State (D : Type) := { db : D; effects : list effect }.
Arguments Build_State {D} _ _.
Arguments db {D} _.
Arguments effects {D} _.

Definition set_db {D} (d : D) (st : State D) : State D := {| db := d; effects := effects st |}.

(** The environment of one request: which statements fail, and the clocks. *)
Record Env := {
  fault : faults;
  now : Z;
  now_rfc3339 : string;
  anchor_clock : option Z;
}.

(** The databases that hold the public event log. *)
Class HasLog (D : Type) := {
  event_log : D → table PublicEvent;
  set_log : table PublicEvent → D → D;
}.

(** Statement [k] on the database; [code] answers its failure. *)
Definition on_db {D E A} (code : sql_error → E) (env : Env) (k : nat) (m : M D sql_error A) :
    M (State D) E A :=
  catch_map code (zoom db set_db (exec (fault env) k m)).

Definition perform {D E} (e : effect) : M (State D) E unit := λ st,
  (Ok (), {| db := db st; effects := effects st ++ [e] |}).
Definition perform_all {D E} (es : list effect) : M (State D) E unit := λ st,
  (Ok (), {| db := db st; effects := effects st ++ es |}).

(** [conn.transaction()] (statement [b]) ... [tx.commit()] (statement [c]). *)
Definition db_transaction {D E A} (code : sql_error → E) (env : Env) (b c : nat) (m : M (State D) E A) :
    M (State D) E A := λ st,
  match (on_db code env b (mret ());; a ← m; on_db code env c (mret ());; mret a) st with
  | (Ok a, st') => (Ok a, st')
  | (r, st') => (r, set_db (db st) st')
  end.

(** [emit_and_broadcast], statement [k]: the event is broadcast when it could
    be written; a failure is only logged. *)
Definition emit {D E} `{HasLog D, Clock, Serde EventPayload.t} (env : Env) (k : nat) (s : Z)
    (entity : string) (payload : EventPayload.t) : M (State D) E unit := λ st,
  let sink := emit_and_broadcast (λ j, fault env (k + j)%nat) (sql_now (now env)) s entity payload
                {| log := event_log (db st); sent := [] |} in
  (Ok (), {| db := set_log (log sink) (db st); effects := effects st ++ (EventSent <$> sent sink) |}).

(** The statements from number [k] on. *)
Definition at_ (env : Env) (k : nat) : faults := λ j, fault env (k + j)%nat.

(** A call of another crate, on one part of the database. *)
Definition call {D T E E' A} (part : D → T) (upd : T → D → D) (status : E → E') (m : M T E A) : M (State D) E' A :=
  catch_map status (zoom (part ∘ db) (λ t st, set_db (upd t (db st)) st) m).

(** ** Lemmas *)

(** Every failure answers 500. *)
Definition is_500 (e : http_error) : Prop := e = 500.

Section lemmas.
Context {D E : Type}.
Implicit Types st : State D.

Lemma set_db_db st : set_db (db st) st = st.
Proof. by destruct st. Qed.

Lemma on_db_fails {A} (P : E → Prop) code env k (m : M D sql_error A) :
  (∀ e, P (code e)) → fails_only (λ _, True) m → fails_only P (on_db code env k m).
Proof.
  intros Hc Hm st. unfold on_db, exec, catch_map, zoom. destruct (fault env k); cbn; [apply Hc|].
  specialize (Hm (db st)). destruct (m (db st)) as [[a|e|] d]; cbn; [done|apply Hc|done].
Qed.

Lemma on_db_ok {A} (code : sql_error → E) env k (m : M D sql_error A) st a st' :
  on_db code env k m st = (Ok a, st') ↔
  fault env k = None ∧ ∃ d, m (db st) = (Ok a, d) ∧ st' = set_db d st.
Proof.
  unfold on_db, exec, catch_map, zoom. destruct (fault env k); cbn; [naive_solver|].
  destruct (m (db st)) as [[b|e|] d]; cbn; naive_solver.
Qed.

Lemma on_db_read {A} (code : sql_error → E) env k (f : D → A) st :
  fault env k = None → on_db code env k (λ d, (Ok (f d), d)) st = (Ok (f (db st)), st).
Proof. intros Hk. apply on_db_ok. split; [done|]. exists (db st). split; [done|]. by rewrite set_db_db. Qed.

Lemma on_db_lift {A} (code : sql_error → E) env k (a : A) st :
  on_db code env k (lift (Ok a)) st =
    (match fault env k with Some c => Err (code (SqliteFailure c)) | None => Ok a end, st).
Proof. unfold on_db, exec, catch_map, zoom. destruct (fault env k); cbn; by rewrite set_db_db. Qed.

Lemma on_db_lift_reads {A} (code : sql_error → E) env k (a : A) : reads (on_db (D := D) code env k (lift (Ok a))).
Proof. intros st. by rewrite on_db_lift. Qed.

Lemma perform_succeeds e : succeeds (perform (D := D) (E := E) e).
Proof. by eexists. Qed.
Lemma perform_all_succeeds es : succeeds (perform_all (D := D) (E := E) es).
Proof. by eexists. Qed.

(** Database work has no other effect. *)
Definition quiet {A} (m : M (State D) E A) : Prop := ∀ st, effects (m st).2 = effects st.

Lemma quiet_bind {A B} (m : M (State D) E A) (f : A → M (State D) E B) :
  quiet m → (∀ a, quiet (f a)) → quiet (m ≫= f).
Proof.
  intros Hm Hf st. unfold mbind, M_bind. specialize (Hm st). destruct (m st) as [[a|e|] st1]; [|done..].
  rewrite (Hf a st1). exact Hm.
Qed.
Lemma quiet_on_db {A} (code : sql_error → E) env k (m : M D sql_error A) : quiet (on_db code env k m).
Proof. intros st. unfold on_db, catch_map, zoom. by destruct (exec _ _ _ _). Qed.
Lemma quiet_ret {A} (a : A) : quiet (mret a).
Proof. done. Qed.
Lemma quiet_reads {A} (m : M (State D) E A) : reads m → quiet m.
Proof. intros H st. by rewrite H. Qed.

(** A transaction that fails leaves everything as it was. *)
Lemma db_transaction_fails {A} code env b c (m : M (State D) E A) st :
  quiet m → is_ok (db_transaction code env b c m st).1 = false → (db_transaction code env b c m st).2 = st.
Proof.
  intros Hm. assert (quiet (on_db code env b (mret ());; a ← m; on_db code env c (mret ());; mret a)) as Hq.
  { apply quiet_bind; [apply quiet_on_db|intros _]. apply quiet_bind; [done|intros a].
    apply quiet_bind; [apply quiet_on_db|done]. }
  specialize (Hq st). unfold db_transaction. destruct ((on_db _ env b _;; _) st) as [[x|e|] [d es]]; cbn in *; [done|..];
    intros _; destruct st; cbn in *; by subst.
Qed.

(** Whatever was sent, the database is rolled back. *)
Lemma db_transaction_rolls_back {A} code env b c (m : M (State D) E A) st o st' :
  db_transaction code env b c m st = (o, st') → is_ok o = false → db st' = db st.
Proof.
  unfold db_transaction. destruct ((on_db _ env b _;; _) st) as [[x|e|] s1]; by intros [= <- <-].
Qed.

Lemma db_transaction_ok {A} code env b c (m : M (State D) E A) st a st' :
  db_transaction code env b c m st = (Ok a, st') ↔
  fault env b = None ∧ fault env c = None ∧ m st = (Ok a, st').
Proof.
  assert ((on_db code env b (mret ());; a ← m; on_db code env c (mret ());; mret a) st =
            (Ok a, st') ↔
          fault env b = None ∧ fault env c = None ∧ m st = (Ok a, st')) as H.
  { rewrite M_bind_ok. setoid_rewrite M_bind_ok. setoid_rewrite M_bind_ok. setoid_rewrite on_db_ok.
    split.
    - intros ([] & s1 & (? & d1 & [= <-] & ->) & a1 & s2 & Hm & [] & s3 & (? & d2 & [= <-] & ->) & [= -> <-]).
      by rewrite !set_db_db in *.
    - intros (? & ? & Hm). exists (), st. split; [split; [done|]; exists (db st); by rewrite set_db_db|].
      exists a, st'. split; [done|]. exists (), st'.
      split; [split; [done|]; exists (db st'); by rewrite set_db_db|done]. }
  unfold db_transaction. rewrite <- H.
  destruct ((on_db _ env b _;; _) st) as [[x|e|] s1]; split; naive_solver.
Qed.

(** A transaction commits or leaves the database as it was. *)
Lemma db_transaction_cases {A} (P : E → Prop) code env b c (m : M (State D) E A) st r st' :
  db_transaction code env b c m st = (r, st') → fails_only P m → (∀ e, P (code e)) →
  (∃ a, r = Ok a) ∨ (∃ e, r = Err e ∧ P e ∧ db st' = db st).
Proof.
  intros H Hm HP.
  assert (fails_only P (on_db code env b (mret ());; a ← m;
                        on_db code env c (mret ());; mret a)) as Hf.
  { apply fails_only_bind; [by apply on_db_fails|intros _]. apply fails_only_bind; [done|intros a].
    apply fails_only_bind; [by apply on_db_fails|done]. }
  specialize (Hf st). unfold db_transaction in H.
  destruct ((on_db _ env b _;; _) st) as [[x|e|] s1]; [| |done]; simplify_eq; [by left; eexists|].
  right. by exists e.
Qed.

Lemma call_ok {T E' A} (part : D → T) upd (status : E' → E) (m : M T E' A) st a st' :
  call part upd status m st = (Ok a, st') →
  ∃ t, m (part (db st)) = (Ok a, t) ∧ st' = set_db (upd t (db st)) st.
Proof.
  unfold call, catch_map, zoom. cbn. destruct (m (part (db st))) as [[b|e|] t]; cbn; intros [= <- <-]. by exists t.
Qed.

Lemma at_no_fault env k : fault env = no_fault → at_ env k = no_fault.
Proof. intros Hf. unfold at_. by rewrite Hf. Qed.

Lemma emit_ok `{HasLog D, Clock, Serde EventPayload.t} env k s entity payload st :
  ∃ t st', emit (E := E) env k s entity payload st = (Ok (), st') ∧ db st' = set_log t (db st).
Proof. unfold emit. by eexists _, _. Qed.

(** What an [emit] adds to the log and sends: its event, if the statement
    does not fail. *)
Definition announces `{Serde EventPayload.t} (env : Env) (k : nat) (s : Z) (entity : string) (payload : EventPayload.t)
    (es : list PublicEvent) : Prop :=
  match fault env k with
  | Some _ => es = []
  | None => ∃ e, es = [e] ∧ ev_server_id e = s ∧ ev_entity_id e = entity ∧ ev_event_type e = event_type payload ∧
      ev_payload_json e = to_json payload
  end.
Lemma emit_announces `{HasLog D, Clock, Serde EventPayload.t} env k s entity payload st :
  ∃ es t, announces env k s entity payload es ∧ t_rows t = t_rows (event_log (db st)) ++ es ∧
    emit (E := E) env k s entity payload st =
      (Ok (), {| db := set_log t (db st); effects := effects st ++ (EventSent <$> es) |}).
Proof.
  unfold emit, announces, emit_and_broadcast, emit_event, exec. rewrite Nat.add_0_r. destruct (fault env k).
  - exists [], (event_log (db st)). cbn. by rewrite !app_nil_r.
  - set (t := event_log (db st)).
    set (e := event_row t (sql_now (now env)) s (event_domain payload) (event_type payload) (entity_type payload)
                entity payload (t_seq t + 1)).
    exists [e], (Table (t_rows t ++ [e]) (t_seq t + 1)). split; [|done]. by exists e.
Qed.

Lemma emit_fails `{HasLog D, Clock, Serde EventPayload.t} (P : E → Prop) env k s entity payload :
  fails_only P (emit env k s entity payload : M (State D) E _).
Proof. done. Qed.
Lemma perform_fails (P : E → Prop) e : fails_only P (perform e : M (State D) E _).
Proof. done. Qed.
Lemma perform_all_fails (P : E → Prop) es : fails_only P (perform_all es : M (State D) E _).
Proof. done. Qed.

(** ** Invariants of the database *)

Lemma preserves_on_db {A} (I : D → Prop) (code : sql_error → E) env k (m : M D sql_error A) :
  preserves I m → preserves (I ∘ db) (on_db code env k m).
Proof.
  intros H. apply preserves_catch, (preserves_zoom _ I); [done|by intros|]. by apply preserves_exec.
Qed.
Lemma preserves_call {T E' A} (I : D → Prop) (J : T → Prop) (part : D → T) upd (status : E' → E) (m : M T E' A) :
  (∀ d, I d → J (part d)) → (∀ d t, I d → J t → I (upd t d)) → preserves J m →
  preserves (I ∘ db) (call part upd status m).
Proof. intros Hp Hu H. apply preserves_catch, (preserves_zoom _ J); [intros st; apply Hp|intros st t; apply Hu|done]. Qed.
Lemma preserves_db_transaction {A} (I : D → Prop) (code : sql_error → E) env b c (m : M (State D) E A) :
  preserves (I ∘ db) m → preserves (I ∘ db) (db_transaction code env b c m).
Proof.
  intros H st Hst. unfold db_transaction.
  assert (preserves (I ∘ db) (on_db code env b (mret ());; a ← m; on_db code env c (mret ());; mret a)) as Hp.
  { apply preserves_bind; [by apply preserves_on_db, preserves_reads|intros _]. apply preserves_bind; [done|intros a].
    apply preserves_bind; [by apply preserves_on_db, preserves_reads|intros _; by apply preserves_reads]. }
  specialize (Hp st Hst). by destruct ((on_db _ env b _;; _) st) as [[x|e|] s1].
Qed.
Lemma preserves_emit `{HasLog D, Clock, Serde EventPayload.t} (I : D → Prop) env k s entity payload :
  (∀ t d, I d → I (set_log t d)) → preserves (I ∘ db) (emit env k s entity payload : M (State D) E unit).
Proof. intros HI st Hst. unfold emit. cbn. by apply HI. Qed.
Lemma preserves_perform (I : D → Prop) e : preserves (I ∘ db) (perform e : M (State D) E unit).
Proof. by intros st Hst. Qed.
Lemma preserves_perform_all (I : D → Prop) es : preserves (I ∘ db) (perform_all es : M (State D) E unit).
Proof. by intros st Hst. Qed.
End lemmas.
Lemma on_db_lift_ok {D E A} (code : sql_error → E) env k (a b : A) (st st' : State D) :
  on_db code env k (lift (Ok a)) st = (Ok b, st') → b = a ∧ st' = st.
Proof. rewrite on_db_lift. destruct (fault env k); naive_solver. Qed.
#[export] Hint Resolve on_db_fails emit_fails perform_fails perform_all_fails : annex.
#[export] Hint Resolve quiet_bind quiet_on_db quiet_ret quiet_reads : annex.
#[export] Hint Resolve on_db_lift_reads perform_succeeds perform_all_succeeds : annex.
#[export] Hint Resolve preserves_on_db preserves_db_transaction preserves_emit preserves_perform preserves_perform_all : annex.
