(* ===== verification/Agents.v ===== *)
(** * Agents: registration of AI agents by VRP handshake

    The agent handshake of crates/annex-server/src/api_vrp.rs, the
    re-evaluation of agents after a policy change (policy.rs), and the agent
    endpoints of api_agent.rs, on the tables of migrations 007, 008, 014 and
    015. *)

From S2P Require Import Prelude Sql Bytes Types Identity Platform Observe Graph Vrp Connections Handlers.
From S2P Require Import Text.
Import VrpAlignmentStatus.

#[local] Open Scope Z_scope.

(** ** Tables *)

Record AgentRow := {
  ar_id : Z;
  ar_server_id : Z;
  ar_pseudonym_id : string;
  ar_alignment_status : string;
  ar_transfer_scope : string;
  ar_capability_contract_json : string;
  ar_voice_profile_id : option Z;
  ar_reputation_score : f32;
  ar_last_handshake_at : string;
  ar_active : bool;
  ar_created_at : string;
  ar_updated_at : string;
  ar_anchor_snapshot_json : option string;
}.

Record VoiceProfileRow := { vp_id : Z; vp_server_id : Z; vp_profile_id : string }.

Record AgentDb := {
  registrations : table AgentRow;
  handshakes : table HandshakeRow;
  graph_nodes : table GraphNodeRow;
  agent_events : table PublicEvent;
  voice_profiles : table VoiceProfileRow;
  server_ids : gset Z;
}.

Definition set_registrations (t : table AgentRow) (d : AgentDb) : AgentDb :=
  {| registrations := t; handshakes := handshakes d; graph_nodes := graph_nodes d;
     agent_events := agent_events d; voice_profiles := voice_profiles d; server_ids := server_ids d |}.
Definition set_handshakes (t : table HandshakeRow) (d : AgentDb) : AgentDb :=
  {| registrations := registrations d; handshakes := t; graph_nodes := graph_nodes d;
     agent_events := agent_events d; voice_profiles := voice_profiles d; server_ids := server_ids d |}.
Definition set_nodes (t : table GraphNodeRow) (d : AgentDb) : AgentDb :=
  {| registrations := registrations d; handshakes := handshakes d; graph_nodes := t;
     agent_events := agent_events d; voice_profiles := voice_profiles d; server_ids := server_ids d |}.
#[export] Instance agent_log : HasLog AgentDb := {|
  event_log := agent_events;
  set_log t d :=
    {| registrations := registrations d; handshakes := handshakes d; graph_nodes := graph_nodes d;
       agent_events := t; voice_profiles := voice_profiles d; server_ids := server_ids d |} |}.
Abbreviation AgentState := (State AgentDb).

Definition is_agent (s : Z) (p : string) (r : AgentRow) : Prop :=
  ar_server_id r = s ∧ ar_pseudonym_id r = p.
#[export] Instance is_agent_dec s p r : Decision (is_agent s p r).
Proof. unfold is_agent. apply _. Defined.
Definition is_active_agent (s : Z) (r : AgentRow) : Prop := ar_active r = true ∧ ar_server_id r = s.
#[export] Instance is_active_agent_dec s r : Decision (is_active_agent s r).
Proof. unfold is_active_agent. apply _. Defined.

(** [SET alignment_status, transfer_scope, active, updated_at]. *)
Definition realign (status scope : string) (active : bool) (now : string) (r : AgentRow) : AgentRow :=
  {| ar_id := ar_id r; ar_server_id := ar_server_id r; ar_pseudonym_id := ar_pseudonym_id r;
     ar_alignment_status := status; ar_transfer_scope := scope;
     ar_capability_contract_json := ar_capability_contract_json r;
     ar_voice_profile_id := ar_voice_profile_id r; ar_reputation_score := ar_reputation_score r;
     ar_last_handshake_at := ar_last_handshake_at r; ar_active := active;
     ar_created_at := ar_created_at r; ar_updated_at := now;
     ar_anchor_snapshot_json := ar_anchor_snapshot_json r |}.

Section handlers.
Context `{HX : HexCrate, SH : Sha256, UT : UnicodeText, CK : Clock}.
Context `{SR : Serde VrpValidationReport, SE : Serde EventPayload.t}.
Context `{SC : Serde VrpCapabilitySharingContract, SA : Serde VrpAnchorSnapshot}.

Abbreviation query := (on_db (D := AgentDb) (λ _, 500 : http_error)).

(** ** What the local policy asks for *)

Definition agent_contract (policy : ServerPolicy) : VrpCapabilitySharingContract :=
  {| required_capabilities := agent_required_capabilities policy;
     offered_capabilities :=
       (if voice_enabled policy then ["VOICE"] else []) ++
       (if federation_enabled policy then ["FEDERATION"] else []) ++ ["TEXT"; "VRP"];
     redacted_topics := [] |}.
Definition agent_alignment_config (policy : ServerPolicy) : VrpAlignmentConfig :=
  {| semantic_alignment_required := true;
     min_alignment_score := agent_min_alignment_score policy |}.
Definition agent_transfer_config : VrpTransferAcceptanceConfig :=
  {| allow_reflection_summaries := true; allow_full_knowledge := false |}.

Definition evaluate (policy : ServerPolicy) (local_anchor : VrpAnchorSnapshot)
    (handshake : VrpFederationHandshake) : VrpValidationReport :=
  validate_federation_handshake local_anchor (agent_contract policy) handshake
    (agent_alignment_config policy) agent_transfer_config.

(** ** POST /api/vrp/agent-handshake *)

Definition upsert_registration (env : Env) (s : Z) (p : string) (handshake : VrpFederationHandshake)
    (report : VrpValidationReport) (reputation : f32) : M AgentDb sql_error unit := λ d,
  let text := sql_now (now env) in
  if bool_decide (s ∉ server_ids d) then (Err ConstraintForeignKey, d)
  else (Ok (), set_registrations (t_upsert (is_agent s p)
    (λ r, {| ar_id := ar_id r; ar_server_id := ar_server_id r; ar_pseudonym_id := ar_pseudonym_id r;
             ar_alignment_status := status_text (alignment_status report);
             ar_transfer_scope := scope_text (transfer_scope report);
             ar_capability_contract_json := to_json (capability_contract handshake);
             ar_voice_profile_id := ar_voice_profile_id r; ar_reputation_score := reputation;
             ar_last_handshake_at := now_rfc3339 env; ar_active := true;
             ar_created_at := ar_created_at r; ar_updated_at := text;
             ar_anchor_snapshot_json := Some (to_json (anchor_snapshot handshake)) |})
    (λ id, {| ar_id := id; ar_server_id := s; ar_pseudonym_id := p;
              ar_alignment_status := status_text (alignment_status report);
              ar_transfer_scope := scope_text (transfer_scope report);
              ar_capability_contract_json := to_json (capability_contract handshake);
              ar_voice_profile_id := None; ar_reputation_score := reputation;
              ar_last_handshake_at := now_rfc3339 env; ar_active := true;
              ar_created_at := text; ar_updated_at := text;
              ar_anchor_snapshot_json := Some (to_json (anchor_snapshot handshake)) |})
    (registrations d)) d).

(** A reactivated node is announced; a failing statement is only logged. *)
Definition touch_node (env : Env) (s : Z) (p : string) : M AgentState http_error unit := λ st,
  match update_node_activity (λ j, fault env (3 + j)%nat) (now env) s p (graph_nodes (db st)) with
  | (Ok true, nodes) =>
      (perform (PresenceSent (PresenceEvent.NodeUpdated p true));;
       emit env 5 s p (EventPayload.NodeReactivated p)) (set_db (set_nodes nodes (db st)) st)
  | (_, nodes) => (Ok (), set_db (set_nodes nodes (db st)) st)
  end.

(** The statement writes 'Conflict', not the 'CONFLICT' of the status texts. *)
Definition deactivate_conflict (env : Env) (s : Z) (p : string) : M AgentDb sql_error nat := λ d,
  let '(n, t) := t_update (is_agent s p) (realign "Conflict" "NO_TRANSFER" false (sql_now (now env)))
                   (registrations d) in
  (Ok n, set_registrations t d).

(** The transaction, and the event to write after it has committed. *)
Definition handshake_tx (env : Env) (s : Z) (p : string) (handshake : VrpFederationHandshake)
    (report : VrpValidationReport) : M AgentState http_error (option EventPayload.t) :=
  d ← gets db;
  query env 1 (zoom handshakes set_handshakes
    (record_vrp_outcome no_fault (server_ids d) (sql_now (now env)) s p "AI_AGENT" report));;
  d ← gets db;
  reputation ← query env 2 (lift (check_reputation_score no_fault (handshakes d) s p));
  match alignment_status report with
  | Conflict =>
      updated ← query env 7 (deactivate_conflict env s p);
      mret (if (0 <? updated)%nat
            then Some (EventPayload.AgentDisconnected p
                         "VRP handshake resulted in Conflict alignment") else None)
  | status =>
      touch_node env s p;;
      query env 7 (upsert_registration env s p handshake report reputation);;
      mret (Some (EventPayload.AgentConnected p (status_text status)))
  end.

Definition agent_handshake_handler (env : Env) (policy : ServerPolicy) (s : Z) (p : string)
    (handshake : VrpFederationHandshake) : M AgentState http_error VrpValidationReport :=
  local_anchor ← lift (ok_or (to_anchor_snapshot (anchor_clock env) (from_policy policy)) 500);
  let report := evaluate policy local_anchor handshake in
  event ← db_transaction (λ _, 500) env 0 8 (handshake_tx env s p handshake report);
  match event with Some e => emit env 9 s p e | None => mret () end;;
  mret report.

(** ** policy.rs: recalculate_agent_alignments *)

Record Realignment := {
  ra_pseudonym : string;
  ra_previous : string;
  ra_report : VrpValidationReport;
  ra_active : bool;
}.

(** The body of the loop over the active agents: [Ok None] leaves the agent
    as it is (no anchor, or nothing changed). *)
Definition reevaluate (policy : ServerPolicy) (local_anchor : VrpAnchorSnapshot) (r : AgentRow) :
    result http_error (option Realignment) :=
  match ar_anchor_snapshot_json r with
  | None => Ok None
  | Some anchor_json =>
      anchor ← ok_or (from_json anchor_json) 500;
      contract ← ok_or (from_json (ar_capability_contract_json r)) 500;
      let report := evaluate policy local_anchor
                      {| anchor_snapshot := anchor; capability_contract := contract |} in
      Ok (if decide (status_text (alignment_status report) = ar_alignment_status r ∧
                     scope_text (transfer_scope report) = ar_transfer_scope r)
          then None
          else Some {| ra_pseudonym := ar_pseudonym_id r; ra_previous := ar_alignment_status r;
                       ra_report := report;
                       ra_active := negb (bool_decide (alignment_status report =
                                                       VrpAlignmentStatus.Conflict)) |})
  end.

Definition reevaluate_all (policy : ServerPolicy) (local_anchor : VrpAnchorSnapshot) (rows : list AgentRow) :
    result http_error (list Realignment) :=
  filter_mapM (reevaluate policy local_anchor) rows.

Definition realign_stmt (env : Env) (s : Z) (u : Realignment) : M AgentDb sql_error unit := λ d,
  let '(_, t) := t_update (is_agent s (ra_pseudonym u))
    (realign (status_text (alignment_status (ra_report u))) (scope_text (transfer_scope (ra_report u)))
       (ra_active u) (sql_now (now env))) (registrations d) in
  (Ok (), set_registrations t d).

(** The updates, two statements each, from statement [k] on. *)
Fixpoint apply_realignments (env : Env) (s : Z) (k : nat) (us : list Realignment) :
    M AgentState http_error unit :=
  match us with
  | [] => mret ()
  | u :: us =>
      query env k (realign_stmt env s u);;
      perform (PresenceSent (PresenceEvent.NodeUpdated (ra_pseudonym u) (ra_active u)));;
      emit env (S k) s (ra_pseudonym u)
        (if ra_active u
         then EventPayload.AgentRealigned (ra_pseudonym u)
                (status_text (alignment_status (ra_report u))) (ra_previous u)
         else EventPayload.AgentDisconnected (ra_pseudonym u) "policy_conflict");;
      apply_realignments env s (S (S k)) us
  end.

(** The transaction: the agents to disconnect.  BEGIN, SELECT and COMMIT are
    statements 0 to 2. *)
Definition realign_agents (env : Env) (policy : ServerPolicy) (s : Z) :
    M AgentState http_error (list string) :=
  local_anchor ← lift (ok_or (to_anchor_snapshot (anchor_clock env) (from_policy policy)) 500);
  db_transaction (λ _, 500) env 0 2
    (d ← gets db;
     rows ← query env 1 (lift (Ok (t_select (is_active_agent s) (registrations d))));
     us ← lift (reevaluate_all policy local_anchor rows);
     apply_realignments env s 3 us;;
     mret (ra_pseudonym <$> filter (λ u, ra_active u = false) us)).

Definition recalculate_agent_alignments (env : Env) (policy : ServerPolicy) (s : Z) :
    M (AgentState * Manager) http_error unit := λ '(st, m),
  match realign_agents env policy s st with
  | (Ok agents, st') =>
      (Ok (), (st', foldl (λ m p, (alone (disconnect_user p) m).2) m agents))
  | (Err e, st') => (Err e, (st', m))
  | (Panic, st') => (Panic, (st', m))
  end.

(** ** api_agent.rs *)

Record AgentProfileResponse := {
  ap_pseudonym_id : string;
  ap_alignment_status : VrpAlignmentStatus.t;
  ap_transfer_scope : VrpTransferScope;
  ap_capability_contract : VrpCapabilitySharingContract;
  ap_reputation_score : f32;
}.

Definition get_agent_profile_handler (env : Env) (s : Z) (p : string) (d : AgentDb) :
    result http_error AgentProfileResponse :=
  rows ← map_err (λ _, 500) (read (fault env) 0 (t_select (is_agent s p) (registrations d)));
  match rows with
  | [] => Err 404
  | r :: _ =>
      status ← ok_or (status_from_str (ar_alignment_status r)) 500;
      scope ← ok_or (scope_from_str (ar_transfer_scope r)) 500;
      contract ← ok_or (from_json (ar_capability_contract_json r)) 500;
      Ok {| ap_pseudonym_id := p; ap_alignment_status := status; ap_transfer_scope := scope;
            ap_capability_contract := contract; ap_reputation_score := ar_reputation_score r |}
  end.

Definition is_profile (s : Z) (name : string) (r : VoiceProfileRow) : Prop :=
  vp_server_id r = s ∧ vp_profile_id r = name.
#[export] Instance is_profile_dec s name r : Decision (is_profile s name r).
Proof. unfold is_profile. apply _. Defined.

Definition with_voice_profile (v : option Z) (r : AgentRow) : AgentRow :=
  {| ar_id := ar_id r; ar_server_id := ar_server_id r; ar_pseudonym_id := ar_pseudonym_id r;
     ar_alignment_status := ar_alignment_status r; ar_transfer_scope := ar_transfer_scope r;
     ar_capability_contract_json := ar_capability_contract_json r;
     ar_voice_profile_id := v; ar_reputation_score := ar_reputation_score r;
     ar_last_handshake_at := ar_last_handshake_at r; ar_active := ar_active r;
     ar_created_at := ar_created_at r; ar_updated_at := ar_updated_at r;
     ar_anchor_snapshot_json := ar_anchor_snapshot_json r |}.

Definition update_agent_voice_profile_handler (env : Env) (can_moderate : bool) (s : Z) (p : string)
    (profile : option string) : M AgentState http_error unit :=
  _ ← lift (reject_if (negb can_moderate) 403);
  d ← gets db;
  profile_id ← match profile with
    | Some name =>
        rows ← query env 0 (lift (Ok (t_select (is_profile s name) (voice_profiles d))));
        match rows with r :: _ => mret (Some (vp_id r)) | [] => throw 400 end
    | None => mret None
    end;
  changed ← query env 1 (λ d,
    let '(n, t) := t_update (is_agent s p) (with_voice_profile profile_id) (registrations d) in
    (Ok n, set_registrations t d));
  lift (reject_if (changed =? 0)%nat 404).
End handlers.

(** * Theorems *)

Section theorems.
Context `{HX : HexCrate, SH : Sha256, UT : UnicodeText, CK : Clock}.
Context `{SR : Serde VrpValidationReport, SE : Serde EventPayload.t}.
Context `{SC : Serde VrpCapabilitySharingContract, SA : Serde VrpAnchorSnapshot}.

(** [touch_node] never fails and changes the nodes and the log only. *)
Lemma touch_node_ok env s p st :
  ∃ t l st', touch_node env s p st = (Ok (), st') ∧ db st' = set_log l (set_nodes t (db st)).
Proof.
  unfold touch_node. destruct (update_node_activity _ _ _ _ _) as [[[]| |] nodes].
  2-4: exists nodes, (agent_events (db st)); eexists; (split; [reflexivity|]); by destruct (db st).
  eexists nodes, _. eexists. split; [reflexivity|]. cbn. done.
Qed.

(** The registrations after a committed handshake. *)
Definition registrations_after (env : Env) (s : Z) (p : string) (handshake : VrpFederationHandshake)
    (report : VrpValidationReport) (reputation : f32) (d d' : AgentDb) : Prop :=
  match alignment_status report with
  | Conflict =>
      registrations d' = (t_update (is_agent s p)
        (realign "Conflict" "NO_TRANSFER" false (sql_now (now env))) (registrations d)).2
  | _ =>
      s ∈ server_ids d ∧
      upsert_registration env s p handshake report reputation d =
        (Ok (), set_registrations (registrations d') d)
  end.

(** What a committed handshake did to the database. *)
Definition handshake_done (env : Env) (s : Z) (p : string) (handshake : VrpFederationHandshake)
    (report : VrpValidationReport) (d d' : AgentDb) : Prop :=
  let log := (t_insert (handshake_row (sql_now (now env)) s p "AI_AGENT" report) (handshakes d)).2 in
  handshakes d' = log ∧ server_ids d' = server_ids d ∧ voice_profiles d' = voice_profiles d ∧
  ∃ reputation, check_reputation_score no_fault log s p = Ok reputation ∧
    registrations_after env s p handshake report reputation d d'.

Lemma handshake_tx_fails env s p handshake report :
  fails_only is_500 (handshake_tx env s p handshake report).
Proof.
  unfold handshake_tx. apply fails_only_bind; [done|intros d0].
  apply fails_only_bind.
  { apply on_db_fails; [done|]. intros d. unfold zoom, record_vrp_outcome, exec. cbn. by case_bool_decide. }
  intros _. apply fails_only_bind; [done|intros d].
  apply fails_only_bind; [by apply on_db_fails|intros reputation].
  assert (fails_only is_500 (touch_node env s p)) as Ht.
  { intros st. by destruct (touch_node_ok env s p st) as (t & l & st' & -> & _). }
  assert (fails_only (λ _, True) (upsert_registration env s p handshake report reputation)) as Hu.
  { intros d'. unfold upsert_registration. by case_bool_decide. }
  destruct (alignment_status report);
    (apply fails_only_bind; [done || by apply on_db_fails|intros ?]); [..|done];
    (apply fails_only_bind; [by apply on_db_fails|done]).
Qed.

Lemma handshake_tx_done env s p handshake report st event st' :
  handshake_tx env s p handshake report st = (Ok event, st') →
  handshake_done env s p handshake report (db st) (db st').
Proof.
  unfold handshake_tx. intros (d0 & st0 & [= <- <-] & H)%M_bind_ok.
  apply M_bind_ok in H as ([] & st1 & (_ & d1 & H1 & ->)%on_db_ok & H).
  unfold zoom, record_vrp_outcome, exec, no_fault in H1. case_bool_decide; [done|].
  apply M_bind_ok in H as (d & st2 & [= <- <-] & H).
  apply M_bind_ok in H as (reputation & st3 & (_ & d3 & H3 & ->)%on_db_ok & H).
  cbn in H1. simplify_eq. cbn [db set_db handshakes set_handshakes zoom fst snd] in H, H3.
  unfold lift in H3. injection H3 as Hrep <-.
  unfold handshake_done, registrations_after. destruct (alignment_status report) eqn:Es.
  3: { apply M_bind_ok in H as (n & st4 & (_ & d4 & H4 & ->)%on_db_ok & [= _ <-]).
       unfold deactivate_conflict in H4. cbn in H4. simplify_eq. cbn. split_and!; [done..|by eexists]. }
  all: apply M_bind_ok in H as ([] & st5 & Ht & H);
    match type of Ht with touch_node _ _ _ ?x = _ =>
      destruct (touch_node_ok env s p x) as (t & l & st6 & Ht' & Hd) end;
    rewrite Ht in Ht'; injection Ht' as <-;
    apply M_bind_ok in H as ([] & st7 & (_ & d7 & H7 & ->)%on_db_ok & [= _ <-]);
    unfold upsert_registration in H7; case_bool_decide as Hs; [done|]; injection H7 as <-;
    rewrite Hd in Hs |- *; cbn in Hs |- *;
    split_and!; [done..|]; eexists; split; [reflexivity|]; split; [done|];
    unfold upsert_registration; rewrite bool_decide_eq_false_2 by tauto; rewrite <- Hrep; by destruct (db st).
Qed.

Lemma handshake_cases env policy s p handshake st :
  let '(r, st') := agent_handshake_handler env policy s p handshake st in
  (r = Err 500 ∧ db st' = db st) ∨
  ∃ local_anchor l,
    to_anchor_snapshot (anchor_clock env) (from_policy policy) = Some local_anchor ∧
    r = Ok (evaluate policy local_anchor handshake) ∧
    ∃ d, handshake_done env s p handshake (evaluate policy local_anchor handshake) (db st) d ∧
         db st' = set_log l d.
Proof.
  unfold agent_handshake_handler.
  destruct (to_anchor_snapshot (anchor_clock env) (from_policy policy)) as [la|]; [|by left].
  cbn [ok_or lift]. unfold mbind, M_bind, lift. cbn [ok_or].
  set (report := evaluate policy la handshake).
  destruct (db_transaction (λ _, 500) env 0 8 (handshake_tx env s p handshake report) st) as [r st1] eqn:Htx.
  destruct (db_transaction_cases is_500 _ _ _ _ _ _ _ _ Htx (handshake_tx_fails _ _ _ _ _) (λ _, eq_refl))
    as [[event ->]|(e & -> & -> & Hdb)]; [|by left].
  apply db_transaction_ok in Htx as (_ & _ & Htx%handshake_tx_done).
  destruct event as [ev|]; cbn.
  - destruct (emit_ok (E := http_error) env 9 s p ev st1) as (l & st2 & He & Hdb). unfold emit in He. injection He as <-.
    right. exists la, l. split_and!; [done..|]. eexists. split; [exact Htx|]. exact Hdb.
  - right. exists la, (agent_events (db st1)). split_and!; [done..|]. eexists. split; [exact Htx|].
    cbn. by destruct (db st1).
Qed.

(** ** The policy in force *)

Definition policy_anchor (policy : ServerPolicy) : VrpAnchorSnapshot :=
  {| principles_hash := hash_list (principles policy);
     prohibited_actions_hash := hash_list (prohibited_actions policy); timestamp := 0;
     anchor_principles := principles policy; anchor_prohibited_actions := prohibited_actions policy |}.
Definition policy_report (policy : ServerPolicy) (handshake : VrpFederationHandshake) : VrpValidationReport :=
  evaluate policy (policy_anchor policy) handshake.

(** The time in the local anchor plays no part. *)
Lemma evaluate_policy clock policy local_anchor handshake :
  to_anchor_snapshot clock (from_policy policy) = Some local_anchor →
  evaluate policy local_anchor handshake = policy_report policy handshake.
Proof.
  unfold to_anchor_snapshot, new_anchor. destruct clock as [t|]; cbn; [|done]. by intros [= <-].
Qed.

Record agents_ok (d : AgentDb) : Prop := {
  ao_ids : ids_ok ar_id (registrations d);
  ao_unique : ∀ r1 r2, r1 ∈ t_rows (registrations d) → r2 ∈ t_rows (registrations d) →
    ar_server_id r1 = ar_server_id r2 → ar_pseudonym_id r1 = ar_pseudonym_id r2 → r1 = r2;
  ao_active : ∀ r, r ∈ t_rows (registrations d) → ar_active r = true →
    ar_alignment_status r ≠ status_text Conflict;
}.

(** The handshake a row stores, when its texts parse. *)
Definition stored_handshake (r : AgentRow) : option VrpFederationHandshake :=
  j ← ar_anchor_snapshot_json r;
  anchor ← from_json j;
  contract ← from_json (ar_capability_contract_json r);
  Some {| anchor_snapshot := anchor; capability_contract := contract |}.

(** The row says what the policy says of the handshake it stores. *)
Definition up_to_date (policy : ServerPolicy) (r : AgentRow) : Prop :=
  ar_anchor_snapshot_json r = None ∨
  ∃ h, stored_handshake r = Some h ∧
    ar_alignment_status r = status_text (alignment_status (policy_report policy h)) ∧
    ar_transfer_scope r = scope_text (transfer_scope (policy_report policy h)) ∧
    alignment_status (policy_report policy h) ≠ Conflict.
Definition in_force (policy : ServerPolicy) (s : Z) (d : AgentDb) : Prop :=
  ∀ r, r ∈ t_rows (registrations d) → is_active_agent s r → up_to_date policy r.

Definition realign_by (now : string) (u : Realignment) (r : AgentRow) : AgentRow :=
  realign (status_text (alignment_status (ra_report u))) (scope_text (transfer_scope (ra_report u)))
    (ra_active u) now r.
Definition apply_row (now : string) (s : Z) (us : list Realignment) (r : AgentRow) : AgentRow :=
  batch (λ u, is_agent s (ra_pseudonym u)) (realign_by now) us r.

Lemma apply_realignments_ok env s k us st st' :
  apply_realignments env s k us st = (Ok (), st') →
  registrations (db st') = Table (apply_row (sql_now (now env)) s us <$> t_rows (registrations (db st)))
                             (t_seq (registrations (db st))).
Proof.
  revert k st. induction us as [|u us IH]; intros k st; cbn [apply_realignments].
  - intros [= <-]. cbn. rewrite list_fmap_id. by destruct (registrations (db st)).
  - intros ([] & st1 & (_ & d1 & H1 & ->)%on_db_ok & H)%M_bind_ok. cbn in H1. simplify_eq.
    apply M_bind_ok in H as ([] & st2 & [= <-] & H).
    apply M_bind_ok in H as ([] & st3 & He & H).
    match type of He with emit ?a ?b ?c ?d ?e ?f = _ =>
      destruct (emit_ok (E := http_error) a b c d e f) as (l & st4 & He' & Hd) end.
    rewrite He in He'. injection He' as <-. apply IH in H. rewrite H, Hd. cbn.
    f_equal. by rewrite <- list_fmap_compose.
Qed.

Lemma apply_row_keeps now s us r :
  ar_server_id (apply_row now s us r) = ar_server_id r ∧
  ar_pseudonym_id (apply_row now s us r) = ar_pseudonym_id r ∧
  ar_id (apply_row now s us r) = ar_id r.
Proof. split_and!; by apply batch_keeps. Qed.

Lemma apply_row_one now s us u r :
  NoDup (ra_pseudonym <$> us) → u ∈ us → is_agent s (ra_pseudonym u) r →
  apply_row now s us r = realign_by now u r.
Proof.
  intros Hnd Hu Hr. apply (batch_one _ _ us u); [by eapply NoDup_fmap_1|done..| |done].
  intros u' Hu' [_ Hr']. destruct Hr as [_ Hr]. apply (NoDup_fmap_inj ra_pseudonym us); congruence.
Qed.

Lemma reevaluate_cases policy la r o :
  reevaluate policy la r = Ok o →
  (ar_anchor_snapshot_json r = None ∧ o = None) ∨
  ∃ h, stored_handshake r = Some h ∧
    let report := evaluate policy la h in
    (o = None ∧ status_text (alignment_status report) = ar_alignment_status r ∧
     scope_text (transfer_scope report) = ar_transfer_scope r) ∨
    (o = Some {| ra_pseudonym := ar_pseudonym_id r; ra_previous := ar_alignment_status r;
                 ra_report := report;
                 ra_active := negb (bool_decide (alignment_status report = Conflict)) |} ∧
     ¬ (status_text (alignment_status report) = ar_alignment_status r ∧
        scope_text (transfer_scope report) = ar_transfer_scope r)).
Proof.
  unfold reevaluate, stored_handshake. destruct (ar_anchor_snapshot_json r) as [j|]; [|intros [= <-]; by left].
  cbn. destruct (from_json j) as [a|]; cbn; [|done].
  destruct (from_json (ar_capability_contract_json r)) as [c|]; cbn; [|done].
  intros [= <-]. right. eexists. split; [done|]. case_decide as E; [left|right]; naive_solver.
Qed.

Lemma reevaluate_all_ok policy la rows us :
  reevaluate_all policy la rows = Ok us →
  (∀ r, r ∈ rows → ∃ o, reevaluate policy la r = Ok o ∧ ∀ u, o = Some u → u ∈ us) ∧
  (∀ u, u ∈ us → ∃ r, r ∈ rows ∧ reevaluate policy la r = Ok (Some u)) ∧
  (ra_pseudonym <$> us) `sublist_of` (ar_pseudonym_id <$> rows).
Proof.
  intros H. destruct (filter_mapM_ok _ _ _ H) as [H1 H2]. split_and!; [done..|].
  apply (filter_mapM_sublist _ _ _ _ _ H). intros r u Hu.
  destruct (reevaluate_cases _ _ _ _ Hu) as [[_ ?]|(h & _ & [[? _]|[[= ->] _]])]; done.
Qed.

Lemma status_text_inj x y : status_text x = status_text y → x = y.
Proof. by destruct x, y. Qed.

(** What [realign_agents] makes of one row. *)
Definition row_after (policy : ServerPolicy) (s : Z) (text : string) (r r' : AgentRow) : Prop :=
  (r' = r ∧ (is_active_agent s r → up_to_date policy r)) ∨
  (is_active_agent s r ∧ ∃ h, stored_handshake r = Some h ∧
   let report := policy_report policy h in
   r' = realign (status_text (alignment_status report)) (scope_text (transfer_scope report))
          (negb (bool_decide (alignment_status report = Conflict))) text r).

Lemma realign_agents_rows env policy s st agents st' :
  agents_ok (db st) → realign_agents env policy s st = (Ok agents, st') →
  ∃ f, registrations (db st') = Table (f <$> t_rows (registrations (db st))) (t_seq (registrations (db st))) ∧
  (∀ r, ar_server_id (f r) = ar_server_id r ∧ ar_pseudonym_id (f r) = ar_pseudonym_id r ∧ ar_id (f r) = ar_id r) ∧
  (∀ r, r ∈ t_rows (registrations (db st)) → row_after policy s (sql_now (now env)) r (f r)) ∧
  (∀ p, p ∈ agents ↔ ∃ r h, r ∈ t_rows (registrations (db st)) ∧ is_active_agent s r ∧
     ar_pseudonym_id r = p ∧ stored_handshake r = Some h ∧
     alignment_status (policy_report policy h) = Conflict).
Proof.
  intros HA. unfold realign_agents.
  destruct (to_anchor_snapshot (anchor_clock env) (from_policy policy)) as [la|] eqn:Ela; [|done].
  unfold mbind at 1, M_bind at 1, lift at 1. cbn [ok_or].
  intros (_ & _ & H)%db_transaction_ok.
  apply M_bind_ok in H as (d & st1 & [= <- <-] & H).
  apply M_bind_ok in H as (rows & st2 & (_ & d2 & H2 & ->)%on_db_ok & H).
  unfold lift in H2. simplify_eq. rewrite set_db_db in H.
  apply M_bind_ok in H as (us & st3 & H3 & H). unfold lift in H3. injection H3 as Hus <-.
  apply M_bind_ok in H as ([] & st4 & Hap%apply_realignments_ok & [= <- <-]).
  destruct (reevaluate_all_ok _ _ _ _ Hus) as (H1 & H2 & Hsub).
  assert (NoDup (ra_pseudonym <$> us)) as Hnd.
  { eapply sublist_NoDup; [|exact Hsub]. apply NoDup_fmap_2_strong.
    - intros r1 r2 [[_ E1] Hr1]%elem_of_t_select [[_ E2] Hr2]%elem_of_t_select E.
      apply (ao_unique _ HA); congruence.
    - apply NoDup_filter, (ids_NoDup ar_id), HA. }
  exists (apply_row (sql_now (now env)) s us). split_and!; [done| | |].
  - intros r. by destruct (apply_row_keeps (sql_now (now env)) s us r) as (?&?&?).
  - intros r Hr. destruct (decide (is_active_agent s r)) as [Hact|Hact].
    + destruct (H1 r) as (o & Ho & Hin); [by apply elem_of_t_select|].
      destruct (reevaluate_cases _ _ _ _ Ho) as [[Hj ->]|(h & Hh & Hcase)].
      * left. split; [|by left]. apply batch_none. intros u Hu [_ Hp].
        destruct (H2 u Hu) as (r' & [[_ Hs'] Hr']%elem_of_t_select & Hre).
        assert (r' = r) as ->; [|congruence]. apply (ao_unique _ HA); [done..| |].
        -- destruct Hact. congruence.
        -- destruct (reevaluate_cases _ _ _ _ Hre) as [[_ ?]|(h' & _ & [[? _]|[E _]])]; [done..|].
           simplify_eq. by rewrite Hp.
      * rewrite (evaluate_policy _ _ _ h Ela) in Hcase. destruct Hcase as [(-> & E1 & E2)|(-> & _)].
        -- left. split.
           ++ apply batch_none. intros u Hu [_ Hp].
              destruct (H2 u Hu) as (r' & [[_ Hs'] Hr']%elem_of_t_select & Hre).
              assert (r' = r) as ->; [|congruence]. apply (ao_unique _ HA); [done..| |].
              ** destruct Hact. congruence.
              ** destruct (reevaluate_cases _ _ _ _ Hre) as [[_ ?]|(h' & _ & [[? _]|[E _]])]; [done..|].
                 simplify_eq. by rewrite Hp.
           ++ intros _. right. exists h. split_and!; [done..|]. intros EC. rewrite EC in E1.
              destruct Hact. by apply (ao_active _ HA r).
        -- right. split; [done|]. exists h. split; [done|]. cbn.
           rewrite (apply_row_one _ _ _ _ _ Hnd (Hin _ eq_refl)); [done|]. by destruct Hact.
    + left. split; [|done]. apply batch_none. intros u Hu [Hs Hp].
      destruct (H2 u Hu) as (r' & [[Ha' Hs'] Hr']%elem_of_t_select & Hre).
      assert (r' = r) as ->; [|by apply Hact]. apply (ao_unique _ HA); [done..|congruence|].
      destruct (reevaluate_cases _ _ _ _ Hre) as [[_ ?]|(h' & _ & [[? _]|[E _]])]; [done..|].
      simplify_eq. by rewrite Hp.
  - intros p. rewrite list_elem_of_fmap. setoid_rewrite list_elem_of_filter. split.
    + intros (u & -> & Hact & Hu). destruct (H2 u Hu) as (r & [Ha Hr]%elem_of_t_select & Hre).
      destruct (reevaluate_cases _ _ _ _ Hre) as [[_ ?]|(h & Hh & [[? _]|[E _]])]; [done..|].
      rewrite (evaluate_policy _ _ _ h Ela) in E. simplify_eq. cbn in *. exists r, h.
      apply negb_false_iff, bool_decide_eq_true in Hact. done.
    + intros (r & h & Hr & Ha & <- & Hh & EC).
      destruct (H1 r) as (o & Ho & Hin); [by apply elem_of_t_select|].
      destruct (reevaluate_cases _ _ _ _ Ho) as [[Hj _]|(h' & Hh' & Hcase)].
      { unfold stored_handshake in Hh. by rewrite Hj in Hh. }
      simplify_eq. rewrite (evaluate_policy _ _ _ h Ela) in Hcase. cbn in Hcase. rewrite EC in Hcase.
      destruct Hcase as [(-> & E1 & _)|(-> & _)].
      * destruct Ha. by destruct (ao_active _ HA r).
      * eexists. split; [|split; [|by apply Hin]]; [done|]. cbn. by rewrite bool_decide_eq_true_2.
Qed.

Context {SCL : SerdeLaws VrpCapabilitySharingContract} {SAL : SerdeLaws VrpAnchorSnapshot}.

Lemma t_upsert_ids P `{!∀ r, Decision (P r)} f mk (t : table AgentRow) :
  (∀ r, ar_id (f r) = ar_id r) → (∀ i, ar_id (mk i) = i) → ids_ok ar_id t → ids_ok ar_id (t_upsert P f mk t).
Proof.
  intros Hf Hmk Ht. unfold t_upsert. case_match; [by apply ids_ok_update|by apply ids_ok_insert].
Qed.

(** The registrations after a committed handshake. *)
Definition upserted (env : Env) (s : Z) (p : string) (h : VrpFederationHandshake) (reputation : f32)
    (report : VrpValidationReport) (r : AgentRow) : Prop :=
  is_agent s p r ∧ ar_active r = true ∧
  ar_alignment_status r = status_text (alignment_status report) ∧
  ar_transfer_scope r = scope_text (transfer_scope report) ∧
  stored_handshake r = Some h ∧ ar_reputation_score r = reputation ∧
  ar_last_handshake_at r = now_rfc3339 env.

Lemma upsert_rows env s p h report reputation d t :
  upsert_registration env s p h report reputation d = (Ok (), set_registrations t d) →
  agents_ok d → alignment_status report ≠ Conflict →
  agents_ok (set_registrations t d) ∧
  (∃ r, r ∈ t_rows t ∧ upserted env s p h reputation report r) ∧
  (∀ r, ¬ is_agent s p r → r ∈ t_rows t ↔ r ∈ t_rows (registrations d)) ∧
  (∀ r, r ∈ t_rows t → is_agent s p r → upserted env s p h reputation report r).
Proof.
  intros Hu [Hids Huq Hact] Hnc. unfold upsert_registration in Hu. case_bool_decide; [done|].
  injection Hu as Ht.
  match type of Ht with t_upsert _ ?f ?mk _ = _ => set (upd := f) in *; set (row := mk) in * end.
  assert (∀ r, is_agent s p r → upserted env s p h reputation report (upd r)) as Hupd.
  { intros r Hr. split_and!; try done. unfold stored_handshake; cbn. rewrite !from_json_to_json. cbn. by destruct h. }
  assert (∀ i, upserted env s p h reputation report (row i)) as Hrow.
  { intros i. split_and!; try done. unfold stored_handshake; cbn. rewrite !from_json_to_json. cbn. by destruct h. }
  assert (∀ r, ¬ is_agent s p r → r ∈ t_rows t ↔ r ∈ t_rows (registrations d)) as Hother.
  { intros r Hr. rewrite <- Ht. unfold t_upsert. case_match.
    - rewrite elem_of_t_update. split; [|intros ?; exists r; tauto].
      intros (r0 & Hr0 & [[HP ->]|[_ ->]]); [|done]. destruct Hr. apply Hupd, HP.
    - rewrite elem_of_t_insert. split; [|by left]. intros [?| ->]; [done|]. destruct Hr. apply Hrow. }
  assert (∀ r, r ∈ t_rows t → is_agent s p r → upserted env s p h reputation report r) as Hmine.
  { intros r. rewrite <- Ht. unfold t_upsert. case_match eqn:E; intros Hr Hp.
    - apply elem_of_t_update in Hr as (r0 & Hr0 & [[HP ->]|[HP ->]]); [by apply Hupd|done].
    - apply elem_of_t_insert in Hr as [Hr| ->]; [|apply Hrow]. by apply (proj1 (t_exists_false _ _) E) in Hr. }
  assert (∀ r1 r2, r1 ∈ t_rows t → r2 ∈ t_rows t → is_agent s p r1 → is_agent s p r2 → r1 = r2) as Hone.
  { intros r1 r2. rewrite <- Ht. unfold t_upsert. case_match eqn:E; intros H1 H2 Hp1 Hp2.
    - apply elem_of_t_update in H1 as (x1 & Hx1 & [[HP1 ->]|[? ->]]); [|done].
      apply elem_of_t_update in H2 as (x2 & Hx2 & [[HP2 ->]|[? ->]]); [|done].
      f_equal. apply Huq; [done..| |]; destruct HP1, HP2; congruence.
    - apply elem_of_t_insert in H1 as [H1| ->]; [by apply (proj1 (t_exists_false _ _) E) in H1|].
      apply elem_of_t_insert in H2 as [H2| ->]; [by apply (proj1 (t_exists_false _ _) E) in H2|done]. }
  split_and!; [|  |done|done].
  - split; cbn.
    + rewrite <- Ht. by apply t_upsert_ids.
    + intros r1 r2 H1 H2 Es Ep. destruct (decide (is_agent s p r1)) as [Hp|Hp].
      * apply Hone; [done..|]. destruct Hp. split; congruence.
      * assert (¬ is_agent s p r2) as Hp2 by (intros []; apply Hp; split; congruence).
        apply Huq; [by apply Hother..|done|done].
    + intros r Hr Ha. destruct (decide (is_agent s p r)) as [Hp|Hp].
      * destruct (Hmine r Hr Hp) as (_ & _ & -> & _). intros HC. by apply (status_text_inj _ Conflict) in HC.
      * apply Hact; [by apply Hother|done].
  - rewrite <- Ht. unfold t_upsert. case_match eqn:E.
    + apply t_exists_spec in E as (r & Hr & HP). exists (upd r). split; [|by apply Hupd].
      apply elem_of_t_update. exists r. split; [done|]. by left.
    + eexists. split; [|apply Hrow]. apply elem_of_t_insert. by right.
Qed.

(** A conflict: the agent's row, if any, is switched off. *)
Lemma conflict_rows s p text d t :
  registrations t = (t_update (is_agent s p) (realign "Conflict" "NO_TRANSFER" false text) (registrations d)).2 →
  agents_ok d →
  agents_ok t ∧
  (∀ r, r ∈ t_rows (registrations t) → is_agent s p r → ar_active r = false) ∧
  (∀ r, ¬ is_agent s p r → r ∈ t_rows (registrations t) ↔ r ∈ t_rows (registrations d)).
Proof.
  intros Ht [Hids Huq Hact].
  assert (∀ r, r ∈ t_rows (registrations t) ↔ ∃ r0, r0 ∈ t_rows (registrations d) ∧
    ((is_agent s p r0 ∧ r = realign "Conflict" "NO_TRANSFER" false text r0) ∨ (¬ is_agent s p r0 ∧ r = r0)))
    as Hin by (intros r; rewrite Ht; apply elem_of_t_update).
  split_and!; [split| |].
  - rewrite Ht. by apply ids_ok_update.
  - intros r1 r2 (x1 & Hx1 & H1)%Hin (x2 & Hx2 & H2)%Hin Es Ep.
    assert (x1 = x2) as ->; [|destruct H1 as [[??]|[??]], H2 as [[??]|[??]]; subst; tauto].
    apply Huq; [done..| |]; destruct H1 as [[_ ->]|[_ ->]], H2 as [[_ ->]|[_ ->]]; done.
  - intros r (x & Hx & [[_ ->]|[_ ->]])%Hin; [done|by apply Hact].
  - intros r (x & Hx & [[_ ->]|[? ->]])%Hin; done.
  - intros r Hr. rewrite Hin. split; [|intros ?; exists r; tauto].
    intros (x & Hx & [[HP ->]|[_ ->]]); [|done]. by destruct Hr.
Qed.

Lemma agent_handshake_outcome env policy s p h st :
  agents_ok (db st) →
  let '(r, st') := agent_handshake_handler env policy s p h st in
  let report := policy_report policy h in
  (r = Err 500 ∧ db st' = db st) ∨
  (r = Ok report ∧ agents_ok (db st') ∧
   (∀ x, ¬ is_agent s p x →
      x ∈ t_rows (registrations (db st')) ↔ x ∈ t_rows (registrations (db st))) ∧
   handshakes (db st') =
     (t_insert (handshake_row (sql_now (now env)) s p "AI_AGENT" report) (handshakes (db st))).2 ∧
   (alignment_status report = Conflict →
      ∀ x, x ∈ t_rows (registrations (db st')) → is_agent s p x → ar_active x = false) ∧
   (alignment_status report ≠ Conflict →
      ∃ x reputation, check_reputation_score no_fault (handshakes (db st')) s p = Ok reputation ∧
        x ∈ t_rows (registrations (db st')) ∧ upserted env s p h reputation report x ∧
        ∀ y, y ∈ t_rows (registrations (db st')) → is_agent s p y → y = x)).
Proof.
  intros HA. pose proof (handshake_cases env policy s p h st) as HC.
  destruct (agent_handshake_handler env policy s p h st) as [r st'].
  destruct HC as [?|(la & l & Hla & -> & d & Hdone & ->)]; [by left|right].
  rewrite (evaluate_policy _ _ _ _ Hla) in *. set (report := policy_report policy h) in *.
  destruct Hdone as (Hlog & Hids & Hvp & reputation & Hrep & Hafter). cbn.
  assert (agents_ok (set_log l d) ↔ agents_ok d) as Hset by (by split; intros []).
  unfold registrations_after in Hafter. split; [done|].
  destruct (decide (alignment_status report = Conflict)) as [EC|EC].
  - rewrite EC in Hafter. destruct (conflict_rows _ _ _ _ _ Hafter HA) as (H1 & H2 & H3).
    split_and!; [by apply Hset|done..].
  - assert (upsert_registration env s p h report reputation (db st) =
              (Ok (), set_registrations (registrations d) (db st))) as Hu by (by destruct (alignment_status report); [destruct Hafter|destruct Hafter|]).
    destruct (upsert_rows _ _ _ _ _ _ _ _ Hu HA EC) as (H1 & (x & Hx & Hup) & H3 & H4).
    split_and!; [apply Hset; by destruct H1|done|done|done|].
    intros _. exists x, reputation. rewrite Hlog. split_and!; [done..|].
    intros y Hy Hyp. destruct H1 as [_ Huq _]. destruct Hup as ([] & _), Hyp. apply Huq; cbn; [done..|congruence|congruence].
Qed.

(** The agent handshake: it either answers 500 and leaves every table as
    it was, whatever statement failed, or it answers the report of the local
    policy on the presented handshake and logs it.  Then, unless the report is
    a conflict, the agent has exactly one registration, active, which carries
    the status, the scope, the presented handshake and the reputation computed
    from the log with this outcome; after a conflict it has no active
    registration.  Other agents' registrations never change. *)
Theorem agent_handshake_spec env policy s p h st :
  agents_ok (db st) →
  let '(r, st') := agent_handshake_handler env policy s p h st in
  let report := policy_report policy h in
  (r = Err 500 ∧ db st' = db st) ∨
  (r = Ok report ∧ agents_ok (db st') ∧
   (∀ x, ¬ is_agent s p x →
      x ∈ t_rows (registrations (db st')) ↔ x ∈ t_rows (registrations (db st))) ∧
   handshakes (db st') =
     (t_insert (handshake_row (sql_now (now env)) s p "AI_AGENT" report) (handshakes (db st))).2 ∧
   (alignment_status report = Conflict →
      ∀ x, x ∈ t_rows (registrations (db st')) → is_agent s p x → ar_active x = false) ∧
   (alignment_status report ≠ Conflict →
      ∃ x reputation, check_reputation_score no_fault (handshakes (db st')) s p = Ok reputation ∧
        x ∈ t_rows (registrations (db st')) ∧ upserted env s p h reputation report x ∧
        ∀ y, y ∈ t_rows (registrations (db st')) → is_agent s p y → y = x)).
Proof. apply agent_handshake_outcome. Qed.

(** It succeeds, or answers 500 and leaves the database. *)
Lemma realign_agents_cases env policy s st :
  let '(r, st') := realign_agents env policy s st in
  (∃ a, r = Ok a) ∨ (r = Err 500 ∧ db st' = db st).
Proof.
  unfold realign_agents.
  destruct (to_anchor_snapshot (anchor_clock env) (from_policy policy)) as [la|]; [|by right].
  unfold mbind at 1, M_bind at 1, lift at 1. cbn [ok_or].
  destruct (db_transaction _ _ _ _ _ st) as [r st'] eqn:Hre.
  destruct (db_transaction_cases is_500 _ _ _ _ _ _ _ _ Hre) as [?|(e & -> & -> & ?)]; [|done|by left|by right].
  apply fails_only_bind; [done|intros d]. apply fails_only_bind; [by apply on_db_fails|intros rows].
  apply fails_only_bind; [apply fails_only_lift|intros us].
  - apply filter_mapM_fails. intros x. unfold reevaluate.
    destruct (ar_anchor_snapshot_json x) as [j|]; [|done].
    destruct (from_json j); cbn; [|done]. by destruct (from_json (ar_capability_contract_json x)).
  - apply fails_only_bind; [|done]. generalize 3%nat. induction us as [|u us IH]; intros k; [done|].
    cbn [apply_realignments]. apply fails_only_bind; [by apply on_db_fails|intros _].
    apply fails_only_bind; [done|intros _]. apply fails_only_bind; [done|intros _]. apply IH.
Qed.

Definition disconnect_all (agents : list string) (m : Manager) : Manager :=
  foldl (λ m p, (alone (disconnect_user p) m).2) m agents.

Lemma disconnect_all_sessions agents m q :
  (q ∈ agents → sessions (disconnect_all agents m) !! q = None) ∧
  (q ∉ agents → sessions (disconnect_all agents m) !! q = sessions m !! q).
Proof.
  revert m. induction agents as [|a agents IH]; intros m; cbn; [set_solver|].
  destruct (IH (alone (disconnect_user a) m).2) as [IH1 IH2]. rewrite disconnect_user_sessions in IH2. split.
  - intros Hq. destruct (decide (q ∈ agents)) as [?|Hn]; [by apply IH1|].
    etransitivity; [by apply IH2|]. apply elem_of_cons in Hq as [->|?]; [|done]. by rewrite lookup_delete_eq.
  - intros [Hne Hn]%not_elem_of_cons. etransitivity; [by apply IH2|]. by rewrite lookup_delete_ne.
Qed.

Section realigned.
Context (policy : ServerPolicy) (s : Z) (text : string) (f : AgentRow → AgentRow) (d d' : AgentDb).
Hypothesis HA : agents_ok d.
Hypothesis Hregs : registrations d' = Table (f <$> t_rows (registrations d)) (t_seq (registrations d)).
Hypothesis Hkeep : ∀ r,
  ar_server_id (f r) = ar_server_id r ∧ ar_pseudonym_id (f r) = ar_pseudonym_id r ∧ ar_id (f r) = ar_id r.
Hypothesis Hrow : ∀ r, r ∈ t_rows (registrations d) → row_after policy s text r (f r).

Lemma realigned_ok : agents_ok d'.
Proof.
  destruct HA as [Hids Huq Hact]. split; rewrite Hregs; cbn.
  - destruct Hids as [Hs Hf]. split; cbn.
    + rewrite <- list_fmap_compose.
      replace (ar_id ∘ f <$> t_rows (registrations d)) with (ar_id <$> t_rows (registrations d)); [done|].
      apply list_fmap_ext. intros i x _. cbn. by destruct (Hkeep x) as (_ & _ & ->).
    + apply Forall_fmap, (Forall_impl _ _ _ Hf). cbn. intros x. by destruct (Hkeep x) as (_ & _ & ->).
  - intros ? ? (r1 & -> & H1)%list_elem_of_fmap (r2 & -> & H2)%list_elem_of_fmap.
    destruct (Hkeep r1) as (-> & -> & _), (Hkeep r2) as (-> & -> & _). intros ??. f_equal. by apply Huq.
  - intros ? (x & -> & Hx)%list_elem_of_fmap Ha. destruct (Hrow x Hx) as [[E _]|(_ & k & _ & E)];
      rewrite E in Ha |- *; [by apply Hact|]. cbn in Ha |- *. intros HC.
    apply negb_true_iff, bool_decide_eq_false in Ha. by apply (status_text_inj _ Conflict) in HC.
Qed.

Lemma realigned_in_force : in_force policy s d'.
Proof.
  intros ? Hy [Ha Hs]. rewrite Hregs in Hy. cbn in Hy. apply list_elem_of_fmap in Hy as (x & -> & Hx).
  destruct (Hrow x Hx) as [[E Hup]|(Hact & k & Hk & E)]; rewrite E in *; [by apply Hup|].
  right. exists k. cbn in Ha. apply negb_true_iff, bool_decide_eq_false in Ha.
  split_and!; [|done..]. unfold stored_handshake in *. exact Hk.
Qed.
End realigned.

(** The re-evaluation, with the sessions it ends. *)
Lemma recalculate_agents_cases env policy s st m :
  agents_ok (db st) →
  let '(r, (st', m')) := recalculate_agent_alignments env policy s (st, m) in
  (r = Err 500 ∧ db st' = db st ∧ m' = m) ∨
  (r = Ok () ∧ agents_ok (db st') ∧ in_force policy s (db st') ∧
   ∀ q,
     let severed := ∃ x k, x ∈ t_rows (registrations (db st)) ∧ is_active_agent s x ∧
       ar_pseudonym_id x = q ∧ stored_handshake x = Some k ∧
       alignment_status (policy_report policy k) = Conflict in
     (severed → sessions m' !! q = None) ∧ (¬ severed → sessions m' !! q = sessions m !! q)).
Proof.
  intros HA. unfold recalculate_agent_alignments.
  destruct (realign_agents env policy s st) as [r st'] eqn:Hre.
  pose proof (realign_agents_cases env policy s st) as Hcases. rewrite Hre in Hcases.
  destruct Hcases as [[agents ->]|[-> Hdb]]; [|by left]. right.
  destruct (realign_agents_rows _ _ _ _ _ _ HA Hre) as (f & Hregs & Hkeep & Hrow & Hag).
  split_and!; [done| | |].
  + by apply (realigned_ok policy s (sql_now (now env)) f (db st)).
  + by apply (realigned_in_force policy s (sql_now (now env)) f (db st)).
  + intros q. rewrite <- Hag. apply disconnect_all_sessions.
Qed.

(** C14. The policy in force: a server whose active agents all carry the
    verdict of the policy on their stored handshakes (and none a conflict)
    stays one under any handshake, whatever statements fail; and when
    [recalculate_agent_alignments] succeeds after a change of policy, the
    server has become one for the new policy, no agent in conflict with it
    has a session left, and all other sessions are untouched.  When it
    fails, the database and the sessions are as before. *)
Theorem alignments_in_force env policy s p h st m :
  agents_ok (db st) →
  (in_force policy s (db st) →
     in_force policy s (db (agent_handshake_handler env policy s p h st).2)) ∧
  (let '(r, (st', m')) := recalculate_agent_alignments env policy s (st, m) in
   (r = Err 500 ∧ db st' = db st ∧ m' = m) ∨
   (r = Ok () ∧ agents_ok (db st') ∧ in_force policy s (db st') ∧
    ∀ q,
      let severed := ∃ x k, x ∈ t_rows (registrations (db st)) ∧ is_active_agent s x ∧
        ar_pseudonym_id x = q ∧ stored_handshake x = Some k ∧
        alignment_status (policy_report policy k) = Conflict in
      (severed → sessions m' !! q = None) ∧ (¬ severed → sessions m' !! q = sessions m !! q))).
Proof.
  intros HA. split.
  - intros Hin. pose proof (agent_handshake_outcome env policy s p h st HA) as HS.
    destruct (agent_handshake_handler env policy s p h st) as [r st'].
    destruct HS as [[_ HE]|(_ & HA' & Hother & _ & HC & HN)]; cbn; [by rewrite HE|].
    intros x Hx Hact. destruct (decide (is_agent s p x)) as [Hp|Hp]; [|by apply Hin; [apply Hother|]].
    destruct (decide (alignment_status (policy_report policy h) = Conflict)) as [EC|EC].
    + destruct Hact as [Hact _]. by rewrite (HC EC x Hx Hp) in Hact.
    + destruct (HN EC) as (y & rep & _ & Hy & Hup & Hone). rewrite (Hone x Hx Hp).
      destruct Hup as (_ & _ & ? & ? & ? & _). right. by exists h.
  - by apply recalculate_agents_cases.
Qed.

(** After an agent's handshake has ended in a conflict, its profile can
    no longer be read: the row the server keeps for it, with the status text
    'Conflict', makes GET /api/agents/:pseudonymId answer 500 instead of the
    profile with status CONFLICT. *)
Theorem conflicted_profile_unreadable env env' policy s p h st x :
  agents_ok (db st) → x ∈ t_rows (registrations (db st)) → is_agent s p x →
  alignment_status (policy_report policy h) = Conflict → fault env' 0%nat = None →
  let '(r, st') := agent_handshake_handler env policy s p h st in
  is_ok r = true →
  (∃ y, y ∈ t_rows (registrations (db st')) ∧ is_agent s p y) ∧
  get_agent_profile_handler env' s p (db st') = Err 500.
Proof.
  intros HA Hx Hp EC Hf. pose proof (handshake_cases env policy s p h st) as HC.
  destruct (agent_handshake_handler env policy s p h st) as [r st'].
  destruct HC as [[-> _]|(la & l & Hla & -> & d & Hdone & ->)]; [done|intros _].
  rewrite (evaluate_policy _ _ _ _ Hla) in *. destruct Hdone as (_ & _ & _ & rep & _ & Hafter).
  unfold registrations_after in Hafter. rewrite EC in Hafter. cbn.
  assert (∀ y, y ∈ t_rows (registrations d) → is_agent s p y → ar_alignment_status y = "Conflict") as Hall.
  { intros y Hy Hyp. rewrite Hafter in Hy.
    apply elem_of_t_update in Hy as (y0 & Hy0 & [[_ ->]|[? ->]]); done. }
  assert (∃ y, y ∈ t_rows (registrations d) ∧ is_agent s p y) as (y & Hy & Hyp).
  { exists (realign "Conflict" "NO_TRANSFER" false (sql_now (now env)) x). split; [|by destruct Hp].
    rewrite Hafter. apply elem_of_t_update. exists x. auto. }
  split; [by exists y|]. unfold get_agent_profile_handler, read. rewrite Hf.
  cbn [map_err mbind result_bind registrations set_log agent_log].
  destruct (t_select (is_agent s p) (registrations d)) as [|z zs] eqn:Ez.
  { exfalso. by apply (proj1 (t_select_nil _ _) Ez y). }
  assert (z ∈ t_select (is_agent s p) (registrations d)) as [Hzp Hz]%elem_of_t_select by (rewrite Ez; left).
  by rewrite (Hall z Hz Hzp).
Qed.
End theorems.

(** ** Witnesses *)

#[export] Instance contract_eq_dec : EqDecision VrpCapabilitySharingContract.
Proof. solve_decision. Defined.
#[export] Instance contract_countable : Countable VrpCapabilitySharingContract.
Proof.
  refine (inj_countable' (λ c, (required_capabilities c, offered_capabilities c, redacted_topics c))
    (λ '(r, o, t), {| required_capabilities := r; offered_capabilities := o; redacted_topics := t |}) _).
  by intros [].
Defined.
#[export] Instance anchor_eq_dec : EqDecision VrpAnchorSnapshot.
Proof. solve_decision. Defined.
#[export] Instance anchor_countable : Countable VrpAnchorSnapshot.
Proof.
  refine (inj_countable' (λ a, (principles_hash a, prohibited_actions_hash a, timestamp a,
                                anchor_principles a, anchor_prohibited_actions a))
    (λ '(h, i, t, q, a), {| principles_hash := h; prohibited_actions_hash := i; timestamp := t;
                            anchor_principles := q; anchor_prohibited_actions := a |}) _).
  by intros [].
Defined.

Definition contract_serde : Serde VrpCapabilitySharingContract := serde_countable _.
Definition anchor_serde : Serde VrpAnchorSnapshot := serde_countable _.

Section witnesses.
#[local] Existing Instances hex_reference toy_sha256 ascii_text toy_clock toy_report_serde toy_event_serde
  contract_serde anchor_serde.
#[local] Instance contract_serde_laws : SerdeLaws VrpCapabilitySharingContract := serde_countable_laws _.
#[local] Instance anchor_serde_laws : SerdeLaws VrpAnchorSnapshot := serde_countable_laws _.

Definition toy_env : Env := {| fault := no_fault; now := 0; now_rfc3339 := ""; anchor_clock := Some 0 |}.

(** An agent with the server's own policy. *)
Definition friendly : VrpFederationHandshake :=
  {| anchor_snapshot := policy_anchor ServerPolicy_default;
     capability_contract :=
       {| required_capabilities := []; offered_capabilities := agent_required_capabilities ServerPolicy_default;
          redacted_topics := [] |} |}.
(** One that asks for more than the server offers. *)
Definition demanding : VrpFederationHandshake :=
  {| anchor_snapshot := policy_anchor ServerPolicy_default;
     capability_contract :=
       {| required_capabilities := ["TELEPORT"]; offered_capabilities := []; redacted_topics := [] |} |}.

Definition empty_state : AgentState :=
  {| db := {| registrations := t_empty; handshakes := t_empty; graph_nodes := t_empty;
              agent_events := t_empty; voice_profiles := t_empty; server_ids := {[1]} |};
     effects := [] |}.
Definition with_agent : AgentState :=
  (agent_handshake_handler toy_env ServerPolicy_default 1 "bot" friendly empty_state).2.

Lemma empty_agents_ok : agents_ok (db empty_state).
Proof.
  split; cbn; [apply ids_ok_empty|intros r1 r2 Hr; by apply not_elem_of_nil in Hr|
               intros r Hr; by apply not_elem_of_nil in Hr].
Qed.

Lemma agent_handshake_spec_witness :
  agents_ok (db empty_state) ∧
  ∃ x, x ∈ t_rows (registrations (db with_agent)) ∧ is_agent 1 "bot" x ∧ ar_active x = true.
Proof.
  split; [apply empty_agents_ok|].
  pose proof (agent_handshake_spec toy_env ServerPolicy_default 1 "bot" friendly empty_state empty_agents_ok) as H.
  unfold with_agent.
  assert (is_ok (agent_handshake_handler toy_env ServerPolicy_default 1 "bot" friendly empty_state).1 = true)
    as Hok by (by vm_compute).
  destruct (agent_handshake_handler toy_env ServerPolicy_default 1 "bot" friendly empty_state) as [r st'].
  destruct H as [[-> _]|(_ & _ & _ & _ & _ & H)]; [done|].
  destruct H as (x & rep & _ & Hx & (Ha & Hact & _) & _); [by vm_compute|]. by exists x.
Defined.

Lemma with_agent_ok : agents_ok (db with_agent).
Proof.
  pose proof (agent_handshake_outcome toy_env ServerPolicy_default 1 "bot" friendly empty_state empty_agents_ok) as H.
  unfold with_agent.
  destruct (agent_handshake_handler toy_env ServerPolicy_default 1 "bot" friendly empty_state) as [r st'].
  destruct H as [[_ H]|(_ & H & _)]; [|done]. cbn in *. rewrite H. apply empty_agents_ok.
Qed.

(** A policy the stored handshake conflicts with. *)
Definition strict_policy : ServerPolicy :=
  let d := ServerPolicy_default in
  {| agent_min_alignment_score := agent_min_alignment_score d;
     agent_required_capabilities := ["AUDIT"]; federation_enabled := federation_enabled d;
     default_retention_days := default_retention_days d; voice_enabled := voice_enabled d;
     max_members := max_members d; rate_limit := rate_limit d; principles := principles d;
     prohibited_actions := prohibited_actions d; access_mode := access_mode d;
     access_password := access_password d; images_enabled := images_enabled d;
     videos_enabled := videos_enabled d; files_enabled := files_enabled d;
     max_image_size_mb := max_image_size_mb d; max_video_size_mb := max_video_size_mb d;
     max_file_size_mb := max_file_size_mb d; usernames_enabled := usernames_enabled d |}.

Definition bot_connected : Manager := (alone (add_session 1 "bot" 1) (Manager_new ∅)).2.

Lemma alignments_in_force_witness :
  agents_ok (db with_agent) ∧ sessions bot_connected !! "bot" = Some (1, 1%nat) ∧
  sessions (recalculate_agent_alignments toy_env strict_policy 1 (with_agent, bot_connected)).2.2 !! "bot" = None.
Proof.
  split; [apply with_agent_ok|]. split; [by vm_compute|].
  destruct (alignments_in_force toy_env strict_policy 1 "bot" friendly with_agent bot_connected with_agent_ok)
    as [_ H].
  assert (is_ok (recalculate_agent_alignments toy_env strict_policy 1 (with_agent, bot_connected)).1 = true)
    as Hok by (by vm_compute).
  destruct (recalculate_agent_alignments toy_env strict_policy 1 (with_agent, bot_connected)) as [r [st' m']].
  destruct H as [[-> _]|(_ & _ & _ & H)]; [done|]. apply (H "bot").
  assert (∃ x, head (t_rows (registrations (db with_agent))) = Some x ∧ is_active_agent 1 x ∧
    ar_pseudonym_id x = "bot" ∧ stored_handshake x = Some friendly) as (x & Hx & Ha & Hp & Hs).
  { eexists. split; [by vm_compute|]. split; [by split|]. split; [done|by vm_compute]. }
  exists x, friendly. split_and!; [|done..|by vm_compute].
  destruct (t_rows (registrations (db with_agent))); [done|]. injection Hx as ->. left.
Defined.

Lemma conflicted_profile_unreadable_witness :
  get_agent_profile_handler toy_env 1 "bot"
    (db (agent_handshake_handler toy_env ServerPolicy_default 1 "bot" demanding with_agent).2) = Err 500.
Proof.
  assert (∃ x, head (t_rows (registrations (db with_agent))) = Some x ∧ is_agent 1 "bot" x) as (x & Hx & Hp).
  { eexists. split; [by vm_compute|]. by split. }
  assert (x ∈ t_rows (registrations (db with_agent))) as Hin.
  { destruct (t_rows (registrations (db with_agent))); [done|]. injection Hx as ->. left. }
  assert (alignment_status (policy_report ServerPolicy_default demanding) = Conflict) as EC by (by vm_compute).
  pose proof (conflicted_profile_unreadable toy_env toy_env ServerPolicy_default 1 "bot" demanding with_agent x
    with_agent_ok Hin Hp EC eq_refl) as H.
  assert (is_ok (agent_handshake_handler toy_env ServerPolicy_default 1 "bot" demanding with_agent).1 = true)
    as Hok by (by vm_compute).
  destruct (agent_handshake_handler toy_env ServerPolicy_default 1 "bot" demanding with_agent) as [r st'].
  exact (proj2 (H Hok)).
Defined.
End witnesses.
