(* ===== verification/Peers.v ===== *)
(** * Peers: federation agreements with other servers

    crates/annex-federation (db.rs, handshake.rs), the federation handshake
    endpoint of crates/annex-server/src/api_federation.rs and the
    re-evaluation of agreements after a policy change (policy.rs), on the
    tables of migrations 016, 017 and 019. *)

From S2P Require Import Prelude Sql Bytes Types Identity Text Observe Vrp Connections Handlers Agents.
Import VrpAlignmentStatus.

#[local] Open Scope Z_scope.

(** ** Tables *)

Record InstanceRow := {
  in_id : Z;
  in_base_url : string;
  in_public_key : string;
  in_label : string;
  in_server_slug : option string;
  in_status : string;
  in_last_seen_at : option string;
  in_metadata_json : option string;
  in_created_at : string;
}.

Record AgreementRow := {
  ag_id : Z;
  ag_local_server_id : Z;
  ag_remote_instance_id : Z;
  ag_alignment_status : string;
  ag_transfer_scope : string;
  ag_agreement_json : string;
  ag_active : bool;
  ag_created_at : string;
  ag_updated_at : string;
  ag_remote_handshake_json : option string;
}.

Record PeerDb := {
  instances : table InstanceRow;
  agreements : table AgreementRow;
  peer_events : table PublicEvent;
}.
Definition set_agreements (t : table AgreementRow) (d : PeerDb) : PeerDb :=
  {| instances := instances d; agreements := t; peer_events := peer_events d |}.
#[export] Instance peer_log : HasLog PeerDb := {|
  event_log := peer_events;
  set_log t d := {| instances := instances d; agreements := agreements d; peer_events := t |} |}.

Definition between (local remote : Z) (a : AgreementRow) : Prop :=
  ag_local_server_id a = local ∧ ag_remote_instance_id a = remote.
#[export] Instance between_dec local remote a : Decision (between local remote a).
Proof. unfold between. apply _. Defined.
Definition is_active (a : AgreementRow) : Prop := ag_active a = true.
#[export] Instance is_active_dec a : Decision (is_active a).
Proof. unfold is_active. apply _. Defined.
Definition has_url (url : string) (i : InstanceRow) : Prop := in_base_url i = url.
#[export] Instance has_url_dec url i : Decision (has_url url i).
Proof. unfold has_url. apply _. Defined.

(** [SET active = 0, updated_at = datetime('now')]. *)
Definition deactivate (now : string) (a : AgreementRow) : AgreementRow :=
  {| ag_id := ag_id a; ag_local_server_id := ag_local_server_id a;
     ag_remote_instance_id := ag_remote_instance_id a; ag_alignment_status := ag_alignment_status a;
     ag_transfer_scope := ag_transfer_scope a; ag_agreement_json := ag_agreement_json a;
     ag_active := false; ag_created_at := ag_created_at a; ag_updated_at := now;
     ag_remote_handshake_json := ag_remote_handshake_json a |}.

(** ** Errors *)

Inductive HandshakeError :=
  | DbError (e : sql_error)
  | UnknownRemoteInstance
  | VrpError.

Section peers.
Context `{HX : HexCrate, SH : Sha256, UT : UnicodeText, CK : Clock}.
Context `{SR : Serde VrpValidationReport, SF : Serde VrpFederationHandshake, SE : Serde EventPayload.t}.

(** ** db.rs *)

Definition agreement_row (now : string) (local remote : Z) (report : VrpValidationReport)
    (handshake : option VrpFederationHandshake) (id : Z) : AgreementRow :=
  {| ag_id := id; ag_local_server_id := local; ag_remote_instance_id := remote;
     ag_alignment_status := status_text (alignment_status report);
     ag_transfer_scope := scope_text (transfer_scope report);
     ag_agreement_json := to_json report; ag_active := true;
     ag_created_at := now; ag_updated_at := now;
     ag_remote_handshake_json := to_json <$> handshake |}.

Definition deactivate_pair (now : string) (local remote : Z) : M PeerDb sql_error unit := λ d,
  (Ok (), set_agreements (t_update (λ a, between local remote a ∧ is_active a) (deactivate now)
                            (agreements d)).2 d).

Definition insert_agreement (now : string) (local remote : Z) (report : VrpValidationReport)
    (handshake : option VrpFederationHandshake) : M PeerDb sql_error Z := λ d,
  if t_exists (λ i, in_id i = remote) (instances d) then
    let '(id, t) := t_insert (agreement_row now local remote report handshake) (agreements d) in
    (Ok id, set_agreements t d)
  else (Err ConstraintForeignKey, d).

(** SAVEPOINT and RELEASE are statements 0 and 3. *)
Definition create_agreement (fault : faults) (now local remote : Z) (report : VrpValidationReport)
    (handshake : option VrpFederationHandshake) : M PeerDb sql_error Z :=
  transaction
    (exec fault 0 (mret ());;
     exec fault 1 (deactivate_pair (sql_now now) local remote);;
     id ← exec fault 2 (insert_agreement (sql_now now) local remote report handshake);
     exec fault 3 (mret ());;
     mret id).

Record FederationAgreement := {
  fa_id : Z;
  fa_local_server_id : Z;
  fa_remote_instance_id : Z;
  fa_alignment_status : status;
  fa_transfer_scope : VrpTransferScope;
  fa_agreement_json : VrpValidationReport;
  fa_remote_handshake_json : option VrpFederationHandshake;
  fa_active : bool;
  fa_created_at : string;
  fa_updated_at : string;
}.

Definition get_agreement (fault : faults) (remote : Z) (d : PeerDb) :
    result sql_error (option FederationAgreement) :=
  rows ← read fault 0 (t_select (λ a, ag_remote_instance_id a = remote ∧ is_active a) (agreements d));
  match rows with
  | [] => Ok None
  | a :: _ =>
      report ← ok_or (from_json (ag_agreement_json a)) (FromSqlConversionFailure 5);
      handshake ← match ag_remote_handshake_json a with
        | Some j => h ← ok_or (from_json j) (FromSqlConversionFailure 6); Ok (Some h)
        | None => Ok None
        end;
      Ok (Some {| fa_id := ag_id a; fa_local_server_id := ag_local_server_id a;
                  fa_remote_instance_id := ag_remote_instance_id a;
                  fa_alignment_status := alignment_status report;
                  fa_transfer_scope := transfer_scope report;
                  fa_agreement_json := report; fa_remote_handshake_json := handshake;
                  fa_active := ag_active a; fa_created_at := ag_created_at a;
                  fa_updated_at := ag_updated_at a |})
  end.

Definition revoke_agreement (fault : faults) (now agreement_id local : Z) : M PeerDb sql_error bool :=
  exec fault 0 (λ d,
    let '(n, t) := t_update (λ a, ag_id a = agreement_id ∧ ag_local_server_id a = local ∧ is_active a)
                     (deactivate (sql_now now)) (agreements d) in
    (Ok (0 <? n)%nat, set_agreements t d)).

Definition list_active_agreements (fault : faults) (local : Z) (d : PeerDb) :
    result sql_error (list (Z * Z * string * string)) :=
  rows ← read fault 0 (order_by (flip String.le) ag_created_at
    (t_select (λ a, ag_local_server_id a = local ∧ is_active a) (agreements d)));
  Ok ((λ a, (ag_id a, ag_remote_instance_id a, ag_alignment_status a, ag_transfer_scope a)) <$>
        (rows : list AgreementRow)).

(** [older] is SQLite's [julianday('now') - julianday(updated_at) > max_age]. *)
Definition expire_stale_agreements (fault : faults) (older : string → bool) (now local : Z) :
    M PeerDb sql_error nat :=
  exec fault 0 (λ d,
    let '(n, t) := t_update (λ a, ag_local_server_id a = local ∧ is_active a ∧
                                  older (ag_updated_at a) = true)
                     (deactivate (sql_now now)) (agreements d) in
    (Ok n, set_agreements t d)).

(** ** handshake.rs *)

(** The contract of [process_incoming_handshake] spells capabilities in lower
    case, unlike [agent_contract]. *)
Definition handshake_contract (policy : ServerPolicy) : VrpCapabilitySharingContract :=
  {| required_capabilities := agent_required_capabilities policy;
     offered_capabilities :=
       (if voice_enabled policy then ["voice"] else []) ++
       (if federation_enabled policy then ["federation"] else []);
     redacted_topics := [] |}.
Definition federation_transfer_config (policy : ServerPolicy) : VrpTransferAcceptanceConfig :=
  {| allow_reflection_summaries := federation_enabled policy; allow_full_knowledge := false |}.

Definition handshake_report (policy : ServerPolicy) (local_anchor : VrpAnchorSnapshot)
    (handshake : VrpFederationHandshake) : VrpValidationReport :=
  validate_federation_handshake local_anchor (handshake_contract policy) handshake
    (agent_alignment_config policy) (federation_transfer_config policy).

Definition process_incoming_handshake (fault : faults) (clock : option Z) (now local : Z)
    (policy : ServerPolicy) (remote : Z) (handshake : VrpFederationHandshake) :
    M PeerDb HandshakeError VrpValidationReport :=
  local_anchor ← lift (ok_or (to_anchor_snapshot clock (from_policy policy)) VrpError);
  let report := handshake_report policy local_anchor handshake in
  catch_map DbError (create_agreement fault now local remote report (Some handshake));;
  mret report.

(** ** api_federation.rs: errors and POST /api/federation/handshake *)

Inductive FederationError :=
  | Handshake (e : HandshakeError)
  | FedDbError (e : sql_error)
  | UnknownRemote (what : string)
  | LockPoisoned
  | InvalidSignature
  | Network
  | RemoteServer
  | ZkVerification
  | IdentityDerivation
  | ChannelNotFound
  | ChannelError
  | Forbidden (what : string)
  | Serialization.

Definition federation_status (e : FederationError) : http_error :=
  match e with
  | Handshake UnknownRemoteInstance | UnknownRemote _ => 404
  | Forbidden _ => 403
  | InvalidSignature => 401
  | ZkVerification | IdentityDerivation | Serialization => 400
  | Handshake VrpError => 500
  | Handshake _ => 400
  | ChannelNotFound => 404
  | _ => 500
  end.

(** The instance with a base URL, statement [k]. *)
Definition resolve_instance (env : Env) (k : nat) (base_url : string) :
    M (State PeerDb) FederationError InstanceRow :=
  d ← gets db;
  rows ← on_db FedDbError env k (lift (Ok (t_select (has_url base_url) (instances d))));
  match rows with i :: _ => mret i | [] => throw (UnknownRemote base_url) end.

Definition federation_handshake_handler (env : Env) (policy : ServerPolicy) (s : Z) (base_url : string)
    (handshake : VrpFederationHandshake) : M (State PeerDb) FederationError VrpValidationReport :=
  i ← resolve_instance env 0 base_url;
  report ← catch_map Handshake (zoom db set_db
    (process_incoming_handshake (λ j, fault env (1 + j)%nat) (anchor_clock env) (now env) s policy
       (in_id i) handshake));
  emit env 5 s base_url (EventPayload.FederationEstablished base_url (status_text (alignment_status report)));;
  mret report.

(** ** policy.rs: recalculate_federation_agreements *)

Definition reevaluation_report (policy : ServerPolicy) (local_anchor : VrpAnchorSnapshot)
    (handshake : VrpFederationHandshake) : VrpValidationReport :=
  validate_federation_handshake local_anchor (agent_contract policy) handshake
    (agent_alignment_config policy) (federation_transfer_config policy).

Record FederationUpdate := {
  fu_id : Z;
  fu_base_url : string;
  fu_previous : string;
  fu_report : VrpValidationReport;
  fu_remote_instance_id : Z;
}.

(** The active agreements of every local server, joined with their instances. *)
Definition active_with_instance (d : PeerDb) : list (AgreementRow * InstanceRow) :=
  t_select is_active (agreements d) ≫= λ a,
    pair a <$> t_select (λ i, in_id i = ag_remote_instance_id a) (instances d).

Definition reevaluate_agreement (policy : ServerPolicy) (local_anchor : VrpAnchorSnapshot)
    (row : AgreementRow * InstanceRow) : result http_error (option FederationUpdate) :=
  let '(a, i) := row in
  match ag_remote_handshake_json a with
  | None => Ok None
  | Some j =>
      handshake ← ok_or (from_json j) 500;
      let report := reevaluation_report policy local_anchor handshake in
      Ok (if decide (status_text (alignment_status report) = ag_alignment_status a ∧
                     scope_text (transfer_scope report) = ag_transfer_scope a)
          then None
          else Some {| fu_id := ag_id a; fu_base_url := in_base_url i;
                       fu_previous := ag_alignment_status a; fu_report := report;
                       fu_remote_instance_id := ag_remote_instance_id a |})
  end.

Definition realign_agreement (report : VrpValidationReport) (now : string) (a : AgreementRow) : AgreementRow :=
  {| ag_id := ag_id a; ag_local_server_id := ag_local_server_id a;
     ag_remote_instance_id := ag_remote_instance_id a;
     ag_alignment_status := status_text (alignment_status report);
     ag_transfer_scope := scope_text (transfer_scope report); ag_agreement_json := to_json report;
     ag_active := negb (bool_decide (alignment_status report = Conflict));
     ag_created_at := ag_created_at a; ag_updated_at := now;
     ag_remote_handshake_json := ag_remote_handshake_json a |}.

Definition update_agreement (env : Env) (u : FederationUpdate) : M PeerDb sql_error unit := λ d,
  (Ok (), set_agreements (t_update (λ a, ag_id a = fu_id u)
                            (realign_agreement (fu_report u) (sql_now (now env))) (agreements d)).2 d).

Definition to_alignment_status (s : status) : AlignmentStatus.t :=
  match s with
  | Aligned => AlignmentStatus.Aligned
  | Partial => AlignmentStatus.Partial
  | Conflict => AlignmentStatus.Conflict
  end.

Definition announce_update (env : Env) (s : Z) (k : nat) (u : FederationUpdate) :
    M (State PeerDb) http_error unit :=
  let url := fu_base_url u in
  let new := alignment_status (fu_report u) in
  if decide (new = Conflict) then
    perform (PresenceSent (PresenceEvent.FederationSevered url));;
    emit env k s url (EventPayload.FederationSevered url "policy_conflict")
  else
    perform (PresenceSent (PresenceEvent.FederationRealigned url (to_alignment_status new)));;
    emit env k s url (EventPayload.FederationRealigned url (status_text new) (fu_previous u)).

(** Two statements per update, from statement [k] on. *)
Fixpoint apply_updates (env : Env) (s : Z) (k : nat) (us : list FederationUpdate) :
    M (State PeerDb) http_error unit :=
  match us with
  | [] => mret ()
  | u :: us =>
      on_db (λ _, 500) env k (update_agreement env u);;
      announce_update env s (S k) u;;
      apply_updates env s (S (S k)) us
  end.

(** The transaction: the affected peers.  BEGIN, SELECT and COMMIT are
    statements 0 to 2. *)
Definition realign_agreements (env : Env) (policy : ServerPolicy) (s : Z) :
    M (State PeerDb) http_error (list (string * Z)) :=
  local_anchor ← lift (ok_or (to_anchor_snapshot (anchor_clock env) (from_policy policy)) 500);
  db_transaction (λ _, 500) env 0 2
    (d ← gets db;
     rows ← on_db (λ _, 500) env 1 (lift (Ok (active_with_instance d)));
     us ← lift (filter_mapM (reevaluate_agreement policy local_anchor) rows);
     apply_updates env s 3 us;;
     mret ((λ u, (fu_base_url u, fu_remote_instance_id u)) <$> us)).

Record HandshakeRequest := { hr_base_url : string; hr_handshake : VrpFederationHandshake }.
Context `{SQ : Serde HandshakeRequest}.

(** The requests are sent by one task per peer; their order, and their
    answers, which are only logged, are left open. *)
Definition notify_federation_peers_of_policy_change (env : Env) (policy : ServerPolicy)
    (public_url : string) (peers : list (string * Z)) : list effect :=
  match to_anchor_snapshot (anchor_clock env) (from_policy policy) with
  | None => []
  | Some local_anchor =>
      (λ '(base_url, _),
        Posted (base_url +:+ "/api/federation/handshake")
          (to_json {| hr_base_url := public_url;
                      hr_handshake := {| anchor_snapshot := local_anchor;
                                         capability_contract := agent_contract policy |} |})) <$> peers
  end.

Definition recalculate_federation_agreements (env : Env) (policy : ServerPolicy) (s : Z)
    (public_url : string) : M (State PeerDb) http_error unit :=
  peers ← realign_agreements env policy s;
  perform_all (notify_federation_peers_of_policy_change env policy public_url peers).

(** ** api_admin.rs: DELETE /api/admin/federation/:id *)

(** The lookup's failure counts as no URL ([.ok()]). *)
Definition revoke_federation_handler (env : Env) (can_moderate : bool) (moderator : string) (s : Z)
    (agreement_id : Z) : M (State PeerDb) http_error (option string) :=
  _ ← lift (reject_if (negb can_moderate) 403);
  d ← gets db;
  let remote_url :=
    match read (fault env) 0 (filter (λ row : AgreementRow * InstanceRow,
              ag_id row.1 = agreement_id ∧ ag_local_server_id row.1 = s) (active_with_instance d)) with
    | Ok ((_, i) :: _) => Some (in_base_url i)
    | _ => None
    end in
  revoked ← catch_map (λ _, 500) (zoom db set_db
    (revoke_agreement (λ j, fault env (1 + j)%nat) (now env) agreement_id s));
  _ ← lift (reject_if (negb revoked) 404);
  match remote_url with
  | Some url => emit env 2 s moderator
      (EventPayload.FederationSevered url ("revoked by moderator " +:+ moderator))
  | None => mret ()
  end;;
  mret remote_url.
End peers.

(** * Theorems *)

Record peers_ok (d : PeerDb) : Prop := {
  po_instances : ids_ok in_id (instances d);
  po_urls : ∀ i1 i2, i1 ∈ t_rows (instances d) → i2 ∈ t_rows (instances d) →
    in_base_url i1 = in_base_url i2 → i1 = i2;
  po_agreements : ids_ok ag_id (agreements d);
  po_foreign : ∀ a, a ∈ t_rows (agreements d) →
    ∃ i, i ∈ t_rows (instances d) ∧ in_id i = ag_remote_instance_id a;
  po_one : ∀ a1 a2, a1 ∈ t_rows (agreements d) → a2 ∈ t_rows (agreements d) →
    is_active a1 → is_active a2 → ag_local_server_id a1 = ag_local_server_id a2 →
    ag_remote_instance_id a1 = ag_remote_instance_id a2 → a1 = a2;
}.

Section theorems.
Context `{HX : HexCrate, SH : Sha256, UT : UnicodeText, CK : Clock}.
Context `{SR : Serde VrpValidationReport, SF : Serde VrpFederationHandshake, SE : Serde EventPayload.t}.
Context `{SQ : Serde HandshakeRequest}.

Definition policy_handshake_report (policy : ServerPolicy) (h : VrpFederationHandshake) :
    VrpValidationReport := handshake_report policy (policy_anchor policy) h.
Definition policy_reevaluation (policy : ServerPolicy) (h : VrpFederationHandshake) :
    VrpValidationReport := reevaluation_report policy (policy_anchor policy) h.

Lemma policy_reports clock policy la h :
  to_anchor_snapshot clock (from_policy policy) = Some la →
  handshake_report policy la h = policy_handshake_report policy h ∧
  reevaluation_report policy la h = policy_reevaluation policy h.
Proof.
  unfold to_anchor_snapshot, new_anchor. destruct clock as [t|]; cbn; [|done]. by intros [= <-].
Qed.

(** An update that keeps the keys and activates nothing. *)
Lemma peers_ok_map f d d' :
  peers_ok d → instances d' = instances d →
  agreements d' = Table (f <$> t_rows (agreements d)) (t_seq (agreements d)) →
  (∀ a, a ∈ t_rows (agreements d) → ag_id (f a) = ag_id a ∧
     ag_local_server_id (f a) = ag_local_server_id a ∧
     ag_remote_instance_id (f a) = ag_remote_instance_id a ∧ (is_active (f a) → is_active a)) →
  peers_ok d'.
Proof.
  intros [Hi Hu [Hs Hq] Hf Ho] Ei Ea Hk. split; rewrite ?Ei; [done|done|..]; rewrite Ea.
  - split; cbn.
    + rewrite <- list_fmap_compose.
      replace (ag_id ∘ f <$> t_rows (agreements d)) with (ag_id <$> t_rows (agreements d)); [done|].
      apply list_fmap_ext. intros i x Hx%list_elem_of_lookup_2. by destruct (Hk x Hx) as (? & _).
    + apply Forall_fmap. apply Forall_forall. intros x Hx. cbn. destruct (Hk x Hx) as (-> & _).
      by apply (proj1 (Forall_forall _ _) Hq).
  - cbn. intros ? (x & -> & Hx)%list_elem_of_fmap. destruct (Hk x Hx) as (_ & _ & -> & _). by apply Hf.
  - cbn. intros ? ? (x & -> & Hx)%list_elem_of_fmap (y & -> & Hy)%list_elem_of_fmap.
    destruct (Hk x Hx) as (_ & -> & -> & Hax), (Hk y Hy) as (_ & -> & -> & Hay).
    intros ? ? ? ?. f_equal. by apply Ho; auto.
Qed.

Lemma peers_ok_deactivate P `{!∀ a, Decision (P a)} now d :
  peers_ok d → peers_ok (set_agreements (t_update P (deactivate now) (agreements d)).2 d).
Proof.
  intros HP. eapply (peers_ok_map (λ a, if decide (P a) then deactivate now a else a)); [done..|].
  intros a _. cbn. by case_decide.
Qed.

(** ** The handshake *)

Definition agreement_made (now local remote : Z) (report : VrpValidationReport)
    (h : option VrpFederationHandshake) (d : PeerDb) : PeerDb :=
  set_agreements (t_insert (agreement_row (sql_now now) local remote report h)
    (t_update (λ a, between local remote a ∧ is_active a) (deactivate (sql_now now)) (agreements d)).2).2 d.

Lemma create_agreement_cases fault now local remote report h d :
  let '(r, d') := create_agreement fault now local remote report h d in
  (∃ e, r = Err e ∧ d' = d) ∨
  (r = Ok (t_seq (agreements d) + 1) ∧ t_exists (λ i, in_id i = remote) (instances d) = true ∧
   d' = agreement_made now local remote report h d).
Proof.
  unfold create_agreement, transaction, exec.
  destruct (fault 0%nat); [by left; eexists|]. destruct (fault 1%nat); [by left; eexists|].
  destruct (fault 2%nat); [by left; eexists|]. unfold mbind, M_bind, mret, M_ret, insert_agreement, deactivate_pair.
  cbn [instances set_agreements]. destruct (t_exists _ (instances d)); [|by left; eexists].
  destruct (fault 3%nat); [by left; eexists|]. by right.
Qed.

(** The only active agreement of the pair is the new one; the earlier ones
    are kept, switched off. *)
Lemma agreement_made_ok now local remote report h d :
  peers_ok d → t_exists (λ i, in_id i = remote) (instances d) = true →
  let d' := agreement_made now local remote report h d in
  let row := agreement_row (sql_now now) local remote report h (t_seq (agreements d) + 1) in
  peers_ok d' ∧ row ∈ t_rows (agreements d') ∧
  (∀ b, b ∈ t_rows (agreements d') → between local remote b → is_active b → b = row) ∧
  (∀ b, ¬ between local remote b → b ∈ t_rows (agreements d') ↔ b ∈ t_rows (agreements d)) ∧
  (∀ b, b ∈ t_rows (agreements d) → between local remote b →
     ∃ b', b' ∈ t_rows (agreements d') ∧ ag_id b' = ag_id b ∧ ¬ is_active b').
Proof.
  intros HP He d' row. set (P := λ a, between local remote a ∧ is_active a).
  pose proof (peers_ok_deactivate P (sql_now now) d HP) as [Hi Hu Hids Hf Ho].
  set (t := (t_update P (deactivate (sql_now now)) (agreements d)).2) in *.
  assert (∀ b, b ∈ t_rows (agreements d') ↔ b ∈ t_rows t ∨ b = row) as Hin by apply elem_of_t_insert.
  assert (∀ b, b ∈ t_rows t → between local remote b → ¬ is_active b) as Hoff.
  { intros b (b0 & Hb0 & [[HPb ->]|[HPb ->]])%elem_of_t_update Hb Ha; [done|by apply HPb]. }
  assert (∀ b, ¬ between local remote b → b ∈ t_rows t ↔ b ∈ t_rows (agreements d)) as Hother.
  { intros b Hb. unfold t. rewrite elem_of_t_update. split; [|intros ?; exists b; unfold P; tauto].
    intros (b0 & Hb0 & [[[HPb _] ->]|[_ ->]]); [by destruct Hb|done]. }
  split_and!.
  - split; [done|done| | |].
    + by apply ids_ok_insert.
    + intros a [Ha| ->]%Hin; [by apply Hf|]. apply t_exists_spec in He as (i & ? & <-). by exists i.
    + intros a1 a2 [H1| ->]%Hin [H2| ->]%Hin A1 A2 E1 E2; [by apply Ho|..|done]; exfalso.
      * by apply (Hoff a1).
      * by apply (Hoff a2).
  - apply Hin. by right.
  - intros b [Hb| ->]%Hin Hbt Ha; [|done]. by destruct (Hoff b).
  - intros b Hb. rewrite Hin, Hother by done. split; [intros [?| ->]; [done|by destruct Hb]|by left].
  - intros b Hb Hbt. destruct (decide (is_active b)) as [Ha|Ha].
    + exists (deactivate (sql_now now) b). split; [|done]. apply Hin. left. apply elem_of_t_update.
      exists b. split; [done|]. left. by split.
    + exists b. split; [|done]. apply Hin. left. apply elem_of_t_update. exists b. split; [done|].
      right. split; [|done]. by intros [].
Qed.

Lemma resolve_instance_cases env k url st :
  (∃ i, i ∈ t_rows (instances (db st)) ∧ has_url url i ∧ resolve_instance env k url st = (Ok i, st)) ∨
  (∃ e, resolve_instance env k url st = (Err (FedDbError e), st)) ∨
  ((∀ i, i ∈ t_rows (instances (db st)) → ¬ has_url url i) ∧
   resolve_instance env k url st = (Err (UnknownRemote url), st)).
Proof.
  unfold resolve_instance, on_db, exec. destruct (fault env k) as [c|].
  { right. left. exists (SqliteFailure c). unfold mbind, M_bind, gets. cbn. by rewrite set_db_db. }
  unfold mbind, M_bind, gets, catch_map, zoom, lift. cbn. rewrite set_db_db.
  destruct (t_select (has_url url) (instances (db st))) as [|i rows] eqn:E.
  - right. right. split; [|done]. by apply (proj1 (t_select_nil _ _)).
  - left. exists i. assert (i ∈ t_select (has_url url) (instances (db st))) as [??]%elem_of_t_select
      by (rewrite E; left). done.
Qed.

Lemma federation_handshake_outcome env policy s url h st :
  peers_ok (db st) →
  let '(r, st') := federation_handshake_handler env policy s url h st in
  (∃ e, r = Err e ∧ db st' = db st ∧
     (federation_status e = 404 → ∀ i, i ∈ t_rows (instances (db st)) → ¬ has_url url i)) ∨
  (∃ i, i ∈ t_rows (instances (db st)) ∧ has_url url i ∧
   let report := policy_handshake_report policy h in
   let row := agreement_row (sql_now (now env)) s (in_id i) report (Some h)
                (t_seq (agreements (db st)) + 1) in
   r = Ok report ∧ peers_ok (db st') ∧ row ∈ t_rows (agreements (db st')) ∧
   (∀ b, b ∈ t_rows (agreements (db st')) → between s (in_id i) b → is_active b → b = row) ∧
   (∀ b, ¬ between s (in_id i) b →
      b ∈ t_rows (agreements (db st')) ↔ b ∈ t_rows (agreements (db st))) ∧
   (∀ b, b ∈ t_rows (agreements (db st)) → between s (in_id i) b →
      ∃ b', b' ∈ t_rows (agreements (db st')) ∧ ag_id b' = ag_id b ∧ ¬ is_active b')).
Proof.
  intros HP. unfold federation_handshake_handler. unfold mbind at 1, M_bind at 1.
  destruct (resolve_instance_cases env 0 url st) as [(i & Hi & Hu & ->)|[(e & ->)|[Hn ->]]].
  2: { left. eexists. split_and!; [done..|by destruct e]. }
  2: { left. by eexists. }
  unfold mbind at 1, M_bind at 1, catch_map at 1, zoom at 1, process_incoming_handshake.
  destruct (to_anchor_snapshot (anchor_clock env) (from_policy policy)) as [la|] eqn:Ela; cbn.
  2: { left. eexists. split_and!; [done..|by destruct st|done]. }
  unfold mbind, M_bind, lift, catch_map. cbn.
  destruct (policy_reports _ _ _ h Ela) as [-> _]. set (report := policy_handshake_report policy h).
  pose proof (create_agreement_cases (λ j, fault env (1 + j)%nat) (now env) s (in_id i) report (Some h) (db st)) as HC.
  destruct (create_agreement _ _ _ _ _ _ (db st)) as [r d']. destruct HC as [(e & -> & ->)|(-> & He & ->)]; cbn.
  { left. eexists. by split_and!. }
  right. exists i. destruct (agreement_made_ok (now env) s (in_id i) report (Some h) (db st) HP He)
    as (HP' & H1 & H2 & H3 & H4).
  split; [done|]. split; [done|]. cbn. split; [done|]. split; [by destruct HP'|]. done.
Qed.

(** A federation handshake from a known server either fails and leaves
    the agreements as they were (404 for an unknown base URL, nothing else
    written), or answers the report of the local policy and leaves exactly one
    active agreement with that server, which carries the report and the
    presented handshake; the earlier agreements of the pair are kept but
    inactive, and no other pair is touched.  The new agreement is active
    whatever the report says: also when it is a conflict. *)
Theorem federation_handshake_spec env policy s url h st :
  peers_ok (db st) →
  let '(r, st') := federation_handshake_handler env policy s url h st in
  (∃ e, r = Err e ∧ db st' = db st ∧
     (federation_status e = 404 → ∀ i, i ∈ t_rows (instances (db st)) → ¬ has_url url i)) ∨
  (∃ i, i ∈ t_rows (instances (db st)) ∧ has_url url i ∧
   let report := policy_handshake_report policy h in
   let row := agreement_row (sql_now (now env)) s (in_id i) report (Some h)
                (t_seq (agreements (db st)) + 1) in
   r = Ok report ∧ peers_ok (db st') ∧ row ∈ t_rows (agreements (db st')) ∧
   (∀ b, b ∈ t_rows (agreements (db st')) → between s (in_id i) b → is_active b → b = row) ∧
   (∀ b, ¬ between s (in_id i) b →
      b ∈ t_rows (agreements (db st')) ↔ b ∈ t_rows (agreements (db st))) ∧
   (∀ b, b ∈ t_rows (agreements (db st)) → between s (in_id i) b →
      ∃ b', b' ∈ t_rows (agreements (db st')) ∧ ag_id b' = ag_id b ∧ ¬ is_active b')).
Proof. apply federation_handshake_outcome. Qed.

(** ** Reading an agreement back *)

Definition plain_score (r : VrpValidationReport) : Prop :=
  alignment_score r = f32_one ∨ alignment_score r = f32_half ∨ alignment_score r = f32_zero.

Lemma validate_plain la lc h ac tc : plain_score (validate_federation_handshake la lc h ac tc).
Proof.
  unfold validate_federation_handshake, plain_score. destruct (if negb _ then _ else _) as [fs notes]; cbn.
  destruct fs; auto.
Qed.

Section round_trip.
Context {SFL : SerdeLaws VrpFederationHandshake}.
Hypothesis report_round_trip : ∀ r : VrpValidationReport, plain_score r → from_json (to_json r) = Some r.

(** What a handshake agreed on can be read back: on a server that is the
    only local server of its database, after a handshake with an instance
    [get_agreement] for that instance answers the agreement with the report's
    status and scope and with the handshake that was presented. *)
Theorem get_agreement_after_handshake env policy s url h i st :
  peers_ok (db st) → i ∈ t_rows (instances (db st)) → has_url url i →
  (∀ a, a ∈ t_rows (agreements (db st)) → ag_local_server_id a = s) →
  let '(r, st') := federation_handshake_handler env policy s url h st in
  is_ok r = true →
  let report := policy_handshake_report policy h in
  let now := sql_now (now env) in
  get_agreement no_fault (in_id i) (db st') =
    Ok (Some {| fa_id := t_seq (agreements (db st)) + 1; fa_local_server_id := s;
                fa_remote_instance_id := in_id i; fa_alignment_status := alignment_status report;
                fa_transfer_scope := transfer_scope report; fa_agreement_json := report;
                fa_remote_handshake_json := Some h; fa_active := true;
                fa_created_at := now; fa_updated_at := now |}).
Proof.
  intros HP Hi Hu Hl. pose proof (federation_handshake_outcome env policy s url h st HP) as HS.
  destruct (federation_handshake_handler env policy s url h st) as [r st'].
  destruct HS as [(e & -> & _)|(i' & Hi' & Hu' & -> & HP' & Hrow & Hone & Hother & _)]; [done|intros _].
  assert (i' = i) as -> by (apply (po_urls _ HP); [done..|]; by rewrite Hu, Hu').
  set (report := policy_handshake_report policy h) in *.
  set (row := agreement_row _ _ _ _ _ _) in *.
  assert (∀ b, b ∈ t_rows (agreements (db st')) → ag_remote_instance_id b = in_id i → is_active b → b = row)
    as Huniq.
  { intros b Hb Hbr Ha. destruct (decide (between s (in_id i) b)) as [Hbt|Hbt]; [by apply Hone|].
    assert (ag_local_server_id b = s) by (by apply Hl, Hother). by destruct Hbt. }
  unfold get_agreement, read. cbn -[no_fault]. cbn.
  destruct (t_select _ (agreements (db st'))) as [|a rows] eqn:E.
  { exfalso. apply (proj1 (t_select_nil _ _) E row Hrow). by split. }
  assert (a ∈ t_select (λ a, ag_remote_instance_id a = in_id i ∧ is_active a) (agreements (db st')))
    as [[??] ?]%elem_of_t_select by (rewrite E; left).
  rewrite (Huniq a) by done. unfold row, agreement_row. cbn.
  rewrite report_round_trip by apply validate_plain. cbn. by rewrite from_json_to_json.
Qed.
End round_trip.

(** ** Re-evaluation *)

Definition stored_agreement (a : AgreementRow) : option VrpFederationHandshake :=
  j ← ag_remote_handshake_json a; from_json j.

(** The row says what the policy says of the handshake it stores. *)
Definition agreement_current (policy : ServerPolicy) (a : AgreementRow) : Prop :=
  ag_remote_handshake_json a = None ∨
  ∃ h, stored_agreement a = Some h ∧
    ag_alignment_status a = status_text (alignment_status (policy_reevaluation policy h)) ∧
    ag_transfer_scope a = scope_text (transfer_scope (policy_reevaluation policy h)).

Definition agreement_after (policy : ServerPolicy) (now : string) (a a' : AgreementRow) : Prop :=
  (a' = a ∧ (is_active a → agreement_current policy a)) ∨
  (is_active a ∧ ¬ agreement_current policy a ∧
   ∃ h, stored_agreement a = Some h ∧ a' = realign_agreement (policy_reevaluation policy h) now a).

Definition targets (u : FederationUpdate) (a : AgreementRow) : Prop := ag_id a = fu_id u.
#[export] Instance targets_dec u a : Decision (targets u a).
Proof. unfold targets. apply _. Defined.
Definition update_row (now : string) (us : list FederationUpdate) (a : AgreementRow) : AgreementRow :=
  batch targets (λ u, realign_agreement (fu_report u) now) us a.

Lemma announce_update_ok env s k u st :
  ∃ t es, announce_update env s k u st =
    (Ok (), {| db := set_log t (db st); effects := effects st ++ es |}).
Proof.
  unfold announce_update, emit. case_decide; unfold mbind, M_bind, perform; cbn; rewrite <- app_assoc; by eexists _, _.
Qed.

Lemma apply_updates_ok env s k us st st' :
  apply_updates env s k us st = (Ok (), st') →
  instances (db st') = instances (db st) ∧
  agreements (db st') = Table (update_row (sql_now (now env)) us <$> t_rows (agreements (db st)))
                          (t_seq (agreements (db st))).
Proof.
  revert k st. induction us as [|u us IH]; intros k st; cbn [apply_updates].
  - intros [= <-]. cbn. rewrite list_fmap_id. by destruct (agreements (db st)).
  - intros ([] & st1 & (_ & d1 & H1 & ->)%on_db_ok & H)%M_bind_ok.
    unfold update_agreement in H1. injection H1 as <-.
    apply M_bind_ok in H as ([] & st3 & He & H).
    match type of He with announce_update ?a ?b ?c ?d ?x = _ =>
      destruct (announce_update_ok a b c d x) as (t & es & He') end.
    rewrite He in He'. injection He' as ->. apply IH in H as [-> ->]. cbn.
    split; [done|]. f_equal. by rewrite <- list_fmap_compose.
Qed.

Lemma apply_updates_fails env s k us : fails_only is_500 (apply_updates env s k us).
Proof.
  revert k. induction us as [|u us IH]; intros k; [done|]. cbn [apply_updates].
  apply fails_only_bind; [by apply on_db_fails|intros _]. apply fails_only_bind; [|done].
  intros st. by destruct (announce_update_ok env s (S k) u st) as (t & es & ->).
Qed.

Lemma reevaluate_agreement_cases policy la a i o :
  reevaluate_agreement policy la (a, i) = Ok o →
  (ag_remote_handshake_json a = None ∧ o = None) ∨
  ∃ h, stored_agreement a = Some h ∧
    let report := reevaluation_report policy la h in
    (o = None ∧ ag_alignment_status a = status_text (alignment_status report) ∧
     ag_transfer_scope a = scope_text (transfer_scope report)) ∨
    (o = Some {| fu_id := ag_id a; fu_base_url := in_base_url i; fu_previous := ag_alignment_status a;
                 fu_report := report; fu_remote_instance_id := ag_remote_instance_id a |} ∧
     ¬ (ag_alignment_status a = status_text (alignment_status report) ∧
        ag_transfer_scope a = scope_text (transfer_scope report))).
Proof.
  unfold reevaluate_agreement, stored_agreement.
  destruct (ag_remote_handshake_json a) as [j|]; [|intros [= <-]; by left]. cbn.
  destruct (from_json j) as [h|]; cbn; [|done]. intros [= <-]. right. exists h. split; [done|].
  case_decide as E; [left|right]; split; naive_solver.
Qed.

Lemma elem_of_active_with_instance d a i :
  (a, i) ∈ active_with_instance d ↔
  a ∈ t_rows (agreements d) ∧ is_active a ∧ i ∈ t_rows (instances d) ∧ in_id i = ag_remote_instance_id a.
Proof.
  unfold active_with_instance. rewrite list_elem_of_bind. setoid_rewrite list_elem_of_fmap.
  setoid_rewrite elem_of_t_select. naive_solver.
Qed.

Lemma active_with_instance_ids d : peers_ok d → NoDup (ag_id ∘ fst <$> active_with_instance d).
Proof.
  intros HP. unfold active_with_instance, t_select. destruct (po_agreements _ HP) as [Hs _].
  assert (NoDup (ag_id <$> filter is_active (t_rows (agreements d)))) as Hnd.
  { apply NoDup_fmap_2_strong; [|apply NoDup_filter, (ids_NoDup ag_id), HP].
    intros x y [_ Hx]%list_elem_of_filter [_ Hy]%list_elem_of_filter.
    by apply (ids_ok_inj ag_id (agreements d)); [apply HP|..]. }
  induction (filter is_active (t_rows (agreements d))) as [|a l IH]; cbn; [constructor|].
  apply NoDup_cons in Hnd as [Hn Hnd]. rewrite fmap_app. apply NoDup_app. split_and!; [|..|by apply IH].
  - rewrite <- list_fmap_compose. cbn.
    assert (∀ i1 i2, i1 ∈ filter (λ i, in_id i = ag_remote_instance_id a) (t_rows (instances d)) →
              i2 ∈ filter (λ i, in_id i = ag_remote_instance_id a) (t_rows (instances d)) → i1 = i2) as Hone.
    { intros i1 i2 [E1 H1]%list_elem_of_filter [E2 H2]%list_elem_of_filter.
      apply (ids_ok_inj in_id (instances d)); [apply HP|congruence..]. }
    assert (NoDup (filter (λ i, in_id i = ag_remote_instance_id a) (t_rows (instances d)))) as Hi
      by apply NoDup_filter, (ids_NoDup in_id), HP.
    destruct (filter _ (t_rows (instances d))) as [|i1 [|i2 r]]; [constructor|by apply NoDup_singleton|].
    apply NoDup_cons in Hi as [Hi _]. destruct Hi. rewrite (Hone i1 i2); set_solver.
  - intros x (? & -> & (i & -> & _)%list_elem_of_fmap)%list_elem_of_fmap Hx. cbn in Hx. apply Hn.
    apply list_elem_of_fmap in Hx as ([a' i'] & E & Hx). cbn in E. rewrite E.
    apply list_elem_of_bind in Hx as (a'' & (i'' & [= -> ->] & _)%list_elem_of_fmap & Hx).
    by apply list_elem_of_fmap_2.
Qed.

Lemma realign_agreements_cases env policy s st :
  let '(r, st') := realign_agreements env policy s st in
  (∃ peers, r = Ok peers) ∨ (r = Err 500 ∧ db st' = db st).
Proof.
  unfold realign_agreements.
  destruct (to_anchor_snapshot (anchor_clock env) (from_policy policy)) as [la|]; [|by right].
  unfold mbind at 1, M_bind at 1, lift at 1. cbn [ok_or].
  destruct (db_transaction _ _ _ _ _ st) as [r st'] eqn:Hre.
  destruct (db_transaction_cases is_500 _ _ _ _ _ _ _ _ Hre) as [?|(e & -> & -> & ?)]; [|done|by left|by right].
  apply fails_only_bind; [done|intros d]. apply fails_only_bind; [by apply on_db_fails|intros rows].
  apply fails_only_bind; [apply fails_only_lift|intros us].
  - apply filter_mapM_fails. intros [a i]. unfold reevaluate_agreement.
    destruct (ag_remote_handshake_json a) as [j|]; [|done]. by destruct (from_json j).
  - apply fails_only_bind; [apply apply_updates_fails|done].
Qed.

Lemma realign_agreements_rows env policy s st peers st' :
  peers_ok (db st) → realign_agreements env policy s st = (Ok peers, st') →
  instances (db st') = instances (db st) ∧
  ∃ f, agreements (db st') = Table (f <$> t_rows (agreements (db st))) (t_seq (agreements (db st))) ∧
  ∀ a, a ∈ t_rows (agreements (db st)) → agreement_after policy (sql_now (now env)) a (f a).
Proof.
  intros HP. unfold realign_agreements.
  destruct (to_anchor_snapshot (anchor_clock env) (from_policy policy)) as [la|] eqn:Ela; [|done].
  unfold mbind at 1, M_bind at 1, lift at 1. cbn [ok_or].
  intros (_ & _ & H)%db_transaction_ok.
  apply M_bind_ok in H as (d & st1 & [= <- <-] & H).
  apply M_bind_ok in H as (rows & st2 & (_ & d2 & H2 & ->)%on_db_ok & H).
  unfold lift in H2. injection H2 as <- <-. rewrite set_db_db in H.
  apply M_bind_ok in H as (us & st3 & H3 & H). unfold lift in H3. injection H3 as Hus <-.
  apply M_bind_ok in H as ([] & st4 & [Hi Ha]%apply_updates_ok & [= _ <-]).
  split; [done|]. exists (update_row (sql_now (now env)) us). split; [done|].
  destruct (filter_mapM_ok _ _ _ Hus) as [H1 H2].
  assert (NoDup (fu_id <$> us)) as Hnd.
  { eapply sublist_NoDup; [apply (active_with_instance_ids _ HP)|].
    apply (filter_mapM_sublist _ _ _ _ _ Hus). intros [a i] u Hu.
    destruct (reevaluate_agreement_cases _ _ _ _ _ Hu) as [[_ ?]|(h & _ & [[? _]|[[= ->] _]])]; done. }
  assert (∀ u, u ∈ us → ∃ a i h, (a, i) ∈ active_with_instance (db st) ∧ fu_id u = ag_id a ∧
            stored_agreement a = Some h ∧ fu_report u = policy_reevaluation policy h ∧
            ¬ (ag_alignment_status a = status_text (alignment_status (policy_reevaluation policy h)) ∧
               ag_transfer_scope a = scope_text (transfer_scope (policy_reevaluation policy h)))) as Hfrom.
  { intros u Hu. destruct (H2 u Hu) as ([a i] & Hai & Hre). exists a, i.
    destruct (reevaluate_agreement_cases _ _ _ _ _ Hre) as [[_ ?]|(h & Hh & [[? _]|[[= ->] Hne]])]; [done..|].
    destruct (policy_reports _ _ _ h Ela) as [_ E]. rewrite E in *. by exists h. }
  intros a Ha'. destruct (decide (Exists (λ u, targets u a) us)) as [(u & Hu' & Ht)%Exists_exists|Hn].
  - destruct (Hfrom u Hu') as (a' & i & h & Hai & Eid & Hh & Erep & Hne).
    apply elem_of_active_with_instance in Hai as (Ha'' & Hact & _).
    assert (a' = a) as -> by (apply (ids_ok_inj ag_id _ _ _ (po_agreements _ HP)); [done..|]; unfold targets in Ht; congruence).
    right. split; [done|]. split.
    + intros [E|(h' & Hh' & E)]; [unfold stored_agreement in Hh; by rewrite E in Hh|].
      rewrite Hh in Hh'. injection Hh' as <-. done.
    + exists h. split; [done|]. unfold update_row.
      rewrite (batch_one _ _ us u); [by rewrite Erep|by eapply NoDup_fmap_1|done..| |done].
      intros u' Hu'' Ht'. apply (NoDup_fmap_inj fu_id us); [done..|]. unfold targets in *. congruence.
  - left. split; [apply batch_none; intros u Hu Ht; apply Hn, Exists_exists; by exists u|]. intros Hact.
    destruct (po_foreign _ HP a Ha') as (i & Hi' & Ei).
    destruct (H1 (a, i)) as (o & Ho & Hin); [by apply elem_of_active_with_instance|].
    destruct (reevaluate_agreement_cases _ _ _ _ _ Ho) as [[Hj ->]|(h & Hh & Hcase)]; [by left|].
    destruct (policy_reports _ _ _ h Ela) as [_ E]. cbn zeta in Hcase. rewrite E in Hcase.
    destruct Hcase as [(-> & ? & ?)|(-> & _)]; [right; by exists h|].
    exfalso. apply Hn, Exists_exists. eexists. split; [by apply Hin|done].
Qed.

Lemma recalculate_agreements_cases env policy s url st :
  peers_ok (db st) →
  let '(r, st') := recalculate_federation_agreements env policy s url st in
  (r = Err 500 ∧ db st' = db st) ∨
  (r = Ok () ∧ peers_ok (db st') ∧
   (∀ a, a ∈ t_rows (agreements (db st')) → is_active a → agreement_current policy a) ∧
   ∃ f, t_rows (agreements (db st')) = f <$> t_rows (agreements (db st)) ∧
     ∀ a, a ∈ t_rows (agreements (db st)) → agreement_after policy (sql_now (now env)) a (f a)).
Proof.
  intros HP. unfold recalculate_federation_agreements. unfold mbind, M_bind.
  pose proof (realign_agreements_cases env policy s st) as HC.
  destruct (realign_agreements env policy s st) as [r st1] eqn:Hre.
  destruct HC as [[peers ->]|[-> ?]]; [|by left]. right. cbn.
  destruct (realign_agreements_rows _ _ _ _ _ _ HP Hre) as (Ei & f & Ea & Hf).
  split; [done|]. split_and!.
  - apply (peers_ok_map f (db st)); [done..|]. intros a Ha.
    destruct (Hf a Ha) as [[-> _]|(Hact & _ & h & _ & ->)]; [done|]. by split_and!.
  - rewrite Ea. cbn. intros ? (a & -> & Ha)%list_elem_of_fmap Hact.
    destruct (Hf a Ha) as [[E Hcur]|(Ha1 & _ & h & Hh & E)]; rewrite E in *; [by apply Hcur|].
    right. exists h. split_and!; [|done..]. exact Hh.
  - exists f. by rewrite Ea.
Qed.

(** ** Every sequence of operations on the agreements *)

(** The requests that write agreements, each with the faults of its
    statements, its time and the policy of the moment; [Expires] is the clean-up
    of stale agreements. *)
Inductive PeerOperation :=
  | Handshakes (env : Env) (policy : ServerPolicy) (s : Z) (base_url : string) (h : VrpFederationHandshake)
  | Reevaluates (env : Env) (policy : ServerPolicy) (s : Z) (public_url : string)
  | Revokes (env : Env) (can_moderate : bool) (moderator : string) (s : Z) (agreement_id : Z)
  | Expires (fault : faults) (older : string → bool) (now local : Z).

Definition operate (st : State PeerDb) (o : PeerOperation) : State PeerDb :=
  match o with
  | Handshakes env policy s url h => (federation_handshake_handler env policy s url h st).2
  | Reevaluates env policy s url => (recalculate_federation_agreements env policy s url st).2
  | Revokes env can_moderate moderator s id => (revoke_federation_handler env can_moderate moderator s id st).2
  | Expires fault older now local => set_db (expire_stale_agreements fault older now local (db st)).2 st
  end.

(** The known servers, of different base URLs, before any agreement. *)
Record no_agreements (d : PeerDb) : Prop := {
  na_instances : ids_ok in_id (instances d);
  na_urls : ∀ i1 i2, i1 ∈ t_rows (instances d) → i2 ∈ t_rows (instances d) →
    in_base_url i1 = in_base_url i2 → i1 = i2;
  na_agreements : agreements d = t_empty;
}.

Lemma no_agreements_ok d : no_agreements d → peers_ok d.
Proof.
  intros [Hi Hu Ha]. split; rewrite ?Ha; [done|done|apply ids_ok_empty|..].
  - by intros a H%not_elem_of_nil.
  - by intros a1 a2 H%not_elem_of_nil.
Qed.

Lemma peers_ok_log t d : peers_ok d → peers_ok (set_log t d).
Proof. by intros []. Qed.

Lemma revoke_federation_ok env can_moderate moderator s id st :
  peers_ok (db st) → peers_ok (db (revoke_federation_handler env can_moderate moderator s id st).2).
Proof.
  intros HP. unfold revoke_federation_handler, mbind, M_bind, lift, gets, catch_map, zoom, revoke_agreement, exec, reject_if.
  destruct can_moderate; cbn -[t_update]; [|done]. destruct (fault env 1%nat); cbn -[t_update]; [done|].
  pose proof (peers_ok_deactivate (λ a, ag_id a = id ∧ ag_local_server_id a = s ∧ is_active a)
    (sql_now (now env)) (db st) HP) as HP'.
  destruct (t_update _ (deactivate _) (agreements (db st))) as [n t]. cbn [snd] in HP'.
  destruct n; cbn; [exact HP'|]. destruct (match _ with Ok ((_, i) :: _) => Some (in_base_url i) | _ => None end); cbn.
  - exact (peers_ok_log _ _ HP').
  - done.
Qed.

Lemma expire_stale_ok fault older now local d :
  peers_ok d → peers_ok (expire_stale_agreements fault older now local d).2.
Proof.
  intros HP. unfold expire_stale_agreements, exec. destruct (fault 0%nat); [done|].
  pose proof (peers_ok_deactivate (λ a, ag_local_server_id a = local ∧ is_active a ∧ older (ag_updated_at a) = true)
    (sql_now now) d HP) as HP'. by destruct (t_update _ _ _).
Qed.

Lemma operate_ok st o : peers_ok (db st) → peers_ok (db (operate st o)).
Proof.
  intros HP. destruct o as [env policy s url h|env policy s url|env cm m s id|fault older now local]; cbn.
  - pose proof (federation_handshake_outcome env policy s url h st HP) as H.
    destruct (federation_handshake_handler _ _ _ _ _ _) as [r st'].
    by destruct H as [(e & _ & E & _)|(i & _ & _ & _ & ? & _)]; cbn; [rewrite E|].
  - pose proof (recalculate_agreements_cases env policy s url st HP) as H.
    destruct (recalculate_federation_agreements _ _ _ _ _) as [r st'].
    by destruct H as [[_ E]|(_ & ? & _)]; cbn; [rewrite E|].
  - by apply revoke_federation_ok.
  - by apply expire_stale_ok.
Qed.

Lemma operations_ok os st : peers_ok (db st) → peers_ok (db (foldl operate st os)).
Proof. revert st. induction os as [|o os IH]; intros st HP; [done|]. cbn. by apply IH, operate_ok. Qed.

Definition one_agreement (d : PeerDb) : Prop := ∀ a1 a2,
  a1 ∈ t_rows (agreements d) → a2 ∈ t_rows (agreements d) → is_active a1 → is_active a2 →
  ag_local_server_id a1 = ag_local_server_id a2 → ag_remote_instance_id a1 = ag_remote_instance_id a2 → a1 = a2.

(** C22. Whatever handshakes, re-evaluations, revocations and clean-ups came
    before, failed statements included, a local server has at most one active
    agreement with another.  A handshake that succeeds then puts its own
    agreement in force for the pair, and no other.  And a change of policy
    reaches every agreement: when the re-evaluation succeeds, every active
    agreement with a stored handshake says what the policy says of that handshake;
    an agreement is changed only if it was active and said something else,
    it is switched off exactly when the new verdict is a conflict, and nothing
    becomes active.  When it fails, with 500, every agreement is as it was. *)
Theorem federation_agreements_in_force st0 os env policy s url h :
  no_agreements (db st0) →
  let st := foldl operate st0 os in
  one_agreement (db st) ∧
  (let '(r, st') := federation_handshake_handler env policy s url h st in
   is_ok r = true →
   ∃ i row, i ∈ t_rows (instances (db st)) ∧ has_url url i ∧ between s (in_id i) row ∧ is_active row ∧
     row ∈ t_rows (agreements (db st')) ∧ ag_remote_handshake_json row = Some (to_json h) ∧
     (∀ b, b ∈ t_rows (agreements (db st')) → between s (in_id i) b → is_active b → b = row)) ∧
  (let '(r, st') := recalculate_federation_agreements env policy s url st in
   (r = Err 500 ∧ db st' = db st) ∨
   (r = Ok () ∧
    (∀ a, a ∈ t_rows (agreements (db st')) → is_active a → agreement_current policy a) ∧
    ∃ f, t_rows (agreements (db st')) = f <$> t_rows (agreements (db st)) ∧
      ∀ a, a ∈ t_rows (agreements (db st)) → agreement_after policy (sql_now (now env)) a (f a))).
Proof.
  intros H0 st. assert (peers_ok (db st)) as HP by (by apply operations_ok, no_agreements_ok).
  split; [exact (po_one _ HP)|]. split.
  - pose proof (federation_handshake_outcome env policy s url h st HP) as H.
    destruct (federation_handshake_handler env policy s url h st) as [r st'].
    destruct H as [(e & -> & _)|(i & Hi & Hu & -> & _ & Hrow & Hone & _)]; [done|]. intros _.
    by exists i, (agreement_row (sql_now (now env)) s (in_id i) (policy_handshake_report policy h) (Some h)
               (t_seq (agreements (db st)) + 1)).
  - pose proof (recalculate_agreements_cases env policy s url st HP) as H.
    destruct (recalculate_federation_agreements env policy s url st) as [r st'].
    destruct H as [H|(Hr & _ & Hc & Hf)]; [by left|right; by split_and!].
Qed.

(** A policy change is not needed to sever a peer: the handshake offers
    the capabilities "voice" and "federation", the re-evaluation "VOICE" and
    "FEDERATION".  A server of the same policy that asks for "voice" is
    accepted as aligned, and the next re-evaluation, under the very policy of
    the handshake, leaves it without an active agreement. *)
Theorem reevaluation_severs_aligned_peer `{!SerdeLaws VrpFederationHandshake} env env' policy s url url' h i st :
  peers_ok (db st) → i ∈ t_rows (instances (db st)) → has_url url i →
  voice_enabled policy = true →
  principles_hash (anchor_snapshot h) = hash_list (principles policy) →
  prohibited_actions_hash (anchor_snapshot h) = hash_list (prohibited_actions policy) →
  required_capabilities (capability_contract h) = ["voice"] →
  offered_capabilities (capability_contract h) = agent_required_capabilities policy →
  let '(r, st1) := federation_handshake_handler env policy s url h st in
  let '(r', st2) := recalculate_federation_agreements env' policy s url' st1 in
  is_ok r = true → is_ok r' = true →
  alignment_status (policy_handshake_report policy h) = Aligned ∧
  (∃ a, a ∈ t_rows (agreements (db st1)) ∧ between s (in_id i) a ∧ is_active a) ∧
  (∀ a, a ∈ t_rows (agreements (db st2)) → between s (in_id i) a → ¬ is_active a).
Proof.
  intros HP Hi Hu Hv Hph Hah Hreq Hoff.
  assert (alignment_status (policy_handshake_report policy h) = Aligned) as EA.
  { unfold policy_handshake_report, handshake_report, validate_federation_handshake, contracts_mutually_accepted.
    rewrite Hreq, Hoff. cbn. rewrite Hv. cbn. rewrite bool_decide_eq_true_2 by left. cbn.
    replace (forallb _ _) with true by (symmetry; apply forallb_forall; intros c Hc; apply bool_decide_eq_true_2; by apply list_elem_of_In).
    cbn. unfold compare_peer_anchor. cbn. rewrite Hph, Hah. by rewrite !bool_decide_eq_true_2 by done. }
  assert (alignment_status (policy_reevaluation policy h) = Conflict) as EC.
  { unfold policy_reevaluation, reevaluation_report, validate_federation_handshake, contracts_mutually_accepted.
    rewrite Hreq. cbn. rewrite bool_decide_eq_false_2; [done|].
    destruct (voice_enabled policy), (federation_enabled policy); cbn; set_solver. }
  pose proof (federation_handshake_outcome env policy s url h st HP) as HS.
  destruct (federation_handshake_handler env policy s url h st) as [r st1].
  destruct HS as [(e & -> & _)|(i' & Hi' & Hu' & -> & HP1 & Hrow & Hone & _)].
  { by destruct (recalculate_federation_agreements _ _ _ _ st1). }
  assert (i' = i) as -> by (apply (po_urls _ HP); [done..|]; by rewrite Hu, Hu').
  pose proof (recalculate_agreements_cases env' policy s url' st1 HP1) as HR.
  destruct (recalculate_federation_agreements env' policy s url' st1) as [r' st2].
  destruct HR as [[-> _]|(-> & _ & _ & f & Ef & Hf)]; [done|intros _ _].
  split; [done|]. split; [by eexists|]. rewrite Ef.
  intros ? (a & -> & Ha)%list_elem_of_fmap Hbt Hact.
  destruct (Hf a Ha) as [[E Hcur]|(Ha1 & _ & k & Hk & E)]; rewrite E in *.
  - rewrite (Hone a) in Hcur by done. destruct (Hcur eq_refl) as [?|(k & Hk & Est & _)]; [done|].
    unfold stored_agreement in Hk. cbn in Hk. rewrite from_json_to_json in Hk. injection Hk as <-.
    cbn in Est. by rewrite EA, EC in Est.
  - rewrite (Hone a) in Hk; [|done| |done]; [|by destruct Hbt]. unfold stored_agreement in Hk. cbn in Hk.
    rewrite from_json_to_json in Hk. injection Hk as <-. unfold is_active in Hact. cbn in Hact. by rewrite EC in Hact.
Qed.
End theorems.

(** ** Witnesses *)

#[export] Instance spec_float_countable : Countable spec_float.
Proof.
  refine (inj_countable' (λ x, match x with
      | S754_zero b => inl b | S754_infinity b => inr (inl b) | S754_nan => inr (inr (inl ()))
      | S754_finite b m e => inr (inr (inr (b, m, e))) end)
    (λ c, match c with
      | inl b => S754_zero b | inr (inl b) => S754_infinity b | inr (inr (inl ())) => S754_nan
      | inr (inr (inr (b, m, e))) => S754_finite b m e end) _).
  by intros [].
Defined.
#[export] Instance status_countable : Countable VrpAlignmentStatus.t.
Proof.
  refine (inj_countable' (λ s, match s with Aligned => 0%nat | Partial => 1%nat | Conflict => 2%nat end)
    (λ n, match n with O => Aligned | 1%nat => Partial | _ => Conflict end) _). by intros [].
Defined.
#[export] Instance scope_countable : Countable VrpTransferScope.
Proof.
  refine (inj_countable' scope_rank
    (λ n, match n with O => NoTransfer | 1%nat => ReflectionSummariesOnly | _ => FullKnowledgeBundle end) _).
  by intros [].
Defined.
#[export] Instance report_eq_dec : EqDecision VrpValidationReport.
Proof. solve_decision. Defined.
#[export] Instance report_countable : Countable VrpValidationReport.
Proof.
  refine (inj_countable' (λ r, (alignment_status r, transfer_scope r, alignment_score r, negotiation_notes r))
    (λ '(s, t, x, n), {| alignment_status := s; transfer_scope := t; alignment_score := x;
                         negotiation_notes := n |}) _).
  by intros [].
Defined.
#[export] Instance handshake_eq_dec : EqDecision VrpFederationHandshake.
Proof. solve_decision. Defined.
#[export] Instance handshake_countable : Countable VrpFederationHandshake.
Proof.
  refine (inj_countable' (λ h, (anchor_snapshot h, capability_contract h))
    (λ '(a, c), {| anchor_snapshot := a; capability_contract := c |}) _).
  by intros [].
Defined.

Definition report_serde : Serde VrpValidationReport := serde_countable _.
Definition handshake_serde : Serde VrpFederationHandshake := serde_countable _.
Definition toy_request_serde : Serde HandshakeRequest :=
  {| to_json r := hr_base_url r; from_json _ := None |}.

Section witnesses.
#[local] Existing Instances hex_reference toy_sha256 ascii_text toy_clock report_serde toy_event_serde
  handshake_serde toy_request_serde.
#[local] Instance handshake_serde_laws : SerdeLaws VrpFederationHandshake := serde_countable_laws _.

Definition peer : InstanceRow :=
  {| in_id := 1; in_base_url := "https://b"; in_public_key := ""; in_label := "b"; in_server_slug := None;
     in_status := "ACTIVE"; in_last_seen_at := None; in_metadata_json := None; in_created_at := "" |}.
Definition one_peer : State PeerDb :=
  {| db := {| instances := Table [peer] 1; agreements := t_empty; peer_events := t_empty |}; effects := [] |}.

Lemma one_peer_ok : peers_ok (db one_peer).
Proof.
  split; cbn.
  - split; cbn; [by repeat constructor|]. constructor; [by vm_compute|constructor].
  - set_solver.
  - apply ids_ok_empty.
  - by intros a Ha%not_elem_of_nil.
  - by intros a1 a2 Ha%not_elem_of_nil.
Qed.

(** A server of the same policy that asks for the lower-case capability. *)
Definition voice_peer : VrpFederationHandshake :=
  {| anchor_snapshot := policy_anchor ServerPolicy_default;
     capability_contract :=
       {| required_capabilities := ["voice"];
          offered_capabilities := agent_required_capabilities ServerPolicy_default; redacted_topics := [] |} |}.

Definition shook : State PeerDb :=
  (federation_handshake_handler toy_env ServerPolicy_default 1 "https://b" voice_peer one_peer).2.

Lemma shook_ok :
  (federation_handshake_handler toy_env ServerPolicy_default 1 "https://b" voice_peer one_peer).1 =
    Ok (policy_handshake_report ServerPolicy_default voice_peer).
Proof. by vm_compute. Qed.

Lemma federation_handshake_spec_witness :
  peers_ok (db shook) ∧ ∃ a, a ∈ t_rows (agreements (db shook)) ∧ between 1 1 a ∧ is_active a.
Proof.
  pose proof (federation_handshake_spec toy_env ServerPolicy_default 1 "https://b" voice_peer one_peer one_peer_ok) as H.
  pose proof shook_ok as Hok. unfold shook.
  destruct (federation_handshake_handler toy_env ServerPolicy_default 1 "https://b" voice_peer one_peer) as [r st'].
  cbn in Hok. destruct H as [(e & -> & _)|(i & Hi & _ & _ & HP & Hrow & _)]; [done|].
  apply list_elem_of_singleton in Hi as ->. split; [done|]. by eexists.
Defined.

Lemma shook_peers_ok : peers_ok (db shook).
Proof.
  pose proof (federation_handshake_outcome toy_env ServerPolicy_default 1 "https://b" voice_peer one_peer one_peer_ok) as H.
  pose proof shook_ok as Hok. unfold shook.
  destruct (federation_handshake_handler toy_env ServerPolicy_default 1 "https://b" voice_peer one_peer) as [r st'].
  cbn in Hok. by destruct H as [(e & -> & _)|(i & _ & _ & _ & HP & _)].
Qed.

Lemma get_agreement_after_handshake_witness :
  ∃ a, get_agreement no_fault 1 (db shook) = Ok (Some a) ∧ fa_alignment_status a = Aligned ∧
       fa_remote_handshake_json a = Some voice_peer.
Proof.
  pose proof (get_agreement_after_handshake (λ r _, from_json_to_json (SerdeLaws := serde_countable_laws _) r)
    toy_env ServerPolicy_default 1 "https://b" voice_peer peer one_peer one_peer_ok) as H.
  pose proof shook_ok as Hok. unfold shook.
  destruct (federation_handshake_handler toy_env ServerPolicy_default 1 "https://b" voice_peer one_peer) as [r st'].
  cbn in Hok. eexists. split; [apply H; [by left|done|by intros a Ha%not_elem_of_nil|by rewrite Hok]|done].
Defined.

Lemma one_peer_fresh : no_agreements (db one_peer).
Proof. by destruct one_peer_ok. Qed.

(** After two handshakes of the same server, and under a policy the stored
    handshake is a conflict with. *)
Lemma federation_agreements_in_force_witness :
  let again := Handshakes toy_env ServerPolicy_default 1 "https://b" voice_peer in
  let st := foldl operate one_peer [again; again] in
  length (t_rows (agreements (db st))) = 2%nat ∧
  one_agreement (db st) ∧
  ∀ a, a ∈ t_rows (agreements (db (recalculate_federation_agreements toy_env strict_policy 1 "" st).2)) →
    is_active a → agreement_current strict_policy a.
Proof.
  cbv zeta. split; [by vm_compute|].
  destruct (federation_agreements_in_force one_peer
    [Handshakes toy_env ServerPolicy_default 1 "https://b" voice_peer;
     Handshakes toy_env ServerPolicy_default 1 "https://b" voice_peer] toy_env strict_policy 1 "" voice_peer
    one_peer_fresh) as (H1 & _ & H3).
  split; [exact H1|]. revert H3.
  set (o := recalculate_federation_agreements _ _ _ _ _). assert (is_ok o.1 = true) as Hok by (by vm_compute).
  destruct o as [r st']. intros [[-> _]|(_ & H & _)]; [done|exact H].
Defined.

Lemma reevaluation_severs_aligned_peer_witness :
  alignment_status (policy_handshake_report ServerPolicy_default voice_peer) = Aligned ∧
  ∀ a, a ∈ t_rows (agreements (db (recalculate_federation_agreements toy_env ServerPolicy_default 1 "" shook).2)) →
    between 1 1 a → ¬ is_active a.
Proof.
  pose proof (reevaluation_severs_aligned_peer toy_env toy_env ServerPolicy_default 1 "https://b" "" voice_peer
    peer one_peer one_peer_ok ltac:(by left) eq_refl eq_refl eq_refl eq_refl eq_refl eq_refl) as H.
  assert (is_ok (recalculate_federation_agreements toy_env ServerPolicy_default 1 "" shook).1 = true) as Hok'
    by (by vm_compute).
  pose proof shook_ok as Hok. unfold shook in *.
  destruct (federation_handshake_handler toy_env ServerPolicy_default 1 "https://b" voice_peer one_peer) as [r st'].
  cbn in Hok, Hok' |- *.
  destruct (recalculate_federation_agreements toy_env ServerPolicy_default 1 "" st') as [r' st''].
  destruct H as (H1 & _ & H2); [by rewrite Hok|done|by split].
Defined.
End witnesses.
