(* ===== verification/Rtx.v ===== *)
(** * Rtx: the exchange of reflection bundles between agents

    crates/annex-rtx and crates/annex-server/src/api_rtx.rs: publishing and
    delivering bundles under transfer scopes, subscriptions, the relay to
    federation peers and the transfer log, on the tables of migrations 020
    and 021. *)

From stdpp Require Import pretty.
From S2P Require Import Prelude Sql Bytes Types Identity Text Observe Vrp Connections Handlers Agents Peers.

#[local] Open Scope Z_scope.

(** ** annex-rtx: types.rs *)

Record ReflectionSummaryBundle := {
  bundle_id : string;
  source_pseudonym : string;
  source_server : string;
  domain_tags : list string;
  summary : string;
  reasoning_chain : option string;
  caveats : list string;
  created_at : Z;                              (* u128 *)
  signature : string;
  vrp_handshake_ref : string;
}.

Record BundleProvenance := {
  origin_server : string;
  relay_path : list string;
  pv_bundle_id : string;
}.

Inductive RtxError :=
  | TransferDenied
  | RedactedTopic (tag : string)
  | InvalidBundle (field : string).

(** ** annex-rtx: validation.rs *)

Definition enforce_transfer_scope (bundle : ReflectionSummaryBundle) (scope : VrpTransferScope) :
    result RtxError ReflectionSummaryBundle :=
  match scope with
  | NoTransfer => Err TransferDenied
  | ReflectionSummariesOnly =>
      Ok {| bundle_id := bundle_id bundle; source_pseudonym := source_pseudonym bundle;
            source_server := source_server bundle; domain_tags := domain_tags bundle;
            summary := summary bundle; reasoning_chain := None; caveats := caveats bundle;
            created_at := created_at bundle; signature := signature bundle;
            vrp_handshake_ref := vrp_handshake_ref bundle |}
  | FullKnowledgeBundle => Ok bundle
  end.

Fixpoint check_tags (tags redacted_topics : list string) : result RtxError unit :=
  match tags with
  | [] => Ok ()
  | tag :: tags => if bool_decide (tag ∈ redacted_topics) then Err (RedactedTopic tag)
                   else check_tags tags redacted_topics
  end.
Definition check_redacted_topics (bundle : ReflectionSummaryBundle) (redacted_topics : list string) :
    result RtxError unit := check_tags (domain_tags bundle) redacted_topics.

Definition validate_bundle_structure (bundle : ReflectionSummaryBundle) : result RtxError unit :=
  _ ← reject_if (bool_decide (bundle_id bundle = "")) (InvalidBundle "bundle_id");
  _ ← reject_if (bool_decide (source_pseudonym bundle = "")) (InvalidBundle "source_pseudonym");
  _ ← reject_if (bool_decide (source_server bundle = "")) (InvalidBundle "source_server");
  _ ← reject_if (bool_decide (summary bundle = "")) (InvalidBundle "summary");
  _ ← reject_if (bool_decide (signature bundle = "")) (InvalidBundle "signature");
  _ ← reject_if (bool_decide (vrp_handshake_ref bundle = "")) (InvalidBundle "vrp_handshake_ref");
  reject_if (created_at bundle =? 0) (InvalidBundle "created_at").

Definition line (s rest : string) : string := s +:+ String newline rest.

Definition bundle_signing_payload (bundle : ReflectionSummaryBundle) : string :=
  line (bundle_id bundle) (line (source_pseudonym bundle) (line (source_server bundle)
    (line (summary bundle) (pretty (Z.to_N (created_at bundle)))))).

(** ** Tables *)

Record BundleRow := {
  bu_id : Z;
  bu_server_id : Z;
  bu_bundle_id : string;
  bu_source_pseudonym : string;
  bu_source_server : string;
  bu_domain_tags_json : string;
  bu_summary : string;
  bu_reasoning_chain : option string;
  bu_caveats_json : string;
  bu_created_at_ms : Z;
  bu_signature : string;
  bu_vrp_handshake_ref : string;
  bu_stored_at : string;
  bu_provenance_json : option string;
}.

Record SubscriptionRow := {
  su_id : Z;
  su_server_id : Z;
  su_subscriber_pseudonym : string;
  su_domain_filters_json : string;
  su_accept_federated : bool;
  su_created_at : string;
}.

Record TransferRow := {
  tr_id : Z;
  tr_server_id : Z;
  tr_bundle_id : string;
  tr_source_pseudonym : string;
  tr_destination_pseudonym : option string;
  tr_transfer_scope_applied : string;
  tr_redactions_applied : option string;
  tr_transferred_at : string;
}.

Record RtxDb := {
  rtx_agents : table AgentRow;
  rtx_bundles : table BundleRow;
  rtx_subscriptions : table SubscriptionRow;
  rtx_transfer_log : table TransferRow;
  rtx_peers : PeerDb;
  rtx_servers : gset Z;
}.
Definition set_bundles (t : table BundleRow) (d : RtxDb) : RtxDb :=
  {| rtx_agents := rtx_agents d; rtx_bundles := t; rtx_subscriptions := rtx_subscriptions d;
     rtx_transfer_log := rtx_transfer_log d; rtx_peers := rtx_peers d; rtx_servers := rtx_servers d |}.
Definition set_subscriptions (t : table SubscriptionRow) (d : RtxDb) : RtxDb :=
  {| rtx_agents := rtx_agents d; rtx_bundles := rtx_bundles d; rtx_subscriptions := t;
     rtx_transfer_log := rtx_transfer_log d; rtx_peers := rtx_peers d; rtx_servers := rtx_servers d |}.
Definition set_transfer_log (t : table TransferRow) (d : RtxDb) : RtxDb :=
  {| rtx_agents := rtx_agents d; rtx_bundles := rtx_bundles d; rtx_subscriptions := rtx_subscriptions d;
     rtx_transfer_log := t; rtx_peers := rtx_peers d; rtx_servers := rtx_servers d |}.

(** [u128 as i64]. *)
Definition u128_as_i64 (z : Z) : Z := (z + 2 ^ 63) mod 2 ^ 64 - 2 ^ 63.

Definition subscription_of (s : Z) (p : string) (su : SubscriptionRow) : Prop :=
  su_server_id su = s ∧ su_subscriber_pseudonym su = p.
#[export] Instance subscription_of_dec s p su : Decision (subscription_of s p su).
Proof. unfold subscription_of. apply _. Defined.
Definition is_active_registration (s : Z) (p : string) (a : AgentRow) : Prop :=
  is_agent s p a ∧ ar_active a = true.
#[export] Instance is_active_registration_dec s p a : Decision (is_active_registration s p a).
Proof. unfold is_active_registration. apply _. Defined.

(** ** What is sent *)

(** [json!({"type": "rtx_bundle", "bundle": ...})], with "federated" and
    "provenance" for a bundle from a peer. *)
Inductive RtxMessage :=
  | LocalBundle (bundle : ReflectionSummaryBundle)
  | FederatedBundle (bundle : ReflectionSummaryBundle) (provenance : BundleProvenance).

Record FederatedRtxEnvelope := {
  en_bundle : ReflectionSummaryBundle;
  en_provenance : BundleProvenance;
  en_relaying_server : string;
  en_signature : string;
}.

(** ed25519_dalek: [verify] answers false for bytes that are no key. *)
Class Ed25519 := {
  signing_key : Type;
  ed_public : signing_key → list byte;
  sign : signing_key → list byte → list byte;
  ed_verify : list byte → list byte → list byte → bool;
}.
Class Ed25519Laws `(Ed25519) := {
  ed_public_length : ∀ k, length (ed_public k) = 32%nat;
  sign_length : ∀ k m, length (sign k m) = 64%nat;
  ed_verify_sign : ∀ k m, ed_verify (ed_public k) m (sign k m) = true;
}.

Definition rtx_relay_signing_payload (bundle_id relaying_server origin_server : string)
    (relay_path : list string) : string :=
  line bundle_id (line relaying_server (line origin_server (String.concat "|" relay_path))).

Section rtx.
Context `{HX : HexCrate, CK : Clock, ED : Ed25519}.
Context `{SL : Serde (list string), SM : Serde RtxMessage, SC : Serde VrpCapabilitySharingContract}.
Context `{SEN : Serde FederatedRtxEnvelope, SPV : Serde BundleProvenance}.

Abbreviation query := (on_db (D := RtxDb) (λ _, 500 : http_error)).

(** ** Delivery to local subscribers *)

(** Fails open: an unreadable contract redacts nothing. *)
Definition extract_redacted_topics (contract_json : string) : list string :=
  match (from_json contract_json : option VrpCapabilitySharingContract) with
  | Some c => redacted_topics c
  | None => []
  end.

Definition insert_bundle (now : string) (s : Z) (bundle : ReflectionSummaryBundle)
    (provenance : option BundleProvenance) : M RtxDb sql_error unit := λ d,
  if t_exists (λ b, bu_bundle_id b = bundle_id bundle) (rtx_bundles d) then (Err ConstraintUnique, d)
  else if bool_decide (s ∉ rtx_servers d) then (Err ConstraintForeignKey, d)
  else (Ok (), set_bundles (t_insert (λ id,
    {| bu_id := id; bu_server_id := s; bu_bundle_id := bundle_id bundle;
       bu_source_pseudonym := source_pseudonym bundle; bu_source_server := source_server bundle;
       bu_domain_tags_json := to_json (domain_tags bundle); bu_summary := summary bundle;
       bu_reasoning_chain := reasoning_chain bundle; bu_caveats_json := to_json (caveats bundle);
       bu_created_at_ms := u128_as_i64 (created_at bundle); bu_signature := signature bundle;
       bu_vrp_handshake_ref := vrp_handshake_ref bundle; bu_stored_at := now;
       bu_provenance_json := to_json <$> provenance |}) (rtx_bundles d)).2 d).

Definition log_transfer (now : string) (s : Z) (bundle : ReflectionSummaryBundle) (destination : option string)
    (scope : VrpTransferScope) (stripped : bool) : M RtxDb sql_error unit := λ d,
  if bool_decide (s ∉ rtx_servers d) then (Err ConstraintForeignKey, d)
  else (Ok (), set_transfer_log (t_insert (λ id,
    {| tr_id := id; tr_server_id := s; tr_bundle_id := bundle_id bundle;
       tr_source_pseudonym := source_pseudonym bundle; tr_destination_pseudonym := destination;
       tr_transfer_scope_applied := scope_text scope;
       tr_redactions_applied := if stripped then Some "reasoning_chain_stripped" else None;
       tr_transferred_at := now |}) (rtx_transfer_log d)).2 d).

(** The subscriptions of active agents: pseudonym, filters, scope. *)
Definition subscribers (s : Z) (P : SubscriptionRow → Prop) `{!∀ su, Decision (P su)} (d : RtxDb) :
    list (string * string * string) :=
  t_select (λ su, su_server_id su = s ∧ P su) (rtx_subscriptions d) ≫= λ su,
    (λ a, (su_subscriber_pseudonym su, su_domain_filters_json su, ar_transfer_scope a)) <$>
      t_select (is_active_registration s (su_subscriber_pseudonym su)) (rtx_agents d).

(** A scope that permits RTX, parsed. *)
Definition rtx_scope (text : string) : option VrpTransferScope :=
  scope ← scope_from_str text;
  if scope_ltb scope ReflectionSummariesOnly then None else Some scope.

(** The body of the delivery loop: the receiver's scope and bundle, or skip. *)
Definition receive_as (stored : ReflectionSummaryBundle) (filters_json scope_str : string) :
    option (VrpTransferScope * ReflectionSummaryBundle) :=
  filters ← (from_json filters_json : option (list string));
  if bool_decide (filters = []) || existsb (λ tag, bool_decide (tag ∈ (filters : list string))) (domain_tags stored)
  then
    receiver_scope ← rtx_scope scope_str;
    match enforce_transfer_scope stored receiver_scope with
    | Ok b => Some (receiver_scope, b)
    | _ => None
    end
  else None.

(** The loop, from statement [k] on; a failure to log is only logged. *)
Fixpoint deliver (env : Env) (k : nat) (s : Z) (mk : ReflectionSummaryBundle → RtxMessage)
    (stored : ReflectionSummaryBundle) (rows : list (string * string * string)) :
    M RtxDb http_error (list (string * string)) :=
  match rows with
  | [] => mret []
  | (p, filters_json, scope_str) :: rows =>
      match receive_as stored filters_json scope_str with
      | None => deliver env (S k) s mk stored rows
      | Some (receiver_scope, b) =>
          (λ d, (Ok (), (exec (fault env) k (log_transfer (sql_now (now env)) s stored (Some p) receiver_scope
             (bool_decide (receiver_scope = ReflectionSummariesOnly) &&
              bool_decide (reasoning_chain stored ≠ None))) d).2));;
          deliveries ← deliver env (S k) s mk stored rows;
          mret ((p, to_json (mk b)) :: deliveries)
      end
  end.

Definition send_all {D} (deliveries : list (string * string)) : M (State D) http_error unit :=
  perform_all ((λ '(p, json), WsSent p json) <$> deliveries).

(** ** The relay to peers *)

(** The peers of [relay_message] and [relay_rtx_bundles]: base URL and scope. *)
Definition relay_peers (s : Z) (d : PeerDb) : list (string * string) :=
  (λ '(a, i), (in_base_url i, ag_transfer_scope a)) <$>
    filter (λ row : AgreementRow * InstanceRow,
      ag_local_server_id row.1 = s ∧ in_status row.2 = "ACTIVE") (active_with_instance d).

(** A background task; [k] is its SELECT.  The path always names this server
    alone. *)
Definition relay_rtx_bundles (env : Env) (k : nat) (key : signing_key) (pub_url : string) (s : Z)
    (bundle : ReflectionSummaryBundle) (d : PeerDb) : list effect :=
  match read (fault env) k (relay_peers s d) with
  | Ok peers =>
      omap (λ '(base_url, scope_str),
        if bool_decide (base_url = pub_url) || bool_decide (source_server bundle = base_url) then None
        else
          scope ← rtx_scope scope_str;
          match enforce_transfer_scope bundle scope with
          | Ok scoped_bundle =>
              let provenance := {| origin_server := source_server bundle; relay_path := [pub_url];
                                   pv_bundle_id := bundle_id bundle |} in
              let payload := rtx_relay_signing_payload (bundle_id bundle) pub_url (source_server bundle)
                               (relay_path provenance) in
              Some (Posted (base_url +:+ "/api/federation/rtx")
                (to_json {| en_bundle := scoped_bundle; en_provenance := provenance;
                            en_relaying_server := pub_url;
                            en_signature := hex_encode (sign key (str_bytes payload)) |}))
          | _ => None
          end) peers
  | _ => []
  end.

(** ** POST /api/rtx/publish *)

Record PublishResponse := { pr_bundle_id : string; pr_delivered_to : nat }.

Definition conflict_code (e : sql_error) : http_error := if is_constraint_violation e then 409 else 500.

(** What is checked before anything is written. *)
Definition publish_checks (pub_url identity : string) (bundle : ReflectionSummaryBundle) :
    result http_error unit :=
  _ ← map_err (λ _, 400) (validate_bundle_structure bundle);
  _ ← reject_if (bool_decide (identity ≠ source_pseudonym bundle)) 403;
  reject_if (bool_decide (source_server bundle ≠ pub_url)) 400.

(** The sender's scope, and the bundle it may publish. *)
Definition sender_bundle (a : AgentRow) (bundle : ReflectionSummaryBundle) :
    result http_error (VrpTransferScope * ReflectionSummaryBundle) :=
  sender_scope ← ok_or (rtx_scope (ar_transfer_scope a)) 403;
  _ ← map_err (λ _, 403) (check_redacted_topics bundle
        (extract_redacted_topics (ar_capability_contract_json a)));
  stored ← map_err (λ _, 403) (enforce_transfer_scope bundle sender_scope);
  Ok (sender_scope, stored).

Definition chain_stripped (stored bundle : ReflectionSummaryBundle) : bool :=
  bool_decide (reasoning_chain stored = None) && bool_decide (reasoning_chain bundle ≠ None).

Definition publish_handler (env : Env) (key : signing_key) (pub_url : string) (s : Z) (identity : string)
    (bundle : ReflectionSummaryBundle) : M (State RtxDb) http_error PublishResponse :=
  _ ← lift (publish_checks pub_url identity bundle);
  d ← gets db;
  agents ← query env 0 (lift (Ok (t_select (is_active_registration s (source_pseudonym bundle)) (rtx_agents d))));
  sender ← lift (ok_or (head agents) 403);
  checked ← lift (sender_bundle sender bundle);
  let '(sender_scope, stored) := (checked : VrpTransferScope * ReflectionSummaryBundle) in
  db_transaction (λ _, 500) env 1 4
    (on_db conflict_code env 2 (insert_bundle (sql_now (now env)) s stored None);;
     query env 3 (log_transfer (sql_now (now env)) s stored None sender_scope (chain_stripped stored bundle)));;
  d ← gets db;
  rows ← query env 5 (lift (Ok (subscribers s
    (λ su, su_subscriber_pseudonym su ≠ source_pseudonym bundle) d)));
  deliveries ← zoom db set_db (deliver env 7 s LocalBundle stored rows);
  send_all deliveries;;
  d ← gets db;
  perform_all (relay_rtx_bundles env 6 key pub_url s bundle (rtx_peers d));;
  mret {| pr_bundle_id := bundle_id bundle; pr_delivered_to := length deliveries |}.

(** ** Subscriptions *)

Record SubscriptionInfo := {
  si_subscriber_pseudonym : string;
  si_domain_filters : list string;
  si_accept_federated : bool;
  si_created_at : string;
}.

Definition upsert_subscription (now : string) (s : Z) (p : string) (filters : list string) (accept : bool) :
    M RtxDb sql_error unit := λ d,
  if bool_decide (s ∉ rtx_servers d) then (Err ConstraintForeignKey, d)
  else (Ok (), set_subscriptions (t_upsert (subscription_of s p)
    (λ su, {| su_id := su_id su; su_server_id := su_server_id su;
              su_subscriber_pseudonym := su_subscriber_pseudonym su;
              su_domain_filters_json := to_json filters; su_accept_federated := accept;
              su_created_at := su_created_at su |})
    (λ id, {| su_id := id; su_server_id := s; su_subscriber_pseudonym := p;
              su_domain_filters_json := to_json filters; su_accept_federated := accept;
              su_created_at := now |})
    (rtx_subscriptions d)) d).

Definition subscription_info (p : string) (su : SubscriptionRow) : result http_error SubscriptionInfo :=
  filters ← ok_or (from_json (su_domain_filters_json su)) 500;
  Ok {| si_subscriber_pseudonym := p; si_domain_filters := filters;
        si_accept_federated := su_accept_federated su; si_created_at := su_created_at su |}.

(** [POST /api/rtx/subscribe]. *)
Definition subscribe_handler (env : Env) (s : Z) (p : string) (filters : list string) (accept : bool) :
    M (State RtxDb) http_error SubscriptionInfo :=
  d ← gets db;
  agents ← query env 0 (lift (Ok (t_select (is_active_registration s p) (rtx_agents d))));
  a ← lift (ok_or (head agents) 403);
  lift (ok_or (rtx_scope (ar_transfer_scope a)) 403);;
  query env 1 (upsert_subscription (sql_now (now env)) s p filters accept);;
  d ← gets db;
  rows ← query env 2 (lift (Ok (t_select (subscription_of s p) (rtx_subscriptions d))));
  su ← lift (ok_or (head rows) 500);
  lift (subscription_info p su).

(** [DELETE /api/rtx/subscribe]. *)
Definition unsubscribe_handler (env : Env) (s : Z) (p : string) : M (State RtxDb) http_error unit :=
  deleted ← query env 0 (λ d,
    let '(n, t) := t_delete (subscription_of s p) (rtx_subscriptions d) in (Ok n, set_subscriptions t d));
  lift (reject_if (deleted =? 0)%nat 404).

(** [GET /api/rtx/subscriptions]. *)
Definition get_subscription_handler (env : Env) (s : Z) (p : string) (d : RtxDb) :
    result http_error (option SubscriptionInfo) :=
  rows ← map_err (λ _, 500) (read (fault env) 0 (t_select (subscription_of s p) (rtx_subscriptions d)));
  match head rows with
  | Some su => info ← subscription_info p su; Ok (Some info)
  | None => Ok None
  end.

(** ** The transfer log *)

Record TransferLogQuery := {
  tq_bundle_id : option string;
  tq_source : option string;
  tq_destination : option string;
  tq_since : option string;
  tq_until : option string;
  tq_limit : option Z;
  tq_offset : option Z;
}.

Record TransferLogResponse := {
  tl_transfers : list TransferRow;
  tl_total : nat;
  tl_limit : Z;
  tl_offset : Z;
}.

Definition given {A} (o : option A) (p : A → bool) : bool := match o with Some a => p a | None => true end.

(** Texts are compared by their bytes; NULL equals nothing. *)
Definition transfer_matches (s : Z) (q : TransferLogQuery) (r : TransferRow) : bool :=
  (tr_server_id r =? s) &&
  given (tq_bundle_id q) (λ x, bool_decide (tr_bundle_id r = x)) &&
  given (tq_source q) (λ x, bool_decide (tr_source_pseudonym r = x)) &&
  given (tq_destination q) (λ x, bool_decide (tr_destination_pseudonym r = Some x)) &&
  given (tq_since q) (λ x, negb (String.ltb (tr_transferred_at r) x)) &&
  given (tq_until q) (λ x, negb (String.ltb x (tr_transferred_at r))).

(** [GET /api/rtx/governance/transfers]. *)
Definition governance_transfers_handler (env : Env) (can_moderate : bool) (s : Z) (q : TransferLogQuery)
    (d : RtxDb) : result http_error TransferLogResponse :=
  _ ← reject_if (negb can_moderate) 403;
  let limit := Z.min (default 50 (tq_limit q)) 500 in
  let offset := default 0 (tq_offset q) in
  let matching := t_select (λ r, transfer_matches s q r = true) (rtx_transfer_log d) in
  total ← map_err (λ _, 500) (read (fault env) 0 (length matching));
  rows ← map_err (λ _, 500) (read (fault env) 1
    (sql_limit limit (drop (Z.to_nat offset) (order_by (flip Z.le) tr_id matching))));
  Ok {| tl_transfers := rows; tl_total := total; tl_limit := limit; tl_offset := offset |}.

Record GovernanceSummaryResponse := {
  gs_total_transfers : nat;
  gs_unique_bundles : nat;
  gs_unique_sources : nat;
  gs_unique_destinations : nat;
  gs_redacted_transfers : nat;
  gs_by_scope : list (string * nat);
}.

Definition count_distinct {A} `{EqDecision A} (l : list A) : nat := length (remove_dups l).

(** [GROUP BY ... ORDER BY count DESC]. *)
Definition by_scope (scopes : list string) : list (string * nat) :=
  order_by (flip Nat.le) snd
    ((λ scope, (scope, length (filter (λ x, x = scope) scopes))) <$> merge_sort String.le (remove_dups scopes)).

(** [GET /api/rtx/governance/summary]: six statements. *)
Definition governance_summary_handler (env : Env) (can_moderate : bool) (s : Z) (d : RtxDb) :
    result http_error GovernanceSummaryResponse :=
  _ ← reject_if (negb can_moderate) 403;
  let rows := t_select (λ r, tr_server_id r = s) (rtx_transfer_log d) in
  total ← map_err (λ _, 500) (read (fault env) 0 (length rows));
  unique_bundles ← map_err (λ _, 500) (read (fault env) 1 (count_distinct (tr_bundle_id <$> rows)));
  sources ← map_err (λ _, 500) (read (fault env) 2 (count_distinct (tr_source_pseudonym <$> rows)));
  destinations ← map_err (λ _, 500) (read (fault env) 3 (count_distinct (omap tr_destination_pseudonym rows)));
  redacted ← map_err (λ _, 500) (read (fault env) 4 (length (omap tr_redactions_applied rows)));
  scopes ← map_err (λ _, 500) (read (fault env) 5 (by_scope (tr_transfer_scope_applied <$> rows)));
  Ok {| gs_total_transfers := total; gs_unique_bundles := unique_bundles; gs_unique_sources := sources;
        gs_unique_destinations := destinations; gs_redacted_transfers := redacted; gs_by_scope := scopes |}.
End rtx.

(** * Theorems *)

(** ** Bundles and scopes *)

Definition without_chain (b : ReflectionSummaryBundle) : ReflectionSummaryBundle :=
  match enforce_transfer_scope b ReflectionSummariesOnly with Ok b => b | _ => b end.

Lemma enforce_cases b scope b' :
  enforce_transfer_scope b scope = Ok b' →
  (scope = FullKnowledgeBundle ∧ b' = b) ∨ (scope = ReflectionSummariesOnly ∧ b' = without_chain b).
Proof. destruct scope; cbn; [done|intros [= <-]; by right|intros [= <-]; by left]. Qed.

Lemma without_chain_twice b : without_chain (without_chain b) = without_chain b.
Proof. done. Qed.

Lemma rtx_scope_cases text scope :
  rtx_scope text = Some scope →
  (text = "FULL_KNOWLEDGE_BUNDLE" ∧ scope = FullKnowledgeBundle) ∨
  (text = "REFLECTION_SUMMARIES_ONLY" ∧ scope = ReflectionSummariesOnly).
Proof.
  unfold rtx_scope, scope_from_str. repeat case_decide; cbn; try done; intros [= <-]; auto.
Qed.

Lemma check_tags_ok tags redacted : check_tags tags redacted = Ok () ↔ ∀ tag, tag ∈ tags → tag ∉ redacted.
Proof.
  induction tags as [|t tags IH]; cbn; [set_solver|]. case_bool_decide; [set_solver|]. rewrite IH. set_solver.
Qed.

Section theorems.
Context `{HX : HexCrate, CK : Clock, ED : Ed25519}.
Context `{SL : Serde (list string), SM : Serde RtxMessage, SC : Serde VrpCapabilitySharingContract}.
Context `{SEN : Serde FederatedRtxEnvelope, SPV : Serde BundleProvenance}.

Lemma sender_bundle_ok a bundle scope stored :
  sender_bundle a bundle = Ok (scope, stored) →
  (∀ tag, tag ∈ domain_tags bundle → tag ∉ extract_redacted_topics (ar_capability_contract_json a)) ∧
  ((ar_transfer_scope a = "FULL_KNOWLEDGE_BUNDLE" ∧ stored = bundle) ∨
   (ar_transfer_scope a = "REFLECTION_SUMMARIES_ONLY" ∧ stored = without_chain bundle)).
Proof.
  unfold sender_bundle. destruct (rtx_scope (ar_transfer_scope a)) as [sc|] eqn:Es; cbn; [|done].
  unfold check_redacted_topics. destruct (check_tags _ _) as [[]| |] eqn:Et; cbn; [|done..].
  destruct (enforce_transfer_scope bundle sc) as [b| |] eqn:Ee; cbn; [|done..]. intros [= -> ->].
  split; [by apply check_tags_ok|].
  destruct (rtx_scope_cases _ _ Es) as [[? ->]|[? ->]]; [left|right]; (split; [done|]); by injection Ee.
Qed.

(** What the sender's scope leaves, and what the receiver's leaves of it. *)
Lemma receive_as_ok stored filters_json scope_str scope b :
  receive_as stored filters_json scope_str = Some (scope, b) →
  (∃ filters : list string, from_json filters_json = Some filters ∧
     (filters = [] ∨ ∃ tag, tag ∈ domain_tags stored ∧ tag ∈ filters)) ∧
  ((scope_str = "FULL_KNOWLEDGE_BUNDLE" ∧ b = stored) ∨
   (scope_str = "REFLECTION_SUMMARIES_ONLY" ∧ b = without_chain stored)).
Proof.
  unfold receive_as. destruct (from_json filters_json) as [filters|]; cbn; [|done].
  destruct (_ || _) eqn:Em; [|done]. destruct (rtx_scope scope_str) as [sc|] eqn:Es; cbn; [|done].
  destruct (enforce_transfer_scope stored sc) as [b'| |] eqn:Ee; [|done..]. intros [= -> ->]. split.
  - exists filters. split; [done|]. apply orb_true_iff in Em as [?%bool_decide_eq_true|Hex]; [by left|right].
    apply existsb_exists in Hex as (tag & ?%list_elem_of_In & ?%bool_decide_eq_true). by exists tag.
  - destruct (rtx_scope_cases _ _ Es) as [[? ->]|[? ->]]; [left|right]; (split; [done|]); by injection Ee.
Qed.

Definition deliveries_of (mk : ReflectionSummaryBundle → RtxMessage) (stored : ReflectionSummaryBundle)
    (rows : list (string * string * string)) : list (string * string) :=
  omap (λ '(p, filters_json, scope_str),
    (λ x : VrpTransferScope * ReflectionSummaryBundle, (p, to_json (mk x.2))) <$>
      receive_as stored filters_json scope_str) rows.

Lemma log_transfer_keeps now s b dst sc st d : ∃ t, (log_transfer now s b dst sc st d).2 = set_transfer_log t d.
Proof.
  unfold log_transfer. case_bool_decide; [exists (rtx_transfer_log d); by destruct d|by eexists].
Qed.

Lemma deliver_ok env k s mk stored rows d :
  ∃ t, deliver env k s mk stored rows d = (Ok (deliveries_of mk stored rows), set_transfer_log t d).
Proof.
  revert k d. induction rows as [|[[p fj] sc] rows IH]; intros k d; cbn [deliver].
  - exists (rtx_transfer_log d). by destruct d.
  - unfold deliveries_of. cbn. destruct (receive_as stored fj sc) as [[scope b]|]; cbn; [|apply IH].
    unfold mbind at 1, M_bind at 1. cbn.
    assert (∃ t, (exec (fault env) k (log_transfer (sql_now (now env)) s stored (Some p) scope
       (bool_decide (scope = ReflectionSummariesOnly) && bool_decide (reasoning_chain stored ≠ None))) d).2 =
       set_transfer_log t d) as (t1 & ->).
    { unfold exec. destruct (fault env k); [exists (rtx_transfer_log d); by destruct d|apply log_transfer_keeps]. }
    unfold mbind, M_bind. destruct (IH (S k) (set_transfer_log t1 d)) as (t2 & ->). by exists t2.
Qed.

Lemma elem_of_subscribers s P `{!∀ su, Decision (P su)} d p fj sc :
  (p, fj, sc) ∈ subscribers s P d ↔ ∃ su a,
    su ∈ t_rows (rtx_subscriptions d) ∧ subscription_of s p su ∧ P su ∧ su_domain_filters_json su = fj ∧
    a ∈ t_rows (rtx_agents d) ∧ is_active_registration s p a ∧ ar_transfer_scope a = sc.
Proof.
  unfold subscribers. rewrite list_elem_of_bind. setoid_rewrite list_elem_of_fmap.
  setoid_rewrite elem_of_t_select. split.
  - intros (su & (a & [= -> -> ->] & ? & ?) & [? ?] & ?). by exists su, a.
  - intros (su & a & ? & [? <-] & ? & <- & ? & ? & <-). exists su. split; [by exists a|done].
Qed.

(** ** Publishing *)

Lemma publish_checks_cases url p bundle :
  publish_checks url p bundle = Ok () ∨ ∃ code, publish_checks url p bundle = Err code ∧ code ∈ [400; 403; 409; 500].
Proof.
  assert (validate_bundle_structure bundle ≠ Panic) as Hv.
  { unfold validate_bundle_structure, reject_if. destruct (created_at bundle =? 0); by repeat case_bool_decide. }
  unfold publish_checks. destruct (validate_bundle_structure bundle) as [[]|e|]; cbn; [|right; eexists; split; [done|set_solver]|done].
  destruct (bool_decide (p ≠ _)); cbn; [right; eexists; split; [done|set_solver]|].
  destruct (bool_decide _); cbn; [right; eexists; split; [done|set_solver]|by left].
Qed.

Lemma sender_bundle_cases a bundle :
  (∃ scope stored, sender_bundle a bundle = Ok (scope, stored)) ∨ sender_bundle a bundle = Err 403.
Proof.
  unfold sender_bundle. destruct (rtx_scope (ar_transfer_scope a)) as [sc|] eqn:Es; cbn; [|by right].
  assert (∀ tags l, check_tags tags l ≠ Panic) as Ht.
  { intros tags l. induction tags; cbn; [done|]. by case_bool_decide. }
  unfold check_redacted_topics. destruct (check_tags _ _) as [[]| |] eqn:Et; cbn; [|by right|by apply Ht in Et].
  destruct sc; cbn; [by right|left; by eexists _, _..].
Qed.

Lemma insert_bundle_cases now s b pv d :
  (∃ e, insert_bundle now s b pv d = (Err e, d) ∧ is_constraint_violation e = true) ∨
  (∃ t, insert_bundle now s b pv d = (Ok (), set_bundles t d) ∧
     ∃ row, row ∈ t_rows t ∧ bu_bundle_id row = bundle_id b ∧ bu_source_pseudonym row = source_pseudonym b ∧
       bu_reasoning_chain row = reasoning_chain b).
Proof.
  unfold insert_bundle. destruct (t_exists _ _); [left; by eexists|]. case_bool_decide; [left; by eexists|].
  right. eexists. split; [done|]. eexists. split; [apply elem_of_t_insert; by right|done].
Qed.

(** The transaction: the bundle and the first entry of the log. *)
Lemma store_cases env s stored scope stripped st :
  let '(r, st') := db_transaction (λ _, 500) env 1 4
    (on_db conflict_code env 2 (insert_bundle (sql_now (now env)) s stored None);;
     on_db (λ _, 500) env 3 (log_transfer (sql_now (now env)) s stored None scope stripped)) st in
  (∃ code, r = Err code ∧ code ∈ [400; 403; 409; 500] ∧ st' = st) ∨
  (r = Ok () ∧ ∃ b t, insert_bundle (sql_now (now env)) s stored None (db st) = (Ok (), set_bundles b (db st)) ∧
     st' = set_db (set_transfer_log t (set_bundles b (db st))) st).
Proof.
  unfold db_transaction, on_db, exec, zoom, catch_map, mbind, M_bind. destruct st as [d es]; cbn.
  destruct (fault env 1%nat); cbn; [left; eexists; split_and!; [done|set_solver|done]|].
  destruct (fault env 2%nat); cbn; [left; eexists; split_and!; [done|set_solver|done]|].
  destruct (insert_bundle_cases (sql_now (now env)) s stored None d) as [(e & -> & He)|(b & -> & _)]; cbn.
  { left. eexists. unfold conflict_code. rewrite He. split_and!; [done|set_solver|done]. }
  destruct (fault env 3%nat); cbn; [left; eexists; split_and!; [done|set_solver|done]|].
  unfold log_transfer. case_bool_decide; cbn; [left; eexists; split_and!; [done|set_solver|done]|].
  destruct (fault env 4%nat); cbn; [left; eexists; split_and!; [done|set_solver|done]|].
  right. split; [done|]. by eexists b, _.
Qed.

Lemma publish_cases env key url s p bundle st :
  let '(r, st') := publish_handler env key url s p bundle st in
  (∃ code, r = Err code ∧ code ∈ [400; 403; 409; 500] ∧ effects st' = effects st ∧
     (db st' = db st ∨ fault env 5%nat ≠ None)) ∨
  (∃ a scope stored b t,
     publish_checks url p bundle = Ok () ∧
     a ∈ t_rows (rtx_agents (db st)) ∧ is_active_registration s (source_pseudonym bundle) a ∧
     sender_bundle a bundle = Ok (scope, stored) ∧
     insert_bundle (sql_now (now env)) s stored None (db st) = (Ok (), set_bundles b (db st)) ∧
     db st' = set_transfer_log t (set_bundles b (db st)) ∧
     let deliveries := deliveries_of LocalBundle stored
       (subscribers s (λ su, su_subscriber_pseudonym su ≠ source_pseudonym bundle) (db st)) in
     r = Ok {| pr_bundle_id := bundle_id bundle; pr_delivered_to := length deliveries |} ∧
     effects st' = (effects st ++ ((λ '(p, json), WsSent p json) <$> deliveries)) ++
       relay_rtx_bundles env 6 key url s bundle (rtx_peers (db st))).
Proof.
  unfold publish_handler, mbind, M_bind. unfold lift at 1.
  destruct (publish_checks_cases url p bundle) as [Ec|(code & -> & Hc)]; [rewrite Ec|left; by eauto 7].
  unfold gets at 1. rewrite on_db_lift.
  destruct (fault env 0%nat); [left; eexists; split_and!; [done|set_solver|done|by left]|].
  destruct (t_select (is_active_registration s (source_pseudonym bundle)) (rtx_agents (db st))) as [|a l] eqn:Ea.
  { left. eexists. split_and!; [done|set_solver|done|by left]. }
  assert (a ∈ t_select (is_active_registration s (source_pseudonym bundle)) (rtx_agents (db st)))
    as [Hreg Ha]%elem_of_t_select by (rewrite Ea; left). clear Ea.
  cbn [head ok_or]. unfold lift at 1. unfold lift at 1.
  destruct (sender_bundle_cases a bundle) as [(scope & stored & Es)|Es]; rewrite Es.
  2: { left. eexists. split_and!; [done|set_solver|done|by left]. }
  pose proof (store_cases env s stored scope (chain_stripped stored bundle) st) as Htx.
  unfold mbind, M_bind in Htx.
  destruct (db_transaction _ _ _ _ _ st) as [r1 st1]. destruct Htx as [(code & -> & Hc & ->)|(-> & b & t & Hb & ->)].
  { left. by eauto 7. }
  unfold gets at 1. rewrite on_db_lift. destruct (fault env 5%nat) eqn:E5.
  { left. eexists. split_and!; [done|set_solver|done|by right]. }
  unfold zoom. destruct (deliver_ok env 7 s LocalBundle stored (subscribers s
      (λ su, su_subscriber_pseudonym su ≠ source_pseudonym bundle) (set_transfer_log t (set_bundles b (db st))))
    (set_transfer_log t (set_bundles b (db st)))) as (t2 & Hd).
  cbn [db set_db] in *. rewrite Hd. cbn. right. exists a, scope, stored, b, t2. by split_and!.
Qed.

Lemma publish_checks_ok url p bundle :
  publish_checks url p bundle = Ok () → source_pseudonym bundle = p ∧ source_server bundle = url.
Proof.
  unfold publish_checks. destruct (validate_bundle_structure bundle) as [[]|e|]; cbn; [|done..].
  destruct (bool_decide_reflect (p ≠ source_pseudonym bundle)) as [|Hp]; cbn; [done|].
  destruct (bool_decide_reflect (source_server bundle ≠ url)) as [|Hs]; cbn; [done|].
  intros _. split; [symmetry|]; by apply dec_stable.
Qed.

(** C4. What publishing releases.  Whatever fails, nothing is sent unless the
    handler answers with success, and then the bundle has been stored.  A
    subscriber is sent a bundle only if it is an active agent other than the
    publisher, with a readable filter that is empty or shares a tag with the
    bundle; no tag of the bundle is redacted by the publisher's contract; the
    bundle is the published one, and it keeps its reasoning chain only if the
    scopes of the publisher and of the subscriber are both
    FULL_KNOWLEDGE_BUNDLE. *)
Theorem publish_delivers_within_scopes env key url s p bundle st :
  let '(r, st') := publish_handler env key url s p bundle st in
  ∃ new, effects st' = effects st ++ new ∧
  (is_ok r = false → new = []) ∧
  (is_ok r = true → ∃ row, row ∈ t_rows (rtx_bundles (db st')) ∧ bu_bundle_id row = bundle_id bundle ∧
     bu_source_pseudonym row = p) ∧
  ∀ q j, WsSent q j ∈ new →
    q ≠ p ∧ ∃ sender receiver su (filters : list string) b,
      sender ∈ t_rows (rtx_agents (db st)) ∧ is_active_registration s p sender ∧
      receiver ∈ t_rows (rtx_agents (db st)) ∧ is_active_registration s q receiver ∧
      su ∈ t_rows (rtx_subscriptions (db st)) ∧ subscription_of s q su ∧
      from_json (su_domain_filters_json su) = Some filters ∧
      (filters = [] ∨ ∃ tag, tag ∈ domain_tags bundle ∧ tag ∈ filters) ∧
      (∀ tag, tag ∈ domain_tags bundle → tag ∉ extract_redacted_topics (ar_capability_contract_json sender)) ∧
      j = to_json (LocalBundle b) ∧ without_chain b = without_chain bundle ∧
      (reasoning_chain b ≠ None → b = bundle ∧ ar_transfer_scope sender = "FULL_KNOWLEDGE_BUNDLE" ∧
         ar_transfer_scope receiver = "FULL_KNOWLEDGE_BUNDLE").
Proof.
  pose proof (publish_cases env key url s p bundle st) as HC.
  destruct (publish_handler env key url s p bundle st) as [r st'].
  destruct HC as [(code & -> & _ & He & _)|(a & scope & stored & b & t & Hchk & Ha & Hreg & Hs & Hb & Hdb & -> & He)].
  { exists []. rewrite He, app_nil_r. split_and!; [done..|]. by intros q j ?%not_elem_of_nil. }
  apply publish_checks_ok in Hchk as [Ep _]. rewrite Ep in *.
  destruct (sender_bundle_ok _ _ _ _ Hs) as [Hred Hst].
  assert (bundle_id stored = bundle_id bundle ∧ source_pseudonym stored = p ∧ domain_tags stored = domain_tags bundle)
    as (Ei & Es & Et) by (by destruct Hst as [[_ ->]|[_ ->]]).
  eexists. split; [by rewrite He, <- app_assoc|]. split; [done|]. split.
  { intros _. destruct (insert_bundle_cases (sql_now (now env)) s stored None (db st))
      as [(e & Hb' & _)|(b' & Hb' & row & Hrow & Hr1 & Hr2 & _)]; rewrite Hb in Hb'; [done|].
    injection Hb' as <-. exists row. rewrite Hdb. split_and!; [done|congruence..]. }
  intros q j [Hq|Hq]%elem_of_app.
  2: { exfalso. unfold relay_rtx_bundles in Hq. destruct (read _ _ _) as [peers| |]; [|by apply not_elem_of_nil in Hq..].
       apply list_elem_of_omap in Hq as ([u sc] & _ & Hq). destruct (_ || _); [done|].
       destruct (rtx_scope sc); cbn in Hq; [|done]. by destruct (enforce_transfer_scope _ _). }
  apply list_elem_of_fmap in Hq as ([q' j'] & [= -> ->] & Hq).
  apply list_elem_of_omap in Hq as ([[q'' fj] sc] & Hsub & Hq).
  destruct (receive_as stored fj sc) as [[sc' b']|] eqn:Er; cbn in Hq; [|done]. injection Hq as -> <-.
  apply elem_of_subscribers in Hsub as (su & rc & Hsu & Hof & Hne & <- & Hrc & Hrreg & <-).
  destruct (receive_as_ok _ _ _ _ _ Er) as [(filters & Hf & Hm) Hrs]. rewrite Et in Hm.
  split; [destruct Hof; congruence|]. exists a, rc, su, filters, b'. split_and!; try done.
  - destruct Hrs as [[_ ->]|[_ ->]], Hst as [[_ ->]|[_ ->]]; done.
  - destruct Hrs as [[? ->]|[_ ->]]; [|done]. destruct Hst as [[? ->]|[_ ->]]; done.
Qed.

(** The relay to federation peers takes the bundle as it was published,
    not as the publisher's scope allows it: a publisher limited to reflection
    summaries, whose reasoning chain is stripped for every local subscriber
    and in the stored bundle, still has it sent to every active peer whose
    agreement is FULL_KNOWLEDGE_BUNDLE. *)
Theorem relay_ignores_sender_scope env key url s p bundle st :
  fault env 6%nat = None → reasoning_chain bundle ≠ None →
  (∀ a, a ∈ t_rows (rtx_agents (db st)) → is_active_registration s p a →
     ar_transfer_scope a = "REFLECTION_SUMMARIES_ONLY") →
  let '(r, st') := publish_handler env key url s p bundle st in
  is_ok r = true →
  ∀ a i, (a, i) ∈ active_with_instance (rtx_peers (db st)) →
    ag_local_server_id a = s → in_status i = "ACTIVE" → in_base_url i ≠ url →
    ag_transfer_scope a = "FULL_KNOWLEDGE_BUNDLE" →
    (∃ row, row ∈ t_rows (rtx_bundles (db st')) ∧ bu_bundle_id row = bundle_id bundle ∧
       bu_reasoning_chain row = None) ∧
    ∃ e, Posted (in_base_url i +:+ "/api/federation/rtx") (to_json e) ∈ effects st' ∧
      reasoning_chain (en_bundle e) = reasoning_chain bundle.
Proof.
  intros Hf Hch Hscope. pose proof (publish_cases env key url s p bundle st) as HC.
  destruct (publish_handler env key url s p bundle st) as [r st'].
  destruct HC as [(code & -> & _)|(a0 & scope & stored & b & t & Hchk & Ha & Hreg & Hs & Hb & Hdb & -> & He)]; [done|].
  apply publish_checks_ok in Hchk as [Ep Eu]. rewrite Ep in *. intros _ a i Hai Hl Hact Hne Hfull. split.
  - destruct (sender_bundle_ok _ _ _ _ Hs) as [_ [[E _]|[_ ->]]]; [by rewrite (Hscope a0) in E|].
    destruct (insert_bundle_cases (sql_now (now env)) s (without_chain bundle) None (db st))
      as [(e & Hb' & _)|(b' & Hb' & row & Hrow & Hr1 & Hr2 & Hr3)]; rewrite Hb in Hb'; [done|].
    injection Hb' as <-. exists row. by rewrite Hdb.
  - eexists. rewrite He. split; [apply elem_of_app; right|].
    + unfold relay_rtx_bundles, read. rewrite Hf. apply list_elem_of_omap.
      exists (in_base_url i, ag_transfer_scope a). split.
      * unfold relay_peers. apply list_elem_of_fmap. exists (a, i). split; [done|].
        by apply list_elem_of_filter.
      * rewrite bool_decide_eq_false_2 by done. rewrite bool_decide_eq_false_2 by congruence. cbn.
        by rewrite Hfull.
    + done.
Qed.

(** ** Signing payloads *)

(** The payload a bundle's signature covers determines the identifier,
    the publisher, the server, the summary and the time, provided that the
    first three contain no newline (the summary may); the payload of the relay
    determines the identifier, the two servers and the path, if these contain
    no newline and the hops no '|'.  Without the proviso neither does: two
    different bundles, and two different relays, have one payload. *)
Theorem signing_payloads_determine_fields :
  (∀ b1 b2,
     Forall (lacks newline) [bundle_id b1; source_pseudonym b1; source_server b1] →
     Forall (lacks newline) [bundle_id b2; source_pseudonym b2; source_server b2] →
     0 ≤ created_at b1 → 0 ≤ created_at b2 →
     bundle_signing_payload b1 = bundle_signing_payload b2 →
     bundle_id b1 = bundle_id b2 ∧ source_pseudonym b1 = source_pseudonym b2 ∧
     source_server b1 = source_server b2 ∧ summary b1 = summary b2 ∧ created_at b1 = created_at b2) ∧
  (∀ i1 r1 o1 p1 i2 r2 o2 p2,
     Forall (lacks newline) [i1; r1; o1] → Forall (lacks newline) [i2; r2; o2] →
     Forall (lacks "|") p1 → Forall (lacks "|") p2 → p1 ≠ [] → p2 ≠ [] →
     rtx_relay_signing_payload i1 r1 o1 p1 = rtx_relay_signing_payload i2 r2 o2 p2 →
     i1 = i2 ∧ r1 = r2 ∧ o1 = o2 ∧ p1 = p2) ∧
  (∃ b1 b2, source_pseudonym b1 ≠ source_pseudonym b2 ∧ summary b1 ≠ summary b2 ∧
     bundle_signing_payload b1 = bundle_signing_payload b2) ∧
  (∃ i1 r1 o1 p1 i2 r2 o2 p2, r1 ≠ r2 ∧ o1 ≠ o2 ∧
     rtx_relay_signing_payload i1 r1 o1 p1 = rtx_relay_signing_payload i2 r2 o2 p2).
Proof.
  split; [|split; [|split]].
  - intros b1 b2 H1 H2 Hc1 Hc2 E. unfold bundle_signing_payload, line in E.
    repeat (apply Forall_cons in H1 as [? H1]). repeat (apply Forall_cons in H2 as [? H2]).
    apply delimited_inj in E as [Ei E]; [|done..]. apply delimited_inj in E as [Ep E]; [|done..].
    apply delimited_inj in E as [Es E]; [|done..].
    apply delimited_inj_r in E as [Em E]; [|by apply pretty_N_lacks..].
    apply (inj pretty) in E. split_and!; [done..|lia].
  - intros i1 r1 o1 p1 i2 r2 o2 p2 H1 H2 Hp1 Hp2 Hn1 Hn2 E. unfold rtx_relay_signing_payload, line in E.
    repeat (apply Forall_cons in H1 as [? H1]). repeat (apply Forall_cons in H2 as [? H2]).
    apply delimited_inj in E as [Ei E]; [|done..]. apply delimited_inj in E as [Er E]; [|done..].
    apply delimited_inj in E as [Eo E]; [|done..]. split_and!; [done..|]. by apply (join_inj "|").
  - set (b p m := {| bundle_id := "i"; source_pseudonym := p; source_server := "s"; domain_tags := [];
                     summary := m; reasoning_chain := None; caveats := []; created_at := 1;
                     signature := "x"; vrp_handshake_ref := "v" |}).
    exists (b "p" (line "s" "m")), (b (line "p" "s") "m"). split_and!; [done..|reflexivity].
  - exists "i", "r", (line "o" "p"), ["q"], "i", (line "r" "o"), "p", ["q"]. split_and!; [done..|reflexivity].
Qed.

(** ** Subscriptions *)

Definition subscriptions_ok (d : RtxDb) : Prop :=
  ∀ x y, x ∈ t_rows (rtx_subscriptions d) → y ∈ t_rows (rtx_subscriptions d) →
    su_server_id x = su_server_id y → su_subscriber_pseudonym x = su_subscriber_pseudonym y → x = y.

Lemma head_select {R} (P : R → Prop) `{!∀ r, Decision (P r)} (t : table R) r :
  r ∈ t_rows t → P r → (∀ r', r' ∈ t_rows t → P r' → r' = r) → head (t_select P t) = Some r.
Proof.
  intros Hr HP Hone. destruct (t_select P t) as [|x l] eqn:E.
  - by apply (proj1 (t_select_nil _ _) E) in Hr.
  - assert (x ∈ t_select P t) as [? ?]%elem_of_t_select by (rewrite E; left). cbn. by rewrite (Hone x).
Qed.

(** A subscription can be read back, changed and removed: if subscribing
    succeeds the agent is registered with a scope that permits RTX, and has
    from then on exactly one subscription, which reads as the request said;
    unsubscribing removes it, and unsubscribing again answers 404.  Other
    agents' subscriptions are not touched; a failure leaves the table as it
    was, unless the read-back fails. *)
Theorem subscription_life `{!SerdeLaws (list string)} env env' s p filters accept st :
  subscriptions_ok (db st) → fault env' 0%nat = None →
  let '(r, st') := subscribe_handler env s p filters accept st in
  (∃ code, r = Err code ∧ (db st' = db st ∨ fault env 2%nat ≠ None)) ∨
  (∃ info a, r = Ok info ∧ si_subscriber_pseudonym info = p ∧ si_domain_filters info = filters ∧
   si_accept_federated info = accept ∧
   a ∈ t_rows (rtx_agents (db st)) ∧ is_active_registration s p a ∧ is_Some (rtx_scope (ar_transfer_scope a)) ∧
   subscriptions_ok (db st') ∧ get_subscription_handler env' s p (db st') = Ok (Some info) ∧
   (∀ su, ¬ subscription_of s p su →
      su ∈ t_rows (rtx_subscriptions (db st')) ↔ su ∈ t_rows (rtx_subscriptions (db st))) ∧
   let '(r1, st1) := unsubscribe_handler env' s p st' in
   r1 = Ok () ∧ get_subscription_handler env' s p (db st1) = Ok None ∧
   (unsubscribe_handler env' s p st1).1 = Err 404).
Proof.
  intros HO Hf'. unfold subscribe_handler, mbind, M_bind. unfold gets at 1. rewrite on_db_lift.
  destruct (fault env 0%nat); [left; eexists; split; [done|by left]|].
  destruct (t_select (is_active_registration s p) (rtx_agents (db st))) as [|a l] eqn:Ea.
  { left. eexists. split; [done|by left]. }
  assert (a ∈ t_select (is_active_registration s p) (rtx_agents (db st))) as [Hreg Ha]%elem_of_t_select
    by (rewrite Ea; left). clear Ea.
  cbn [head ok_or]. unfold lift at 1. unfold lift at 1.
  destruct (rtx_scope (ar_transfer_scope a)) as [scope|] eqn:Esc; cbn [ok_or]; [|left; eexists; split; [done|by left]].
  unfold on_db at 1, exec, catch_map, zoom. destruct (fault env 1%nat); cbn.
  { left. eexists. split; [done|]. left. by destruct st. }
  unfold upsert_subscription. case_bool_decide; cbn; [left; eexists; split; [done|left; by destruct st]|].
  match goal with |- context [t_upsert ?P ?f ?mk ?t] =>
    destruct (t_upsert_spec P f mk t) as (su & Hsu & HP & Hone & Hfrom & Hother); [done|done| |] end.
  { intros x y Hx Hy [] []. apply HO; congruence. }
  match goal with |- context [t_upsert ?P ?f ?mk ?t] => set (t' := t_upsert P f mk t) in * end.
  unfold gets. rewrite on_db_lift. cbn.
  destruct (fault env 2%nat) eqn:E2; [left; eexists; split; [done|by right]|].
  rewrite (head_select _ _ su) by done. cbn. unfold lift.
  assert (subscription_info p su = Ok {| si_subscriber_pseudonym := p; si_domain_filters := filters;
    si_accept_federated := accept; si_created_at := su_created_at su |}) as Hinfo.
  { unfold subscription_info. destruct Hfrom as [(su0 & _ & _ & ->)|[_ ->]]; cbn; by rewrite from_json_to_json. }
  rewrite Hinfo. right. eexists _, a. split_and!; [done..|by eexists| | | |].
  - intros x y Hx Hy Es Ep. cbn in Hx, Hy. destruct (decide (subscription_of s p x)) as [Hx'|Hx'].
    + rewrite (Hone x), (Hone y); [done|done| |done..]. destruct Hx'. split; congruence.
    + assert (¬ subscription_of s p y) as Hy' by (intros []; apply Hx'; split; congruence).
      apply HO; [by apply Hother..|done|done].
  - unfold get_subscription_handler, read. rewrite Hf'. cbn. rewrite (head_select _ _ su) by done. by rewrite Hinfo.
  - done.
  - assert (t_exists (subscription_of s p) t' = true) as Hex by (apply t_exists_spec; by exists su).
    unfold unsubscribe_handler, mbind, M_bind, on_db, exec, catch_map, zoom. rewrite Hf'. cbn -[t_delete].
    assert ((t_delete (subscription_of s p) t').1 =? 0 = false)%nat as Hn.
    { apply Nat.eqb_neq. cbn. unfold t_exists in Hex. apply bool_decide_eq_true in Hex.
      by destruct (t_select (subscription_of s p) t'). }
    assert (∀ x, x ∈ t_rows (t_delete (subscription_of s p) t').2 → ¬ subscription_of s p x) as Hgone
      by (intros x [_ ?]%elem_of_t_delete; done).
    destruct (t_delete (subscription_of s p) t') as [n t2]. cbn [fst] in Hn. cbn -[t_delete Nat.eqb]. unfold lift, reject_if. rewrite Hn. cbn -[t_delete].
    split; [done|]. unfold get_subscription_handler, read. rewrite Hf'. cbn -[t_delete].
    assert (t_select (subscription_of s p) t2 = []) as Hnil by (by apply (proj2 (t_select_nil _ _))).
    rewrite Hnil. split; [done|]. cbn. by rewrite Hnil.
Qed.

(** ** The transfer log *)

(** The transfer log, page by page: only a moderator sees it; a page is
    the requested part of the matching entries with the newest first, at most
    500 of them, and [total] counts all the matching entries, which are those
    of this server that pass every given filter. *)
Theorem governance_transfers_pages env can_moderate s q d :
  ids_ok tr_id (rtx_transfer_log d) → (∀ k, fault env k = None) →
  (∀ n, tq_limit q = Some n → 0 ≤ n) → (∀ n, tq_offset q = Some n → 0 ≤ n) →
  match governance_transfers_handler env can_moderate s q d with
  | Err code => can_moderate = false ∧ code = 403
  | Panic => False
  | Ok page =>
      can_moderate = true ∧ 0 ≤ tl_limit page ≤ 500 ∧ 0 ≤ tl_offset page ∧
      let matching := filter (λ r, transfer_matches s q r = true) (t_rows (rtx_transfer_log d)) in
      tl_total page = length matching ∧
      tl_transfers page = take (Z.to_nat (tl_limit page)) (drop (Z.to_nat (tl_offset page)) (reverse matching)) ∧
      Z.of_nat (length (tl_transfers page)) ≤ tl_limit page ∧
      ∀ r, r ∈ matching ↔ r ∈ t_rows (rtx_transfer_log d) ∧ tr_server_id r = s ∧
        (∀ x, tq_bundle_id q = Some x → tr_bundle_id r = x) ∧
        (∀ x, tq_source q = Some x → tr_source_pseudonym r = x) ∧
        (∀ x, tq_destination q = Some x → tr_destination_pseudonym r = Some x) ∧
        (∀ x, tq_since q = Some x → ¬ text_lt (tr_transferred_at r) x) ∧
        (∀ x, tq_until q = Some x → ¬ text_lt x (tr_transferred_at r))
  end.
Proof.
  intros Hids Hf Hl Ho. unfold governance_transfers_handler, read. rewrite !Hf.
  destruct can_moderate; cbn; [|done]. split; [done|].
  rewrite order_by_id_desc by done.
  assert (0 ≤ default 50 (tq_limit q)) as Hlim by (destruct (tq_limit q) as [n|]; cbn; [by apply Hl|lia]).
  assert (0 ≤ default 0 (tq_offset q)) as Hoff by (destruct (tq_offset q) as [n|]; cbn; [by apply Ho|lia]).
  split; [lia|]. split; [done|]. split; [done|]. unfold sql_limit. rewrite (proj2 (Z.ltb_ge _ _)) by lia.
  split; [done|]. split; [rewrite length_take; lia|].
  intros r. rewrite list_elem_of_filter. unfold transfer_matches. rewrite !andb_true_iff, Z.eqb_eq.
  assert (∀ (o : option string) p (Q : string → Prop), (∀ x, p x = true ↔ Q x) →
            given o p = true ↔ ∀ x, o = Some x → Q x) as Hg.
  { intros o p Q HQ. destruct o; cbn; [rewrite HQ|]; naive_solver. }
  rewrite (Hg _ _ (λ x, tr_bundle_id r = x)), (Hg _ _ (λ x, tr_source_pseudonym r = x)),
    (Hg _ _ (λ x, tr_destination_pseudonym r = Some x)), (Hg _ _ (λ x, ¬ text_lt (tr_transferred_at r) x)),
    (Hg _ _ (λ x, ¬ text_lt x (tr_transferred_at r))); [tauto|..]; intros x;
    unfold text_lt; rewrite ?bool_decide_eq_true, ?negb_true_iff, ?not_true_iff_false; done.
Qed.

(** The filters of the transfer log compare texts, and the log's times
    have a blank where ISO 8601 has a T: with [since] set to the midnight that
    starts a day, no entry of that day is found. *)
Theorem since_misses_the_day s q r day time zone :
  tr_transferred_at r = day +:+ " " +:+ time →
  tq_since q = Some (day +:+ "T00:00:00" +:+ zone) → transfer_matches s q r = false.
Proof.
  intros Ht Hq. unfold transfer_matches. rewrite Hq. cbn [given].
  assert (String.ltb (tr_transferred_at r) (day +:+ "T00:00:00" +:+ zone) = true) as ->.
  { rewrite Ht. unfold String.ltb. replace (String.compare _ _) with Lt; [done|].
    clear. induction day as [|c day IH]; [done|].
    change (Lt = match Ascii.compare c c with Eq => String.compare (day +:+ " " +:+ time) (day +:+ "T00:00:00" +:+ zone) | x => x end).
    unfold Ascii.compare. by rewrite N.compare_refl. }
  cbn. by rewrite !andb_false_r.
Qed.
End theorems.

(** ** Witnesses *)

Section witnesses.
#[local] Existing Instances hex_reference toy_clock contract_serde.
Definition toy_ed : Ed25519 := {| signing_key := unit; ed_public _ := replicate 32 x00; sign _ _ := replicate 64 x00; ed_verify _ _ _ := true |}.
#[local] Existing Instance toy_ed.
Definition toy_key : @signing_key toy_ed := ().
#[local] Instance tags_serde : Serde (list string) := serde_countable _.
#[local] Instance tags_serde_laws : SerdeLaws (list string) := serde_countable_laws _.
#[local] Instance toy_message_serde : Serde RtxMessage := {| to_json _ := "{}"; from_json _ := None |}.
#[local] Instance toy_envelope_serde : Serde FederatedRtxEnvelope := {| to_json _ := "{}"; from_json _ := None |}.
#[local] Instance toy_provenance_serde : Serde BundleProvenance := {| to_json _ := "{}"; from_json _ := None |}.

Definition summaries_agent : AgentRow :=
  {| ar_id := 1; ar_server_id := 1; ar_pseudonym_id := "bot"; ar_alignment_status := "ALIGNED";
     ar_transfer_scope := "REFLECTION_SUMMARIES_ONLY"; ar_capability_contract_json := "";
     ar_voice_profile_id := None; ar_reputation_score := f32_one; ar_last_handshake_at := "";
     ar_active := true; ar_created_at := ""; ar_updated_at := ""; ar_anchor_snapshot_json := None |}.
Definition full_agreement : AgreementRow :=
  {| ag_id := 1; ag_local_server_id := 1; ag_remote_instance_id := 1; ag_alignment_status := "ALIGNED";
     ag_transfer_scope := "FULL_KNOWLEDGE_BUNDLE"; ag_agreement_json := ""; ag_active := true;
     ag_created_at := ""; ag_updated_at := ""; ag_remote_handshake_json := None |}.
Definition toy_rtx : State RtxDb :=
  {| db := {| rtx_agents := Table [summaries_agent] 1; rtx_bundles := t_empty; rtx_subscriptions := t_empty;
              rtx_transfer_log := t_empty;
              rtx_peers := {| instances := Table [peer] 1; agreements := Table [full_agreement] 1;
                              peer_events := t_empty |};
              rtx_servers := {[1]} |};
     effects := [] |}.
Definition reasoned : ReflectionSummaryBundle :=
  {| bundle_id := "b1"; source_pseudonym := "bot"; source_server := "https://a"; domain_tags := ["rust"];
     summary := "short"; reasoning_chain := Some "long"; caveats := []; created_at := 1;
     signature := "00"; vrp_handshake_ref := "1" |}.

Lemma relay_ignores_sender_scope_witness :
  ∃ e : FederatedRtxEnvelope, Posted "https://b/api/federation/rtx" (to_json e) ∈
         effects (publish_handler toy_env toy_key "https://a" 1 "bot" reasoned toy_rtx).2 ∧
       reasoning_chain (en_bundle e) = Some "long".
Proof.
  assert (∀ a, a ∈ t_rows (rtx_agents (db toy_rtx)) → is_active_registration 1 "bot" a →
            ar_transfer_scope a = "REFLECTION_SUMMARIES_ONLY") as Ha by (by intros a ->%list_elem_of_singleton).
  pose proof (relay_ignores_sender_scope toy_env toy_key "https://a" 1 "bot" reasoned toy_rtx eq_refl ltac:(done) Ha) as H.
  assert (is_ok (publish_handler toy_env toy_key "https://a" 1 "bot" reasoned toy_rtx).1 = true) as Hok by (by vm_compute).
  destruct (publish_handler toy_env toy_key "https://a" 1 "bot" reasoned toy_rtx) as [r st'].
  destruct (H Hok full_agreement peer) as (_ & e & He); [|done|done|done|done|by exists e].
  vm_compute. left.
Defined.

Lemma subscription_life_witness :
  subscriptions_ok (db toy_rtx) ∧
  ∃ info, get_subscription_handler toy_env 1 "bot"
            (db (subscribe_handler toy_env 1 "bot" ["rust"] true toy_rtx).2) = Ok (Some info) ∧
          si_domain_filters info = ["rust"].
Proof.
  assert (subscriptions_ok (db toy_rtx)) as HO by (by intros x y ?%not_elem_of_nil).
  split; [done|]. pose proof (subscription_life toy_env toy_env 1 "bot" ["rust"] true toy_rtx HO eq_refl) as H.
  assert (is_ok (subscribe_handler toy_env 1 "bot" ["rust"] true toy_rtx).1 = true) as Hok by (by vm_compute).
  destruct (subscribe_handler toy_env 1 "bot" ["rust"] true toy_rtx) as [r st'].
  destruct H as [(code & -> & _)|(info & a & _ & _ & Hfi & _ & _ & _ & _ & _ & Hg & _)]; [done|by exists info].
Defined.

Definition noon : TransferRow :=
  {| tr_id := 1; tr_server_id := 1; tr_bundle_id := "b1"; tr_source_pseudonym := "bot";
     tr_destination_pseudonym := None; tr_transfer_scope_applied := "NO_TRANSFER";
     tr_redactions_applied := None; tr_transferred_at := "2026-01-02 12:00:00" |}.
Definition since_query (since : option string) : TransferLogQuery :=
  {| tq_bundle_id := None; tq_source := None; tq_destination := None; tq_since := since; tq_until := None;
     tq_limit := Some 10; tq_offset := None |}.

Lemma governance_transfers_pages_witness :
  ∃ page, governance_transfers_handler toy_env true 1 (since_query None)
            (set_transfer_log (Table [noon] 1) (db toy_rtx)) = Ok page ∧ tl_transfers page = [noon].
Proof.
  assert (ids_ok tr_id (Table [noon] 1)) as Hids.
  { split; cbn; [by repeat constructor|]. constructor; [by vm_compute|constructor]. }
  pose proof (governance_transfers_pages toy_env true 1 (since_query None)
    (set_transfer_log (Table [noon] 1) (db toy_rtx)) Hids (λ k, eq_refl)
    ltac:(intros n [= <-]; lia) ltac:(done)) as H.
  destruct (governance_transfers_handler toy_env true 1 (since_query None)
    (set_transfer_log (Table [noon] 1) (db toy_rtx))) as [page|e|] eqn:E; [|by destruct H|done].
  exists page. split; [done|]. destruct H as (_ & _ & _ & _ & -> & _). vm_compute in E. by injection E as <-.
Defined.

Lemma since_misses_the_day_witness :
  transfer_matches 1 (since_query (Some "2026-01-02T00:00:00Z")) noon = false.
Proof. exact (since_misses_the_day 1 (since_query (Some "2026-01-02T00:00:00Z")) noon "2026-01-02" "12:00:00" "Z" eq_refl eq_refl). Defined.
End witnesses.
