(* ===== verification/Wire.v ===== *)
(** * Wire: the frames of the WebSocket protocol

    The message types of crates/annex-server/src/api_ws.rs that the socket
    handler and the federation endpoints share. *)

From S2P Require Import Prelude Sql Channels.

Inductive IncomingMessage :=
  | Subscribe (channel_id : string)
  | Unsubscribe (channel_id : string)
  | SendMessage (channel_id content : string) (reply_to : option string)
  | EditMessage (channel_id message_id content : string)
  | DeleteMessage (channel_id message_id : string)
  | VoiceIntent (channel_id text : string).

Record WsMessagePayload := {
  wp_channel_id : string;
  wp_message_id : string;
  wp_sender_pseudonym : string;
  wp_content : string;
  wp_reply_to_message_id : option string;
  wp_created_at : string;
  wp_edited_at : option string;
  wp_deleted_at : option string;
}.

(** [impl From<Message> for WsMessagePayload]. *)
Definition payload_of (m : Message) : WsMessagePayload :=
  {| wp_channel_id := m_channel_id m; wp_message_id := m_message_id m;
     wp_sender_pseudonym := m_sender_pseudonym m; wp_content := m_content m;
     wp_reply_to_message_id := m_reply_to m; wp_created_at := m_created_at m;
     wp_edited_at := m_edited_at m; wp_deleted_at := m_deleted_at m |}.

Inductive OutgoingMessage :=
  | OutMessage (m : WsMessagePayload)
  | OutMessageEdited (m : WsMessagePayload)
  | OutMessageDeleted (m : WsMessagePayload)
  | OutTranscription (channel_id speaker_pseudonym text : string)
  | OutError (message : string).
