(* ===== verification/Voice.v ===== *)
(** * Voice: crates/annex-voice

    The settings and the service (config.rs, service.rs), speech synthesis
    and recognition by external programs (tts.rs, stt.rs), the voice client
    of an agent (agent.rs) and the voice profiles of crates/annex-types
    (voice.rs); then the table of voice clients that the server keeps, which
    api_ws.rs and api_channels.rs fill the same way.  Paths are Unix paths.
    The programs, the files and the LiveKit server are arguments. *)

From S2P Require Import Prelude Bytes Types Text Observe Wire Connections.

#[local] Open Scope Z_scope.

(** ** config.rs *)

Record IceServer := { urls : list string; username : string; credential : string }.

Record LiveKitConfig := {
  lk_url : string;
  lk_public_url : string;
  lk_api_key : string;
  lk_api_secret : string;
  lk_token_ttl_seconds : Z;
  lk_ice_servers : list IceServer;
}.
Definition default_token_ttl_seconds : Z := 3600.
Definition default_stun_servers : list IceServer :=
  [{| urls := ["stun:stun.l.google.com:19302"; "stun:stun1.l.google.com:19302"]; username := ""; credential := "" |}].
Definition LiveKitConfig_default : LiveKitConfig :=
  {| lk_url := "ws://localhost:7880"; lk_public_url := ""; lk_api_key := "devkey"; lk_api_secret := "secret";
     lk_token_ttl_seconds := default_token_ttl_seconds; lk_ice_servers := default_stun_servers |}.

(** ** service.rs *)

Definition is_enabled (c : LiveKitConfig) : bool := negb (bool_decide (lk_url c = "")).
Definition get_public_url (c : LiveKitConfig) : string :=
  if decide (lk_public_url c = "") then lk_url c else lk_public_url c.

(** livekit_api: the JWT for a key, a secret, an identity with its name, a
    room and a time to live; the participants of a room ([None] when the
    request fails).  And whether reqwest builds a client. *)
Class LiveKit := {
  to_jwt : string → string → string → string → string → Z → option string;
  list_participants : string → option nat;
  client_builds : bool;
}.

Definition generate_join_token `{LiveKit} (c : LiveKitConfig) (room identity name : string) : option string :=
  to_jwt (lk_api_key c) (lk_api_secret c) identity name room (lk_token_ttl_seconds c).

(** [len() as u32]; a failed request counts as no participants. *)
Definition participant_count `{LiveKit} (room : string) : Z :=
  match list_participants room with Some n => Z.of_nat n mod 2 ^ 32 | None => 0 end.

Inductive voice_call :=
  | CreateRoom (room : string)
  | RemoveParticipant (room identity : string).

(** ** Voice profiles: annex-types *)

Inductive VoiceModel := Piper | Bark | System.
#[export] Instance VoiceModel_eq_dec : EqDecision VoiceModel.
Proof. solve_decision. Defined.

Record VoiceProfile := {
  pf_id : string;
  pf_name : string;
  pf_model : VoiceModel;
  pf_model_path : string;
  pf_config_path : option string;
  pf_speed : f32;
  pf_pitch : f32;
  pf_speaker_id : option Z;
}.
Definition VoiceProfile_default : VoiceProfile :=
  {| pf_id := "default"; pf_name := "Default Voice"; pf_model := Piper; pf_model_path := "en_US-lessac-medium.onnx";
     pf_config_path := Some "en_US-lessac-medium.onnx.json"; pf_speed := f32_one; pf_pitch := f32_one;
     pf_speaker_id := None |}.

(** ** error.rs *)

Inductive Failure :=
  | InputTooLarge (size limit : Z)
  | ModelNotFound (path : string)
  | BinaryNotConfigured
  | BinaryNotFound (path : string)
  | FailedToSpawn
  | FailedToWrite
  | TimedOut (seconds : Z)
  | FailedToWait
  | ProgramFailed (stderr : string).
Inductive VoiceError :=
  | JwtError
  | ClientNotBuilt
  | NotConnected
  | NotPublished
  | SpeedOutOfRange
  | Tts (f : Failure)
  | Stt (f : Failure)
  | ProfileNotFound (id : string).

(** The [Display] of an error. *)
Class VoiceErrorText := { voice_error_text : VoiceError → string }.

(** ** Programs and files *)

Inductive Arg := Word (s : string) | Path (s : string) | Float (x : f32) | Int (n : Z).
Record Command := { cmd_program : string; cmd_args : list Arg; cmd_stdin : option (list byte) }.

(** What becomes of the input that is written to a program, and of the program
    until the timeout. *)
Inductive Writing := Written | WriteFailed | NeverTaken.
Inductive Ending := Exited (success : bool) (stdout stderr : list byte) | WaitFailed | StillRunning.
Inductive Run := NotSpawned | Spawned (writing : Writing) (ending : Ending).

(** What the voice service meets in one call: the files, the programs, and
    LiveKit's answer to data sent to a room. *)
Record VoiceWorld := {
  vw_exists : string → bool;
  vw_run : Command → Run;
  vw_send_data : string → list byte → bool;
}.

Definition is_absolute (p : string) : bool := starts_with "/" p.
(** [Path::join]. *)
Definition path_join (dir p : string) : string :=
  if is_absolute p || bool_decide (dir = "") then p
  else if ends_with "/" dir then dir +:+ p else dir +:+ "/" +:+ p.

(** ** tts.rs *)

Definition MAX_TTS_INPUT_BYTES : Z := 64 * 1024.
Definition TTS_TIMEOUT : Z := 60.

Record TtsService := {
  ts_profiles : gmap string VoiceProfile;
  ts_voices_dir : string;
  ts_piper_binary : string;
  ts_bark_binary : string;
}.
Definition TtsService_new (voices_dir piper bark : string) : TtsService :=
  {| ts_profiles := ∅; ts_voices_dir := voices_dir; ts_piper_binary := piper; ts_bark_binary := bark |}.
Definition add_profile (p : VoiceProfile) (t : TtsService) : TtsService :=
  {| ts_profiles := <[pf_id p := p]> (ts_profiles t); ts_voices_dir := ts_voices_dir t;
     ts_piper_binary := ts_piper_binary t; ts_bark_binary := ts_bark_binary t |}.
Definition get_profile (id : string) (t : TtsService) : option VoiceProfile := ts_profiles t !! id.

(** The state is the list of the programs that were left running. *)
Definition Procs (E A : Type) : Type := M (list Command) E A.

(** [timeout(.., child.wait_with_output())] and the check of the status.  The
    child is dropped when the time is over, which does not end it. *)
Definition wait_output {E} (fail : Failure → E) (seconds : Z) (cmd : Command) (e : Ending) :
    Procs E (list byte * bool * list byte) :=
  match e with
  | Exited success stdout stderr => mret (stdout, success, stderr)
  | WaitFailed => throw (fail FailedToWait)
  | StillRunning => λ left, (Err (fail (TimedOut seconds)), left ++ [cmd])
  end.
Definition successful {E} (fail : Failure → E) (o : list byte * bool * list byte) : Procs E (list byte) :=
  lift (reject_if (negb o.1.2) (fail (ProgramFailed (from_utf8_lossy o.2))));; mret o.1.1.

Section tts.
Context (w : VoiceWorld) (t : TtsService).

Definition check_text (text : string) : Procs VoiceError unit :=
  lift (reject_if (MAX_TTS_INPUT_BYTES <? Z.of_nat (String.length text))
    (Tts (InputTooLarge (Z.of_nat (String.length text)) MAX_TTS_INPUT_BYTES))).

Definition f32_tenth : f32 := f32_lit 13421773 (-27).
Definition f32_ten : f32 := f32_of_Z 10.
Definition speed_out_of_range (x : f32) : bool := SFltb x f32_tenth || SFltb f32_ten x.

Definition piper_command (text : string) (p : VoiceProfile) : Command :=
  {| cmd_program := ts_piper_binary t;
     cmd_args :=
       [Word "--model"; Path (path_join (ts_voices_dir t) (pf_model_path p)); Word "--output_raw";
        Word "--length_scale"; Float (f32_div f32_one (pf_speed p))] ++
       match pf_config_path p with Some c => [Word "--config"; Path (path_join (ts_voices_dir t) c)] | None => [] end ++
       match pf_speaker_id p with Some n => [Word "--speaker"; Int n] | None => [] end;
     cmd_stdin := Some (String.list_byte_of_string text) |}.

(** The input is written by a task of its own, whose result is looked at
    after the program's. *)
Definition synthesize_piper (text : string) (p : VoiceProfile) : Procs VoiceError (list byte) :=
  check_text text;;
  lift (reject_if (negb (vw_exists w (path_join (ts_voices_dir t) (pf_model_path p))))
    (Tts (ModelNotFound (path_join (ts_voices_dir t) (pf_model_path p)))));;
  lift (reject_if (speed_out_of_range (pf_speed p)) SpeedOutOfRange);;
  let command := piper_command text p in
  match vw_run w command with
  | NotSpawned => throw (Tts FailedToSpawn)
  | Spawned writing ending =>
      output ← wait_output Tts TTS_TIMEOUT command ending;
      match writing with
      | Written => successful Tts output
      | _ => throw (Tts FailedToWrite)
      end
  end.

Definition run_without_input (command : Command) : Procs VoiceError (list byte) :=
  match vw_run w command with
  | NotSpawned => throw (Tts FailedToSpawn)
  | Spawned _ ending => output ← wait_output Tts TTS_TIMEOUT command ending; successful Tts output
  end.

Definition bark_command (text : string) : Command :=
  {| cmd_program := ts_bark_binary t; cmd_args := [Word "--text"; Word text; Word "--output_raw"]; cmd_stdin := None |}.
Definition synthesize_bark (text : string) : Procs VoiceError (list byte) :=
  check_text text;;
  lift (reject_if (bool_decide (ts_bark_binary t = "")) (Tts BinaryNotConfigured));;
  lift (reject_if (negb (vw_exists w (ts_bark_binary t))) (Tts (BinaryNotFound (ts_bark_binary t))));;
  run_without_input (bark_command text).

Definition system_command (text : string) : Command :=
  {| cmd_program := "espeak-ng"; cmd_args := [Word "--stdout"; Word text]; cmd_stdin := None |}.
Definition strip_wav_header (wav : list byte) : list byte :=
  if (44 <? Z.of_nat (length wav)) then drop 44 wav else wav.
Definition synthesize_system (text : string) : Procs VoiceError (list byte) :=
  check_text text;;
  wav ← run_without_input (system_command text);
  mret (strip_wav_header wav).

Definition synthesize (text profile_id : string) : Procs VoiceError (list byte) :=
  profile ← lift (ok_or (get_profile profile_id t) (ProfileNotFound profile_id));
  match pf_model profile with
  | Piper => synthesize_piper text profile
  | Bark => synthesize_bark text
  | System => synthesize_system text
  end.
End tts.

(** ** stt.rs *)

Definition MAX_STT_INPUT_BYTES : Z := 10 * 1024 * 1024.
Definition STT_TIMEOUT : Z := 120.

Record SttService := { st_model_path : string; st_binary_path : string }.

Definition stt_command (s : SttService) (audio : list byte) : Command :=
  {| cmd_program := st_binary_path s;
     cmd_args := [Word "-m"; Path (st_model_path s); Word "-f"; Word "-"]; cmd_stdin := Some audio |}.

(** [None] when the call does not return: the audio is written before the
    timeout starts. *)
Definition transcribe (w : VoiceWorld) (s : SttService) (audio : list byte) : option (Procs VoiceError string) :=
  if MAX_STT_INPUT_BYTES <? Z.of_nat (length audio) then
    Some (throw (Stt (InputTooLarge (Z.of_nat (length audio)) MAX_STT_INPUT_BYTES)))
  else
    let command := stt_command s audio in
    match vw_run w command with
    | NotSpawned => Some (throw (Stt FailedToSpawn))
    | Spawned NeverTaken _ => None
    | Spawned WriteFailed _ => Some (throw (Stt FailedToWrite))
    | Spawned Written ending =>
        Some (output ← wait_output Stt STT_TIMEOUT command ending;
              stdout ← successful Stt output;
              mret (trim (from_utf8_lossy stdout)))
    end.

(** ** agent.rs *)

Record TranscriptionEvent := { tr_channel_id : string; tr_speaker_pseudonym : string; tr_text : string }.

(** [av_id] tells the clients, and their transcription channels, apart. *)
Record AgentVoiceClient := {
  av_id : nat;
  av_room_url : string;
  av_token : string;
  av_room_name : string;
  av_connected : bool;
  av_stt : SttService;
  av_api_key : string;
  av_api_secret : string;
}.

(** The health check's result is only logged. *)
Definition connect `{LiveKit} (id : nat) (url token room : string) (stt : SttService) (key secret : string) :
    result VoiceError AgentVoiceClient :=
  _ ← reject_if (negb client_builds) ClientNotBuilt;
  Ok {| av_id := id; av_room_url := url; av_token := token; av_room_name := room; av_connected := true;
        av_stt := stt; av_api_key := key; av_api_secret := secret |}.

Definition disconnect (c : AgentVoiceClient) : AgentVoiceClient :=
  {| av_id := av_id c; av_room_url := av_room_url c; av_token := av_token c; av_room_name := av_room_name c;
     av_connected := false; av_stt := av_stt c; av_api_key := av_api_key c; av_api_secret := av_api_secret c |}.

(** The event that is sent to the client's subscribers. *)
Definition process_incoming_audio (w : VoiceWorld) (c : AgentVoiceClient) (audio : list byte) (speaker : string) :
    option (Procs VoiceError TranscriptionEvent) :=
  if negb (av_connected c) then Some (throw NotConnected)
  else (λ m, text ← m; mret {| tr_channel_id := av_room_name c; tr_speaker_pseudonym := speaker; tr_text := text |})
         <$> transcribe w (av_stt c) audio.

(** ** The server's voice clients

    The table [voice_sessions] with the tasks that forward transcriptions, by
    client and pseudonym; what was sent to the rooms; and the programs left
    running.  The locks are not poisoned. *)

Record VoiceState := {
  vo_tts : TtsService;
  vo_stt : SttService;
  vo_sessions : gmap string AgentVoiceClient;
  vo_forwarders : list (nat * string);
  vo_published : list (string * list byte);
  vo_left_running : list Command;
  vo_next : nat;
}.
Definition VoiceState_new (tts : TtsService) (stt : SttService) : VoiceState :=
  {| vo_tts := tts; vo_stt := stt; vo_sessions := ∅; vo_forwarders := []; vo_published := [];
     vo_left_running := []; vo_next := 0 |}.
Definition set_sessions (m : gmap string AgentVoiceClient) (fs : list (nat * string)) (v : VoiceState) : VoiceState :=
  {| vo_tts := vo_tts v; vo_stt := vo_stt v; vo_sessions := m; vo_forwarders := fs;
     vo_published := vo_published v; vo_left_running := vo_left_running v; vo_next := vo_next v |}.

Definition Speak (E A : Type) : Type := M VoiceState E A.

Definition on_procs {E A} (m : Procs E A) : Speak E A :=
  zoom vo_left_running (λ left v, {| vo_tts := vo_tts v; vo_stt := vo_stt v; vo_sessions := vo_sessions v;
    vo_forwarders := vo_forwarders v; vo_published := vo_published v; vo_left_running := left;
    vo_next := vo_next v |}) m.

(** The entry of the table under its lock: the client that is there stays;
    otherwise this one gets its forwarder and the place. *)
Definition enter_session {E} (p : string) (c : AgentVoiceClient) : Speak E AgentVoiceClient := λ v,
  match vo_sessions v !! p with
  | Some c' => (Ok c', v)
  | None => (Ok c, set_sessions (<[p := c]> (vo_sessions v)) (vo_forwarders v ++ [(av_id c, p)]) v)
  end.

(** The end of a socket: whoever's client it is, it goes. *)
Definition remove_voice_session (p : string) (v : VoiceState) : VoiceState :=
  set_sessions (delete p (vo_sessions v)) (vo_forwarders v) v.

Inductive SessionFailure := TokenFailed | ConnectFailed (e : VoiceError).

Section sessions.
Context `{LK : LiveKit, VT : VoiceErrorText}.
Context (cfg : LiveKitConfig).

(** A new client for room [c], with the next identity. *)
Definition new_client (c p : string) : Speak SessionFailure AgentVoiceClient := λ v,
  match generate_join_token cfg c p p with
  | None => (Err TokenFailed, v)
  | Some token =>
      (map_err ConnectFailed (connect (vo_next v) (lk_url cfg) token c (vo_stt v) (lk_api_key cfg) (lk_api_secret cfg)),
       {| vo_tts := vo_tts v; vo_stt := vo_stt v; vo_sessions := vo_sessions v; vo_forwarders := vo_forwarders v;
          vo_published := vo_published v; vo_left_running := vo_left_running v; vo_next := S (vo_next v) |})
  end.

Definition obtain_client (c p : string) : Speak SessionFailure AgentVoiceClient :=
  sessions ← gets vo_sessions;
  match sessions !! p with
  | Some client => mret client
  | None => client ← new_client c p; enter_session p client
  end.

Definition publish_audio (w : VoiceWorld) (client : AgentVoiceClient) (pcm : list byte) : Speak VoiceError unit := λ v,
  if negb (av_connected client) then (Err NotConnected, v)
  else if vw_send_data w (av_room_name client) pcm
  then (Ok (), {| vo_tts := vo_tts v; vo_stt := vo_stt v; vo_sessions := vo_sessions v;
                  vo_forwarders := vo_forwarders v; vo_published := vo_published v ++ [(av_room_name client, pcm)];
                  vo_left_running := vo_left_running v; vo_next := vo_next v |})
  else (Err NotPublished, v).

Definition session_failure_text (f : SessionFailure) : string :=
  match f with
  | TokenFailed => "Failed to generate voice token"
  | ConnectFailed e => "Failed to connect voice: " +:+ voice_error_text e
  end.

(** A voice intent of [p] for channel [c], after its checks; an error is a
    text for the agent. *)
Definition say (w : VoiceWorld) (c p text profile : string) : Speak string unit :=
  tts ← gets vo_tts;
  audio ← catch_map (λ e, "TTS failed: " +:+ voice_error_text e) (on_procs (synthesize w tts text profile));
  client ← catch_map session_failure_text (obtain_client c p);
  catch_map (λ e, "Failed to publish audio: " +:+ voice_error_text e) (publish_audio w client audio).
End sessions.

(** The task that forwards a client's transcriptions to its agent: it ends
    with the first error, a lag included. *)
Fixpoint forward_transcriptions `{Serde OutgoingMessage} (p : string) (items : list (Received TranscriptionEvent))
    (m : Manager) : Manager :=
  match items with
  | Event e :: items =>
      forward_transcriptions p items
        (alone (send p (to_json (OutTranscription (tr_channel_id e) (tr_speaker_pseudonym e) (tr_text e)))) m).2
  | _ => m
  end.

(** ** Many tasks at once

    A voice intent or a join of an agent looks for the client of its
    pseudonym, connects one when there is none, and enters it; between these
    steps others run.  The task holds the client until its audio is
    published. *)

Inductive Task :=
  | Looking (c p : string)
  | Connecting (c p : string)
  | Entering (p : string) (client : AgentVoiceClient)
  | Holding (p : string) (client : AgentVoiceClient).
Record Pool := { po_voice : VoiceState; po_tasks : gmap nat Task }.

Inductive pool_step `{LiveKit} (cfg : LiveKitConfig) : Pool → Pool → Prop :=
  | step_started v ts i c p :
      ts !! i = None →
      pool_step cfg {| po_voice := v; po_tasks := ts |} {| po_voice := v; po_tasks := <[i := Looking c p]> ts |}
  | step_found v ts i c p client :
      ts !! i = Some (Looking c p) → vo_sessions v !! p = Some client →
      pool_step cfg {| po_voice := v; po_tasks := ts |} {| po_voice := v; po_tasks := <[i := Holding p client]> ts |}
  | step_missing v ts i c p :
      ts !! i = Some (Looking c p) → vo_sessions v !! p = None →
      pool_step cfg {| po_voice := v; po_tasks := ts |} {| po_voice := v; po_tasks := <[i := Connecting c p]> ts |}
  | step_connected v v' ts i c p client :
      ts !! i = Some (Connecting c p) → new_client cfg c p v = (Ok client, v') →
      pool_step cfg {| po_voice := v; po_tasks := ts |} {| po_voice := v'; po_tasks := <[i := Entering p client]> ts |}
  | step_failed v v' ts i c p f :
      ts !! i = Some (Connecting c p) → new_client cfg c p v = (Err f, v') →
      pool_step cfg {| po_voice := v; po_tasks := ts |} {| po_voice := v'; po_tasks := delete i ts |}
  | step_entered v v' ts i p client client' :
      ts !! i = Some (Entering p client) → enter_session (E := SessionFailure) p client v = (Ok client', v') →
      pool_step cfg {| po_voice := v; po_tasks := ts |} {| po_voice := v'; po_tasks := <[i := Holding p client']> ts |}
  | step_published v v' ts i p client w pcm r :
      ts !! i = Some (Holding p client) → publish_audio w client pcm v = (r, v') →
      pool_step cfg {| po_voice := v; po_tasks := ts |} {| po_voice := v'; po_tasks := delete i ts |}
  | step_closed v ts p :
      pool_step cfg {| po_voice := v; po_tasks := ts |}
        {| po_voice := remove_voice_session p v; po_tasks := ts |}.

(** * Theorems *)

(** ** The table of clients *)

Section session_theorems.
Context `{LK : LiveKit, VT : VoiceErrorText}.
Context (cfg : LiveKitConfig).

Lemma obtain_client_open c p client v :
  vo_sessions v !! p = Some client → obtain_client cfg c p v = (Ok client, v).
Proof. intros H. unfold obtain_client, mbind, M_bind, gets. by rewrite H. Qed.
(** What the tables and the tasks agree on. *)
Record pool_ok (s : Pool) : Prop := {
  ok_forwarders : NoDup (vo_forwarders (po_voice s)).*1;
  ok_fresh : ∀ id, id ∈ (vo_forwarders (po_voice s)).*1 → (id < vo_next (po_voice s))%nat;
  ok_sessions : ∀ p client, vo_sessions (po_voice s) !! p = Some client →
    (av_id client, p) ∈ vo_forwarders (po_voice s);
  ok_entering : ∀ i p client, po_tasks s !! i = Some (Entering p client) →
    (av_id client < vo_next (po_voice s))%nat ∧ av_id client ∉ (vo_forwarders (po_voice s)).*1;
  ok_distinct : ∀ i j p q client client', i ≠ j →
    po_tasks s !! i = Some (Entering p client) → po_tasks s !! j = Some (Entering q client') →
    av_id client ≠ av_id client';
  ok_holding : ∀ i p client, po_tasks s !! i = Some (Holding p client) →
    (av_id client, p) ∈ vo_forwarders (po_voice s);
}.

Lemma new_client_cases c p v r v' :
  new_client cfg c p v = (r, v') →
  vo_sessions v' = vo_sessions v ∧ vo_forwarders v' = vo_forwarders v ∧ vo_published v' = vo_published v ∧
  vo_tts v' = vo_tts v ∧ (vo_next v ≤ vo_next v')%nat ∧
  match r with
  | Ok client => av_id client = vo_next v ∧ vo_next v' = S (vo_next v) ∧ av_room_name client = c ∧ av_connected client = true
  | Err _ => True
  | Panic => False
  end.
Proof.
  unfold new_client, connect. destruct (generate_join_token _ _ _ _); [|by intros [= <- <-]].
  destruct client_builds; cbn; intros [= <- <-]; cbn; split_and!; auto.
Qed.

Lemma publish_audio_cases w client pcm v r v' :
  publish_audio w client pcm v = (r, v') →
  vo_sessions v' = vo_sessions v ∧ vo_forwarders v' = vo_forwarders v ∧ vo_next v' = vo_next v ∧
  match r with
  | Ok _ => vo_published v' = vo_published v ++ [(av_room_name client, pcm)]
  | Err _ => v' = v
  | Panic => False
  end.
Proof. unfold publish_audio. destruct (negb _); [|destruct (vw_send_data _ _ _)]; by intros [= <- <-]. Qed.

Lemma enter_session_cases {E} p client v r v' :
  enter_session (E := E) p client v = (r, v') →
  ∃ client', r = Ok client' ∧ vo_sessions v' !! p = Some client' ∧ vo_next v' = vo_next v ∧
    vo_published v' = vo_published v ∧
    (vo_sessions v !! p = Some client' ∧ v' = v ∨
     vo_sessions v !! p = None ∧ client' = client ∧
     v' = set_sessions (<[p := client]> (vo_sessions v)) (vo_forwarders v ++ [(av_id client, p)]) v).
Proof.
  unfold enter_session. destruct (vo_sessions v !! p) as [c'|] eqn:E'; intros [= <- <-].
  - exists c'. by split_and!; [..|left].
  - exists client. split_and!; [done|apply lookup_insert_eq|done|done|by right].
Qed.

(** A step that enters no client and connects none. *)
Lemma pool_ok_tasks v v' ts ts' :
  pool_ok {| po_voice := v; po_tasks := ts |} →
  vo_sessions v' ⊆ vo_sessions v → vo_forwarders v' = vo_forwarders v → (vo_next v ≤ vo_next v')%nat →
  (∀ j p client, ts' !! j = Some (Entering p client) → ts !! j = Some (Entering p client)) →
  (∀ j p client, ts' !! j = Some (Holding p client) →
     ts !! j = Some (Holding p client) ∨ (av_id client, p) ∈ vo_forwarders v) →
  pool_ok {| po_voice := v'; po_tasks := ts' |}.
Proof.
  intros [F1 F2 F3 F4 F5 F6] Hs Hf Hn He Hh. cbn [po_voice po_tasks] in *.
  split; cbn [po_voice po_tasks]; rewrite ?Hf; [done|..].
  - intros id H%F2. lia.
  - intros p client H. apply F3. by eapply lookup_weaken.
  - intros j p client H%He. apply F4 in H as [? ?]. split; [lia|done].
  - intros j k p q c c' Hjk H1%He H2%He. by eapply F5.
  - intros j p client [H|H]%Hh; [by eapply F6|done].
Qed.

Lemma pool_ok_connected v v' ts i c p client :
  pool_ok {| po_voice := v; po_tasks := ts |} → new_client cfg c p v = (Ok client, v') →
  pool_ok {| po_voice := v'; po_tasks := <[i := Entering p client]> ts |}.
Proof.
  intros [F1 F2 F3 F4 F5 F6] (Es & Ef & _ & _ & _ & Eid & En & _)%new_client_cases. cbn [po_voice po_tasks] in *.
  assert (av_id client ∉ (vo_forwarders v).*1) as Hfresh by (intros H%F2; lia).
  split; cbn [po_voice po_tasks]; rewrite ?Es, ?Ef, ?En; [done| |done|..].
  - intros id H%F2. lia.
  - intros j q cl'. rewrite lookup_insert_Some. intros [(_ & [= <- <-])|[_ H]]; [split; [lia|done]|].
    apply F4 in H as [? ?]. split; [lia|done].
  - intros j k q q' cl cl' Hjk. rewrite !lookup_insert_Some.
    intros [(<- & [= <- <-])|[_ Hj]] [(<- & [= <- <-])|[_ Hk]]; [done|apply F4 in Hk; lia|apply F4 in Hj; lia|by eapply F5].
  - intros j q cl'. rewrite lookup_insert_Some. intros [(_ & [=])|[_ H]]. by eapply F6.
Qed.

Lemma pool_ok_entered v ts i p client :
  pool_ok {| po_voice := v; po_tasks := ts |} → ts !! i = Some (Entering p client) → vo_sessions v !! p = None →
  pool_ok {| po_voice := set_sessions (<[p := client]> (vo_sessions v)) (vo_forwarders v ++ [(av_id client, p)]) v;
             po_tasks := <[i := Holding p client]> ts |}.
Proof.
  intros [F1 F2 F3 F4 F5 F6] Hi Hp. cbn [po_voice po_tasks] in *. destruct (F4 _ _ _ Hi) as [Hlt Hnin].
  assert ((av_id client, p) ∈ vo_forwarders v ++ [(av_id client, p)]) as Hlast
    by (apply elem_of_app; right; by apply list_elem_of_singleton).
  split; cbn [po_voice po_tasks set_sessions vo_forwarders vo_sessions vo_next]; rewrite ?fmap_app.
  - apply NoDup_app. split_and!; [done| |apply NoDup_singleton].
    intros id H ->%list_elem_of_singleton. done.
  - intros id [H| ->%list_elem_of_singleton]%elem_of_app; [by apply F2|done].
  - intros q cl. rewrite lookup_insert_Some. intros [(<- & <-)|[_ H]]; [done|].
    apply elem_of_app. left. by apply F3.
  - intros j q cl. rewrite lookup_insert_Some. intros [(_ & [=])|[Hij H]].
    pose proof (F5 _ _ _ _ _ _ Hij Hi H) as Hne. apply F4 in H as [? ?]. split; [done|].
    rewrite not_elem_of_app. split; [done|]. intros Heq%list_elem_of_singleton. by apply Hne.
  - intros j k q q' cl cl' Hjk. rewrite !lookup_insert_Some. naive_solver.
  - intros j q cl. rewrite lookup_insert_Some. intros [(_ & [= <- <-])|[_ H]]; [done|].
    apply elem_of_app. left. by eapply F6.
Qed.

Lemma pool_step_ok s s' : pool_step cfg s s' → pool_ok s → pool_ok s'.
Proof.
  intros Hstep Hok. destruct Hstep as [v ts i c p Hi|v ts i c p client Hi Hs|v ts i c p Hi Hs
    |v v' ts i c p client Hi Hn|v v' ts i c p f Hi Hn|v v' ts i p client client' Hi He|v v' ts i p client w pcm r Hi Hp|v ts p].
  4: by eapply pool_ok_connected.
  4: apply new_client_cases in Hn as (Es & Ef & _ & _ & En & _).
  5: { apply enter_session_cases in He as (c' & [= <-] & _ & _ & _ & [[Hp ->]|(Hp & -> & ->)]);
       [|by apply pool_ok_entered].
       eapply pool_ok_tasks; [done..| |]; intros *; rewrite lookup_insert_Some; [naive_solver|].
       intros [(_ & [= <- <-])|[_ H]]; [right; by apply (ok_sessions _ Hok)|by left]. }
  5: apply publish_audio_cases in Hp as (Es & Ef & En & _).
  all: eapply pool_ok_tasks; [exact Hok|try done..| |]; rewrite ?Es, ?En; try done.
  all: try (intros *; rewrite ?lookup_insert_Some, ?lookup_delete_Some; naive_solver).
  - intros j q cl. rewrite lookup_insert_Some. intros [(_ & [= <- <-])|[_ H]]; [right; by apply (ok_sessions _ Hok)|by left].
  - apply delete_subseteq.
Qed.
Lemma reachable_ok tts stt s :
  rtc (pool_step cfg) {| po_voice := VoiceState_new tts stt; po_tasks := ∅ |} s → pool_ok s.
Proof.
  intros H. remember {| po_voice := VoiceState_new tts stt; po_tasks := ∅ |} as s0 eqn:E.
  assert (pool_ok s0) as H0.
  { subst. split; cbn; [constructor|by intros id ?%not_elem_of_nil|..]; intros *; by rewrite lookup_empty. }
  clear E. induction H as [|s0 s1 s2 Hs _ IH]; [done|]. apply IH. by eapply pool_step_ok.
Qed.

(** A handler's [obtain_client] is a run of the steps of one task. *)
Lemma obtain_client_steps i c p v ts r v' :
  ts !! i = None → obtain_client cfg c p v = (r, v') →
  match r with
  | Ok client => rtc (pool_step cfg) {| po_voice := v; po_tasks := ts |}
      {| po_voice := v'; po_tasks := <[i := Holding p client]> ts |}
  | Err _ => rtc (pool_step cfg) {| po_voice := v; po_tasks := ts |} {| po_voice := v'; po_tasks := ts |}
  | Panic => False
  end.
Proof.
  intros Hi. unfold obtain_client, mbind, M_bind, gets.
  set (start := {| po_voice := v; po_tasks := <[i := Looking c p]> ts |}).
  assert (pool_step cfg {| po_voice := v; po_tasks := ts |} start) as H1 by (by constructor).
  destruct (vo_sessions v !! p) as [client|] eqn:Ep.
  { intros [= <- <-]. eapply rtc_l; [exact H1|]. apply rtc_once.
    rewrite <- (insert_insert_eq ts i (Holding p client) (Looking c p)).
    eapply step_found; [apply lookup_insert_eq|done]. }
  set (waiting := {| po_voice := v; po_tasks := <[i := Connecting c p]> ts |}).
  assert (pool_step cfg start waiting) as H2.
  { unfold waiting. rewrite <- (insert_insert_eq ts i (Connecting c p) (Looking c p)).
    eapply step_missing; [apply lookup_insert_eq|done]. }
  destruct (new_client cfg c p v) as [r1 v1] eqn:En. destruct r1 as [client|f|].
  - intros He. pose proof (enter_session_cases _ _ _ _ _ He) as (c' & -> & _).
    eapply rtc_l; [exact H1|]. eapply rtc_l; [exact H2|].
    eapply rtc_l; [eapply step_connected; [apply lookup_insert_eq|exact En]|]. rewrite insert_insert_eq.
    rewrite <- (insert_insert_eq ts i (Holding p c') (Entering p client)).
    apply rtc_once. eapply step_entered; [apply lookup_insert_eq|done].
  - intros [= <- <-]. eapply rtc_l; [exact H1|]. eapply rtc_l; [exact H2|]. apply rtc_once.
    assert (delete i (<[i := Connecting c p]> ts) = ts) as E by (by rewrite delete_insert_id).
    rewrite <- E at 1. eapply step_failed; [apply lookup_insert_eq|exact En].
  - apply new_client_cases in En as (_ & _ & _ & _ & _ & []).
Qed.

(** A client in the table stays there or goes: it is never replaced.  And a
    transcription task is started only for a client that enters the table
    where the agent had none. *)
Definition one_client_at_a_time (v v' : VoiceState) : Prop :=
  (∀ p client, vo_sessions v !! p = Some client →
     vo_sessions v' !! p = Some client ∨ vo_sessions v' !! p = None) ∧
  (vo_forwarders v' = vo_forwarders v ∨
   ∃ p client, vo_sessions v !! p = None ∧ vo_sessions v' = <[p := client]> (vo_sessions v) ∧
     vo_forwarders v' = vo_forwarders v ++ [(av_id client, p)]).

Lemma pool_step_clients s s' : pool_step cfg s s' → one_client_at_a_time (po_voice s) (po_voice s').
Proof.
  unfold one_client_at_a_time.
  intros [v ts i c p Hi|v ts i c p client Hi Hs|v ts i c p Hi Hs|v v' ts i c p client Hi Hn|v v' ts i c p f Hi Hn
    |v v' ts i p client client' Hi He|v v' ts i p client w pcm r Hi Hp|v ts p]; cbn [po_voice].
  4, 5: apply new_client_cases in Hn as (-> & -> & _).
  6: apply enter_session_cases in He as (c' & _ & _ & _ & _ & [[_ ->]|(Hp & _ & ->)]).
  8: apply publish_audio_cases in Hp as (-> & -> & _).
  all: try (split; [by left|by left]).
  - cbn [set_sessions vo_sessions vo_forwarders]. split; [|right; by exists p, client].
    intros q cl Hq. left. rewrite lookup_insert_ne; [done|]. intros ->. by rewrite Hp in Hq.
  - cbn [remove_voice_session set_sessions vo_sessions vo_forwarders]. split; [|by left]. intros q cl Hq.
    destruct (decide (p = q)) as [->|Hne]; [right; apply lookup_delete_eq|left; by rewrite lookup_delete_ne].
Qed.

(** C21. However voice intents, joins and closing sockets interleave, an
    agent has one client at a time: one that connected while another
    entered is dropped, no client in the table is replaced, and a transcription
    task is started only where the agent had no client.  So every
    client in the table, and every client that a task speaks through, has
    its transcriptions forwarded, by one task, to the agent whose it is; no
    two agents share a client; and what a handler does alone is a run of
    these steps. *)
Theorem voice_clients_forwarded_once tts stt s :
  rtc (pool_step cfg) {| po_voice := VoiceState_new tts stt; po_tasks := ∅ |} s →
  let v := po_voice s in
  (∀ s', pool_step cfg s s' → one_client_at_a_time v (po_voice s')) ∧
  (∀ p client, (vo_sessions v !! p = Some client ∨ ∃ i, po_tasks s !! i = Some (Holding p client)) →
     length (filter (λ f, f.1 = av_id client) (vo_forwarders v)) = 1%nat ∧ (av_id client, p) ∈ vo_forwarders v) ∧
  (∀ p q client client', vo_sessions v !! p = Some client → vo_sessions v !! q = Some client' →
     av_id client = av_id client' → p = q) ∧
  (∀ i c p r v', po_tasks s !! i = None → obtain_client cfg c p v = (r, v') →
     ∃ ts, rtc (pool_step cfg) s {| po_voice := v'; po_tasks := ts |} ∧
       match r with Ok client => ts !! i = Some (Holding p client) | _ => ts = po_tasks s end).
Proof.
  intros Hs%reachable_ok. destruct s as [v ts]. cbn [po_voice po_tasks].
  assert (∀ id p q, (id, p) ∈ vo_forwarders v → (id, q) ∈ vo_forwarders v → p = q) as Hinj.
  { intros id p q Hp Hq. by injection (NoDup_fmap_inj fst _ (id, p) (id, q) (ok_forwarders _ Hs) Hp Hq eq_refl). }
  split; [by intros s' Hstep%pool_step_clients|]. split; [|split].
  - intros p client H. assert ((av_id client, p) ∈ vo_forwarders v) as Hf.
    { destruct H as [H|[i H]]; [by apply (ok_sessions _ Hs)|by eapply (ok_holding _ Hs)]. }
    split; [|done]. pose proof (ok_forwarders _ Hs) as Hnd. cbn in Hnd. clear -Hf Hnd.
    induction (vo_forwarders v) as [|f l IH]; [by apply not_elem_of_nil in Hf|].
    cbn in Hnd. apply NoDup_cons in Hnd as [Hn Hnd]. rewrite filter_cons.
    apply elem_of_cons in Hf as [<-|Hf].
    + rewrite decide_True by done. cbn. f_equal. replace (filter _ l) with (@nil (nat * string)); [done|].
      symmetry. clear -Hn. induction l as [|g l IH]; [done|]. cbn in Hn. apply not_elem_of_cons in Hn as [? ?].
      rewrite filter_cons, decide_False by (cbn in *; congruence). by apply IH.
    + rewrite decide_False; [by apply IH|]. intros E. destruct Hn. rewrite E. by apply (list_elem_of_fmap_2 fst l (av_id client, p)).
  - intros p q client client' Hp%(ok_sessions _ Hs) Hq%(ok_sessions _ Hs) E. cbn in *. rewrite E in Hp. by eapply Hinj.
  - intros i c p r v' Hi Ho. pose proof (obtain_client_steps i c p v ts r v' Hi Ho) as H.
    destruct r as [client|f|]; [|by exists ts|done]. eexists. split; [exact H|]. apply lookup_insert_eq.
Qed.
End session_theorems.

(** ** Programs *)

Definition command_for (t : TtsService) (text : string) (p : VoiceProfile) : Command :=
  match pf_model p with
  | Piper => piper_command t text p
  | Bark => bark_command t text
  | System => system_command text
  end.
Definition audio_of (p : VoiceProfile) (stdout : list byte) : list byte :=
  match pf_model p with System => strip_wav_header stdout | _ => stdout end.

(** How a call of [synthesize] ends: with the output of the program for the
    profile; after the timeout, with the program left running; or with an
    error and nothing left. *)
Definition synthesis_ends (w : VoiceWorld) (t : TtsService) (text : string) (p : VoiceProfile) (left : list Command)
    (o : result VoiceError (list byte) * list Command) : Prop :=
  (∃ writing stdout stderr, vw_run w (command_for t text p) = Spawned writing (Exited true stdout stderr) ∧
     o = (Ok (audio_of p stdout), left)) ∨
  (∃ writing, vw_run w (command_for t text p) = Spawned writing StillRunning ∧
     o = (Err (Tts (TimedOut 60)), left ++ [command_for t text p])) ∨
  ∃ e, o = (Err e, left).

Lemma run_without_input_cases w cmd left :
  (∃ writing stdout stderr, vw_run w cmd = Spawned writing (Exited true stdout stderr) ∧
     run_without_input w cmd left = (Ok stdout, left)) ∨
  (∃ writing, vw_run w cmd = Spawned writing StillRunning ∧
     run_without_input w cmd left = (Err (Tts (TimedOut 60)), left ++ [cmd])) ∨
  ∃ e, run_without_input w cmd left = (Err e, left).
Proof.
  unfold run_without_input. destruct (vw_run w cmd) as [|writing [[] stdout stderr| |]]; cbn.
  - right; right. by eexists.
  - left. by exists writing, stdout, stderr.
  - right; right. by eexists.
  - right; right. by eexists.
  - right; left. by exists writing.
Qed.

Lemma check_text_cases text left :
  (Z.of_nat (String.length text) ≤ MAX_TTS_INPUT_BYTES ∧ check_text text left = (Ok (), left)) ∨
  (MAX_TTS_INPUT_BYTES < Z.of_nat (String.length text) ∧
   check_text text left = (Err (Tts (InputTooLarge (Z.of_nat (String.length text)) MAX_TTS_INPUT_BYTES)), left)).
Proof.
  unfold check_text, lift, reject_if. destruct (Z.ltb_spec MAX_TTS_INPUT_BYTES (Z.of_nat (String.length text))); [right|left]; split; done || lia.
Qed.

Lemma piper_cases w t text p left :
  pf_model p = Piper → synthesis_ends w t text p left (synthesize_piper w t text p left).
Proof.
  intros Hm. unfold synthesis_ends, command_for, audio_of. rewrite Hm.
  unfold synthesize_piper, mbind, M_bind. destruct (check_text_cases text left) as [[_ ->]|[_ ->]]; [|right; right; by eexists].
  unfold lift, reject_if. destruct (negb _); [right; right; by eexists|].
  destruct (speed_out_of_range _); [right; right; by eexists|].
  destruct (vw_run w (piper_command t text p)) as [|writing ending]; [right; right; by eexists|].
  destruct ending as [success stdout stderr| |]; cbn; [|right; right; by eexists|right; left; by exists writing].
  destruct writing; [|right; right; by eexists..].
  destruct success; cbn; [left; by eexists _, stdout, stderr|right; right; by eexists].
Qed.

Lemma synthesize_known w t text id p left :
  get_profile id t = Some p →
  synthesize w t text id left =
    match pf_model p with
    | Piper => synthesize_piper w t text p left
    | Bark => synthesize_bark w t text left
    | System => synthesize_system w text left
    end.
Proof. intros Hp. unfold synthesize, mbind, M_bind, lift. rewrite Hp. cbn. by destruct (pf_model p). Qed.

Lemma synthesize_cases w t text id left :
  match get_profile id t with
  | None => synthesize w t text id left = (Err (ProfileNotFound id), left)
  | Some p => synthesis_ends w t text p left (synthesize w t text id left)
  end.
Proof.
  destruct (get_profile id t) as [p|] eqn:Ep.
  2: { unfold synthesize, mbind, M_bind, lift. by rewrite Ep. }
  rewrite (synthesize_known _ _ _ _ p) by done. destruct (pf_model p) eqn:Em; [by apply piper_cases|..];
    unfold synthesis_ends, command_for, audio_of; rewrite Em.
  - unfold synthesize_bark, mbind, M_bind. destruct (check_text_cases text left) as [[_ ->]|[_ ->]]; [|right; right; by eexists].
    unfold lift, reject_if. destruct (bool_decide _); [right; right; by eexists|].
    destruct (negb _); [right; right; by eexists|]. apply run_without_input_cases.
  - unfold synthesize_system, mbind, M_bind. destruct (check_text_cases text left) as [[_ ->]|[_ ->]]; [|right; right; by eexists].
    destruct (run_without_input_cases w (system_command text) left) as [(wr & so & se & -> & ->)|[(wr & -> & ->)|[e ->]]];
      [left; by exists wr, so, se|right; left; by exists wr|right; right; by exists e].
Qed.

(** Speech synthesis gives audio only for a known profile and a text
    of at most 64 KiB, and then the output of that profile's program, which
    ended well, without the WAV header for the system's voice.  It leaves a
    program running exactly when the program outlasts the timeout of sixty
    seconds: the timeout gives up waiting and does not end it. *)
Theorem synthesize_spec w t text id left :
  let o := synthesize w t text id left in
  match get_profile id t with
  | None => o = (Err (ProfileNotFound id), left)
  | Some p =>
      synthesis_ends w t text p left o ∧
      (is_ok o.1 = true → Z.of_nat (String.length text) ≤ 64 * 1024) ∧
      (pf_model p = Piper → is_ok o.1 = true →
         vw_exists w (path_join (ts_voices_dir t) (pf_model_path p)) = true ∧ speed_out_of_range (pf_speed p) = false) ∧
      (pf_model p = Bark → is_ok o.1 = true → vw_exists w (ts_bark_binary t) = true)
  end.
Proof.
  cbv zeta. pose proof (synthesize_cases w t text id left) as Hc. destruct (get_profile id t) as [p|] eqn:Ep; [|done].
  split; [done|]. clear Hc. rewrite (synthesize_known _ _ _ _ p) by done.
  assert (is_ok (check_text text left).1 = true → Z.of_nat (String.length text) ≤ 64 * 1024) as Hlen.
  { destruct (check_text_cases text left) as [[H ->]|[_ ->]]; [by intros _; unfold MAX_TTS_INPUT_BYTES in H; lia|done]. }
  destruct (pf_model p); unfold synthesize_piper, synthesize_bark, synthesize_system, mbind, M_bind;
    (destruct (check_text text left) as [[[]|e|] l]; [|done..]); specialize (Hlen eq_refl); (split; [done|]);
    unfold lift, reject_if; (split; intros Hm; try discriminate Hm).
  - destruct (vw_exists _ _); [|done]. cbn [negb]. by destruct (speed_out_of_range (pf_speed p)).
  - destruct (bool_decide _); [done|]. by destruct (vw_exists w (ts_bark_binary t)).
Qed.

(** Transcription: an answer is the program's output as UTF-8 text
    without surrounding white space.  A call returns unless the program does
    not take the audio: the writing is not under the timeout, and then the
    call waits for ever. *)
Theorem transcribe_spec w s audio :
  (transcribe w s audio = None ↔ Z.of_nat (length audio) ≤ MAX_STT_INPUT_BYTES ∧
     ∃ ending, vw_run w (stt_command s audio) = Spawned NeverTaken ending) ∧
  (∀ m left, transcribe w s audio = Some m →
     match m left with
     | (Ok text, left') => utf8 text ∧ left' = left ∧ ∃ stdout stderr,
         vw_run w (stt_command s audio) = Spawned Written (Exited true stdout stderr) ∧
         text = trim (from_utf8_lossy stdout)
     | (Err e, left') => left' = left ∨
         left' = left ++ [stt_command s audio] ∧ e = Stt (TimedOut 120) ∧
         vw_run w (stt_command s audio) = Spawned Written StillRunning
     | (Panic, _) => False
     end).
Proof.
  unfold transcribe. destruct (Z.ltb_spec MAX_STT_INPUT_BYTES (Z.of_nat (length audio))) as [Hl|Hl].
  { split; [split; [done|lia]|]. intros m left [= <-]. by left. }
  destruct (vw_run w (stt_command s audio)) as [|[] ending].
  - split; [split; [done|naive_solver]|]. intros m left [= <-]. by left.
  - split; [split; [done|naive_solver]|]. intros m left [= <-].
    destruct ending as [[] stdout stderr| |]; cbn; [|by left|by left|by right].
    split; [|by eauto]. apply trim_utf8. unfold utf8, from_utf8_lossy.
    rewrite String.list_byte_of_string_of_list_byte. apply is_utf8_lossy.
  - split; [split; [done|naive_solver]|]. intros m left [= <-]. by left.
  - split; [split; [|done]; intros _; split; [done|by exists ending]|done].
Qed.

(** ** Voice intents *)

Section say_theorems.
Context `{LK : LiveKit, VT : VoiceErrorText}.
Context (cfg : LiveKitConfig).

Lemma on_procs_cases {E A} (m : Procs E A) v r v' :
  on_procs m v = (r, v') →
  vo_tts v' = vo_tts v ∧ vo_sessions v' = vo_sessions v ∧ vo_published v' = vo_published v ∧
  vo_forwarders v' = vo_forwarders v ∧ ∃ left', m (vo_left_running v) = (r, left') ∧ vo_left_running v' = left'.
Proof. unfold on_procs, zoom. destruct (m _) as [r1 l]. intros [= <- <-]. split_and!; [done..|]. by exists l. Qed.

Lemma obtain_client_cases c p v r v' :
  obtain_client cfg c p v = (r, v') →
  vo_tts v' = vo_tts v ∧ vo_published v' = vo_published v ∧
  (∀ q, q ≠ p → vo_sessions v' !! q = vo_sessions v !! q) ∧
  match r with
  | Ok client => vo_sessions v' !! p = Some client ∧
      match vo_sessions v !! p with Some client' => client' = client | None => av_room_name client = c end
  | Err _ => vo_sessions v' = vo_sessions v
  | Panic => False
  end.
Proof.
  unfold obtain_client, mbind, M_bind, gets. destruct (vo_sessions v !! p) as [client|] eqn:Ep.
  { intros [= <- <-]. by split_and!. }
  destruct (new_client cfg c p v) as [r1 v1] eqn:En.
  apply new_client_cases in En as (Es & _ & Epub & Et & _ & Hr). destruct r1 as [client|e|]; [|intros [= <- <-]; rewrite Es; by split_and!|done].
  destruct Hr as (_ & _ & Hroom & _). unfold enter_session. rewrite Es, Ep. intros [= <- <-]. cbn [set_sessions vo_tts vo_published vo_sessions].
  split_and!; [done|done| |apply lookup_insert_eq|done]. intros q Hq. by rewrite lookup_insert_ne.
Qed.

(** A voice intent either speaks once, or says nothing and reports
    why.  It speaks into the room of the agent's client, and that is the room
    of the channel asked for only when this intent connected it: a client
    that is there already keeps speaking into the room it was connected to
    first.  Without the profile asked for nothing is said at all. *)
Theorem say_spec w c p text profile v :
  let '(r, v') := say cfg w c p text profile v in
  (∀ q, q ≠ p → vo_sessions v' !! q = vo_sessions v !! q) ∧
  (get_profile profile (vo_tts v) = None →
     r = Err ("TTS failed: " +:+ voice_error_text (ProfileNotFound profile)) ∧ v' = v) ∧
  match r with
  | Ok _ => ∃ client audio left, vo_sessions v' !! p = Some client ∧
      vo_published v' = vo_published v ++ [(av_room_name client, audio)] ∧
      synthesize w (vo_tts v) text profile (vo_left_running v) = (Ok audio, left) ∧
      match vo_sessions v !! p with Some client' => client' = client | None => av_room_name client = c end
  | Err _ => vo_published v' = vo_published v
  | Panic => False
  end.
Proof.
  destruct (say cfg w c p text profile v) as [r v'] eqn:H. unfold say, mbind, M_bind, gets, catch_map in H.
  assert (∀ left, (synthesize w (vo_tts v) text profile left).1 ≠ Panic) as Hpanic.
  { intros left. pose proof (synthesize_cases w (vo_tts v) text profile left) as Hc.
    destruct (get_profile profile (vo_tts v)); [|by rewrite Hc].
    destruct Hc as [(? & ? & ? & _ & ->)|[(? & _ & ->)|[? ->]]]; done. }
  destruct (on_procs (synthesize w (vo_tts v) text profile) v) as [r1 v1] eqn:E1.
  pose proof (on_procs_cases _ _ _ _ E1) as (Et & Es & Ep & _ & left & El & _).
  destruct r1 as [audio|e|].
  3: { specialize (Hpanic (vo_left_running v)). by rewrite El in Hpanic. }
  2: { injection H as <- <-. rewrite Es, Ep. split_and!; [done| |done]. intros Hn.
       unfold synthesize, mbind, M_bind, lift in El. rewrite Hn in El. cbn in El. injection El as <- _.
       split; [done|]. unfold on_procs, zoom, synthesize, mbind, M_bind, lift in E1. rewrite Hn in E1. cbn in E1.
       injection E1 as <-. by destruct v. }
  assert (get_profile profile (vo_tts v) ≠ None) as Hp.
  { intros Hn. unfold synthesize, mbind, M_bind, lift in El. rewrite Hn in El. by cbn in El. }
  destruct (obtain_client cfg c p v1) as [r2 v2] eqn:E2.
  apply obtain_client_cases in E2 as (Et2 & Ep2 & Ho & Hr). rewrite Es in *. rewrite <- Ep, <- Ep2.
  destruct r2 as [client|f|]; [|by injection H as <- <-|done]. destruct Hr as [Hcl Hroom].
  cbn in H. destruct (publish_audio w client audio v2) as [r3 v3] eqn:E3.
  apply publish_audio_cases in E3 as (Es3 & _ & _ & Hr3).
  destruct r3 as [[]|e|]; injection H as <- <-; [|by subst|done].
  rewrite Es3. split_and!; [done..|]. by exists client, audio, left.
Qed.

(** The forwarding of transcriptions ends with the first lag: what the
    agent gets is, in order, what its client heard up to the first event
    that it missed, and nothing afterwards, however long the client lives. *)
Theorem forwarding_ends_at_lag `{Serde OutgoingMessage} p sent items m :
  delivered sent items →
  ∃ got, got `prefix_of` sent ∧ forward_transcriptions p items m = forward_transcriptions p (Event <$> got) m ∧
    ((∀ n, Lagged n ∉ items) → got = sent) ∧
    ∀ more, (∃ n, Lagged n ∈ items) → forward_transcriptions p (items ++ more) m = forward_transcriptions p items m.
Proof.
  intros Hd. revert m. induction Hd as [|e sent items Hd IH|missed sent items Hm Hd IH]; intros m.
  - exists []. split_and!; [done|done|done|]. intros more [n Hn]. by apply not_elem_of_nil in Hn.
  - destruct (IH (alone (send p (to_json (OutTranscription (tr_channel_id e) (tr_speaker_pseudonym e) (tr_text e)))) m).2)
      as (got & Hp & Hf & Hall & Hmore). exists (e :: got). split_and!.
    + by apply prefix_cons.
    + exact Hf.
    + intros Hn. f_equal. apply Hall. intros n Hin. apply (Hn n). by right.
    + intros more [n Hn%elem_of_cons]. apply Hmore. destruct Hn as [[=]|Hn]. by exists n.
  - exists []. split_and!; [by apply prefix_nil|done| |done]. intros Hn. exfalso. apply (Hn (Z.of_nat (length missed))). left.
Qed.
End say_theorems.

(** * Witnesses *)

Section witnesses.
#[local] Instance toy_livekit : LiveKit :=
  {| to_jwt _ _ _ _ _ _ := Some "jwt"; list_participants _ := Some 1%nat; client_builds := true |}.
#[local] Instance toy_voice_text : VoiceErrorText := {| voice_error_text _ := "error" |}.
#[local] Instance toy_outgoing : Serde OutgoingMessage := {| to_json _ := "{}"; from_json _ := None |}.

(** Every program echoes nothing and ends well. *)
Definition toy_world : VoiceWorld :=
  {| vw_exists _ := true; vw_run _ := Spawned Written (Exited true [] []); vw_send_data _ _ := true |}.
Definition toy_voice : VoiceState :=
  VoiceState_new (add_profile VoiceProfile_default (TtsService_new "voices" "piper" "bark"))
    {| st_model_path := "model"; st_binary_path := "stt" |}.

(** An agent speaks in "lobby", then asks to speak in "general". *)
Lemma say_spec_witness :
  let '(_, v) := say LiveKitConfig_default toy_world "lobby" "agent" "hi" "default" toy_voice in
  let '(r, v') := say LiveKitConfig_default toy_world "general" "agent" "secret" "default" v in
  r = Ok () ∧ vo_published v' = vo_published v ++ [("lobby", [])].
Proof.
  destruct (say LiveKitConfig_default toy_world "lobby" "agent" "hi" "default" toy_voice) as [r1 v] eqn:E1.
  pose proof (say_spec LiveKitConfig_default toy_world "general" "agent" "secret" "default" v) as H.
  injection (eq_trans (eq_sym E1) ltac:(vm_compute; reflexivity)) as _ ->. vm_compute in H |- *. split; reflexivity.
Defined.

(** Two tasks of an agent connect at the same time, and one has entered. *)
Definition racing (id : nat) : AgentVoiceClient :=
  {| av_id := id; av_room_url := lk_url LiveKitConfig_default; av_token := "jwt"; av_room_name := "lobby";
     av_connected := true; av_stt := vo_stt toy_voice; av_api_key := lk_api_key LiveKitConfig_default;
     av_api_secret := lk_api_secret LiveKitConfig_default |}.
Definition toy_race : Pool :=
  {| po_voice := {| vo_tts := vo_tts toy_voice; vo_stt := vo_stt toy_voice; vo_sessions := {["agent" := racing 0]};
       vo_forwarders := [(0%nat, "agent")]; vo_published := []; vo_left_running := []; vo_next := 2 |};
     po_tasks := <[0%nat := Holding "agent" (racing 0)]> {[1%nat := Entering "agent" (racing 1)]} |}.
Lemma toy_race_reachable :
  rtc (pool_step LiveKitConfig_default) {| po_voice := toy_voice; po_tasks := ∅ |} toy_race.
Proof.
  eapply rtc_l; [apply (step_started _ _ _ 0 "lobby" "agent"); reflexivity|].
  eapply rtc_l; [apply (step_started _ _ _ 1 "lobby" "agent"); reflexivity|].
  eapply rtc_l; [apply (step_missing _ _ _ 0 "lobby" "agent"); reflexivity|].
  eapply rtc_l; [apply (step_missing _ _ _ 1 "lobby" "agent"); reflexivity|].
  eapply rtc_l; [eapply (step_connected _ _ _ _ 0 "lobby" "agent"); reflexivity|].
  eapply rtc_l; [eapply (step_connected _ _ _ _ 1 "lobby" "agent"); reflexivity|].
  eapply rtc_l; [eapply (step_entered _ _ _ _ 0 "agent"); reflexivity|].
  match goal with |- rtc _ ?s _ => replace s with toy_race by reflexivity end. apply rtc_refl.
Qed.

Lemma voice_clients_forwarded_once_witness :
  (∀ s', pool_step LiveKitConfig_default toy_race s' →
     vo_sessions (po_voice s') !! "agent" = Some (racing 0) ∨ vo_sessions (po_voice s') !! "agent" = None) ∧
  length (filter (λ f, f.1 = 0%nat) (vo_forwarders (po_voice toy_race))) = 1%nat.
Proof.
  destruct (voice_clients_forwarded_once LiveKitConfig_default _ _ _ toy_race_reachable) as (H1 & H2 & _ & _).
  split; [intros s' Hs; exact (proj1 (H1 s' Hs) "agent" (racing 0) eq_refl)|].
  apply (H2 "agent" (racing 0)). left. reflexivity.
Defined.

Lemma forwarding_ends_at_lag_witness :
  ∃ got, got `prefix_of` [{| tr_channel_id := "lobby"; tr_speaker_pseudonym := "bob"; tr_text := "hello" |}] ∧
    forward_transcriptions "agent" [Lagged 1] (Manager_new ∅) =
    forward_transcriptions "agent" (Event <$> got) (Manager_new ∅).
Proof.
  destruct (forwarding_ends_at_lag "agent" [{| tr_channel_id := "lobby"; tr_speaker_pseudonym := "bob"; tr_text := "hello" |}]
    [Lagged 1] (Manager_new ∅)) as (got & Hp & Hf & _).
  { apply (delivered_lagged [_] []); [discriminate|apply delivered_nil]. }
  exists got. split; [exact Hp|exact Hf].
Defined.
End witnesses.
