(* ===== verification/Zk.v ===== *)
(** * Zk: crates/annex-identity/src/zk.rs

    Reading snarkjs proofs and verification keys, and the calls into
    arkworks.  Field and curve arithmetic and the Groth16 verifier are a
    parameter ([Ark]). *)

From S2P Require Import Prelude Bytes Identity.

#[local] Open Scope Z_scope.

(** ark_bn254, ark_ec and ark_groth16.  [new_unchecked] makes a point from any
    coordinates. *)
Class Ark `{Poseidon} := {
  Fq : Type;
  fq_from_str : string → option Fq;
  fr_from_str : string → option Fr;
  Fq2 : Type;
  fq2_new : Fq → Fq → Fq2;
  G1Affine : Type;
  g1_new_unchecked : Fq → Fq → G1Affine;
  g1_is_zero : G1Affine → bool;
  g1_is_on_curve : G1Affine → bool;
  g1_in_subgroup : G1Affine → bool;
  g1_generator : G1Affine;
  G2Affine : Type;
  g2_new_unchecked : Fq2 → Fq2 → G2Affine;
  g2_is_zero : G2Affine → bool;
  g2_is_on_curve : G2Affine → bool;
  g2_in_subgroup : G2Affine → bool;
  g2_generator : G2Affine;
}.

Inductive ZkError :=
  | JsonError
  | FieldElementError
  | PointError
  | SnarkError.

(** The JSON of snarkjs. *)
Record SnarkJsProof := {
  pi_a : list string;
  pi_b : list (list string);
  pi_c : list string;
}.
Record SnarkJsVKey := {
  vk_alpha_1 : list string;
  vk_beta_2 : list (list string);
  vk_gamma_2 : list (list string);
  vk_delta_2 : list (list string);
  vk_ic : list (list string);
}.

Section zk.
Context `{HX : HexCrate, PO : Poseidon, AK : !Ark}.

Record Proof := { proof_a : G1Affine; proof_b : G2Affine; proof_c : G1Affine }.
Record VerifyingKey := {
  alpha_g1 : G1Affine;
  beta_g2 : G2Affine;
  gamma_g2 : G2Affine;
  delta_g2 : G2Affine;
  gamma_abc_g1 : list G1Affine;
}.

Definition parse_fr (s : string) : result ZkError Fr := ok_or (fr_from_str s) FieldElementError.

Definition parse_fr_from_hex (hex : string) : result ZkError Fr :=
  bytes ← ok_or (hex_decode hex) FieldElementError;
  Ok (fr_of_bytes bytes).

Definition parse_fq (s : string) : result ZkError Fq := ok_or (fq_from_str s) FieldElementError.

Definition validate_g1 (point : G1Affine) : result ZkError unit :=
  if g1_is_zero point then Ok ()
  else
    _ ← reject_if (negb (g1_is_on_curve point)) PointError;
    reject_if (negb (g1_in_subgroup point)) PointError.

Definition validate_g2 (point : G2Affine) : result ZkError unit :=
  if g2_is_zero point then Ok ()
  else
    _ ← reject_if (negb (g2_is_on_curve point)) PointError;
    reject_if (negb (g2_in_subgroup point)) PointError.

(** [v[i]] after a length check never panics; further entries are ignored. *)
Definition parse_g1 (v : list string) : result ZkError G1Affine :=
  match v with
  | x :: y :: _ =>
      x ← parse_fq x;
      y ← parse_fq y;
      let point := g1_new_unchecked x y in
      _ ← validate_g1 point;
      Ok point
  | _ => Err PointError
  end.

Definition parse_g2 (v : list (list string)) : result ZkError G2Affine :=
  match v with
  | (x_c0 :: x_c1 :: _) :: (y_c0 :: y_c1 :: _) :: _ =>
      x_c0 ← parse_fq x_c0;
      x_c1 ← parse_fq x_c1;
      let x := fq2_new x_c0 x_c1 in
      y_c0 ← parse_fq y_c0;
      y_c1 ← parse_fq y_c1;
      let y := fq2_new y_c0 y_c1 in
      let point := g2_new_unchecked x y in
      _ ← validate_g2 point;
      Ok point
  | _ => Err PointError
  end.

Context (json_proof : string → option SnarkJsProof) (json_vkey : string → option SnarkJsVKey).
Context (json_strings : string → option (list string)).

Definition parse_proof (json : string) : result ZkError Proof :=
  raw ← ok_or (json_proof json) JsonError;
  a ← parse_g1 (pi_a raw);
  b ← parse_g2 (pi_b raw);
  c ← parse_g1 (pi_c raw);
  Ok {| proof_a := a; proof_b := b; proof_c := c |}.

(** A loop with [?] over the elements of a list. *)
Fixpoint parse_all {A B} (f : A → result ZkError B) (l : list A) : result ZkError (list B) :=
  match l with
  | [] => Ok []
  | x :: l => y ← f x; ys ← parse_all f l; Ok (y :: ys)
  end.

Definition parse_verification_key (json : string) : result ZkError VerifyingKey :=
  raw ← ok_or (json_vkey json) JsonError;
  alpha ← parse_g1 (vk_alpha_1 raw);
  beta ← parse_g2 (vk_beta_2 raw);
  gamma ← parse_g2 (vk_gamma_2 raw);
  delta ← parse_g2 (vk_delta_2 raw);
  abc ← parse_all parse_g1 (vk_ic raw);
  Ok {| alpha_g1 := alpha; beta_g2 := beta; gamma_g2 := gamma; delta_g2 := delta; gamma_abc_g1 := abc |}.

Definition parse_public_signals (json : string) : result ZkError (list Fr) :=
  raw ← ok_or (json_strings json) JsonError;
  parse_all parse_fr raw.

(** [groth16] is [Groth16::<Bn254>::verify], [None] being its error. *)
Definition verify_proof (groth16 : VerifyingKey → list Fr → Proof → option bool)
    (vk : VerifyingKey) (proof : Proof) (public_inputs : list Fr) : result ZkError bool :=
  ok_or (groth16 vk public_inputs proof) SnarkError.

(** A key of generators, with room for one public input. *)
Definition generate_dummy_vkey : VerifyingKey :=
  {| alpha_g1 := g1_generator; beta_g2 := g2_generator; gamma_g2 := g2_generator; delta_g2 := g2_generator;
     gamma_abc_g1 := [g1_generator; g1_generator] |}.

(** * Theorems *)

Definition good_g1 (p : G1Affine) : Prop :=
  g1_is_zero p = true ∨ (g1_is_on_curve p = true ∧ g1_in_subgroup p = true).
Definition good_g2 (p : G2Affine) : Prop :=
  g2_is_zero p = true ∨ (g2_is_on_curve p = true ∧ g2_in_subgroup p = true).

Lemma validate_g1_ok p : validate_g1 p = Ok () ↔ good_g1 p.
Proof.
  unfold validate_g1, good_g1, reject_if.
  destruct (g1_is_zero p), (g1_is_on_curve p), (g1_in_subgroup p); cbn; naive_solver.
Qed.

Lemma validate_g2_ok p : validate_g2 p = Ok () ↔ good_g2 p.
Proof.
  unfold validate_g2, good_g2, reject_if.
  destruct (g2_is_zero p), (g2_is_on_curve p), (g2_in_subgroup p); cbn; naive_solver.
Qed.

Lemma parse_g1_good v p : parse_g1 v = Ok p → good_g1 p.
Proof.
  unfold parse_g1. destruct v as [|x [|y v]]; [done..|].
  destruct (parse_fq x) as [fx| |]; cbn; [|done..]. destruct (parse_fq y) as [fy| |]; cbn; [|done..].
  destruct (validate_g1 _) as [[]| |] eqn:E; cbn; [|done..]. intros [= <-]. by apply validate_g1_ok.
Qed.

Lemma parse_g2_good v p : parse_g2 v = Ok p → good_g2 p.
Proof.
  unfold parse_g2. destruct v as [|[|x0 [|x1 xs]] [|[|y0 [|y1 ys]] v]]; [done..|].
  destruct (parse_fq x0) as [a0| |]; cbn; [|done..]. destruct (parse_fq x1) as [a1| |]; cbn; [|done..].
  destruct (parse_fq y0) as [b0| |]; cbn; [|done..]. destruct (parse_fq y1) as [b1| |]; cbn; [|done..].
  destruct (validate_g2 _) as [[]| |] eqn:E; cbn; [|done..]. intros [= <-]. by apply validate_g2_ok.
Qed.

Lemma parse_g1_no_panic v : no_panic (parse_g1 v).
Proof.
  unfold no_panic, parse_g1, parse_fq, validate_g1. destruct v as [|x [|y v]]; [done..|].
  destruct (fq_from_str x), (fq_from_str y); cbn; try done.
  destruct (g1_is_zero _); [done|]. destruct (g1_is_on_curve _); [|done]. by destruct (g1_in_subgroup _).
Qed.

Lemma parse_g2_no_panic v : no_panic (parse_g2 v).
Proof.
  unfold no_panic, parse_g2, parse_fq, validate_g2. destruct v as [|[|x0 [|x1 xs]] [|[|y0 [|y1 ys]] v]]; [done..|].
  destruct (fq_from_str x0), (fq_from_str x1), (fq_from_str y0), (fq_from_str y1); cbn; try done.
  destruct (g2_is_zero _); [done|]. destruct (g2_is_on_curve _); [|done]. by destruct (g2_in_subgroup _).
Qed.

Lemma parse_proof_no_panic json : no_panic (parse_proof json).
Proof.
  unfold no_panic, parse_proof. destruct (json_proof json) as [raw|]; cbn; [|done].
  destruct (parse_g1 (pi_a raw)) as [a|e|] eqn:Ea; cbn; [|done|by apply parse_g1_no_panic in Ea].
  destruct (parse_g2 (pi_b raw)) as [b|e|] eqn:Eb; cbn; [|done|by apply parse_g2_no_panic in Eb].
  by destruct (parse_g1 (pi_c raw)) as [c|e|] eqn:Ec; cbn; [..|apply parse_g1_no_panic in Ec].
Qed.

Lemma parse_all_ok {A B} (f : A → result ZkError B) (P : B → Prop) l ys :
  (∀ x y, f x = Ok y → P y) → parse_all f l = Ok ys → Forall P ys ∧ length ys = length l.
Proof.
  intros Hf. revert ys. induction l as [|x l IH]; intros ys; cbn; [by intros [= <-]|].
  destruct (f x) as [y| |] eqn:Ey; cbn; [|done..]. destruct (parse_all f l) as [ys'| |]; cbn; [|done..].
  destruct (IH ys' eq_refl) as [HF HL]. intros [= <-]. cbn. split; [|lia]. constructor; [by eapply Hf|done].
Qed.

(** No invalid point reaches the verifier: every point of a proof or of a
    verification key that was read from JSON is the point at infinity or is
    on the curve and in the subgroup of prime order, whatever the texts are;
    a verification key has as many points for the public inputs as its IC. *)
Theorem parsed_points_valid json :
  (∀ p, parse_proof json = Ok p → good_g1 (proof_a p) ∧ good_g2 (proof_b p) ∧ good_g1 (proof_c p)) ∧
  (∀ vk, parse_verification_key json = Ok vk →
     good_g1 (alpha_g1 vk) ∧ good_g2 (beta_g2 vk) ∧ good_g2 (gamma_g2 vk) ∧ good_g2 (delta_g2 vk) ∧
     Forall good_g1 (gamma_abc_g1 vk) ∧
     ∃ raw, json_vkey json = Some raw ∧ length (gamma_abc_g1 vk) = length (vk_ic raw)).
Proof.
  split.
  - intros p. unfold parse_proof. destruct (json_proof json) as [raw|]; cbn; [|done].
    destruct (parse_g1 (pi_a raw)) as [a| |] eqn:Ea; cbn; [|done..].
    destruct (parse_g2 (pi_b raw)) as [b| |] eqn:Eb; cbn; [|done..].
    destruct (parse_g1 (pi_c raw)) as [c| |] eqn:Ec; cbn; [|done..]. intros [= <-]. cbn.
    split_and!; [by eapply parse_g1_good|by eapply parse_g2_good|by eapply parse_g1_good].
  - intros vk. unfold parse_verification_key. destruct (json_vkey json) as [raw|]; cbn; [|done].
    destruct (parse_g1 (vk_alpha_1 raw)) as [a| |] eqn:Ea; cbn; [|done..].
    destruct (parse_g2 (vk_beta_2 raw)) as [b| |] eqn:Eb; cbn; [|done..].
    destruct (parse_g2 (vk_gamma_2 raw)) as [c| |] eqn:Ec; cbn; [|done..].
    destruct (parse_g2 (vk_delta_2 raw)) as [d| |] eqn:Ed; cbn; [|done..].
    destruct (parse_all parse_g1 (vk_ic raw)) as [abc| |] eqn:Ei; cbn; [|done..]. intros [= <-]. cbn.
    destruct (parse_all_ok _ _ _ _ parse_g1_good Ei) as [HF HL].
    split_and!; [by eapply parse_g1_good|by eapply parse_g2_good..|done|by exists raw].
Qed.
End zk.

(** ** Witnesses

    Coordinates are lengths, a scalar is read from hex, and every point is on
    the curve. *)

Definition toy_ark : @Ark toy_poseidon :=
  {| Fq := nat; fq_from_str t := Some (String.length t);
     fr_from_str t := @fr_of_bytes toy_poseidon <$> @hex_decode hex_reference t; Fq2 := nat * nat; fq2_new := pair;
     G1Affine := nat * nat; g1_new_unchecked := pair; g1_is_zero _ := false; g1_is_on_curve _ := true;
     g1_in_subgroup _ := true; g1_generator := (1, 2)%nat; G2Affine := (nat * nat) * (nat * nat);
     g2_new_unchecked := pair; g2_is_zero _ := false; g2_is_on_curve _ := true; g2_in_subgroup _ := true;
     g2_generator := ((1, 2), (1, 2))%nat |}.
