(* ===== verification/Federation.v ===== *)
(** * Federation: the endpoints other servers call, and the message relay

    crates/annex-server/src/api_federation.rs (its handshake endpoint is in
    Peers): messages relayed to and received from peers, attestation of remote
    identities, joining federated channels and receiving RTX bundles, on the
    tables of migrations 018 and 030 and those of the other components. *)

From S2P Require Import Prelude Sql Bytes Types Identity Merkle Registry Platform Observe Graph Text.
From S2P Require Import Vrp Channels Connections Handlers Agents Peers Rtx Wire Zk.

#[local] Open Scope Z_scope.

(** ** Data *)

Record FederatedMessageEnvelope := {
  fm_message_id : string;
  fm_channel_id : string;
  fm_content : string;
  fm_sender_pseudonym : string;
  fm_originating_server : string;
  fm_attestation_ref : string;
  fm_signature : string;
  fm_created_at : string;
}.

Record AttestationRequest := {
  at_originating_server : string;
  at_topic : string;
  at_commitment : string;
  at_proof : string;                          (* the JSON value's text *)
  at_participant_type : string;
  at_signature : string;
}.

Record JoinFederatedChannelRequest := {
  jr_originating_server : string;
  jr_pseudonym_id : string;
  jr_signature : string;
}.

(** api.rs: its JSON names are rootHex, leafCount and updatedAt. *)
Record GetRootResponse := {
  gr_root_hex : string;
  gr_leaf_count : N;
  gr_updated_at : option string;
}.

Record FederatedIdentityRow := {
  fi_id : Z;
  fi_server_id : Z;
  fi_remote_instance_id : Z;
  fi_commitment_hex : string;
  fi_pseudonym_id : string;
  fi_vrp_topic : string;
  fi_attested_at : string;
  fi_expires_at : option string;
  fi_metadata_json : option string;
  fi_root_hex_at_verification : option string;
  fi_last_verified_at : option string;
}.

Record FedDb := {
  fed_rtx : RtxDb;
  fed_channels : ChannelDb;
  fed_identities : table FederatedIdentityRow;
  fed_nodes : table GraphNodeRow;
  fed_nullifiers : table NullifierRow;
  fed_commitments : table IdentityRow;
}.
Definition fed_peers (d : FedDb) : PeerDb := rtx_peers (fed_rtx d).
Definition set_fed_rtx (r : RtxDb) (d : FedDb) : FedDb :=
  {| fed_rtx := r; fed_channels := fed_channels d; fed_identities := fed_identities d;
     fed_nodes := fed_nodes d; fed_nullifiers := fed_nullifiers d; fed_commitments := fed_commitments d |}.
Definition set_fed_channels (c : ChannelDb) (d : FedDb) : FedDb :=
  {| fed_rtx := fed_rtx d; fed_channels := c; fed_identities := fed_identities d;
     fed_nodes := fed_nodes d; fed_nullifiers := fed_nullifiers d; fed_commitments := fed_commitments d |}.
Definition set_fed_identities (t : table FederatedIdentityRow) (d : FedDb) : FedDb :=
  {| fed_rtx := fed_rtx d; fed_channels := fed_channels d; fed_identities := t;
     fed_nodes := fed_nodes d; fed_nullifiers := fed_nullifiers d; fed_commitments := fed_commitments d |}.
Definition set_fed_nodes (t : table GraphNodeRow) (d : FedDb) : FedDb :=
  {| fed_rtx := fed_rtx d; fed_channels := fed_channels d; fed_identities := fed_identities d;
     fed_nodes := t; fed_nullifiers := fed_nullifiers d; fed_commitments := fed_commitments d |}.
Definition set_platform (t : table PlatformRow) (c : ChannelDb) : ChannelDb :=
  {| channels := channels c; messages := messages c; message_edits := message_edits c;
     channel_members := channel_members c; servers := servers c; identities := t |}.

(** ** The outside world *)

(** The answer to a GET request; no answer is a network error. *)
Record HttpResponse := { resp_success : bool; resp_body : string }.

(** [body.get(key).and_then(as_str)] on the parsed body; [None] also for a body
    that is no JSON object. *)
Class JsonFields := { str_field : string → string → option string }.

Definition channel_error (e : Channels.ChannelError) : FederationError :=
  match e with NotFound _ => ChannelNotFound | Database _ => ChannelError end.

(** [rsplit_once(':')] with both parts non-empty: commitment, topic. *)
Definition parse_attestation_ref (attestation_ref : string) : result FederationError (string * string) :=
  match rsplit_once ":" attestation_ref with
  | Some (topic, commitment) =>
      if negb (bool_decide (topic = "")) && negb (bool_decide (commitment = ""))
      then Ok (commitment, topic) else Err (Forbidden "Invalid attestation ref format")
  | None => Err (Forbidden "Invalid attestation ref format")
  end.

(** The seven fields of the signature of a relayed message. *)
Definition message_payload (message_id channel_id content sender server attestation_ref created_at : string) :
    string :=
  line message_id (line channel_id (line content (line sender (line server
    (line attestation_ref created_at))))).

Definition is_identity (s remote : Z) (p : string) (r : FederatedIdentityRow) : Prop :=
  fi_server_id r = s ∧ fi_remote_instance_id r = remote ∧ fi_pseudonym_id r = p.
#[export] Instance is_identity_dec s remote p r : Decision (is_identity s remote p r).
Proof. unfold is_identity. apply _. Defined.
Definition attested (remote : Z) (commitment : string) (r : FederatedIdentityRow) : Prop :=
  fi_remote_instance_id r = remote ∧ fi_commitment_hex r = commitment.
#[export] Instance attested_dec remote commitment r : Decision (attested remote commitment r).
Proof. unfold attested. apply _. Defined.
Definition agreed (remote : Z) (a : AgreementRow) : Prop := ag_remote_instance_id a = remote ∧ is_active a.
#[export] Instance agreed_dec remote a : Decision (agreed remote a).
Proof. unfold agreed. apply _. Defined.

Section federation.
Context `{HX : HexCrate, SH : Sha256, PO : Poseidon, AK : !Ark, CK : Clock, ED : Ed25519, JF : JsonFields}.
Context `{ST : Serde ChannelType, SF : Serde FederationScope, SA : Serde AlignmentStatus.t, SP : Serde ServerPolicy}.
Context `{SFM : Serde FederatedMessageEnvelope, SO : Serde OutgoingMessage, SG : Serde GetRootResponse}.
Context `{SL : Serde (list string), SM : Serde RtxMessage, SPV : Serde BundleProvenance}.

Abbreviation query := (on_db (D := FedDb) FedDbError).
Abbreviation FedM := (M (State FedDb) FederationError).

(** ** Who knows which commitment *)

(** The candidates of the fallback: legacy rows whose pseudonym is derived. *)
Definition legacy_candidates (pseudonym : string) (rows : list NullifierRow) : list (string * string) :=
  omap (λ r, match derive_pseudonym_id (nf_topic r) (nf_nullifier_hex r) with
             | Ok p => if decide (p = pseudonym) then Some (nf_topic r, nf_nullifier_hex r) else None
             | _ => None
             end) rows.

Definition legacy_commitment (candidates : list (string * string)) (commitments : list string) :
    option (string * string) :=
  head (candidates ≫= λ '(topic, nullifier),
    omap (λ c, match derive_nullifier_hex c topic with
               | Ok n => if decide (n = nullifier) then Some (c, topic) else None
               | _ => None
               end) commitments).

Definition find_commitment_for_pseudonym (fault : faults) (d : FedDb) (pseudonym : string) :
    result sql_error (option (string * string)) :=
  rows ← read fault 0 (t_select (λ r, nf_pseudonym_id r = Some pseudonym ∧ nf_commitment_hex r ≠ None)
                         (fed_nullifiers d));
  match (rows : list NullifierRow) with
  | r :: _ => Ok (Some (default "" (nf_commitment_hex r), nf_topic r))
  | [] =>
      rows ← read fault 1 (t_select (λ r, nf_pseudonym_id r = None) (fed_nullifiers d));
      match legacy_candidates pseudonym rows with
      | [] => Ok None
      | candidates =>
          commitments ← read fault 2 (id_commitment_hex <$> t_rows (fed_commitments d));
          Ok (legacy_commitment candidates commitments)
      end
  end.

(** ** The relay *)

Definition relay_attestation_ref (fault : faults) (d : FedDb) (sender : string) : string :=
  match find_commitment_for_pseudonym fault d sender with
  | Ok (Some (commitment, topic)) => topic +:+ ":" +:+ commitment
  | _ => "annex:server:v1:unknown"
  end.

Definition relay_envelope (key : signing_key) (pub_url attestation_ref channel_id : string) (m : Message) :
    FederatedMessageEnvelope :=
  {| fm_message_id := m_message_id m; fm_channel_id := channel_id; fm_content := m_content m;
     fm_sender_pseudonym := m_sender_pseudonym m; fm_originating_server := pub_url;
     fm_attestation_ref := attestation_ref;
     fm_signature := hex_encode (sign key (str_bytes (message_payload (m_message_id m) channel_id
       (m_content m) (m_sender_pseudonym m) pub_url attestation_ref (m_created_at m))));
     fm_created_at := m_created_at m |}.

(** A background task: statement 0 reads the peers; one request per peer, in
    no particular order. *)
Definition relay_message (env : Env) (key : signing_key) (pub_url : string) (s : Z) (channel_id : string)
    (m : Message) (d : FedDb) : list effect :=
  match read (fault env) 0 (relay_peers s (fed_peers d)) with
  | Ok peers =>
      let attestation_ref := relay_attestation_ref (λ k, fault env (1 + k)%nat) d (m_sender_pseudonym m) in
      let envelope := relay_envelope key pub_url attestation_ref channel_id m in
      omap (λ '(base_url, transfer_scope),
        if decide (transfer_scope = "NO_TRANSFER") then None
        else Some (Posted (base_url +:+ "/api/federation/messages") (to_json envelope))) peers
  | _ => []
  end.

(** ** What the endpoints check *)

(** The instance, which must be active. *)
Definition active_instance (env : Env) (k : nat) (base_url : string) : FedM InstanceRow :=
  d ← gets db;
  rows ← query env k (lift (Ok (t_select (has_url base_url) (instances (fed_peers d)))));
  match rows with
  | i :: _ => _ ← lift (reject_if (bool_decide (in_status i ≠ "ACTIVE")) (Forbidden "not active")); mret i
  | [] => throw (UnknownRemote base_url)
  end.

Definition require_agreement (env : Env) (k : nat) (remote : Z) : FedM unit :=
  d ← gets db;
  active ← query env k (lift (Ok (t_exists (agreed remote) (agreements (fed_peers d)))));
  lift (reject_if (negb active) (Forbidden "No active federation agreement")).

(** 32 bytes of key and 64 of signature, both in hex. *)
Definition verify_signature (public_key_hex message signature_hex : string) : result FederationError unit :=
  public_key ← ok_or (hex_decode public_key_hex) InvalidSignature;
  signature ← ok_or (hex_decode signature_hex) InvalidSignature;
  _ ← reject_if (bool_decide (length (public_key : list byte) ≠ 32%nat)) InvalidSignature;
  _ ← reject_if (bool_decide (length (signature : list byte) ≠ 64%nat)) InvalidSignature;
  reject_if (negb (ed_verify public_key (str_bytes message) signature)) InvalidSignature.

(** ** POST /api/federation/messages *)

Definition vrp_root_url (server : string) : string := server +:+ "/api/federation/vrp-root".

(** The root the remote reports now; any failure is only logged. *)
Definition current_remote_root (http_get : string → option HttpResponse) (server : string) : option string :=
  resp ← http_get (vrp_root_url server);
  if resp_success resp then str_field (resp_body resp) "root_hex" else None.

Definition stale_check (http_get : string → option HttpResponse) (server root_at_verification : string) :
    result FederationError unit :=
  if decide (root_at_verification = "") then Ok ()
  else match current_remote_root http_get server with
       | Some root => reject_if (bool_decide (root ≠ root_at_verification)) (Forbidden "attestation stale")
       | None => Ok ()
       end.

(** [Ok None] is a message that was already there. *)
Definition insert_received (env : Env) (k : nat) (p : CreateMessageParams) : FedM (option Message) := λ st,
  match create_message (λ j, fault env (k + j)%nat) (now env) p (fed_channels (db st)) with
  | (Ok m, c) => (Ok (Some m), set_db (set_fed_channels c (db st)) st)
  | (Err (Database e), c) =>
      let st' := set_db (set_fed_channels c (db st)) st in
      if is_constraint_violation e then (Ok None, st') else (Err ChannelError, st')
  | (Err e, c) => (Err (channel_error e), set_db (set_fed_channels c (db st)) st)
  | (Panic, c) => (Panic, set_db (set_fed_channels c (db st)) st)
  end.

Definition receive_federated_message_handler (env : Env) (http_get : string → option HttpResponse) (s : Z)
    (e : FederatedMessageEnvelope) : FedM unit :=
  i ← active_instance env 0 (fm_originating_server e);
  require_agreement env 1 (in_id i);;
  lift (verify_signature (in_public_key i)
    (message_payload (fm_message_id e) (fm_channel_id e) (fm_content e) (fm_sender_pseudonym e)
       (fm_originating_server e) (fm_attestation_ref e) (fm_created_at e)) (fm_signature e));;
  ref ← lift (parse_attestation_ref (fm_attestation_ref e));
  d ← gets db;
  rows ← query env 2 (lift (Ok (t_select (attested (in_id i) ref.1) (fed_identities d))));
  identity ← lift (ok_or (head rows) (Forbidden "not attested"));
  lift (stale_check http_get (fm_originating_server e) (default "" (fi_root_hex_at_verification identity)));;
  channel ← lift (map_err channel_error (get_channel (λ j, fault env (3 + j)%nat) (fm_channel_id e) (fed_channels d)));
  _ ← lift (reject_if (bool_decide (c_federation_scope channel ≠ Federated)) (Forbidden "not federated"));
  member ← lift (map_err channel_error
    (Channels.is_member (λ j, fault env (4 + j)%nat) s (fm_channel_id e) (fi_pseudonym_id identity) (fed_channels d)));
  _ ← lift (reject_if (negb member) (Forbidden "not a member"));
  inserted ← insert_received env 5
    {| mp_channel_id := fm_channel_id e; mp_message_id := fm_message_id e;
       mp_sender_pseudonym := fi_pseudonym_id identity; mp_content := fm_content e;
       mp_reply_to := None |};
  match inserted with
  | Some m => perform (WsBroadcast (fm_channel_id e) (to_json (OutMessage (payload_of m))))
  | None => mret ()
  end.

(** ** GET /api/federation/vrp-root and /api/federation/channels *)

Definition get_vrp_root_handler (env : Env) (t : MerkleTree) (d : MerkleDb) : result FederationError GetRootResponse :=
  match root_hex t with
  | Ok hex =>
      rows ← map_err FedDbError (read (fault env) 0 (filter (λ r, rt_root_hex r = hex) (vrp_roots d)));
      Ok {| gr_root_hex := hex; gr_leaf_count := next_index t; gr_updated_at := rt_created_at <$> head rows |}
  | _ => Panic
  end.

Definition get_federated_channels_handler (env : Env) (s : Z) (d : ChannelDb) :
    result FederationError (list Channel) :=
  map_err channel_error (list_federated_channels (fault env) s d).

(** ** POST /api/federation/attest-membership *)

Definition node_type_of_text (participant_type : string) : option NodeType.t :=
  if decide (participant_type = "HUMAN") then Some NodeType.Human
  else if decide (participant_type = "AI_AGENT") then Some NodeType.AiAgent
  else if decide (participant_type = "COLLECTIVE") then Some NodeType.Collective
  else if decide (participant_type = "BRIDGE") then Some NodeType.Bridge
  else if decide (participant_type = "SERVICE") then Some NodeType.Service
  else None.

Definition attestation_payload (topic commitment participant_type : string) : string :=
  line topic (line commitment participant_type).

Definition upsert_federated_identity (now : string) (s remote : Z) (commitment p topic root : string) :
    M FedDb sql_error unit := λ d,
  if negb (t_exists (λ i, in_id i = remote) (instances (fed_peers d))) ||
     bool_decide (servers (fed_channels d) !! s = None)
  then (Err ConstraintForeignKey, d)
  else (Ok (), set_fed_identities (t_upsert (is_identity s remote p)
    (λ r, {| fi_id := fi_id r; fi_server_id := fi_server_id r; fi_remote_instance_id := fi_remote_instance_id r;
             fi_commitment_hex := commitment; fi_pseudonym_id := fi_pseudonym_id r; fi_vrp_topic := topic;
             fi_attested_at := now; fi_expires_at := fi_expires_at r; fi_metadata_json := fi_metadata_json r;
             fi_root_hex_at_verification := Some root; fi_last_verified_at := Some now |})
    (λ id, {| fi_id := id; fi_server_id := s; fi_remote_instance_id := remote;
              fi_commitment_hex := commitment; fi_pseudonym_id := p; fi_vrp_topic := topic;
              fi_attested_at := now; fi_expires_at := None; fi_metadata_json := None;
              fi_root_hex_at_verification := Some root; fi_last_verified_at := Some now |})
    (fed_identities d)) d).

(** A new row has no capabilities; an old one keeps its own. *)
Definition upsert_platform (now : string) (s : Z) (p participant_type : string) : M FedDb sql_error unit := λ d,
  (Ok (), set_fed_channels (set_platform (t_upsert (Platform.is_member s p)
    (λ r, {| pr_id := pr_id r; pr_server_id := pr_server_id r; pr_pseudonym_id := pr_pseudonym_id r;
             pr_participant_type := participant_type; pr_caps := pr_caps r; pr_active := true;
             pr_created_at := pr_created_at r; pr_updated_at := pr_updated_at r |})
    (λ id, {| pr_id := id; pr_server_id := s; pr_pseudonym_id := p; pr_participant_type := participant_type;
              pr_caps := {| can_voice := false; can_moderate := false; can_invite := false;
                            can_federate := false; can_bridge := false |};
              pr_active := true; pr_created_at := now; pr_updated_at := now |})
    (identities (fed_channels d))) (fed_channels d)) d).

Definition graph_error (e : GraphError) : FederationError :=
  match e with
  | GraphDatabaseError e => FedDbError e
  | NodeNotFound _ => FedDbError ToSqlConversionFailure
  end.

Definition ensure_node (env : Env) (k : nat) (s : Z) (p : string) (node_type : NodeType.t) : FedM unit :=
  catch_map graph_error (zoom (fed_nodes ∘ db) (λ t st, set_db (set_fed_nodes t (db st)) st)
    (ensure_graph_node (λ j, fault env (k + j)%nat) (now env) (sql_now (now env)) s p node_type None));;
  mret ().

(** The three writes. *)
Definition persist_attestation (env : Env) (s remote : Z) (r : AttestationRequest) (root p : string)
    (node_type : NodeType.t) : FedM unit :=
  db_transaction FedDbError env 1 5
    (query env 2 (upsert_federated_identity (sql_now (now env)) s remote (at_commitment r) p (at_topic r) root);;
     query env 3 (upsert_platform (sql_now (now env)) s p (at_participant_type r));;
     ensure_node env 4 s p node_type).

(** [groth16] is the verifier of Zk with the membership key. *)
Definition attest_membership_handler (env : Env) (http_get : string → option HttpResponse)
    (json_proof : string → option SnarkJsProof)
    (groth16 : VerifyingKey → list Fr → Proof → option bool) (membership_vkey : VerifyingKey) (s : Z)
    (r : AttestationRequest) : FedM string :=
  d ← gets db;
  rows ← query env 0 (lift (Ok (t_select (has_url (at_originating_server r)) (instances (fed_peers d)))));
  i ← lift (ok_or (head rows) (UnknownRemote (at_originating_server r)));
  lift (verify_signature (in_public_key i)
    (attestation_payload (at_topic r) (at_commitment r) (at_participant_type r)) (at_signature r));;
  resp ← lift (ok_or (http_get (vrp_root_url (at_originating_server r))) Network);
  _ ← lift (reject_if (negb (resp_success resp)) RemoteServer);
  root_response ← lift (ok_or (from_json (resp_body resp)) Network);
  let remote_root_hex := gr_root_hex root_response in
  proof ← lift (map_err (λ _, ZkVerification) (parse_proof json_proof (at_proof r)));
  remote_root_fr ← lift (map_err (λ _, ZkVerification) (parse_fr_from_hex remote_root_hex));
  commitment_fr ← lift (map_err (λ _, ZkVerification) (parse_fr_from_hex (at_commitment r)));
  valid ← lift (map_err (λ _, ZkVerification)
    (verify_proof groth16 membership_vkey proof [remote_root_fr; commitment_fr]));
  _ ← lift (reject_if (negb valid) ZkVerification);
  nullifier_hex ← lift (map_err (λ _, IdentityDerivation) (derive_nullifier_hex (at_commitment r) (at_topic r)));
  pseudonym_id ← lift (map_err (λ _, IdentityDerivation) (derive_pseudonym_id (at_topic r) nullifier_hex));
  node_type ← lift (ok_or (node_type_of_text (at_participant_type r)) ZkVerification);
  persist_attestation env s (in_id i) r remote_root_hex pseudonym_id node_type;;
  mret pseudonym_id.

(** ** POST /api/federation/channels/:channelId/join *)

Definition join_federated_channel_handler (env : Env) (s : Z) (channel_id : string)
    (r : JoinFederatedChannelRequest) : FedM unit :=
  i ← active_instance env 0 (jr_originating_server r);
  require_agreement env 1 (in_id i);;
  lift (verify_signature (in_public_key i) (line channel_id (jr_pseudonym_id r)) (jr_signature r));;
  d ← gets db;
  exists_ ← query env 2 (lift (Ok (t_exists (λ x, fi_remote_instance_id x = in_id i ∧
    fi_pseudonym_id x = jr_pseudonym_id r) (fed_identities d))));
  _ ← lift (reject_if (negb exists_) (Forbidden "not attested"));
  catch_map channel_error (zoom (fed_channels ∘ db) (λ c st, set_db (set_fed_channels c (db st)) st)
    (add_member (λ j, fault env (3 + j)%nat) (sql_now (now env)) s channel_id (jr_pseudonym_id r))).

(** ** POST /api/federation/rtx *)

(** An error of the transaction, or the duplicate that ends it early. *)
Abbreviation TxM := (M (State FedDb) (sql_error + unit)).
Definition duplicate_or_error (e : sql_error) : sql_error + unit :=
  if is_constraint_violation e then inr () else inl e.

Definition in_rtx {E A} (m : M RtxDb E A) : M FedDb E A := zoom fed_rtx set_fed_rtx m.

Definition deliver_received (env : Env) (k : nat) (s : Z) (e : FederatedRtxEnvelope)
    (scoped : ReflectionSummaryBundle) (rows : list (string * string * string)) :
    TxM (list (string * string)) :=
  catch_map (λ _, inr ()) (zoom db set_db (in_rtx
    (deliver env k s (λ b, FederatedBundle b (en_provenance e)) scoped rows))).

(** BEGIN and COMMIT are statements 4 and 8, the deliveries begin at 9. *)
Definition store_received (env : Env) (s : Z) (e : FederatedRtxEnvelope) (scope : VrpTransferScope)
    (scoped : ReflectionSummaryBundle) : TxM (list (string * string)) :=
  let text := sql_now (now env) in
  db_transaction inl env 4 8
    (on_db duplicate_or_error env 5 (in_rtx (insert_bundle text s scoped (Some (en_provenance e))));;
     on_db inl env 6 (in_rtx (log_transfer text s scoped None scope (chain_stripped scoped (en_bundle e))));;
     d ← gets db;
     rows ← on_db inl env 7 (lift (Ok (subscribers s (λ su, su_accept_federated su = true) (fed_rtx d))));
     deliver_received env 9 s e scoped rows).

(** A duplicate is answered like a bundle nobody subscribed to. *)
Definition store_and_deliver (env : Env) (s : Z) (e : FederatedRtxEnvelope) (scope : VrpTransferScope)
    (scoped : ReflectionSummaryBundle) : FedM (list (string * string)) := λ st,
  match store_received env s e scope scoped st with
  | (Ok ds, st') => (Ok ds, st')
  | (Err (inl err), st') => (Err (FedDbError err), st')
  | (Err (inr _), st') => (Ok [], st')
  | (Panic, st') => (Panic, st')
  end.

Definition receive_federated_rtx_handler (env : Env) (local_url : string) (s : Z) (e : FederatedRtxEnvelope) :
    FedM nat :=
  i ← active_instance env 0 (en_relaying_server e);
  _ ← lift (reject_if (negb (bool_decide (local_url = "")) &&
                       bool_decide (local_url ∈ relay_path (en_provenance e)))
              (Forbidden "circular relay detected"));
  d ← gets db;
  origin_known ← query env 1 (lift (Ok (t_exists (has_url (origin_server (en_provenance e)))
                                          (instances (fed_peers d)))));
  _ ← lift (reject_if (negb origin_known) (UnknownRemote (origin_server (en_provenance e))));
  rows ← query env 2 (lift (Ok (t_select (agreed (in_id i)) (agreements (fed_peers d)))));
  a ← lift (ok_or (head rows) (Forbidden "No active federation agreement"));
  agreement_scope ← lift (ok_or (rtx_scope (ag_transfer_scope a)) (Forbidden "scope"));
  lift (verify_signature (in_public_key i)
    (rtx_relay_signing_payload (bundle_id (en_bundle e)) (en_relaying_server e)
       (origin_server (en_provenance e)) (relay_path (en_provenance e))) (en_signature e));;
  lift (map_err (λ _, Forbidden "Invalid bundle structure") (validate_bundle_structure (en_bundle e)));;
  scoped ← lift (map_err (λ _, Forbidden "scope") (enforce_transfer_scope (en_bundle e) agreement_scope));
  deliveries ← store_and_deliver env s e agreement_scope scoped;
  perform_all ((λ '(p, json), WsSent p json) <$> deliveries);;
  mret (length deliveries).
End federation.

(** * Theorems *)

Section theorems.
Context `{HX : HexCrate, SH : Sha256, PO : Poseidon, AK : !Ark, CK : Clock, ED : Ed25519, JF : JsonFields}.
Context `{ST : Serde ChannelType, SF : Serde FederationScope, SA : Serde AlignmentStatus.t, SP : Serde ServerPolicy}.
Context `{SFM : Serde FederatedMessageEnvelope, SO : Serde OutgoingMessage, SG : Serde GetRootResponse}.
Context `{SL : Serde (list string), SM : Serde RtxMessage, SPV : Serde BundleProvenance}.

(** ** Checks *)

Lemma active_instance_reads env k url : reads (active_instance env k url).
Proof.
  unfold active_instance. apply reads_bind; [done|intros d].
  apply reads_bind; [apply on_db_lift_reads|intros rows]. destruct rows as [|i rows]; [done|].
  by apply reads_bind.
Qed.

Lemma require_agreement_reads env k remote : reads (require_agreement env k remote).
Proof.
  unfold require_agreement. apply reads_bind; [done|intros d].
  by apply reads_bind; [apply on_db_lift_reads|].
Qed.

Lemma active_instance_ok env k url st i st' :
  active_instance env k url st = (Ok i, st') →
  st' = st ∧ i ∈ t_rows (instances (fed_peers (db st))) ∧ has_url url i ∧ in_status i = "ACTIVE".
Proof.
  unfold active_instance. intros (d & st1 & [= <- <-] & H)%M_bind_ok.
  apply M_bind_ok in H as (rows & st2 & [-> ->]%on_db_lift_ok & H).
  destruct (t_select (has_url url) (instances (fed_peers (db st)))) as [|j rows] eqn:E; [done|].
  assert (j ∈ t_select (has_url url) (instances (fed_peers (db st)))) as [??]%elem_of_t_select by (rewrite E; left).
  apply M_bind_ok in H as ([] & st3 & H & [= -> <-]). unfold lift, reject_if in H.
  case_bool_decide as Hs; [done|]. injection H as <-. by split_and!.
Qed.

Lemma require_agreement_ok env k remote st st' :
  require_agreement env k remote st = (Ok (), st') →
  st' = st ∧ ∃ a, a ∈ t_rows (agreements (fed_peers (db st))) ∧ agreed remote a.
Proof.
  unfold require_agreement. intros (d & st1 & [= <- <-] & H)%M_bind_ok.
  apply M_bind_ok in H as (b & st2 & [-> ->]%on_db_lift_ok & H).
  unfold lift, reject_if in H. destruct (t_exists _ _) eqn:E; cbn in H; [|done]. injection H as <-.
  split; [done|]. exact (proj1 (t_exists_spec _ _) E).
Qed.

(** The bytes were signed with the key. *)
Definition signed_by (public_key_hex message signature_hex : string) : Prop :=
  ∃ pk sg, hex_decode public_key_hex = Some pk ∧ hex_decode signature_hex = Some sg ∧
    length pk = 32%nat ∧ length sg = 64%nat ∧ ed_verify pk (str_bytes message) sg = true.

Lemma verify_signature_ok pk m sg : verify_signature pk m sg = Ok () ↔ signed_by pk m sg.
Proof.
  unfold verify_signature, signed_by.
  destruct (hex_decode pk) as [p|]; cbn; [|split; [done|by intros (?&?&?&_)]].
  destruct (hex_decode sg) as [g|]; cbn; [|split; [done|by intros (?&?&?&?&_)]].
  unfold reject_if. destruct (bool_decide_reflect (length p ≠ 32%nat)) as [Hp|Hp]; cbn.
  { split; [done|]. intros (?&?&?&?&?&_). naive_solver. }
  destruct (bool_decide_reflect (length g ≠ 64%nat)) as [Hg|Hg]; cbn.
  { split; [done|]. intros (?&?&?&?&?&?&_). naive_solver. }
  apply dec_stable in Hp, Hg. destruct (ed_verify p (str_bytes m) g) eqn:Ev; cbn.
  - split; [|done]. intros _. by exists p, g.
  - split; [done|]. intros (p'&g'&[= <-]&[= <-]&_&_&?). congruence.
Qed.

Lemma set_fed_channels_id d : set_fed_channels (fed_channels d) d = d.
Proof. by destruct d. Qed.

(** ** Messages from peers *)

Lemma create_message_cases fault now p c :
  let '(r, c') := create_message fault now p c in
  ((∀ m, r ≠ Ok m) ∧ c' = c) ∨
  ∃ sid days, r = Ok (message_row now sid days p (t_seq (messages c) + 1)) ∧
    t_exists (message_is (mp_message_id p)) (messages c) = false ∧
    c' = set_messages (t_insert (message_row now sid days p) (messages c)).2 c.
Proof.
  unfold create_message, mbind, M_bind, get, lift, catch_map, exec.
  destruct (resolve_retention_days _ _ _) as [[sid days]|e|]; [|by left..].
  destruct (fault 2%nat); [by left|]. unfold insert_message.
  destruct (t_exists (message_is _) _) eqn:E; [by left|]. destruct (_ || _); [by left|].
  right. by exists sid, days.
Qed.

Lemma insert_received_cases env k p st :
  let '(r, st') := insert_received env k p st in
  ((∀ m, r ≠ Ok (Some m)) ∧ st' = st) ∨
  ∃ m, r = Ok (Some m) ∧ m_message_id m = mp_message_id p ∧ m_channel_id m = mp_channel_id p ∧
    m_sender_pseudonym m = mp_sender_pseudonym p ∧ m_content m = mp_content p ∧
    t_exists (message_is (mp_message_id p)) (messages (fed_channels (db st))) = false ∧
    effects st' = effects st ∧
    ∃ t, db st' = set_fed_channels (set_messages t (fed_channels (db st))) (db st) ∧
      t_rows t = t_rows (messages (fed_channels (db st))) ++ [m].
Proof.
  unfold insert_received.
  pose proof (create_message_cases (λ j, fault env (k + j)%nat) (now env) p (fed_channels (db st))) as HC.
  destruct (create_message _ _ _ _) as [r c]. destruct HC as [[Hr ->]|(sid & days & -> & Hn & ->)].
  - rewrite set_fed_channels_id, set_db_db. destruct r as [m|[e|w]|]; [by destruct (Hr m)|..|by left|by left].
    destruct (is_constraint_violation e); by left.
  - right. eexists. do 7 (split; [done|]). by eexists.
Qed.

(** What every message from a peer has passed. *)
Definition vouched_for (s : Z) (e : FederatedMessageEnvelope) (d : FedDb) (identity : FederatedIdentityRow) : Prop :=
  ∃ i a topic channel_row,
    i ∈ t_rows (instances (fed_peers d)) ∧ has_url (fm_originating_server e) i ∧ in_status i = "ACTIVE" ∧
    a ∈ t_rows (agreements (fed_peers d)) ∧ agreed (in_id i) a ∧
    signed_by (in_public_key i)
      (message_payload (fm_message_id e) (fm_channel_id e) (fm_content e) (fm_sender_pseudonym e)
         (fm_originating_server e) (fm_attestation_ref e) (fm_created_at e)) (fm_signature e) ∧
    parse_attestation_ref (fm_attestation_ref e) = Ok (fi_commitment_hex identity, topic) ∧
    identity ∈ t_rows (fed_identities d) ∧ fi_remote_instance_id identity = in_id i ∧
    channel_row ∈ t_rows (channels (fed_channels d)) ∧ ch_channel_id channel_row = fm_channel_id e ∧
    from_json (ch_federation_scope channel_row) = Some Federated ∧
    Channels.member (fed_channels d) s (fm_channel_id e) (fi_pseudonym_id identity) = true.

Lemma get_channel_ok fault c d ch :
  get_channel fault c d = Ok ch →
  ∃ r, r ∈ t_rows (channels d) ∧ ch_channel_id r = c ∧ map_row_to_channel r = Ok ch.
Proof.
  unfold get_channel, read. destruct (fault 0%nat); cbn; [done|].
  destruct (t_select (channel_is c) (channels d)) as [|r rows] eqn:E; cbn; [done|].
  assert (r ∈ t_select (channel_is c) (channels d)) as [? ?]%elem_of_t_select by (rewrite E; left).
  intros Hch. exists r. do 2 (split; [done|]).
  destruct (map_row_to_channel r) as [ch'|err|]; cbn in Hch; [by injection Hch as ->|by destruct err|done].
Qed.

Lemma channel_scope r ch :
  map_row_to_channel r = Ok ch → from_json (ch_federation_scope r) = Some (c_federation_scope ch).
Proof.
  unfold map_row_to_channel. destruct (from_json (ch_channel_type r)); cbn; [|done].
  destruct (match ch_agent_min_alignment r with Some _ => _ | None => _ end); cbn; [|done..].
  unfold get_u32. destruct (in_u32 _); cbn; [|done].
  destruct (from_json (ch_federation_scope r)); cbn; [|done]. by intros [= <-].
Qed.

(** What the handler has checked when it succeeds, and what is left to do. *)
Lemma received_checks env http_get s e st st' :
  receive_federated_message_handler env http_get s e st = (Ok (), st') →
  ∃ identity, vouched_for s e (db st) identity ∧
    (inserted ← insert_received env 5
       {| mp_channel_id := fm_channel_id e; mp_message_id := fm_message_id e;
          mp_sender_pseudonym := fi_pseudonym_id identity; mp_content := fm_content e;
          mp_reply_to := None |};
     match inserted with
     | Some m => perform (WsBroadcast (fm_channel_id e) (to_json (OutMessage (payload_of m))))
     | None => mret ()
     end) st = (Ok (), st').
Proof.
  intros H.
  unfold receive_federated_message_handler in H.
  apply M_bind_ok in H as (i & st1 & (-> & Hi & Hu & Hact)%active_instance_ok & H).
  apply M_bind_ok in H as ([] & st1 & (-> & a & Ha & Hag)%require_agreement_ok & H).
  apply M_bind_ok in H as ([] & st1 & [Hv%verify_signature_ok ->]%lift_ok & H).
  apply M_bind_ok in H as ([commitment topic] & st1 & [Href ->]%lift_ok & H).
  apply M_bind_ok in H as (d & st1 & [= <- <-] & H).
  apply M_bind_ok in H as (rows & st1 & [-> ->]%on_db_lift_ok & H).
  apply M_bind_ok in H as (identity & st1 & [Hid ->]%lift_ok & H). cbn in Hid.
  destruct (t_select (attested (in_id i) commitment) (fed_identities (db st))) as [|x rows] eqn:E; [done|].
  injection Hid as ->.
  assert (identity ∈ t_select (attested (in_id i) commitment) (fed_identities (db st)))
    as [[Hrem Hcom] Hid]%elem_of_t_select by (rewrite E; left). clear E.
  apply M_bind_ok in H as ([] & st1 & [_ ->]%lift_ok & H).
  apply M_bind_ok in H as (channel & st1 & [Hch ->]%lift_ok & H).
  apply M_bind_ok in H as ([] & st1 & [Hscope%reject_if_ok ->]%lift_ok & H).
  apply M_bind_ok in H as (member & st1 & [Hmem ->]%lift_ok & H).
  apply M_bind_ok in H as ([] & st1 & [Hrej%reject_if_ok ->]%lift_ok & H).
  exists identity. split; [|exact H].
  destruct (get_channel (λ j, fault env (3 + j)%nat) (fm_channel_id e) (fed_channels (db st))) as [ch| |] eqn:Eg; [|done..].
  injection Hch as ->. apply get_channel_ok in Eg as (row & Hrow & Hrid & Hmap).
  exists i, a, topic, row. split_and!; try done.
  - by rewrite Hcom.
  - rewrite (channel_scope _ _ Hmap). apply bool_decide_eq_false, dec_stable in Hscope. by rewrite Hscope.
  - apply negb_false_iff in Hrej. subst member. unfold Channels.is_member, read in Hmem.
    destruct (fault env (4 + 0)%nat); cbn in Hmem; [done|]. by injection Hmem.
Qed.

Lemma receive_message_clean env http_get s e : clean (receive_federated_message_handler env http_get s e).
Proof.
  unfold receive_federated_message_handler.
  repeat (apply clean_bind_reads; [solve [apply active_instance_reads|apply require_agreement_reads
                   |apply on_db_lift_reads|done]|intros ?]).
  apply clean_bind_succeeds; [|intros [m|] st1; by eexists].
  intros st0. match goal with |- context [insert_received ?a ?b ?c st0] =>
    pose proof (insert_received_cases a b c st0) as HC; destruct (insert_received a b c st0) as [r1 st1] end.
  destruct HC as [[_ ->]|(m & -> & _)]; [by right|left; by eexists].
Qed.

(** C3. A message from another server is stored and broadcast at most once,
    and only if it is vouched for: the server is known, active and has an
    active agreement; it signed every field of the message; the commitment
    the message refers to was attested for that server; the channel exists
    and is federated; and the local pseudonym of the attested identity, under
    which the message is stored, is a member of the channel.  In every other
    case, duplicates included, nothing is stored and nothing is sent. *)
Theorem received_message_vouched_for env http_get s e st :
  let '(r, st') := receive_federated_message_handler env http_get s e st in
  (db st' = db st ∧ effects st' = effects st) ∨
  (r = Ok () ∧ ∃ identity m t,
     vouched_for s e (db st) identity ∧
     m_message_id m = fm_message_id e ∧ m_channel_id m = fm_channel_id e ∧
     m_sender_pseudonym m = fi_pseudonym_id identity ∧ m_content m = fm_content e ∧
     (∀ m', m' ∈ t_rows (messages (fed_channels (db st))) → m_message_id m' ≠ fm_message_id e) ∧
     db st' = set_fed_channels (set_messages t (fed_channels (db st))) (db st) ∧
     t_rows t = t_rows (messages (fed_channels (db st))) ++ [m] ∧
     effects st' = effects st ++ [WsBroadcast (fm_channel_id e) (to_json (OutMessage (payload_of m)))]).
Proof.
  pose proof (receive_message_clean env http_get s e st) as Hc.
  destruct (receive_federated_message_handler env http_get s e st) as [r st'] eqn:H.
  cbn in Hc. destruct Hc as [[u ->]| ->]; [|by left]. destruct u.
  apply received_checks in H as (identity & Hv & H).
  apply M_bind_ok in H as (inserted & st1 & Hins & H).
  match type of Hins with insert_received ?a ?b ?c st = _ =>
    pose proof (insert_received_cases a b c st) as HC; rewrite Hins in HC end.
  destruct HC as [[Hr ->]|(m & [= ->] & E1 & E2 & E3 & E4 & Hn & Hef & t & Hdb & Ht)].
  { left. destruct inserted as [m|]; [by destruct (Hr m)|]. by injection H as <-. }
  right. split; [done|]. exists identity, m, t. injection H as <-. cbn.
  split_and!; [exact Hv|done..| |done|done|by rewrite Hef].
  intros m' Hm' E. by apply (proj1 (t_exists_false _ _) Hn m').
Qed.

(** ** Stale attestations *)

Lemma M_bind_ext {S E A B} (m : M S E A) (f g : A → M S E B) st :
  (∀ a st', f a st' = g a st') → (m ≫= f) st = (m ≫= g) st.
Proof. intros H. unfold mbind, M_bind. destruct (m st) as [[a|e|] st']; [apply H|done..]. Qed.

(** The check that an attestation still refers to the current root of the
    remote server has no effect on messages of a peer that runs this very
    code: the check reads the field [root_hex] of the answer, a peer serializes
    [rootHex]; whatever root the peer reports, the handler behaves as if the
    peer had not been reached, which the check ignores. *)
Theorem stale_root_goes_unnoticed env http_get s e (root : GetRootResponse) st :
  (∀ (r : GetRootResponse) key, key ∉ ["rootHex"; "leafCount"; "updatedAt"] → str_field (to_json r) key = None) →
  http_get (vrp_root_url (fm_originating_server e)) = Some {| resp_success := true; resp_body := to_json root |} →
  receive_federated_message_handler env http_get s e st =
  receive_federated_message_handler env (λ _, None) s e st.
Proof.
  intros Hjson Hget.
  assert (∀ r, stale_check http_get (fm_originating_server e) r = stale_check (λ _, None) (fm_originating_server e) r)
    as Hstale.
  { intros r. unfold stale_check, current_remote_root. rewrite Hget.
    cbn [mbind option_bind resp_success resp_body].
    rewrite Hjson; [done|]. set_solver. }
  unfold receive_federated_message_handler. do 7 (apply M_bind_ext; intros ? ?).
  by rewrite Hstale.
Qed.

(** ** The relay *)

(** What the relay posts is what the receiving endpoint accepts: it goes
    to the active instances that have an active agreement with this server
    permitting a transfer, and to no other; the signature on it passes the
    endpoint's check under this server's public key; the fields are the
    message's; and if the author's commitment is known, the reference parses
    back into this commitment and its topic. *)
Theorem relayed_message_verifies `{!HexLaws HX, !Ed25519Laws ED, !SerdeLaws FederatedMessageEnvelope}
    env key pub_url s channel_id m d url body :
  Posted url body ∈ relay_message env key pub_url s channel_id m d →
  ∃ a i e,
    a ∈ t_rows (agreements (fed_peers d)) ∧ is_active a ∧ ag_local_server_id a = s ∧
    ag_transfer_scope a ≠ "NO_TRANSFER" ∧
    i ∈ t_rows (instances (fed_peers d)) ∧ in_id i = ag_remote_instance_id a ∧ in_status i = "ACTIVE" ∧
    url = in_base_url i +:+ "/api/federation/messages" ∧ from_json body = Some e ∧
    fm_message_id e = m_message_id m ∧ fm_channel_id e = channel_id ∧ fm_content e = m_content m ∧
    fm_sender_pseudonym e = m_sender_pseudonym m ∧ fm_originating_server e = pub_url ∧
    verify_signature (hex_encode (ed_public key))
      (message_payload (fm_message_id e) (fm_channel_id e) (fm_content e) (fm_sender_pseudonym e)
         (fm_originating_server e) (fm_attestation_ref e) (fm_created_at e)) (fm_signature e) = Ok () ∧
    ∀ commitment topic,
      find_commitment_for_pseudonym (λ k, fault env (1 + k)%nat) d (m_sender_pseudonym m) = Ok (Some (commitment, topic)) →
      lacks ":" commitment → commitment ≠ "" → topic ≠ "" →
      parse_attestation_ref (fm_attestation_ref e) = Ok (commitment, topic).
Proof.
  unfold relay_message. destruct (read _ _ _) as [peers| |] eqn:Ep; [|by intros ?%not_elem_of_nil..].
  intros ([base sc] & Hp & Hx)%list_elem_of_omap. unfold read in Ep. destruct (fault env 0%nat); [done|].
  injection Ep as <-. destruct (decide (sc = "NO_TRANSFER")) as [|Hsc]; [done|]. injection Hx as <- <-.
  unfold relay_peers in Hp. apply list_elem_of_fmap in Hp as ([a i] & [= -> ->] & Hp).
  apply list_elem_of_filter in Hp as [[Hs Hact] (Ha & Hacta & Hi & Hid)%elem_of_active_with_instance]. cbn in Hs, Hact.
  exists a, i. eexists. do 8 (split; [done|]). split; [by rewrite from_json_to_json|]. do 5 (split; [done|]). split.
  - apply verify_signature_ok. cbn. eexists _, _. rewrite !hex_decode_encode.
    split_and!; [done..|apply ed_public_length|apply sign_length|apply ed_verify_sign].
  - intros commitment topic Hf Hl Hc Ht. cbn [fm_attestation_ref relay_envelope]. unfold relay_attestation_ref.
    cbn [Nat.add] in Hf. rewrite Hf. unfold parse_attestation_ref.
    change (topic +:+ ":" +:+ commitment) with (topic +:+ String ":" commitment).
    rewrite rsplit_once_app by done. by rewrite !bool_decide_eq_false_2.
Qed.

Lemma line_assoc a b c : line a (line b c) = line (line a b) c.
Proof.
  unfold line. induction a as [|x a IH]; [done|].
  change (String x (a +:+ String newline (b +:+ String newline c)) = String x ((a +:+ String newline b) +:+ String newline c)).
  by rewrite IH.
Qed.

(** The signed text of a relayed message determines all seven fields,
    the content included, as long as the other six contain no newline; the
    content itself may be any text. *)
Theorem message_payload_determines_fields id1 ch1 c1 p1 s1 r1 t1 id2 ch2 c2 p2 s2 r2 t2 :
  Forall (lacks newline) [id1; ch1; p1; s1; r1; t1] → Forall (lacks newline) [id2; ch2; p2; s2; r2; t2] →
  message_payload id1 ch1 c1 p1 s1 r1 t1 = message_payload id2 ch2 c2 p2 s2 r2 t2 →
  id1 = id2 ∧ ch1 = ch2 ∧ c1 = c2 ∧ p1 = p2 ∧ s1 = s2 ∧ r1 = r2 ∧ t1 = t2.
Proof.
  intros H1 H2 E. unfold message_payload in E.
  repeat (apply Forall_cons in H1 as [? H1]). repeat (apply Forall_cons in H2 as [? H2]).
  unfold line at 1 7 in E. apply delimited_inj in E as [-> E]; [|done..].
  unfold line at 1 6 in E. apply delimited_inj in E as [-> E]; [|done..].
  rewrite !line_assoc in E. unfold line at 1 5 in E. apply delimited_inj_r in E as [E ->]; [|done..].
  unfold line at 1 4 in E. apply delimited_inj_r in E as [E ->]; [|done..].
  unfold line at 1 3 in E. apply delimited_inj_r in E as [E ->]; [|done..].
  unfold line in E. apply delimited_inj_r in E as [-> ->]; [|done..]. done.
Qed.

(** ** Bundles from peers *)

Definition federated_deliveries (s : Z) (e : FederatedRtxEnvelope) (scoped : ReflectionSummaryBundle) (d : RtxDb) :
    list (string * string) :=
  deliveries_of (λ b, FederatedBundle b (en_provenance e)) scoped
    (subscribers s (λ su, su_accept_federated su = true) d).

Lemma on_db_log_transfer code env k now s b dst sc str (st : State FedDb) :
  let '(r, st') := on_db (E := sql_error + unit) code env k (in_rtx (log_transfer now s b dst sc str)) st in
  (r = Ok () ∧ ∃ t, st' = set_db (set_fed_rtx (set_transfer_log t (fed_rtx (db st))) (db st)) st) ∨ ∃ e d, r = Err e ∧ st' = set_db d st.
Proof.
  unfold on_db, exec, in_rtx, zoom, catch_map, log_transfer. destruct (fault env k); cbn; [right; by eexists _, _|].
  case_bool_decide; cbn; [right; by eexists _, _|]. left. by eauto.
Qed.

Lemma store_received_cases env s e scope scoped st :
  let '(r, st') := store_received env s e scope scoped st in
  (st' = st ∧ ∃ err, r = Err err) ∨
  ∃ b t, r = Ok (federated_deliveries s e scoped (fed_rtx (db st))) ∧
    insert_bundle (sql_now (now env)) s scoped (Some (en_provenance e)) (fed_rtx (db st)) =
      (Ok (), set_bundles b (fed_rtx (db st))) ∧
    st' = set_db (set_fed_rtx (set_transfer_log t (set_bundles b (fed_rtx (db st)))) (db st)) st.
Proof.
  unfold store_received, db_transaction. destruct st as [d es]. unfold mbind, M_bind.
  unfold on_db at 1, exec, zoom, catch_map. destruct (fault env 4%nat); [left; split; [done|by eexists]|].
  unfold on_db at 1, exec at 1, zoom at 1, catch_map at 1. cbn.
  destruct (fault env 5%nat); [left; split; [done|by eexists]|].
  unfold in_rtx at 1, zoom at 1.
  destruct (insert_bundle_cases (sql_now (now env)) s scoped (Some (en_provenance e)) (fed_rtx d))
    as [(err & Hi & _)|(b & Hi & _)]; rewrite Hi; cbn; [left; split; [done|by eexists]|].
  match goal with |- context [on_db ?c ?ev 6 (in_rtx (log_transfer ?a1 ?a2 ?a3 ?a4 ?a5 ?a6)) ?x] =>
    pose proof (on_db_log_transfer c ev 6 a1 a2 a3 a4 a5 a6 x) as Hl;
    destruct (on_db c ev 6 (in_rtx (log_transfer a1 a2 a3 a4 a5 a6)) x) as [r1 st1] end.
  destruct Hl as [[-> (t & ->)]|(err & d1 & -> & ->)]; [|left; split; [done|by eexists]].
  unfold gets. rewrite on_db_lift. destruct (fault env 7%nat); [left; split; [done|by eexists]|].
  cbn. unfold deliver_received, in_rtx, zoom, catch_map. cbn.
  match goal with |- context [deliver ?a1 ?a2 ?a3 ?a4 ?a5 ?a6 ?a7] =>
    destruct (deliver_ok a1 a2 a3 a4 a5 a6 a7) as (t2 & ->) end. cbn.
  unfold on_db, exec, zoom, catch_map. destruct (fault env 8%nat); [left; split; [done|by eexists]|].
  right. exists b, t2. done.
Qed.

Lemma insert_bundle_new now s b pv d t id :
  insert_bundle now s b pv d = (Ok (), set_bundles t d) → bundle_id b = id →
  t_exists (λ x, bu_bundle_id x = id) (rtx_bundles d) = false ∧
  t_exists (λ x, bu_bundle_id x = id) t = true.
Proof.
  intros H <-. revert H. unfold insert_bundle. destruct (t_exists _ _) eqn:E; [done|]. case_bool_decide; [done|].
  intros [= <-]. split; [done|]. apply t_exists_spec. eexists. split; [apply elem_of_app; right; left|done].
Qed.

Lemma enforce_scope_ok b text scope scoped :
  rtx_scope text = Some scope → enforce_transfer_scope b scope = Ok scoped →
  (text = "FULL_KNOWLEDGE_BUNDLE" ∧ scoped = b) ∨ (text = "REFLECTION_SUMMARIES_ONLY" ∧ scoped = without_chain b).
Proof.
  intros Hs He. destruct (rtx_scope_cases _ _ Hs) as [[? ->]|[? ->]]; [left|right]; (split; [done|]); by injection He.
Qed.

(** What the handler has checked when it gets to store the bundle. *)
Definition accepted_from (local_url : string) (e : FederatedRtxEnvelope) (d : FedDb) (i : InstanceRow)
    (a : AgreementRow) (scoped : ReflectionSummaryBundle) : Prop :=
  i ∈ t_rows (instances (fed_peers d)) ∧ has_url (en_relaying_server e) i ∧ in_status i = "ACTIVE" ∧
  a ∈ t_rows (agreements (fed_peers d)) ∧ agreed (in_id i) a ∧
  (local_url = "" ∨ local_url ∉ relay_path (en_provenance e)) ∧
  signed_by (in_public_key i)
    (rtx_relay_signing_payload (bundle_id (en_bundle e)) (en_relaying_server e)
       (origin_server (en_provenance e)) (relay_path (en_provenance e))) (en_signature e) ∧
  ((ag_transfer_scope a = "FULL_KNOWLEDGE_BUNDLE" ∧ scoped = en_bundle e) ∨
   (ag_transfer_scope a = "REFLECTION_SUMMARIES_ONLY" ∧ scoped = without_chain (en_bundle e))).

Lemma federated_rtx_checks env local_url s e st r st' :
  receive_federated_rtx_handler env local_url s e st = (r, st') →
  st' = st ∨
  ∃ i a sc scoped, accepted_from local_url e (db st) i a scoped ∧
    (deliveries ← store_and_deliver env s e sc scoped;
     perform_all ((λ '(p, json), WsSent p json) <$> deliveries);;
     mret (length deliveries)) st = (r, st').
Proof.
  intros H.
  unfold receive_federated_rtx_handler in H.
  apply M_bind_reads_cases in H as [[_ ->]|(i & Hi0 & H)]; [by left| |apply active_instance_reads].
  apply active_instance_ok in Hi0 as (_ & Hi & Hu & Hact).
  apply M_bind_reads_cases in H as [[_ ->]|([] & Hloop & H)]; [by left| |done].
  apply M_bind_reads_cases in H as [[_ ->]|(d & Hd & H)]; [by left| |done]. injection Hd as <-.
  apply M_bind_reads_cases in H as [[_ ->]|(known & _ & H)]; [by left| |apply on_db_lift_reads].
  apply M_bind_reads_cases in H as [[_ ->]|([] & _ & H)]; [by left| |done].
  apply M_bind_reads_cases in H as [[_ ->]|(rows & Hrows & H)]; [by left| |apply on_db_lift_reads].
  apply on_db_lift_ok in Hrows as [-> _].
  apply M_bind_reads_cases in H as [[_ ->]|(a & Ha & H)]; [by left| |done].
  apply M_bind_reads_cases in H as [[_ ->]|(sc & Hsc & H)]; [by left| |done].
  apply M_bind_reads_cases in H as [[_ ->]|([] & Hv & H)]; [by left| |done].
  apply M_bind_reads_cases in H as [[_ ->]|([] & _ & H)]; [by left| |done].
  apply M_bind_reads_cases in H as [[_ ->]|(scoped & Hscoped & H)]; [by left| |done].
  destruct (t_select (agreed (in_id i)) (agreements (fed_peers (db st)))) as [|a' rows] eqn:E; [done|].
  injection Ha as <-.
  assert (a' ∈ t_select (agreed (in_id i)) (agreements (fed_peers (db st)))) as [Hag Ha]%elem_of_t_select
    by (rewrite E; left). clear E.
  apply lift_ok in Hsc as [Hsc%ok_or_ok _], Hscoped as [Hscoped%map_err_ok _], Hv as [Hv%verify_signature_ok _].
  right. exists i, a', sc, scoped. split; [|exact H]. do 5 (split; [done|]). split.
  { apply lift_ok in Hloop as [Hloop%reject_if_ok _]. apply andb_false_iff in Hloop as [Hl|Hl].
    - left. apply negb_false_iff, bool_decide_eq_true in Hl. done.
    - right. by apply bool_decide_eq_false in Hl. }
  split; [done|]. by eapply enforce_scope_ok.
Qed.

(** C18. A bundle from a peer is stored and delivered at most once, and within
    three scopes.  Nothing changes and nothing is sent unless the relaying
    server is known, active, has an active agreement and signed the relay,
    this server is not on the relay's path and the bundle is new; then it is
    sent only to active agents that accept federated bundles and whose filter
    matches, and with its reasoning chain only if the agreement and the
    receiver's scope are both FULL_KNOWLEDGE_BUNDLE. *)
Theorem federated_bundle_within_scopes env local_url s e st :
  let '(r, st') := receive_federated_rtx_handler env local_url s e st in
  (db st' = db st ∧ effects st' = effects st) ∨
  ∃ i a new,
    i ∈ t_rows (instances (fed_peers (db st))) ∧ has_url (en_relaying_server e) i ∧ in_status i = "ACTIVE" ∧
    a ∈ t_rows (agreements (fed_peers (db st))) ∧ agreed (in_id i) a ∧
    (local_url = "" ∨ local_url ∉ relay_path (en_provenance e)) ∧
    signed_by (in_public_key i)
      (rtx_relay_signing_payload (bundle_id (en_bundle e)) (en_relaying_server e)
         (origin_server (en_provenance e)) (relay_path (en_provenance e))) (en_signature e) ∧
    t_exists (λ b, bu_bundle_id b = bundle_id (en_bundle e)) (rtx_bundles (fed_rtx (db st))) = false ∧
    t_exists (λ b, bu_bundle_id b = bundle_id (en_bundle e)) (rtx_bundles (fed_rtx (db st'))) = true ∧
    r = Ok (length new) ∧ effects st' = effects st ++ new ∧
    ∀ x, x ∈ new → ∃ q receiver su (filters : list string) b,
      x = WsSent q (to_json (FederatedBundle b (en_provenance e))) ∧
      receiver ∈ t_rows (rtx_agents (fed_rtx (db st))) ∧ is_active_registration s q receiver ∧
      su ∈ t_rows (rtx_subscriptions (fed_rtx (db st))) ∧ subscription_of s q su ∧ su_accept_federated su = true ∧
      from_json (su_domain_filters_json su) = Some filters ∧
      (filters = [] ∨ ∃ tag, tag ∈ domain_tags (en_bundle e) ∧ tag ∈ filters) ∧
      without_chain b = without_chain (en_bundle e) ∧
      (reasoning_chain b ≠ None → b = en_bundle e ∧ ag_transfer_scope a = "FULL_KNOWLEDGE_BUNDLE" ∧
         ar_transfer_scope receiver = "FULL_KNOWLEDGE_BUNDLE").
Proof.
  destruct (receive_federated_rtx_handler env local_url s e st) as [r st'] eqn:H.
  apply federated_rtx_checks in H as [->|(i & a & sc & scoped & (Hi & Hu & Hact & Ha & Hag & Hloop & Hv & Hcut) & H)];
    [by left|].
  unfold store_and_deliver, mbind, M_bind in H. pose proof (store_received_cases env s e sc scoped st) as HC.
  destruct (store_received env s e sc scoped st) as [r1 st1].
  destruct HC as [[-> ([err|[]] & ->)]|(b & t & -> & Hb & ->)].
  { injection H as <- <-. by left. }
  { injection H as <- <-. left. by rewrite app_nil_r. }
  cbn in H. injection H as <- <-. right.
  assert (bundle_id scoped = bundle_id (en_bundle e) ∧ domain_tags scoped = domain_tags (en_bundle e)) as [Eid Etag]
    by (by destruct Hcut as [[_ ->]|[_ ->]]).
  eexists i, a, _. do 7 (split; [done|]).
  destruct (insert_bundle_new _ _ _ _ _ _ _ Hb Eid) as [Hnew Hin].
  do 2 (split; [done|]). split; [unfold mret, M_ret; f_equal; symmetry; apply length_fmap|]. split; [done|].
  intros x Hx. apply list_elem_of_fmap in Hx as ([q j] & -> & Hq).
  apply list_elem_of_omap in Hq as ([[q' fj] rsc] & Hsub & Hq).
  destruct (receive_as scoped fj rsc) as [[sc' b']|] eqn:Er; cbn in Hq; [|done]. injection Hq as -> <-.
  apply elem_of_subscribers in Hsub as (su & rc & Hsu & Hof & Hacc & <- & Hrc & Hrreg & <-).
  destruct (receive_as_ok _ _ _ _ _ Er) as [(filters & Hf & Hm) Hrs]. rewrite Etag in Hm.
  exists q, rc, su, filters, b'. split_and!; try done.
  - destruct Hrs as [[_ ->]|[_ ->]], Hcut as [[_ ->]|[_ ->]]; done.
  - destruct Hrs as [[? ->]|[_ ->]]; [|done]. destruct Hcut as [[? ->]|[_ ->]]; done.
Qed.

(** ** Attestation *)

Lemma elem_of_t_upsert_new {R} (P : R → Prop) `{!∀ r, Decision (P r)} f mk (t : table R) (Q : R → Prop) :
  (∀ r, r ∈ t_rows t → P r → Q (f r)) → ((∀ r, r ∈ t_rows t → ¬ P r) → ∀ i, Q (mk i)) →
  ∃ r, r ∈ t_rows (t_upsert P f mk t) ∧ Q r.
Proof.
  intros Hf Hmk. unfold t_upsert. destruct (t_exists P t) eqn:E.
  - apply t_exists_spec in E as (r0 & Hr0 & HP). exists (f r0). split; [|by apply Hf].
    apply elem_of_t_update. exists r0. auto.
  - exists (mk (t_seq t + 1)). split; [apply elem_of_t_insert; by right|]. apply Hmk.
    by apply (proj1 (t_exists_false _ _)).
Qed.

(** What an attestation writes. *)
Definition attests (s remote : Z) (r : AttestationRequest) (root p : string) (d d' : FedDb) : Prop :=
  (∃ row, row ∈ t_rows (fed_identities d') ∧ is_identity s remote p row ∧
     fi_commitment_hex row = at_commitment r ∧ fi_vrp_topic row = at_topic r ∧
     fi_root_hex_at_verification row = Some root) ∧
  (∃ row, row ∈ t_rows (identities (fed_channels d')) ∧ Platform.is_member s p row ∧ pr_active row = true ∧
     pr_participant_type row = at_participant_type r ∧
     ((∀ old, old ∈ t_rows (identities (fed_channels d)) → ¬ Platform.is_member s p old) →
        can_voice (pr_caps row) = false ∧ can_moderate (pr_caps row) = false ∧ can_invite (pr_caps row) = false ∧
        can_federate (pr_caps row) = false ∧ can_bridge (pr_caps row) = false)) ∧
  (∃ row, row ∈ t_rows (fed_nodes d') ∧ is_node s p row ∧ gn_active row = true) ∧
  fed_rtx d' = fed_rtx d ∧ fed_nullifiers d' = fed_nullifiers d ∧ fed_commitments d' = fed_commitments d ∧
  messages (fed_channels d') = messages (fed_channels d) ∧
  channel_members (fed_channels d') = channel_members (fed_channels d).

Lemma ensure_node_quiet env k s p node_type : quiet (ensure_node env k s p node_type).
Proof.
  unfold ensure_node. apply quiet_bind; [|by intros _].
  intros st. unfold catch_map, zoom. by destruct (ensure_graph_node _ _ _ _ _ _ _ _).
Qed.

Lemma upsert_node_ok now created s p ty metadata t row t' :
  upsert_node now created s p ty metadata t = (Ok row, t') →
  ∃ r, r ∈ t_rows t' ∧ is_node s p r ∧ gn_active r = true.
Proof.
  unfold upsert_node. destruct (t_exists (is_node s p) t) eqn:E.
  - apply t_exists_spec in E as (r0 & Hr0 & HP). destruct (t_update _ _ t) as [n t1] eqn:Eu.
    intros [= _ <-]. apply (f_equal snd) in Eu. cbn [snd] in Eu. rewrite <- Eu.
    eexists. split; [apply elem_of_t_update; exists r0; split; [done|by left]|done].
  - cbn. intros [= _ <-]. eexists. split; [apply elem_of_app; right; left|done].
Qed.

Lemma ensure_node_ok env k s p node_type st st' :
  ensure_node env k s p node_type st = (Ok (), st') →
  ∃ t, (∃ r, r ∈ t_rows t ∧ is_node s p r ∧ gn_active r = true) ∧ st' = set_db (set_fed_nodes t (db st)) st.
Proof.
  unfold ensure_node. intros (a & st1 & H & [= <-])%M_bind_ok. unfold catch_map, zoom in H. cbn in H.
  unfold ensure_graph_node, catch_map, exec, lift, mbind, M_bind in H.
  destruct (fault env (k + 0)%nat); cbn in H; [done|].
  destruct (upsert_node _ _ _ _ _ _ _) as [[row|e|] t] eqn:E; cbn in H; [|done..].
  exists t. split; [by eapply upsert_node_ok|]. by injection H.
Qed.

Lemma persist_attestation_cases env s remote r root p node_type st :
  let '(o, st') := persist_attestation env s remote r root p node_type st in
  (is_ok o = false ∧ st' = st) ∨
  (o = Ok () ∧ effects st' = effects st ∧ attests s remote r root p (db st) (db st')).
Proof.
  destruct (persist_attestation env s remote r root p node_type st) as [o st'] eqn:H.
  unfold persist_attestation in H. destruct (is_ok o) eqn:Eo; cycle 1.
  { left. split; [done|]. pose proof (db_transaction_fails FedDbError env 1 5
      (on_db FedDbError env 2 (upsert_federated_identity (sql_now (now env)) s remote (at_commitment r) p (at_topic r) root);;
       on_db FedDbError env 3 (upsert_platform (sql_now (now env)) s p (at_participant_type r));;
       ensure_node env 4 s p node_type) st) as Hf. rewrite H in Hf. apply Hf; [|done].
    apply quiet_bind; [apply quiet_on_db|intros _]. apply quiet_bind; [apply quiet_on_db|intros _].
    apply ensure_node_quiet. }
  right. apply is_ok_spec in Eo as ([] & ->). split; [done|].
  apply db_transaction_ok in H as (_ & _ & H).
  apply M_bind_ok in H as ([] & st1 & (_ & d1 & H1 & ->)%on_db_ok & H).
  apply M_bind_ok in H as ([] & st2 & (_ & d2 & H2 & ->)%on_db_ok & H).
  apply ensure_node_ok in H as (t & Hnode & ->).
  injection H2 as <-. unfold upsert_federated_identity in H1. destruct (_ || _); [done|]. injection H1 as <-.
  split; [done|]. split; [|split; [|by split_and!]].
  - apply elem_of_t_upsert_new; [|done]. by intros x _ (<- & <- & <-).
  - apply elem_of_t_upsert_new.
    + intros x Hx Hm. split_and!; [by destruct Hm|done..|]. intros Hno. by apply Hno in Hx.
    + intros _ i. by split_and!.
Qed.

(** What has been checked before an attestation is written. *)
Definition attestation_proved (http_get : string → option HttpResponse) (json_proof : string → option SnarkJsProof)
    (groth16 : VerifyingKey → list Fr → Proof → option bool) (membership_vkey : VerifyingKey)
    (r : AttestationRequest) (d : FedDb) (i : InstanceRow) (root : GetRootResponse) (p : string) : Prop :=
  ∃ resp proof root_fr commitment_fr nullifier,
    i ∈ t_rows (instances (fed_peers d)) ∧ has_url (at_originating_server r) i ∧
    signed_by (in_public_key i)
      (attestation_payload (at_topic r) (at_commitment r) (at_participant_type r)) (at_signature r) ∧
    http_get (vrp_root_url (at_originating_server r)) = Some resp ∧ resp_success resp = true ∧
    from_json (resp_body resp) = Some root ∧
    parse_proof json_proof (at_proof r) = Ok proof ∧
    parse_fr_from_hex (gr_root_hex root) = Ok root_fr ∧ parse_fr_from_hex (at_commitment r) = Ok commitment_fr ∧
    verify_proof groth16 membership_vkey proof [root_fr; commitment_fr] = Ok true ∧
    derive_nullifier_hex (at_commitment r) (at_topic r) = Ok nullifier ∧
    derive_pseudonym_id (at_topic r) nullifier = Ok p ∧ is_Some (node_type_of_text (at_participant_type r)).

Lemma attest_checks env http_get json_proof groth16 membership_vkey s r st :
  let '(o, st') := attest_membership_handler env http_get json_proof groth16 membership_vkey s r st in
  (is_ok o = false ∧ st' = st) ∨
  ∃ i root p ty, attestation_proved http_get json_proof groth16 membership_vkey r (db st) i root p ∧
    (persist_attestation env s (in_id i) r (gr_root_hex root) p ty;; mret p) st = (o, st').
Proof.
  destruct (attest_membership_handler env http_get json_proof groth16 membership_vkey s r st) as [o st'] eqn:H.
  unfold attest_membership_handler in H.
  apply M_bind_reads_cases in H as [?|(d & Hd & H)]; [by left| |done]. injection Hd as <-.
  apply M_bind_reads_cases in H as [?|(rows & Hrows & H)]; [by left| |apply on_db_lift_reads].
  apply on_db_lift_ok in Hrows as [-> _].
  apply M_bind_reads_cases in H as [?|(i & Hi & H)]; [by left| |done].
  apply M_bind_reads_cases in H as [?|([] & Hv & H)]; [by left| |done].
  apply M_bind_reads_cases in H as [?|(resp & Hget & H)]; [by left| |done].
  apply M_bind_reads_cases in H as [?|([] & Hok & H)]; [by left| |done].
  apply M_bind_reads_cases in H as [?|(root & Hroot & H)]; [by left| |done].
  apply M_bind_reads_cases in H as [?|(proof & Hproof & H)]; [by left| |done].
  apply M_bind_reads_cases in H as [?|(root_fr & Hfr & H)]; [by left| |done].
  apply M_bind_reads_cases in H as [?|(commitment_fr & Hcfr & H)]; [by left| |done].
  apply M_bind_reads_cases in H as [?|(valid & Hvalid & H)]; [by left| |done].
  apply M_bind_reads_cases in H as [?|([] & Hyes & H)]; [by left| |done].
  apply M_bind_reads_cases in H as [?|(nullifier & Hn & H)]; [by left| |done].
  apply M_bind_reads_cases in H as [?|(p & Hp & H)]; [by left| |done].
  apply M_bind_reads_cases in H as [?|(ty & Hty & H)]; [by left| |done].
  right. exists i, root, p, ty. split; [|exact H]. exists resp, proof, root_fr, commitment_fr, nullifier.
  apply lift_ok in Hi as [Hi _], Hv as [Hv%verify_signature_ok _], Hget as [Hget%ok_or_ok _],
    Hok as [Hok%reject_if_ok%negb_false_iff _], Hroot as [Hroot%ok_or_ok _], Hproof as [Hproof%map_err_ok _],
    Hfr as [Hfr%map_err_ok _], Hcfr as [Hcfr%map_err_ok _], Hvalid as [Hvalid%map_err_ok _],
    Hyes as [Hyes%reject_if_ok%negb_false_iff _], Hn as [Hn%map_err_ok _], Hp as [Hp%map_err_ok _],
    Hty as [Hty%ok_or_ok _]. subst valid.
  destruct (t_select (has_url (at_originating_server r)) (instances (fed_peers (db st)))) as [|x rows] eqn:E; [done|].
  injection Hi as ->.
  assert (i ∈ t_select (has_url (at_originating_server r)) (instances (fed_peers (db st)))) as [? ?]%elem_of_t_select
    by (rewrite E; left).
  by split_and!.
Qed.

(** C16. Attestation is all or nothing, and only on proof.  If the endpoint
    answers with a pseudonym, the server is known (its status is not asked
    for) and signed the request, it reported a root, the membership proof of
    well-formed points verifies for this root and the commitment, the
    pseudonym is the one derived from commitment and topic, and the identity,
    an active participant without capabilities (an old one keeps its own) and
    an active graph node are there, everything else unchanged.  Otherwise
    nothing has changed, whichever write failed. *)
Theorem attest_membership_spec env http_get json_proof groth16 membership_vkey s r st :
  let '(o, st') := attest_membership_handler env http_get json_proof groth16 membership_vkey s r st in
  (is_ok o = false ∧ st' = st) ∨
  ∃ i root p,
    o = Ok p ∧ attestation_proved http_get json_proof groth16 membership_vkey r (db st) i root p ∧
    effects st' = effects st ∧ attests s (in_id i) r (gr_root_hex root) p (db st) (db st').
Proof.
  pose proof (attest_checks env http_get json_proof groth16 membership_vkey s r st) as HA.
  destruct (attest_membership_handler env http_get json_proof groth16 membership_vkey s r st) as [o st'].
  destruct HA as [?|(i & root & p & ty & Hproved & H)]; [by left|]. unfold mbind, M_bind in H.
  pose proof (persist_attestation_cases env s (in_id i) r (gr_root_hex root) p ty st) as HC.
  destruct (persist_attestation env s (in_id i) r (gr_root_hex root) p ty st) as [o1 st1].
  destruct HC as [[Ho ->]|(-> & Hef & Hat)].
  { left. destruct o1 as [[]| |]; [done|by injection H as <- <-..]. }
  injection H as <- <-. right. by exists i, root, p.
Qed.

End theorems.

(** ** Witnesses *)

Section witnesses.
#[local] Existing Instances hex_reference toy_clock toy_sha256 toy_ed toy_type_serde toy_scope_serde
  toy_alignment_serde toy_policy_serde.

#[local] Instance toy_ed_laws : Ed25519Laws toy_ed.
Proof. by split. Qed.
#[local] Instance message_envelope_eq_dec : EqDecision FederatedMessageEnvelope.
Proof. solve_decision. Defined.
#[local] Instance message_envelope_countable : Countable FederatedMessageEnvelope.
Proof.
  refine (inj_countable'
    (λ e, (fm_message_id e, fm_channel_id e, fm_content e, fm_sender_pseudonym e,
           (fm_originating_server e, fm_attestation_ref e, fm_signature e, fm_created_at e)))
    (λ '(a, b, c, d, (e, f, g, h)), {| fm_message_id := a; fm_channel_id := b; fm_content := c;
       fm_sender_pseudonym := d; fm_originating_server := e; fm_attestation_ref := f; fm_signature := g;
       fm_created_at := h |}) _).
  by intros [].
Defined.
#[local] Instance message_envelope_serde : Serde FederatedMessageEnvelope := serde_countable _.
#[local] Instance message_envelope_laws : SerdeLaws FederatedMessageEnvelope := serde_countable_laws _.
#[local] Instance toy_outgoing_serde : Serde OutgoingMessage := {| to_json _ := "{}"; from_json _ := None |}.

(** A server that answers the root endpoint as the code serializes it. *)
Definition served_root : string := "rootHex".
#[local] Instance toy_root_serde : Serde GetRootResponse := {| to_json _ := served_root; from_json _ := None |}.
#[local] Instance toy_json_fields : JsonFields :=
  {| str_field body key := if decide (body = served_root ∧ key = "rootHex") then Some "00" else None |}.

Definition toy_fed : FedDb :=
  {| fed_rtx := db toy_rtx; fed_channels := Channels.toy_db []; fed_identities := t_empty; fed_nodes := t_empty;
     fed_nullifiers := Table [{| nf_topic := "annex:server:v1"; nf_nullifier_hex := ""; nf_pseudonym_id := Some "alice";
                                 nf_commitment_hex := Some "c0" |}] 1;
     fed_commitments := t_empty |}.
Definition toy_envelope : FederatedMessageEnvelope :=
  relay_envelope toy_key "https://a" "annex:server:v1:c0" "general" toy_message.

Lemma relayed_message_verifies_witness :
  ∃ e, from_json (to_json toy_envelope) = Some e ∧ fm_content e = "hello" ∧
    parse_attestation_ref (fm_attestation_ref e) = Ok ("c0", "annex:server:v1").
Proof.
  assert (Posted "https://b/api/federation/messages" (to_json toy_envelope) ∈
    relay_message toy_env toy_key "https://a" 1 "general" toy_message toy_fed) as Hin by (vm_compute; left).
  destruct (relayed_message_verifies toy_env toy_key "https://a" 1 "general" toy_message toy_fed _ _ Hin)
    as (a & i & e & _ & _ & _ & _ & _ & _ & _ & _ & He & _ & _ & Hc & _ & _ & _ & Hr).
  exists e. split_and!; [exact He|exact Hc|]. apply Hr; [reflexivity|by vm_compute|done..].
Defined.

Lemma message_payload_determines_fields_witness :
  message_payload "m1" "general" "two
lines" "alice" "https://a" "t:c0" "now" ≠ message_payload "m1" "general" "two" "lines" "https://a" "t:c0" "now".
Proof.
  intros E. destruct (message_payload_determines_fields "m1" "general" "two
lines" "alice" "https://a" "t:c0" "now" "m1" "general" "two" "lines" "https://a" "t:c0" "now")
    as (_ & _ & Hc & _); [repeat constructor..|exact E|done].
Defined.

Lemma stale_root_goes_unnoticed_witness :
  let answer (root : GetRootResponse) := Some {| resp_success := true; resp_body := to_json root |} in
  receive_federated_message_handler toy_env
    (λ _, answer {| gr_root_hex := "01"; gr_leaf_count := 1; gr_updated_at := None |}) 1 toy_envelope
    {| db := toy_fed; effects := [] |} =
  receive_federated_message_handler toy_env (λ _, None) 1 toy_envelope {| db := toy_fed; effects := [] |}.
Proof.
  intros answer.
  apply (stale_root_goes_unnoticed toy_env _ 1 toy_envelope
    {| gr_root_hex := "01"; gr_leaf_count := 1; gr_updated_at := None |} {| db := toy_fed; effects := [] |}).
  - intros r key Hk. cbn. rewrite decide_False; [done|]. intros [_ ->]. apply Hk. left.
  - reflexivity.
Defined.
End witnesses.
