(* ===== verification/Sockets.v ===== *)
(** * Sockets: WebSocket sessions

    The rest of crates/annex-server/src/api_ws.rs, on the connection manager
    of Connections: the signed tokens, the upgrade, and the task that serves
    one socket, frame by frame.  A task is modelled without interference: the
    manager's methods run alone (their interleaving is the subject of
    Connections), the tasks it spawns run at once, and the mailboxes are not
    drained.  Voice intents go to the clients of
    Voice. *)

From stdpp Require Import pretty.
From S2P Require Import Prelude Sql Bytes Types Identity Platform Graph Text Channels Connections.
From S2P Require Import Observe Handlers Agents Peers Rtx Wire Voice Federation.

#[local] Open Scope Z_scope.

(** ** Tokens *)

(** The hmac crate's HMAC-SHA256 (key, text), and base64 for URLs. *)
Class TokenCrates := {
  hmac : list byte → list byte → list byte;
  b64_encode : list byte → string;
  b64_decode : string → option (list byte);
}.
Class TokenLaws `(TokenCrates) := { b64_decode_encode : ∀ bs, b64_decode (b64_encode bs) = Some bs }.

Definition WS_TOKEN_TTL_SECS : Z := 60.

Record WsConnectParams := { cp_pseudonym : option string; cp_token : option string }.

Section tokens.
Context `{HX : HexCrate, SH : Sha256, TK : TokenCrates}.

(** The bytes of the Ed25519 signing key are the argument. *)
Definition derive_ws_token_secret (signing_key : list byte) : list byte :=
  sha256 (str_bytes "annex-ws-token-v1:" ++ signing_key).

Definition token_signature (secret : list byte) (payload : string) : list byte := hmac secret (str_bytes payload).

(** [now] in seconds since 1970, as a u64. *)
Definition generate_ws_token (now : Z) (pseudonym : string) (secret : list byte) : string :=
  let expires := (now + WS_TOKEN_TTL_SECS) mod 2 ^ 64 in
  let payload := pseudonym +:+ "|" +:+ pretty (Z.to_N expires) in
  b64_encode (str_bytes (payload +:+ "|" +:+ hex_encode (token_signature secret payload))).

Definition verify_ws_token (now : Z) (token : string) (secret : list byte) : result http_error string :=
  decoded ← ok_or (b64_decode token) 401;
  token_str ← ok_or (from_utf8 decoded) 401;
  match splitn 3 "|" token_str with
  | [pseudonym; expires_str; sig_hex] =>
      provided_sig ← ok_or (hex_decode sig_hex) 401;
      _ ← reject_if (bool_decide (token_signature secret (pseudonym +:+ "|" +:+ expires_str) ≠ provided_sig)) 401;
      expires ← ok_or (parse_u64 expires_str) 401;
      _ ← reject_if (expires <? now) 401;
      Ok pseudonym
  | _ => Err 401
  end.

(** The token and its seconds to live. *)
Definition create_ws_token_handler (now : Z) (secret : list byte) (identity : PlatformIdentity) : string * Z :=
  (generate_ws_token now (pi_pseudonym_id identity) secret, WS_TOKEN_TTL_SECS).

(** ** GET /ws, up to the upgrade *)

Definition resolve_pseudonym (now : Z) (secret : list byte) (params : WsConnectParams) : result http_error string :=
  match cp_token params, cp_pseudonym params with
  | Some token, _ => verify_ws_token now token secret
  | None, Some p => Ok p
  | None, None => Err 401
  end.

(** The identity the socket is served for. *)
Definition ws_handler (env : Env) (now_secs : Z) (secret : list byte) (s : Z) (params : WsConnectParams)
    (d : ChannelDb) : result http_error PlatformIdentity :=
  pseudonym ← resolve_pseudonym now_secs secret params;
  match get_platform_identity (fault env) s pseudonym (identities d) with
  | Ok identity => if pi_active identity then Ok identity else Err 403
  | Err _ => Err 401
  | Panic => Err 500
  end.
End tokens.

(** ** The task of a socket *)

Definition MAX_WS_MESSAGE_CONTENT_LEN : nat := Z.to_nat 65536.
Definition MAX_VOICE_INTENT_TEXT_LEN : nat := Z.to_nat 2048.
Definition ACTIVITY_DEBOUNCE : Z := 30000.     (* milliseconds *)

(** What the task works on. *)
Record SocketState := {
  so_db : FedDb;
  so_voices : table VoiceProfileRow;
  so_mgr : Manager;
  so_sent : list effect;
  so_voice : VoiceState;
}.
Definition on_socket_db {E A} (m : M (State FedDb) E A) : M SocketState E A := λ st,
  let '(r, s') := m {| db := so_db st; effects := so_sent st |} in
  (r, {| so_db := db s'; so_voices := so_voices st; so_mgr := so_mgr st; so_sent := effects s';
         so_voice := so_voice st |}).
Definition on_mgr {E A} (p : prog A) : M SocketState E A := λ st,
  let '(a, m) := alone p (so_mgr st) in
  (Ok a, {| so_db := so_db st; so_voices := so_voices st; so_mgr := m; so_sent := so_sent st;
            so_voice := so_voice st |}).
Definition set_so_voice (v : VoiceState) (st : SocketState) : SocketState :=
  {| so_db := so_db st; so_voices := so_voices st; so_mgr := so_mgr st; so_sent := so_sent st; so_voice := v |}.
Definition on_voice {E A} (m : Speak E A) : M SocketState E A := zoom so_voice set_so_voice m.

(** A task: whose it is, its mailbox and its session id. *)
Record Socket := { sk_identity : PlatformIdentity; sk_mailbox : nat; sk_session : Z }.
Definition sk_pseudonym (k : Socket) : string := pi_pseudonym_id (sk_identity k).

(** The text of an error of annex-channels ([Display]), in an error frame. *)
Class ErrorText := { channel_error_text : Channels.ChannelError → string }.

(** A received frame: a text, Close, or another kind. *)
Inductive Frame := TextFrame (text : string) | CloseFrame | OtherFrame.

(** What a frame finds: its environment (statement 0 is the membership check,
    the others count on), the milliseconds since the activity update, the UUID
    it may draw, the environments of the tasks it may spawn, and what the voice
    service meets. *)
Record Arrival := {
  ar_env : Env;
  ar_elapsed : Z;
  ar_uuid : string;
  ar_relay_env : Env;
  ar_touch_env : Env;
  ar_voice_world : VoiceWorld;
  ar_frame : Frame;
}.

Section socket.
Context `{HX : HexCrate, SH : Sha256, CK : Clock, ED : Ed25519, ET : ErrorText}.
Context `{ST : Serde ChannelType, SF : Serde FederationScope, SA : Serde AlignmentStatus.t, SP : Serde ServerPolicy}.
Context `{SFM : Serde FederatedMessageEnvelope, SO : Serde OutgoingMessage, SI : Serde IncomingMessage}.
Context `{LK : LiveKit, VT : VoiceErrorText}.
Context (key : signing_key) (pub_url : string) (cfg : LiveKitConfig) (s : Z) (k : Socket).

(** An arm of the [match]; an error is a text for [send_ws_error]. *)
Abbreviation Arm := (M SocketState string unit).

Definition shifted (env : Env) (n : nat) : faults := λ j, fault env (n + j)%nat.

Definition check_ws_membership (env : Env) (c : string) : Arm := λ st,
  (match Channels.is_member (fault env) s c (sk_pseudonym k) (fed_channels (so_db st)) with
   | Ok true => Ok ()
   | Ok false => Err ("Not a member of channel " +:+ c)
   | _ => Err "Internal error checking channel membership"
   end, st).

Definition send_ws_error {E} (message : string) : M SocketState E unit := λ st,
  (Ok (), {| so_db := so_db st; so_voices := so_voices st;
             so_mgr := set_mailboxes (try_send (sk_mailbox k) (to_json (OutError message))) (so_mgr st);
             so_sent := so_sent st; so_voice := so_voice st |}).

(** A call into annex-channels on a blocking thread; a panic there is a join
    error. *)
Definition blocking {A} (failed : Channels.ChannelError → string) (join_failed : string)
    (m : M ChannelDb Channels.ChannelError A) : M SocketState string A := λ st,
  let '(r, c) := m (fed_channels (so_db st)) in
  (match r with Ok a => Ok a | Err e => Err (failed e) | Panic => Err join_failed end,
   {| so_db := set_fed_channels c (so_db st); so_voices := so_voices st; so_mgr := so_mgr st;
      so_sent := so_sent st; so_voice := so_voice st |}).

Definition too_long : string := "Message content exceeds maximum length of 65536 bytes".
Definition check_length (content : string) : Arm :=
  lift (reject_if (bool_decide (MAX_WS_MESSAGE_CONTENT_LEN < String.length content)%nat) too_long).

Definition on_subscribe (env : Env) (c : string) : Arm :=
  check_ws_membership env c;;
  on_mgr (subscribe c (sk_pseudonym k)).

(** The message is stored before the channel is read again. *)
Definition persist_message (env : Env) (p : CreateMessageParams) : M ChannelDb Channels.ChannelError (Message * bool) :=
  message ← create_message (shifted env 1) (now env) p;
  d ← get;
  channel ← lift (get_channel (shifted env 4) (mp_channel_id p) d);
  mret (message, bool_decide (c_federation_scope channel = Federated)).

Definition relay (env : Env) (c : string) (m : Message) : Arm := λ st,
  on_socket_db (perform_all (relay_message env key pub_url s c m (so_db st))) st.

Definition on_message (env relay_env : Env) (uuid c content : string) (reply_to : option string) : Arm :=
  check_length content;;
  check_ws_membership env c;;
  '(message, is_federated) ← blocking (λ _, "Failed to send message: internal error")
    "Failed to send message: internal error"
    (persist_message env {| mp_channel_id := c; mp_message_id := uuid; mp_sender_pseudonym := sk_pseudonym k;
                            mp_content := content; mp_reply_to := reply_to |});
  on_mgr (broadcast (m_channel_id message) (to_json (OutMessage (payload_of message))));;
  if is_federated : bool then relay relay_env (m_channel_id message) message else mret ().

Definition on_edit (env : Env) (c message_id content : string) : Arm :=
  check_length content;;
  check_ws_membership env c;;
  updated ← blocking (λ e, "Edit failed: " +:+ channel_error_text e) "Edit failed: internal error"
    (edit_message (shifted env 1) (now env) message_id (sk_pseudonym k) content);
  on_mgr (broadcast (m_channel_id updated) (to_json (OutMessageEdited (payload_of updated)))).

Definition on_delete (env : Env) (c message_id : string) : Arm :=
  check_ws_membership env c;;
  updated ← blocking (λ e, "Delete failed: " +:+ channel_error_text e) "Delete failed: internal error"
    (delete_message (shifted env 1) (now env) message_id (sk_pseudonym k));
  on_mgr (broadcast (m_channel_id updated) (to_json (OutMessageDeleted (payload_of updated)))).

(** The agent's voice profile, or "default" for any reason. *)
Definition voice_profile (env : Env) (st : SocketState) : string :=
  match read (fault env) 1
    (t_select (is_agent s (sk_pseudonym k)) (rtx_agents (fed_rtx (so_db st))) ≫= λ a,
     t_select (λ v, ar_voice_profile_id a = Some (vp_id v)) (so_voices st)) with
  | Ok (v :: _) => vp_profile_id v
  | _ => "default"
  end.

Definition on_voice_intent (env : Env) (w : VoiceWorld) (c text : string) : Arm :=
  lift (reject_if (bool_decide (pi_participant_type (sk_identity k) ≠ AiAgent)) "Only AI agents can use VoiceIntent");;
  lift (reject_if (bool_decide (MAX_VOICE_INTENT_TEXT_LEN < String.length text)%nat)
    "VoiceIntent text exceeds maximum length of 2048 bytes");;
  check_ws_membership env c;;
  profile ← gets (voice_profile env);
  on_voice (say cfg w c (sk_pseudonym k) text profile).

Definition on_incoming (a : Arrival) (incoming : IncomingMessage) : Arm :=
  match incoming with
  | Subscribe c => on_subscribe (ar_env a) c
  | Unsubscribe c => on_mgr (unsubscribe c (sk_pseudonym k))
  | SendMessage c content reply_to => on_message (ar_env a) (ar_relay_env a) (ar_uuid a) c content reply_to
  | EditMessage c message_id content => on_edit (ar_env a) c message_id content
  | DeleteMessage c message_id => on_delete (ar_env a) c message_id
  | VoiceIntent c text => on_voice_intent (ar_env a) (ar_voice_world a) c text
  end.

(** [continue] after an error frame. *)
Definition reported (arm : Arm) (st : SocketState) : SocketState :=
  match arm st with
  | (Err message, st') => (send_ws_error (E := string) message st').2
  | (_, st') => st'
  end.

Definition on_text (a : Arrival) (text : string) (st : SocketState) : SocketState :=
  match from_json text with
  | Some incoming => reported (on_incoming a incoming) st
  | None => (send_ws_error (E := string) "invalid message format" st).2
  end.

Definition touch_activity (env : Env) (st : SocketState) : SocketState :=
  match update_node_activity (fault env) (now env) s (sk_pseudonym k) (fed_nodes (so_db st)) with
  | (r, nodes) =>
      {| so_db := set_fed_nodes nodes (so_db st); so_voices := so_voices st; so_mgr := so_mgr st;
         so_sent := so_sent st ++ match r with
                                  | Ok true => [PresenceSent (PresenceEvent.NodeUpdated (sk_pseudonym k) true)]
                                  | _ => [] end;
         so_voice := so_voice st |}
  end.

(** The loop, until Close or the end of the connection. *)
Fixpoint serve (arrivals : list Arrival) (st : SocketState) : SocketState :=
  match arrivals with
  | [] => st
  | a :: arrivals =>
      let st1 := if ACTIVITY_DEBOUNCE <=? ar_elapsed a then touch_activity (ar_touch_env a) st else st in
      match ar_frame a with
      | TextFrame text => serve arrivals (on_text a text st1)
      | CloseFrame => st1
      | OtherFrame => serve arrivals st1
      end
  end.

Definition handle_socket (env : Env) (arrivals : list Arrival) (st : SocketState) : SocketState :=
  let st := touch_activity env st in
  let st := (on_mgr (E := string) (add_session (sk_session k) (sk_pseudonym k) (sk_mailbox k)) st).2 in
  let st := serve arrivals st in
  let st := (on_mgr (E := string) (remove_session (sk_pseudonym k) (sk_session k)) st).2 in
  set_so_voice (remove_voice_session (sk_pseudonym k) (so_voice st)) st.
End socket.

(** * Theorems *)

(** ** Tokens *)

Lemma verify_ws_token_sound `{HX : HexCrate, TK : TokenCrates} secret later token :
  match verify_ws_token later token secret with
  | Ok p => ∃ expires sig_hex until,
      b64_decode token = Some (str_bytes (p +:+ "|" +:+ expires +:+ "|" +:+ sig_hex)) ∧
      hex_decode sig_hex = Some (hmac secret (str_bytes (p +:+ "|" +:+ expires))) ∧
      parse_u64 expires = Some until ∧ later ≤ until
  | Err code => code = 401
  | Panic => False
  end.
Proof.
  unfold verify_ws_token.
  destruct (b64_decode token) as [bs|]; cbn [ok_or mbind result_bind]; [|done].
  destruct (from_utf8 bs) as [text|] eqn:Eu; cbn [ok_or mbind result_bind]; [|done].
  apply from_utf8_inv in Eu as ->. cbn [splitn].
  destruct (split_once "|" text) as [[p rest]|] eqn:E1; [|done]. apply split_once_inv in E1 as [-> _].
  destruct (split_once "|" rest) as [[e sig]|] eqn:E2; [|done]. apply split_once_inv in E2 as [-> _].
  destruct (hex_decode sig) as [bs|] eqn:Eh; cbn [ok_or mbind result_bind]; [|done].
  destruct (bool_decide_reflect (token_signature secret (p +:+ "|" +:+ e) ≠ bs)) as [|Hs]; cbn [reject_if mbind result_bind]; [done|].
  destruct (parse_u64 e) as [until|] eqn:Ep; cbn [ok_or mbind result_bind]; [|done].
  destruct (until <? later) eqn:El; cbn [reject_if mbind result_bind]; [done|].
  exists e, sig, until. split; [done|]. apply dec_stable in Hs. split; [rewrite Eh, <- Hs; done|]. split; [done|lia].
Qed.

Section token_theorems.
Context `{HX : HexCrate, !HexLaws HX, TK : TokenCrates, !TokenLaws TK}.

Lemma hex_text_ascii bs : string_all (λ c, Bytes.code c <? 128) (hex_encode bs) = true.
Proof.
  apply (string_all_impl is_lower_hexdigit); [|apply hex_encode_lower].
  intros c. unfold is_lower_hexdigit, is_ascii_digit, is_lower_af, Bytes.between. intros H. lia.
Qed.

(** The text of a token. *)
Definition token_text (secret : list byte) (p expires : string) : string :=
  (p +:+ "|" +:+ expires) +:+ "|" +:+ hex_encode (token_signature secret (p +:+ "|" +:+ expires)).

Lemma token_text_utf8 secret p n :
  is_utf8 (str_bytes p) = true → is_utf8 (str_bytes (token_text secret p (pretty (n : N)))) = true.
Proof.
  intros Hp. unfold token_text, str_bytes in *. rewrite !list_byte_app, <- !app_assoc.
  rewrite is_utf8_app by done. rewrite is_utf8_app by done. rewrite is_utf8_app by by apply is_utf8_text, pretty_N_all.
  rewrite is_utf8_app by done. apply is_utf8_text, hex_text_ascii.
Qed.

Lemma token_text_split secret p expires :
  lacks "|" p → lacks "|" expires →
  splitn 3 "|" (token_text secret p expires) = [p; expires; hex_encode (token_signature secret (p +:+ "|" +:+ expires))].
Proof.
  intros Hp He. unfold token_text. rewrite string_app_assoc.
  set (sig := hex_encode _).
  change (splitn 3 "|" (p +:+ String "|" ((expires +:+ "|" +:+ sig) : string)) = [p; expires; sig]).
  cbn [splitn]. rewrite split_once_app by done.
  change (expires +:+ "|" +:+ sig) with (expires +:+ String "|" sig). by rewrite split_once_app.
Qed.

(** A token proves a pseudonym for sixty seconds.  A token issued for a
    pseudonym is accepted, any number of times, until sixty seconds later,
    resolves to this pseudonym, and is refused with 401 from then on; and any
    accepted token, issued or not, carries the signature with the server's
    secret of the pseudonym it resolves to and of a time not yet past. *)
Theorem ws_token_spec secret :
  (∀ p issued, is_utf8 (str_bytes p) = true → lacks "|" p → 0 ≤ issued < 2 ^ 64 - WS_TOKEN_TTL_SECS →
     ∀ later, verify_ws_token later (generate_ws_token issued p secret) secret =
       if later <=? issued + WS_TOKEN_TTL_SECS then Ok p else Err 401) ∧
  (∀ later token,
     match verify_ws_token later token secret with
     | Ok p => ∃ expires sig_hex until,
         b64_decode token = Some (str_bytes (p +:+ "|" +:+ expires +:+ "|" +:+ sig_hex)) ∧
         hex_decode sig_hex = Some (hmac secret (str_bytes (p +:+ "|" +:+ expires))) ∧
         parse_u64 expires = Some until ∧ later ≤ until
     | Err code => code = 401
     | Panic => False
     end).
Proof.
  split.
  - intros p issued Hutf Hp Hi later. unfold verify_ws_token, generate_ws_token.
    rewrite Z.mod_small by (unfold WS_TOKEN_TTL_SECS in *; lia). rewrite b64_decode_encode. cbn [ok_or mbind result_bind].
    set (e := pretty _). change (str_bytes ((p +:+ "|" +:+ e) +:+ "|" +:+ hex_encode (token_signature secret (p +:+ "|" +:+ e))))
      with (str_bytes (token_text secret p e)).
    rewrite from_utf8_text by by apply token_text_utf8. cbn [ok_or mbind result_bind].
    rewrite token_text_split; [|done|by apply pretty_N_lacks].
    rewrite hex_decode_encode. cbn [ok_or mbind result_bind].
    rewrite bool_decide_eq_false_2 by (intros []; done). cbn [reject_if mbind result_bind].
    subst e. rewrite parse_u64_pretty by (unfold WS_TOKEN_TTL_SECS in *; lia). cbn [ok_or mbind result_bind].
    rewrite Z2N.id by (unfold WS_TOKEN_TTL_SECS in *; lia).
    rewrite Z.ltb_antisym. by destruct (later <=? issued + WS_TOKEN_TTL_SECS).
  - apply verify_ws_token_sound.
Qed.
End token_theorems.

(** ** The upgrade *)

(** A socket is opened for an active participant only: with a token for
    the pseudonym the token proves, whatever the other parameter says, and
    without one for any pseudonym that is asked for.  Everything else is
    refused with 401, or with 403 for an inactive participant. *)
Theorem ws_handler_spec `{HX : HexCrate, TK : TokenCrates} env now_secs secret s params d :
  match ws_handler env now_secs secret s params d with
  | Ok identity => ∃ row,
      row ∈ t_rows (identities d) ∧ Platform.is_member s (pi_pseudonym_id identity) row ∧ pr_active row = true ∧
      match cp_token params with
      | Some token => verify_ws_token now_secs token secret = Ok (pi_pseudonym_id identity)
      | None => cp_pseudonym params = Some (pi_pseudonym_id identity)
      end
  | Err code => code = 401 ∨ code = 403
  | Panic => False
  end.
Proof.
  unfold ws_handler.
  assert (match resolve_pseudonym now_secs secret params with
          | Ok p => match cp_token params with
                    | Some token => verify_ws_token now_secs token secret = Ok p
                    | None => cp_pseudonym params = Some p end
          | Err code => code = 401 | Panic => False end) as Hr.
  { unfold resolve_pseudonym. destruct (cp_token params) as [token|]; [|by destruct (cp_pseudonym params)].
    pose proof (verify_ws_token_sound secret now_secs token) as Hv.
    by destruct (verify_ws_token now_secs token secret). }
  destruct (resolve_pseudonym now_secs secret params) as [p|e|]; cbn; [|by left|done].
  unfold get_platform_identity, read. destruct (fault env 0%nat); cbn; [by left|].
  destruct (t_select (Platform.is_member s p) (identities d)) as [|row rows] eqn:E; cbn; [by left|].
  assert (row ∈ t_select (Platform.is_member s p) (identities d)) as [Hm Hrow]%elem_of_t_select by (rewrite E; left).
  unfold platform_of_row.
  assert (role_from_str (pr_participant_type row) ≠ Panic) as Hp by (unfold role_from_str; by repeat case_decide).
  destruct (role_from_str (pr_participant_type row)) as [role|e|]; cbn; [|by left|done].
  destruct (pr_active row) eqn:Ea; [|by right].
  exists row. destruct Hm as [Hs Hp']. cbn. rewrite Hp'. by split_and!.
Qed.

(** ** The loop and the manager *)

Section loop.
Context `{HX : HexCrate, SH : Sha256, CK : Clock, ED : Ed25519, ET : ErrorText}.
Context `{ST : Serde ChannelType, SF : Serde FederationScope, SA : Serde AlignmentStatus.t, SP : Serde ServerPolicy}.
Context `{SFM : Serde FederatedMessageEnvelope, SO : Serde OutgoingMessage, SI : Serde IncomingMessage}.
Context `{LK : LiveKit, VT : VoiceErrorText}.
Context (key : signing_key) (pub_url : string) (cfg : LiveKitConfig) (s : Z) (k : Socket).

(** What any part of the loop leaves alone: the sessions, the other users'
    subscriptions and the channel members; the user's own subscriptions are
    to channels that it asks for and is a member of, or older. *)
Section order.
Context (asks : string → Prop).
Record orderly (st st' : SocketState) : Prop := {
  or_consistent : consistent (so_mgr st) → consistent (so_mgr st');
  or_sessions : sessions (so_mgr st') = sessions (so_mgr st);
  or_others : ∀ c q, consistent (so_mgr st) → q ≠ sk_pseudonym k →
    listens (so_mgr st') c q ↔ listens (so_mgr st) c q;
  or_own : ∀ c, consistent (so_mgr st) → listens (so_mgr st') c (sk_pseudonym k) →
    listens (so_mgr st) c (sk_pseudonym k) ∨
    asks c ∧ t_exists (member_at s c (sk_pseudonym k)) (channel_members (fed_channels (so_db st))) = true;
  or_members : channel_members (fed_channels (so_db st')) = channel_members (fed_channels (so_db st));
}.

Lemma orderly_refl st : orderly st st.
Proof. split; auto. Qed.
Lemma orderly_trans st1 st2 st3 : orderly st1 st2 → orderly st2 st3 → orderly st1 st3.
Proof.
  intros [A1 A2 A3 A4 A5] [B1 B2 B3 B4 B5]. split; [auto|congruence|..|congruence].
  - intros c q Hc Hq. rewrite B3 by auto. by apply A3.
  - intros c Hc Hl. rewrite A5 in B4. destruct (B4 c (A1 Hc) Hl) as [Hl'|Hm]; [by apply A4|by right].
Qed.

(** The same for a step of an arm. *)
Definition keeps_order {E A} (m : M SocketState E A) : Prop := ∀ st, orderly st (m st).2.

Lemma keeps_order_bind {E A B} (m : M SocketState E A) (f : A → M SocketState E B) :
  keeps_order m → (∀ a, keeps_order (f a)) → keeps_order (m ≫= f).
Proof.
  intros Hm Hf st. unfold mbind, M_bind. specialize (Hm st). destruct (m st) as [[a|e|] st1]; [|done..].
  by eapply orderly_trans; [|apply Hf].
Qed.
Lemma keeps_order_lift {E A} (r : result E A) : keeps_order (lift r).
Proof. intros st. apply orderly_refl. Qed.
Lemma keeps_order_ret {E A} (a : A) : keeps_order (mret a : M SocketState E A).
Proof. intros st. apply orderly_refl. Qed.

(** What only touches mailboxes, and what does not touch the manager. *)
Lemma orderly_mail st st' f :
  so_mgr st' = set_mailboxes f (so_mgr st) →
  channel_members (fed_channels (so_db st')) = channel_members (fed_channels (so_db st)) → orderly st st'.
Proof.
  intros Em Ec. split; rewrite ?Em; [apply consistent_mail|done|done|by left|done].
Qed.
Lemma orderly_same st st' :
  so_mgr st' = so_mgr st →
  channel_members (fed_channels (so_db st')) = channel_members (fed_channels (so_db st)) → orderly st st'.
Proof. intros Em Ec. split; rewrite ?Em; auto. Qed.

Lemma keeps_order_error {E} message : keeps_order (send_ws_error k message : M SocketState E unit).
Proof. intros st. by eapply orderly_mail. Qed.
Lemma keeps_order_membership env c : keeps_order (check_ws_membership s k env c).
Proof. intros st. apply orderly_refl. Qed.
Lemma keeps_order_broadcast {E} c msg : keeps_order (on_mgr (broadcast c msg) : M SocketState E unit).
Proof. intros st. unfold on_mgr. rewrite broadcast_alone. by eapply orderly_mail. Qed.
Lemma keeps_order_unsubscribe {E} c : keeps_order (on_mgr (unsubscribe c (sk_pseudonym k)) : M SocketState E unit).
Proof.
  intros st. unfold on_mgr. pose proof (unsubscribe_alone c (sk_pseudonym k) (so_mgr st)) as H.
  destruct (alone _ (so_mgr st)) as [a m] eqn:Ea. cbn in H. split; cbn.
  - intros Hc. by apply H in Hc as (? & _).
  - by apply (f_equal snd) in Ea; cbn in Ea; subst.
  - intros c' q Hc Hq. destruct (H Hc) as (_ & _ & Hl). rewrite Hl. naive_solver.
  - intros c' Hc Hl'. destruct (H Hc) as (_ & _ & Hl). apply Hl in Hl' as [? _]. by left.
  - done.
Qed.

Lemma keeps_order_relay env c m : keeps_order (relay key pub_url s env c m).
Proof. intros st. by apply orderly_same. Qed.
Lemma keeps_order_voice {E A} (m : Speak E A) : keeps_order (on_voice m).
Proof. intros st. unfold on_voice, zoom. destruct (m (so_voice st)). by apply orderly_same. Qed.

(** The calls into annex-channels keep the memberships. *)
Definition keeps_members {E A} (m : M ChannelDb E A) : Prop :=
  ∀ d, channel_members (m d).2 = channel_members d.

Lemma keeps_members_bind {E A B} (m : M ChannelDb E A) (f : A → M ChannelDb E B) :
  keeps_members m → (∀ a, keeps_members (f a)) → keeps_members (m ≫= f).
Proof.
  intros Hm Hf d. unfold mbind, M_bind. specialize (Hm d). destruct (m d) as [[a|e|] d1]; [|done..].
  rewrite Hf. exact Hm.
Qed.
Lemma keeps_members_reads {E A} (m : M ChannelDb E A) : reads m → keeps_members m.
Proof. intros H d. by rewrite H. Qed.
Lemma keeps_members_exec {E A} (f : sql_error → E) flt n (m : M ChannelDb sql_error A) :
  keeps_members m → keeps_members (catch_map f (exec flt n m)).
Proof.
  intros H d. unfold catch_map, exec. destruct (flt n); [done|]. specialize (H d). by destruct (m d).
Qed.

Lemma keeps_members_create env p : keeps_members (persist_message env p).
Proof.
  apply keeps_members_bind.
  - apply keeps_members_bind; [done|intros d]. apply keeps_members_bind; [done|intros [sid days]].
    apply keeps_members_exec. intros d'. unfold insert_message. by repeat case_match.
  - intros m. apply keeps_members_bind; [done|intros d]. by apply keeps_members_bind.
Qed.
Lemma keeps_members_update id f : keeps_members (update_messages id f).
Proof. by intros d. Qed.
Lemma keeps_members_edit flt now id p content : keeps_members (edit_message flt now id p content).
Proof.
  apply keeps_members_bind; [done|intros d]. apply keeps_members_bind; [done|intros m].
  apply keeps_members_bind.
  { apply keeps_members_exec. intros d'. unfold insert_edit. by case_match. }
  intros _. apply keeps_members_bind; [apply keeps_members_exec, keeps_members_update|].
  intros _. by apply keeps_members_bind.
Qed.
Lemma keeps_members_delete flt now id p : keeps_members (delete_message flt now id p).
Proof.
  apply keeps_members_bind; [done|intros d]. apply keeps_members_bind; [done|intros m].
  apply keeps_members_bind; [apply keeps_members_exec, keeps_members_update|].
  intros _. by apply keeps_members_bind.
Qed.

Lemma keeps_order_blocking {A} failed join_failed (m : M ChannelDb Channels.ChannelError A) :
  keeps_members m → keeps_order (blocking failed join_failed m).
Proof.
  intros H st. unfold blocking. specialize (H (fed_channels (so_db st))).
  destruct (m (fed_channels (so_db st))) as [r c]. by apply orderly_same.
Qed.

Lemma keeps_order_subscribe env c : asks c → keeps_order (on_subscribe s k env c).
Proof.
  intros Hask st. unfold on_subscribe, check_ws_membership, mbind, M_bind.
  destruct (Channels.is_member (fault env) s c (sk_pseudonym k) (fed_channels (so_db st))) as [[|]| |] eqn:Em;
    [|apply orderly_refl..].
  unfold Channels.is_member, read in Em. destruct (fault env 0%nat); cbn in Em; [done|]. injection Em as Em.
  unfold on_mgr. pose proof (subscribe_alone c (sk_pseudonym k) (so_mgr st)) as H.
  destruct (alone _ (so_mgr st)) as [a m] eqn:Ea. cbn in H. split; cbn.
  - intros Hc. by apply H in Hc as (? & _).
  - by apply (f_equal snd) in Ea; cbn in Ea; subst.
  - intros c' q Hc Hq. destruct (H Hc) as (_ & _ & Hl). rewrite Hl. naive_solver.
  - intros c' Hc Hl'. destruct (H Hc) as (_ & _ & Hl). apply Hl in Hl' as [?|[-> _]]; [by left|by right].
  - done.
Qed.

Lemma keeps_order_incoming a incoming :
  (∀ c, incoming = Subscribe c → asks c) → keeps_order (on_incoming key pub_url cfg s k a incoming).
Proof.
  intros Hask. destruct incoming as [c|c|c content reply|c id content|c id|c text]; cbn.
  - by apply keeps_order_subscribe, Hask.
  - apply keeps_order_unsubscribe.
  - apply keeps_order_bind; [apply keeps_order_lift|intros _].
    apply keeps_order_bind; [apply keeps_order_membership|intros _].
    apply keeps_order_bind; [apply keeps_order_blocking, keeps_members_create|intros [m b]].
    apply keeps_order_bind; [apply keeps_order_broadcast|intros _].
    destruct b; [apply keeps_order_relay|apply keeps_order_ret].
  - apply keeps_order_bind; [apply keeps_order_lift|intros _].
    apply keeps_order_bind; [apply keeps_order_membership|intros _].
    apply keeps_order_bind; [apply keeps_order_blocking, keeps_members_edit|intros m].
    apply keeps_order_broadcast.
  - apply keeps_order_bind; [apply keeps_order_membership|intros _].
    apply keeps_order_bind; [apply keeps_order_blocking, keeps_members_delete|intros m].
    apply keeps_order_broadcast.
  - apply keeps_order_bind; [apply keeps_order_lift|intros _].
    apply keeps_order_bind; [apply keeps_order_lift|intros _].
    apply keeps_order_bind; [apply keeps_order_membership|intros _].
    apply (keeps_order_bind (gets _)); [intros st; apply orderly_refl|intros profile]. apply keeps_order_voice.
Qed.

Lemma orderly_text a text st :
  (∀ c, from_json text = Some (Subscribe c) → asks c) → orderly st (on_text key pub_url cfg s k a text st).
Proof.
  intros Hask. unfold on_text. destruct (from_json text) as [incoming|]; [|apply (keeps_order_error (E := string))].
  unfold reported. pose proof (keeps_order_incoming a incoming ltac:(intros c ->; by apply Hask) st) as H.
  destruct (on_incoming key pub_url cfg s k a incoming st) as [[[]|e|] st1]; cbn in H; [done| |done].
  eapply orderly_trans; [done|]. apply (keeps_order_error (E := string)).
Qed.

Lemma on_mgr_mgr {E A} (p : prog A) st : so_mgr (on_mgr (E := E) p st).2 = (alone p (so_mgr st)).2.
Proof. unfold on_mgr. by destruct (alone p (so_mgr st)). Qed.

Lemma orderly_touch env st : orderly st (touch_activity s k env st).
Proof. unfold touch_activity. destruct (update_node_activity _ _ _ _ _) as [r nodes]. by apply orderly_same. Qed.

(** The frame asks for the channel. *)
Definition subscribes (a : Arrival) (c : string) : Prop :=
  ∃ text, ar_frame a = TextFrame text ∧ from_json text = Some (Subscribe c).

Lemma orderly_serve arrivals st :
  (∀ a c, a ∈ arrivals → subscribes a c → asks c) → orderly st (serve key pub_url cfg s k arrivals st).
Proof.
  intros Hask. revert st. induction arrivals as [|a arrivals IH]; intros st; cbn; [apply orderly_refl|].
  specialize (IH (λ b c Hb, Hask b c (list_elem_of_further _ _ _ Hb))).
  assert (∀ c, subscribes a c → asks c) as Ha by (intros c; apply Hask; left).
  assert (orderly st (if ACTIVITY_DEBOUNCE <=? ar_elapsed a then touch_activity s k (ar_touch_env a) st else st)) as H1
    by (destruct (ACTIVITY_DEBOUNCE <=? ar_elapsed a); [apply orderly_touch|apply orderly_refl]).
  destruct (ar_frame a) as [text| |] eqn:Ef; [|done|].
  - eapply orderly_trans; [exact H1|]. eapply orderly_trans; [|apply IH]. apply orderly_text. intros c Hc.
    apply Ha. by exists text.
  - eapply orderly_trans; [exact H1|apply IH].
Qed.
End order.

(** C35. A socket's life cycle: whatever frames arrive, the user listens, at
    any point, only to channels it is a member of (or was left listening to by
    an earlier session); other users' sessions and subscriptions are not touched; and
    when the socket closes its session and all of its subscriptions are
    gone. *)
Theorem socket_session_spec env arrivals st :
  consistent (so_mgr st) →
  let p := sk_pseudonym k in
  let opened := (on_mgr (E := string) (add_session (sk_session k) p (sk_mailbox k)) (touch_activity s k env st)).2 in
  let served := serve key pub_url cfg s k arrivals opened in
  let closed := handle_socket key pub_url cfg s k env arrivals st in
  consistent (so_mgr served) ∧ consistent (so_mgr closed) ∧
  sessions (so_mgr served) = <[p := (sk_session k, sk_mailbox k)]> (sessions (so_mgr st)) ∧
  sessions (so_mgr closed) = delete p (sessions (so_mgr st)) ∧
  (∀ c, listens (so_mgr served) c p →
     t_exists (member_at s c p) (channel_members (fed_channels (so_db st))) = true ∨
     listens (so_mgr st) c p ∧ sessions (so_mgr st) !! p = None) ∧
  (∀ c, ¬ listens (so_mgr closed) c p) ∧
  (∀ c q, q ≠ p → (listens (so_mgr served) c q ↔ listens (so_mgr st) c q) ∧
                  (listens (so_mgr closed) c q ↔ listens (so_mgr st) c q)).
Proof.
  intros Hc p opened served closed.
  pose proof (orderly_touch (λ _, True) env st) as [T1 T2 T3 T4 T5]. specialize (T1 Hc).
  destruct (add_session_alone (sk_session k) p (sk_mailbox k) _ T1) as (A1 & _ & A3 & A4).
  assert (so_mgr opened = (alone (add_session (sk_session k) p (sk_mailbox k)) (so_mgr (touch_activity s k env st))).2) as Eo.
  { apply (on_mgr_mgr (E := string)). }
  assert (so_db opened = so_db (touch_activity s k env st)) as Ed by (unfold opened, on_mgr; by destruct (alone _ _)).
  assert (so_mgr (touch_activity s k env st) = so_mgr st) as Et
    by (unfold touch_activity; by destruct (update_node_activity _ _ _ _ _)).
  rewrite Et in *. rewrite <- Eo in A1, A3, A4.
  destruct (orderly_serve (λ _, True) arrivals opened ltac:(done)) as [S1 S2 S3 S4 S5]. specialize (S1 A1). fold served in S1, S2, S3, S4, S5.
  destruct (remove_session_alone p (sk_session k) (so_mgr served) S1) as (R1 & _ & R3).
  assert (so_mgr closed = (alone (remove_session p (sk_session k)) (so_mgr served)).2) as Ec.
  { apply (on_mgr_mgr (E := string)). }
  rewrite <- Ec in R1, R3. rewrite S2, A3, lookup_insert_eq in R3. cbn [fmap option_fmap option_map fst] in R3.
  rewrite decide_True in R3 by done. destruct R3 as [R3 R4].
  split; [done|]. split; [done|]. split; [by rewrite S2, A3|]. split.
  { rewrite R3, delete_insert_eq. done. }
  split; [|split].
  - intros c Hl. destruct (S4 c A1 Hl) as [Hl'|[_ Hm]].
    + apply A4 in Hl' as [? Hs]. right. split; [done|by apply Hs].
    + left. by rewrite Ed, T5 in Hm.
  - intros c Hl. by apply R4 in Hl as [_ []].
  - intros c q Hq. pose proof (S3 c q A1 Hq) as HS. pose proof (A4 c q) as HA. pose proof (R4 c q) as HR. tauto.
Qed.

(** ** Frames that write *)

Lemma check_ws_membership_cases env c st :
  (check_ws_membership s k env c st = (Ok (), st) ∧
   t_exists (member_at s c (sk_pseudonym k)) (channel_members (fed_channels (so_db st))) = true) ∨
  ∃ e, check_ws_membership s k env c st = (Err e, st).
Proof.
  unfold check_ws_membership, Channels.is_member, read. destruct (fault env 0%nat); cbn; [right; by eexists|].
  destruct (t_exists _ _); [by left|right; by eexists].
Qed.

Lemma persist_message_cases env p d :
  let '(r, d') := persist_message env p d in
  (is_ok r = false ∧ d' = d) ∨
  ∃ m t, t_exists (message_is (mp_message_id p)) (messages d) = false ∧
    m_message_id m = mp_message_id p ∧ m_channel_id m = mp_channel_id p ∧
    m_sender_pseudonym m = mp_sender_pseudonym p ∧ m_content m = mp_content p ∧
    t_rows t = t_rows (messages d) ++ [m] ∧ d' = set_messages t d ∧
    (is_ok r = false ∨
     ∃ row, row ∈ t_rows (channels d) ∧ ch_channel_id row = mp_channel_id p ∧
       r = Ok (m, bool_decide (from_json (ch_federation_scope row) = Some Federated))).
Proof.
  unfold persist_message, mbind, M_bind.
  pose proof (create_message_cases (shifted env 1) (now env) p d) as HC.
  destruct (create_message (shifted env 1) (now env) p d) as [r c]. destruct HC as [[Hr ->]|(sid & days & -> & Hn & ->)].
  - destruct r as [m|e|]; [by destruct (Hr m)|by left..].
  - unfold get, lift. destruct (get_channel _ _ _) as [ch|e|] eqn:Eg; right;
      exists (message_row (now env) sid days p (t_seq (messages d) + 1)),
        (t_insert (message_row (now env) sid days p) (messages d)).2.
    + do 7 (split; [done|]). right. apply get_channel_ok in Eg as (row & Hrow & Hid & Hmap).
      exists row. do 2 (split; [done|]). unfold mret, M_ret. rewrite (channel_scope _ _ Hmap).
      by rewrite (bool_decide_ext (c_federation_scope ch = Federated) (Some (c_federation_scope ch) = Some Federated))
        by (split; [by intros ->|by intros [= ->]]).
    + do 7 (split; [done|]). by left.
    + do 7 (split; [done|]). by left.
Qed.

(** Sending a message.  A frame that is too long, or from a user who is
    not a member of the channel, stores and sends nothing but an error to
    its sender; so does one whose message could not be stored.  Otherwise the
    message is stored under the user's pseudonym and broadcast to the
    channel's listeners, and to the federation peers exactly if the channel is
    federated.  (If the channel cannot be read again after the message
    was stored, the sender gets an error all the same and nobody the
    message.) *)
Theorem message_frame_spec env relay_env uuid c content reply st :
  let st' := reported k (on_message key pub_url s k env relay_env uuid c content reply) st in
  let d := fed_channels (so_db st) in
  let error_sent e := set_mailboxes (try_send (sk_mailbox k) (to_json (OutError e))) (so_mgr st) in
  (so_db st' = so_db st ∧ so_sent st' = so_sent st ∧ ∃ e, so_mgr st' = error_sent e) ∨
  ((String.length content ≤ MAX_WS_MESSAGE_CONTENT_LEN)%nat ∧
   t_exists (member_at s c (sk_pseudonym k)) (channel_members d) = true ∧
   t_exists (message_is uuid) (messages d) = false ∧
   ∃ m t, m_message_id m = uuid ∧ m_channel_id m = c ∧ m_sender_pseudonym m = sk_pseudonym k ∧
     m_content m = content ∧ t_rows t = t_rows (messages d) ++ [m] ∧
     so_db st' = set_fed_channels (set_messages t d) (so_db st) ∧
     ((so_sent st' = so_sent st ∧ ∃ e, so_mgr st' = error_sent e) ∨
      so_mgr st' = (alone (broadcast c (to_json (OutMessage (payload_of m)))) (so_mgr st)).2 ∧
      ∃ row, row ∈ t_rows (channels d) ∧ ch_channel_id row = c ∧
        so_sent st' = so_sent st ++
          (if bool_decide (from_json (ch_federation_scope row) = Some Federated)
           then relay_message relay_env key pub_url s c m (so_db st') else []))).
Proof.
  cbv zeta. unfold reported.
  destruct (on_message key pub_url s k env relay_env uuid c content reply st) as [o st1] eqn:H.
  unfold on_message, check_length, mbind, M_bind in H. unfold lift at 1 in H.
  destruct (bool_decide_reflect (MAX_WS_MESSAGE_CONTENT_LEN < String.length content)%nat) as [Hl|Hl]; cbn [reject_if] in H.
  { injection H as <- <-. left. do 2 (split; [done|]). by eexists. }
  destruct (check_ws_membership_cases env c st) as [[Ec Em]|(e & Ec)]; rewrite Ec in H.
  2: { injection H as <- <-. left. do 2 (split; [done|]). by eexists. }
  unfold blocking in H.
  match type of H with context [persist_message env ?p ?d] =>
    pose proof (persist_message_cases env p d) as HC; destruct (persist_message env p d) as [r d'] end.
  cbn [mp_message_id mp_channel_id mp_sender_pseudonym mp_content] in HC.
  destruct HC as [[Hr ->]|(m & t & Hn & E1 & E2 & E3 & E4 & Et & -> & Hr)].
  { left. rewrite set_fed_channels_id in H. destruct r; [done|..]; injection H as <- <-;
      (do 2 (split; [done|]); by eexists). }
  right. split; [lia|]. do 2 (split; [done|]). exists m, t. do 5 (split; [done|]).
  destruct Hr as [Hr|(row & Hrow & Hid & ->)].
  { destruct r; [done|..]; injection H as <- <-; (split; [done|]; left; split; [done|]; by eexists). }
  rewrite E2 in H. unfold on_mgr in H. cbn -[broadcast] in H.
  destruct (alone (broadcast c _) (so_mgr st)) as [u mg] eqn:Eb.
  case_bool_decide as Hfed; injection H as <- <-; (split; [done|]; right; split; [done|]; exists row; do 2 (split; [done|])).
  - by rewrite bool_decide_eq_true_2.
  - by rewrite bool_decide_eq_false_2, app_nil_r.
Qed.

(** Editing needs a membership, but not one of the message's channel:
    the check is made for the channel the frame names.  An author who is a
    member of any channel can, within the sixty seconds, edit and delete a
    message in a channel it is no longer a member of, and the change is broadcast
    there. *)
Theorem former_member_edits env c msg content st :
  fault env = no_fault →
  messages_unique (fed_channels (so_db st)) → msg ∈ t_rows (messages (fed_channels (so_db st))) →
  may_change msg (sk_pseudonym k) (now env) →
  t_exists (member_at s c (sk_pseudonym k)) (channel_members (fed_channels (so_db st))) = true →
  (String.length content ≤ MAX_WS_MESSAGE_CONTENT_LEN)%nat →
  let d := fed_channels (so_db st) in
  let edited := with_content content (now_text (now env)) in
  let deleted := soft_deleted (now_text (now env)) in
  let st1 := reported k (on_edit s k env c (m_message_id msg) content) st in
  let st2 := reported k (on_delete s k env c (m_message_id msg)) st in
  fed_channels (so_db st1) = changed edited msg (recorded (now env) msg d) ∧
  so_mgr st1 = (alone (broadcast (m_channel_id msg) (to_json (OutMessageEdited (payload_of (edited msg))))) (so_mgr st)).2 ∧
  fed_channels (so_db st2) = changed deleted msg d ∧
  so_mgr st2 = (alone (broadcast (m_channel_id msg) (to_json (OutMessageDeleted (payload_of (deleted msg))))) (so_mgr st)).2.
Proof.
  intros Hf Hu Hin Hmay Hmem Hlen. cbv zeta.
  assert (shifted env 1 = no_fault) as Hs by (unfold shifted; by rewrite Hf).
  assert (check_ws_membership s k env c st = (Ok (), st)) as Hcheck.
  { unfold check_ws_membership, Channels.is_member, read. rewrite Hf. cbn. by rewrite Hmem. }
  unfold reported, on_edit, on_delete, check_length. unfold mbind, M_bind. unfold lift.
  rewrite bool_decide_eq_false_2 by lia. cbn [reject_if]. rewrite Hcheck. unfold blocking. rewrite Hs.
  destruct (edit_message_cases no_fault (now env) msg (sk_pseudonym k) content (fed_channels (so_db st)) Hu Hin)
    as [[-> _]|(e & _ & Hno & _)]; [|by destruct (Hno eq_refl)].
  destruct (delete_message_cases no_fault (now env) msg (sk_pseudonym k) (fed_channels (so_db st)) Hu Hin)
    as [[-> _]|(e & _ & Hno & _)]; [|by destruct (Hno eq_refl)].
  unfold on_mgr. cbn -[broadcast].
  destruct (alone (broadcast _ (to_json (OutMessageEdited _))) _) as [u1 m1].
  destruct (alone (broadcast _ (to_json (OutMessageDeleted _))) _) as [u2 m2]. done.
Qed.
(** ** Voice *)

(** C39. A voice intent.  Refused, it says nothing and the agent gets an
    error; only an agent that is a member of the channel it names speaks, a
    text of at most 2048 bytes, and once.  What it says goes to the room of
    its client, which is this channel's only if no client was there yet. *)
Theorem voice_intent_spec env w c text st :
  let p := sk_pseudonym k in
  let st' := reported k (on_voice_intent cfg s k env w c text) st in
  so_db st' = so_db st ∧ so_sent st' = so_sent st ∧
  (∀ q, q ≠ p → vo_sessions (so_voice st') !! q = vo_sessions (so_voice st) !! q) ∧
  ((vo_published (so_voice st') = vo_published (so_voice st) ∧
    ∃ e, so_mgr st' = set_mailboxes (try_send (sk_mailbox k) (to_json (OutError e))) (so_mgr st)) ∨
   (pi_participant_type (sk_identity k) = AiAgent ∧ (String.length text ≤ MAX_VOICE_INTENT_TEXT_LEN)%nat ∧
    t_exists (member_at s c p) (channel_members (fed_channels (so_db st))) = true ∧ so_mgr st' = so_mgr st ∧
    ∃ client audio, vo_sessions (so_voice st') !! p = Some client ∧
      vo_published (so_voice st') = vo_published (so_voice st) ++ [(av_room_name client, audio)] ∧
      match vo_sessions (so_voice st) !! p with
      | Some client' => client' = client
      | None => av_room_name client = c
      end)).
Proof.
  cbv zeta. unfold reported. destruct (on_voice_intent cfg s k env w c text st) as [o st1] eqn:H.
  unfold on_voice_intent, mbind, M_bind in H. unfold lift at 1 in H.
  destruct (bool_decide_reflect (pi_participant_type (sk_identity k) ≠ AiAgent)) as [Hk|Hk]; cbn [reject_if] in H.
  { injection H as <- <-. do 3 (split; [done|]). left. split; [done|]. by eexists. }
  unfold lift at 1 in H.
  destruct (bool_decide_reflect (MAX_VOICE_INTENT_TEXT_LEN < String.length text)%nat) as [Hl|Hl]; cbn [reject_if] in H.
  { injection H as <- <-. do 3 (split; [done|]). left. split; [done|]. by eexists. }
  destruct (check_ws_membership_cases env c st) as [[Ec Em]|(e & Ec)]; rewrite Ec in H.
  2: { injection H as <- <-. do 3 (split; [done|]). left. split; [done|]. by eexists. }
  unfold gets, on_voice, zoom in H.
  pose proof (say_spec cfg w c (sk_pseudonym k) text (voice_profile s k env st) (so_voice st)) as HS.
  destruct (say cfg w c (sk_pseudonym k) text (voice_profile s k env st) (so_voice st)) as [r v].
  injection H as <- <-. destruct HS as (Ho & _ & HS). destruct r as [[]|e|]; cbn; [| |done].
  - do 3 (split; [done|]). right. split; [by apply dec_stable|]. split; [lia|]. do 2 (split; [done|]).
    destruct HS as (client & audio & _ & Hs & Hp & _ & Hm). by exists client, audio.
  - do 3 (split; [done|]). left. split; [done|]. by eexists.
Qed.

(** What the arms other than a voice intent leave alone. *)
Definition keeps_voice {E A} (m : M SocketState E A) : Prop := ∀ st, so_voice (m st).2 = so_voice st.

Lemma keeps_voice_bind {E A B} (m : M SocketState E A) (f : A → M SocketState E B) :
  keeps_voice m → (∀ a, keeps_voice (f a)) → keeps_voice (m ≫= f).
Proof.
  intros Hm Hf st. unfold mbind, M_bind. specialize (Hm st). destruct (m st) as [[a|e|] st1]; [|done..].
  rewrite Hf. exact Hm.
Qed.
Lemma keeps_voice_lift {E A} (r : result E A) : keeps_voice (lift r).
Proof. by intros st. Qed.
Lemma keeps_voice_membership env c : keeps_voice (check_ws_membership s k env c).
Proof. by intros st. Qed.
Lemma keeps_voice_mgr {E A} (p : prog A) : keeps_voice (on_mgr p : M SocketState E A).
Proof. intros st. unfold on_mgr. by destruct (alone p (so_mgr st)). Qed.
Lemma keeps_voice_blocking {A} failed join_failed (m : M ChannelDb Channels.ChannelError A) :
  keeps_voice (blocking failed join_failed m).
Proof. intros st. unfold blocking. by destruct (m (fed_channels (so_db st))). Qed.
Lemma keeps_voice_relay env c m : keeps_voice (relay key pub_url s env c m).
Proof. intros st. unfold relay, on_socket_db. by destruct (perform_all _ _). Qed.

Lemma keeps_voice_incoming a incoming st :
  ts_profiles (vo_tts (so_voice st)) = ∅ →
  so_voice (on_incoming key pub_url cfg s k a incoming st).2 = so_voice st.
Proof.
  intros Hn. revert st Hn. destruct incoming as [c|c|c content reply|c id content|c id|c text]; cbn [on_incoming]; intros st Hn.
  6: { unfold on_voice_intent, mbind, M_bind. unfold lift at 1. destruct (reject_if _ _); [|done..].
       unfold lift at 1. destruct (reject_if _ _); [|done..].
       destruct (check_ws_membership_cases (ar_env a) c st) as [[-> _]|(e & ->)]; [|done]. unfold gets, on_voice, zoom.
       pose proof (say_spec cfg (ar_voice_world a) c (sk_pseudonym k) text (voice_profile s k (ar_env a) st) (so_voice st)) as HS.
       destruct (say _ _ _ _ _ _ _) as [r v]. destruct HS as (_ & HS & _). cbn.
       apply HS. unfold get_profile. by rewrite Hn, lookup_empty. }
  all: clear Hn; revert st.
  - apply keeps_voice_bind; [apply keeps_voice_membership|intros _]. apply keeps_voice_mgr.
  - exact (keeps_voice_mgr (E := string) _).
  - apply keeps_voice_bind; [apply keeps_voice_lift|intros _].
    apply keeps_voice_bind; [apply keeps_voice_membership|intros _].
    apply keeps_voice_bind; [apply keeps_voice_blocking|intros [m b]].
    apply keeps_voice_bind; [apply keeps_voice_mgr|intros _]. destruct b; [apply keeps_voice_relay|by intros st].
  - apply keeps_voice_bind; [apply keeps_voice_lift|intros _].
    apply keeps_voice_bind; [apply keeps_voice_membership|intros _].
    apply keeps_voice_bind; [apply keeps_voice_blocking|intros m]. apply keeps_voice_mgr.
  - apply keeps_voice_bind; [apply keeps_voice_membership|intros _].
    apply keeps_voice_bind; [apply keeps_voice_blocking|intros m]. apply keeps_voice_mgr.
Qed.

Lemma serve_voice arrivals st :
  ts_profiles (vo_tts (so_voice st)) = ∅ → so_voice (serve key pub_url cfg s k arrivals st) = so_voice st.
Proof.
  revert st. induction arrivals as [|a arrivals IH]; intros st Hn; cbn; [done|].
  set (st1 := if _ : bool then _ else _).
  assert (so_voice st1 = so_voice st) as E1
    by (unfold st1; destruct (_ <=? _); [|done]; unfold touch_activity; by destruct (update_node_activity _ _ _ _ _)).
  destruct (ar_frame a) as [text| |]; [|done|by rewrite IH, E1 by by rewrite E1].
  assert (so_voice (on_text key pub_url cfg s k a text st1) = so_voice st) as E2.
  { unfold on_text. destruct (from_json text) as [incoming|]; [|done]. unfold reported.
    pose proof (keeps_voice_incoming a incoming st1) as H. rewrite E1 in H. specialize (H Hn).
    by destruct (on_incoming key pub_url cfg s k a incoming st1) as [[[]|e|] st2]. }
  by rewrite IH, E2 by by rewrite E2.
Qed.

(** Without voice profiles no socket ever speaks: the synthesis starts
    with none ([TtsService_new]), and the server adds none, so that whatever
    frames arrive nothing is sent to a room. *)
Theorem silent_without_profiles env arrivals st voices piper bark :
  vo_tts (so_voice st) = TtsService_new voices piper bark →
  let st' := handle_socket key pub_url cfg s k env arrivals st in
  vo_published (so_voice st') = vo_published (so_voice st) ∧ vo_tts (so_voice st') = vo_tts (so_voice st) ∧
  vo_sessions (so_voice st') = delete (sk_pseudonym k) (vo_sessions (so_voice st)).
Proof.
  intros Hn. cbv zeta. unfold handle_socket.
  set (st1 := touch_activity s k env st). set (st2 := (on_mgr (add_session _ _ _) st1).2).
  assert (so_voice st2 = so_voice st) as E2.
  { unfold st2. rewrite (keeps_voice_mgr (E := string)). unfold st1, touch_activity.
    by destruct (update_node_activity _ _ _ _ _). }
  assert (so_voice (on_mgr (E := string) (remove_session (sk_pseudonym k) (sk_session k))
    (serve key pub_url cfg s k arrivals st2)).2 = so_voice st) as E3.
  { rewrite (keeps_voice_mgr (E := string)), serve_voice; [done|]. rewrite E2, Hn. done. }
  cbn [so_voice set_so_voice]. by rewrite E3.
Qed.
End loop.

(** ** Witnesses *)

Section witnesses.
#[local] Existing Instances hex_reference toy_clock toy_sha256 toy_ed toy_type_serde toy_scope_serde
  toy_alignment_serde toy_policy_serde.

Definition toy_tokens : TokenCrates :=
  {| hmac key bs := take 2 (key ++ bs); b64_encode := String.string_of_list_byte;
     b64_decode t := Some (String.list_byte_of_string t) |}.
#[local] Existing Instance toy_tokens.
#[local] Instance toy_tokens_laws : TokenLaws toy_tokens.
Proof. split. intros bs. exact (f_equal Some (String.list_byte_of_string_of_list_byte bs)). Qed.

Lemma ws_token_spec_witness :
  verify_ws_token 1060 (generate_ws_token 1000 "alice" []) [] = Ok "alice" ∧
  verify_ws_token 1061 (generate_ws_token 1000 "alice" []) [] = Err 401.
Proof.
  destruct (ws_token_spec []) as [H _].
  assert (0 ≤ 1000 < 2 ^ 64 - WS_TOKEN_TTL_SECS) as Hi by (unfold WS_TOKEN_TTL_SECS; lia).
  specialize (H "alice" 1000 eq_refl ltac:(by vm_compute) Hi). split; apply H.
Defined.

#[local] Instance toy_message_envelope : Serde FederatedMessageEnvelope := {| to_json _ := "{}"; from_json _ := None |}.
#[local] Instance toy_out : Serde OutgoingMessage := {| to_json _ := "{}"; from_json _ := None |}.
#[local] Instance toy_in : Serde IncomingMessage :=
  {| to_json _ := "{}"; from_json t := if decide (t = "subscribe") then Some (Subscribe "general")
    else if decide (t = "send") then Some (SendMessage "general" "hello" None) else None |}.
#[local] Instance toy_livekit : LiveKit :=
  {| to_jwt _ _ _ _ _ _ := Some "jwt"; list_participants _ := Some 1%nat; client_builds := true |}.
#[local] Instance toy_voice_text : VoiceErrorText := {| voice_error_text _ := "error" |}.
#[local] Instance toy_error_text : ErrorText := {| channel_error_text _ := "error" |}.

Definition toy_identity : PlatformIdentity :=
  {| pi_id := 1; pi_server_id := 1; pi_pseudonym_id := "alice"; pi_participant_type := Human;
     pi_caps := {| can_voice := false; can_moderate := false; can_invite := false; can_federate := false;
                   can_bridge := false |};
     pi_active := true; pi_created_at := ""; pi_updated_at := "" |}.
Definition toy_socket : Socket := {| sk_identity := toy_identity; sk_mailbox := 0; sk_session := 7 |}.
(** Alice is a member of "lobby", not of "general", where her message is. *)
Definition toy_membership : ChannelMember :=
  {| cm_id := 1; cm_server_id := 1; cm_channel_id := "lobby"; cm_pseudonym_id := "alice"; cm_role := "MEMBER";
     cm_joined_at := "" |}.
Definition toy_channels : ChannelDb :=
  {| channels := channels (Channels.toy_db []); messages := messages (Channels.toy_db []); message_edits := t_empty;
     channel_members := Table [toy_membership] 1; servers := servers (Channels.toy_db []);
     identities := identities (Channels.toy_db []) |}.
Definition toy_state : SocketState :=
  {| so_db := set_fed_channels toy_channels toy_fed; so_voices := t_empty;
     so_mgr := Manager_new {[ 0%nat := {| queue := []; closed := false |} ]}; so_sent := []; so_voice := VoiceState_new (TtsService_new "voices" "piper" "bark") {| st_model_path := "model"; st_binary_path := "stt" |} |}.
Definition toy_time : Env := {| fault := no_fault; now := 110; now_rfc3339 := ""; anchor_clock := None |}.
Definition toy_arrival : Arrival :=
  {| ar_env := toy_time; ar_elapsed := 0; ar_uuid := "u"; ar_relay_env := toy_time; ar_touch_env := toy_time;
     ar_voice_world := {| vw_exists _ := true; vw_run _ := NotSpawned; vw_send_data _ _ := true |};
     ar_frame := TextFrame "subscribe" |}.

Lemma socket_session_spec_witness :
  consistent (so_mgr toy_state) ∧
  sessions (so_mgr (handle_socket toy_key "https://a" LiveKitConfig_default 1 toy_socket toy_time [toy_arrival] toy_state)) = ∅.
Proof.
  split; [apply consistent_new|].
  destruct (socket_session_spec toy_key "https://a" LiveKitConfig_default 1 toy_socket toy_time [toy_arrival] toy_state (consistent_new _))
    as (_ & _ & _ & H & _). rewrite H. cbn. by rewrite delete_empty.
Defined.

Lemma silent_without_profiles_witness :
  vo_published (so_voice (handle_socket toy_key "https://a" LiveKitConfig_default 1 toy_socket toy_time [toy_arrival]
    toy_state)) = [].
Proof.
  exact (proj1 (silent_without_profiles toy_key "https://a" LiveKitConfig_default 1 toy_socket toy_time [toy_arrival]
    toy_state "voices" "piper" "bark" eq_refl)).
Defined.

Lemma former_member_edits_witness :
  t_exists (member_at 1 "general" "alice") (channel_members toy_channels) = false ∧
  fed_channels (so_db (reported toy_socket (on_delete 1 toy_socket toy_time "lobby" "m1") toy_state)) =
    changed (soft_deleted (now_text 110)) toy_message toy_channels.
Proof.
  split; [by vm_compute|].
  assert (messages_unique toy_channels) as Hu.
  { intros r1 r2 H1%list_elem_of_singleton H2%list_elem_of_singleton _. congruence. }
  assert (may_change toy_message "alice" 110) as Hm.
  { split; [done|]. split; [done|]. exists 100. split; [by vm_compute|by vm_compute]. }
  assert (String.length "bye" ≤ MAX_WS_MESSAGE_CONTENT_LEN)%nat as Hl.
  { change (3 ≤ MAX_WS_MESSAGE_CONTENT_LEN)%nat. unfold MAX_WS_MESSAGE_CONTENT_LEN. lia. }
  destruct (former_member_edits 1 toy_socket toy_time "lobby" toy_message "bye" toy_state eq_refl Hu
    ltac:(left) Hm ltac:(by vm_compute) Hl) as (_ & _ & H & _).
  exact H.
Defined.
End witnesses.
