(* ===== verification/ChannelApi.v ===== *)
(** * ChannelApi: the endpoints on channels

    crates/annex-server/src/api_channels.rs, with the membership proof of
    crates/annex-server/src/middleware.rs it demands, on the operations of
    Channels, Graph, Connections and Zk.  The agents' voice
    clients are those of Voice; what the LiveKit server is asked to do is
    recorded. *)

From S2P Require Import RateLimit.
From S2P Require Import Prelude Sql Bytes Types Identity Merkle Platform Graph Text Channels Connections.
From S2P Require Import Observe Handlers Agents Peers Rtx Wire Voice Zk Federation.

#[local] Open Scope Z_scope.
#[local] Existing Instance AlignmentStatus.eq_dec.

Definition MAX_CHANNEL_ID_LEN : nat := 128.
Definition MAX_CHANNEL_NAME_LEN : nat := 256.
Definition MAX_TOPIC_LEN : nat := Z.to_nat 1024.

(** ** The membership proof in the x-annex-zk-proof header *)

Record ZkProofPayload := { zp_proof : string; zp_root_hex : string; zp_commitment_hex : string }.

(** http's [to_str], base64's standard alphabet, and the JSON of the header. *)
Class ProofHeader := {
  header_to_str : list byte → option string;
  b64_std_decode : string → option (list byte);
  json_payload : list byte → option ZkProofPayload;
}.

(** ** State *)

(** The database with the graph's edges, the manager, the rooms of the agents'
    voice clients, and the calls of the LiveKit server. *)
Record ApiState := {
  ap_db : FedDb;
  ap_edges : table GraphEdgeRow;
  ap_mgr : Manager;
  ap_voice : VoiceState;
  ap_calls : list voice_call;
}.
Definition set_ap_db (d : FedDb) (st : ApiState) : ApiState :=
  {| ap_db := d; ap_edges := ap_edges st; ap_mgr := ap_mgr st; ap_voice := ap_voice st;
     ap_calls := ap_calls st |}.
Definition set_ap_edges (t : table GraphEdgeRow) (st : ApiState) : ApiState :=
  {| ap_db := ap_db st; ap_edges := t; ap_mgr := ap_mgr st; ap_voice := ap_voice st;
     ap_calls := ap_calls st |}.
Definition ap_channels (st : ApiState) : ChannelDb := fed_channels (ap_db st).

Definition on_channels {E A} (m : M ChannelDb E A) : M ApiState E A :=
  zoom ap_channels (λ c st, set_ap_db (set_fed_channels c (ap_db st)) st) m.
Definition on_edges {E A} (m : M (table GraphEdgeRow) E A) : M ApiState E A := zoom ap_edges set_ap_edges m.
Definition call_voice {E} (q : voice_call) : M ApiState E unit := λ st,
  (Ok (), {| ap_db := ap_db st; ap_edges := ap_edges st; ap_mgr := ap_mgr st;
             ap_voice := ap_voice st; ap_calls := ap_calls st ++ [q] |}).
Definition call_manager {E} (p : prog unit) : M ApiState E unit := λ st,
  (Ok (), {| ap_db := ap_db st; ap_edges := ap_edges st; ap_mgr := (alone p (ap_mgr st)).2;
             ap_voice := ap_voice st; ap_calls := ap_calls st |}).
Definition set_ap_voice (v : VoiceState) (st : ApiState) : ApiState :=
  {| ap_db := ap_db st; ap_edges := ap_edges st; ap_mgr := ap_mgr st; ap_voice := v; ap_calls := ap_calls st |}.
Definition on_voice {E A} (m : Speak E A) : M ApiState E A := zoom ap_voice set_ap_voice m.

Record CreateChannelRequest := {
  rq_channel_id : string;
  rq_name : string;
  rq_channel_type : ChannelType;
  rq_topic : option string;
  rq_vrp_topic_binding : option string;
  rq_required_capabilities_json : option string;
  rq_agent_min_alignment : option AlignmentStatus.t;
  rq_retention_days : option Z;
  rq_federation_scope : FederationScope;
}.
Record JoinVoiceResponse := { jv_token : string; jv_url : string; jv_ice_servers : list IceServer }.

Definition channel_err_to_status (e : Channels.ChannelError) : http_error :=
  match e with NotFound _ => 404 | Database _ => 500 end.

(** Any failure answers 500. *)
Definition fail_500 {E A} (r : result E A) : result http_error A := map_err (λ _, 500) r.

Section api.
Context `{HX : HexCrate, SH : Sha256, PO : Poseidon, AK : !Ark, CK : Clock, LK : LiveKit, PH : ProofHeader}.
Context `{ST : Serde ChannelType, SF : Serde FederationScope, SA : Serde AlignmentStatus.t, SP : Serde ServerPolicy}.
Context `{SL : Serde (list string)}.
(** What AppState holds: whether proofs are enforced, the verifier with the
    membership key, the tree, the voice configuration, the server's id. *)
Context (enforce_zk_proofs : bool) (json_proof : string → option SnarkJsProof).
Context (groth16 : VerifyingKey → list Fr → Proof → option bool) (membership_vkey : VerifyingKey).
Context (merkle_tree : MerkleTree) (voice : LiveKitConfig) (s : Z).

Definition verify_zk_membership_header (header : option (list byte)) (expected_commitment_hex : option string) :
    result http_error unit :=
  if negb enforce_zk_proofs then Ok ()
  else
    header_val ← ok_or header 403;
    header_str ← ok_or (header_to_str header_val) 403;
    decoded ← ok_or (b64_std_decode header_str) 403;
    payload ← ok_or (json_payload decoded) 403;
    _ ← reject_if (match expected_commitment_hex with
                   | Some expected => bool_decide (zp_commitment_hex payload ≠ expected)
                   | None => false end) 403;
    proof ← map_err (λ _, 403) (parse_proof json_proof (zp_proof payload));
    root_fr ← map_err (λ _, 403) (parse_fr_from_hex (zp_root_hex payload));
    commitment_fr ← map_err (λ _, 403) (parse_fr_from_hex (zp_commitment_hex payload));
    valid ← map_err (λ _, 403) (verify_proof groth16 membership_vkey proof [root_fr; commitment_fr]);
    _ ← reject_if (negb valid) 403;
    match root_hex merkle_tree with
    | Ok current_root => reject_if (bool_decide (current_root ≠ zp_root_hex payload)) 403
    | _ => Panic
    end.

Abbreviation Api := (M ApiState http_error).

Definition from (env : Env) (k : nat) : faults := λ j, fault env (k + j)%nat.

Definition lookup_commitment (env : Env) (k : nat) (p : string) (d : FedDb) : result http_error (option string) :=
  found ← fail_500 (find_commitment_for_pseudonym (from env k) d p);
  Ok (match found with Some (commitment, _) => Some commitment | None => None end).

(** Statements 0 to 2. *)
Definition check_proof (env : Env) (p : string) (header : option (list byte)) : Api unit :=
  d ← gets ap_db;
  commitment ← lift (lookup_commitment env 0 p d);
  lift (verify_zk_membership_header header commitment).

Definition membership (env : Env) (k : nat) (c p : string) : Api bool :=
  d ← gets ap_channels;
  lift (fail_500 (Channels.is_member (from env k) s c p d)).
Definition require_member (env : Env) (k : nat) (c p : string) : Api unit :=
  member ← membership env k c p;
  lift (reject_if (negb member) 403).
Definition fetch_channel (env : Env) (k : nat) (c : string) : Api Channel :=
  d ← gets ap_channels;
  lift (map_err channel_err_to_status (get_channel (from env k) c d)).

Definition is_voice (t : ChannelType) : bool := bool_decide (t = Voice) || bool_decide (t = Hybrid).

(** ** Channels *)

Definition check_request (r : CreateChannelRequest) : result http_error unit :=
  let len := String.length in
  _ ← reject_if (bool_decide (MAX_CHANNEL_ID_LEN < len (rq_channel_id r))%nat || bool_decide (rq_channel_id r = "")) 400;
  _ ← reject_if (bool_decide (MAX_CHANNEL_NAME_LEN < len (rq_name r))%nat || bool_decide (rq_name r = "")) 400;
  reject_if (match rq_topic r with Some t => bool_decide (MAX_TOPIC_LEN < len t)%nat | None => false end) 400.

Definition create_error (e : Channels.ChannelError) : http_error :=
  match e with Database e => if is_constraint_violation e then 409 else 500 | NotFound _ => 500 end.

Definition create_channel_handler (env : Env) (identity : PlatformIdentity) (r : CreateChannelRequest) : Api unit :=
  lift (reject_if (negb (can_moderate (pi_caps identity))) 403);;
  lift (check_request r);;
  catch_map create_error (on_channels (create_channel (from env 0) (sql_now (now env))
    {| cc_server_id := s; cc_channel_id := rq_channel_id r; cc_name := rq_name r;
       cc_channel_type := rq_channel_type r; cc_topic := rq_topic r;
       cc_vrp_topic_binding := rq_vrp_topic_binding r;
       cc_required_capabilities_json := rq_required_capabilities_json r;
       cc_agent_min_alignment := rq_agent_min_alignment r; cc_retention_days := rq_retention_days r;
       cc_federation_scope := rq_federation_scope r |}));;
  if is_voice (rq_channel_type r) && is_enabled voice then call_voice (CreateRoom (rq_channel_id r)) else mret ().

Definition list_channels_handler (env : Env) (st : ApiState) : result http_error (list Channel) :=
  map_err channel_err_to_status (list_channels (from env 0) s (ap_channels st)).

Definition get_channel_handler (env : Env) (identity : PlatformIdentity) (c : string) : Api Channel :=
  (if can_moderate (pi_caps identity) then mret () else require_member env 0 c (pi_pseudonym_id identity));;
  fetch_channel env 1 c.

Definition delete_channel_handler (env : Env) (identity : PlatformIdentity) (c : string) : Api unit :=
  lift (reject_if (negb (can_moderate (pi_caps identity))) 403);;
  catch_map channel_err_to_status (on_channels (delete_channel (from env 0) c)).

Definition get_channel_history_handler (env : Env) (identity : PlatformIdentity) (header : option (list byte))
    (c : string) (before : option string) (limit : option Z) : Api (list Message) :=
  check_proof env (pi_pseudonym_id identity) header;;
  require_member env 3 c (pi_pseudonym_id identity);;
  d ← gets ap_channels;
  lift (fail_500 (list_messages (from env 4) s c before (Z.min 200 <$> limit) d)).

(** The path's channel is checked, the history is the message's. *)
Definition get_message_edits_handler (env : Env) (identity : PlatformIdentity) (c message_id : string) :
    Api (list MessageEdit) :=
  require_member env 0 c (pi_pseudonym_id identity);;
  d ← gets ap_channels;
  lift (fail_500 (get_edit_history (from env 1) message_id d)).

(** ** Joining *)

Definition has_capability (caps : Capabilities) (name : string) : bool :=
  if decide (name = "can_voice") then can_voice caps
  else if decide (name = "can_moderate") then can_moderate caps
  else if decide (name = "can_invite") then can_invite caps
  else if decide (name = "can_federate") then can_federate caps
  else if decide (name = "can_bridge") then can_bridge caps
  else false.

Fixpoint check_capabilities (caps : Capabilities) (required : list string) : result http_error unit :=
  match required with
  | [] => Ok ()
  | req :: required => _ ← reject_if (negb (has_capability caps req)) 403; check_capabilities caps required
  end.

Definition required_capabilities (channel : Channel) : result http_error (list string) :=
  match c_required_capabilities_json channel with
  | Some json => ok_or (from_json json) 500
  | None => Ok []
  end.

(** A JSON string, or the text of one. *)
Definition double_quote : ascii := "034"%char.
Definition parse_alignment (text : string) : option AlignmentStatus.t :=
  match from_json text with
  | Some status => Some status
  | None => from_json (String double_quote (text +:+ String double_quote ""))
  end.

Definition check_alignment (channel : Channel) (status : AlignmentStatus.t) : result http_error unit :=
  _ ← reject_if (bool_decide (status = AlignmentStatus.Conflict)) 403;
  _ ← reject_if (bool_decide (status = AlignmentStatus.Partial) &&
                 bool_decide (c_channel_type channel ≠ Types.Text)) 403;
  reject_if (match c_agent_min_alignment channel with
             | Some AlignmentStatus.Partial => bool_decide (status = AlignmentStatus.Conflict)
             | Some AlignmentStatus.Aligned => bool_decide (status ≠ AlignmentStatus.Aligned)
             | _ => false
             end) 403.

(** Statement [k]: any registration of the agent, active or not. *)
Definition check_agent (env : Env) (k : nat) (p : string) (channel : Channel) : Api unit :=
  d ← gets ap_db;
  rows ← lift (fail_500 (read (fault env) k (t_select (is_agent s p) (rtx_agents (fed_rtx d)))));
  a ← lift (ok_or (head rows) 403);
  status ← lift (ok_or (parse_alignment (ar_alignment_status a)) 500);
  lift (check_alignment channel status).

(** A client that is there already stays, whatever room it is in. *)
Definition connect_agent (c p : string) : Api unit :=
  catch_map (λ _, 500) (on_voice (obtain_client voice c p));; mret ().

Definition add_to_channel (env : Env) (identity : PlatformIdentity) (c : string) : Api unit :=
  catch_map (λ _, 500) (on_channels (add_member (from env 5) (sql_now (now env)) s c (pi_pseudonym_id identity)));;
  if decide (pi_participant_type identity = AiAgent) then
    catch_map (λ _, 500) (on_edges (create_edge (from env 7) (sql_now (now env)) s (pi_pseudonym_id identity) c
      AgentServing f64_one));;
    mret ()
  else mret ().

Definition join_channel_handler (env : Env) (identity : PlatformIdentity) (header : option (list byte)) (c : string) :
    Api unit :=
  check_proof env (pi_pseudonym_id identity) header;;
  channel ← fetch_channel env 3 c;
  required ← lift (required_capabilities channel);
  lift (check_capabilities (pi_caps identity) required);;
  (if decide (pi_participant_type identity = AiAgent)
   then check_agent env 4 (pi_pseudonym_id identity) channel else mret ());;
  add_to_channel env identity c;;
  if bool_decide (pi_participant_type identity = AiAgent) && is_voice (c_channel_type channel)
  then connect_agent c (pi_pseudonym_id identity) else mret ().

(** ** Leaving *)

Definition leave_channel_handler (env : Env) (identity : PlatformIdentity) (c : string) : Api unit :=
  channel ← fetch_channel env 0 c;
  catch_map (λ _, 500) (on_channels (remove_member (from env 1) s c (pi_pseudonym_id identity)));;
  (if decide (pi_participant_type identity = AiAgent) then
     catch_map (λ _, 500) (on_edges (delete_edge (from env 2) s (pi_pseudonym_id identity) c AgentServing));;
     mret ()
   else mret ());;
  call_manager (unsubscribe c (pi_pseudonym_id identity));;
  if is_voice (c_channel_type channel) && is_enabled voice
  then call_voice (RemoveParticipant c (pi_pseudonym_id identity)) else mret ().

(** ** Voice *)

Definition join_voice_channel_handler (env : Env) (identity : PlatformIdentity) (header : option (list byte))
    (c : string) : Api JoinVoiceResponse :=
  check_proof env (pi_pseudonym_id identity) header;;
  lift (reject_if (negb (is_enabled voice) || bool_decide (get_public_url voice = "")) 503);;
  require_member env 3 c (pi_pseudonym_id identity);;
  channel ← fetch_channel env 4 c;
  lift (reject_if (negb (is_voice (c_channel_type channel))) 400);;
  token ← lift (ok_or (generate_join_token voice c (pi_pseudonym_id identity) (pi_pseudonym_id identity)) 500);
  mret {| jv_token := token; jv_url := get_public_url voice; jv_ice_servers := lk_ice_servers voice |}.

Definition leave_voice_channel_handler (env : Env) (identity : PlatformIdentity) (c : string) : Api unit :=
  require_member env 0 c (pi_pseudonym_id identity);;
  channel ← fetch_channel env 1 c;
  lift (reject_if (negb (is_voice (c_channel_type channel))) 400);;
  if is_enabled voice then call_voice (RemoveParticipant c (pi_pseudonym_id identity)) else mret ().

(** The count, and whether it is positive. *)
Definition voice_status_handler (env : Env) (identity : PlatformIdentity) (c : string) : Api (Z * bool) :=
  require_member env 0 c (pi_pseudonym_id identity);;
  let count := participant_count c in
  mret (count, 0 <? count).
End api.

(** * Theorems *)

Section theorems.
Context `{HX : HexCrate, SH : Sha256, PO : Poseidon, AK : !Ark, CK : Clock, LK : LiveKit, PH : ProofHeader}.
Context `{ST : Serde ChannelType, SF : Serde FederationScope, SA : Serde AlignmentStatus.t, SP : Serde ServerPolicy}.
Context `{SL : Serde (list string)}.
Context (enforce_zk_proofs : bool) (json_proof : string → option SnarkJsProof).
Context (groth16 : VerifyingKey → list Fr → Proof → option bool) (membership_vkey : VerifyingKey).
Context (merkle_tree : MerkleTree) (voice : LiveKitConfig) (s : Z).

Abbreviation verify := (verify_zk_membership_header enforce_zk_proofs json_proof groth16 membership_vkey merkle_tree).
Abbreviation join := (join_channel_handler enforce_zk_proofs json_proof groth16 membership_vkey merkle_tree voice s).

(** ** The membership proof *)

(** A header that proves membership, for the commitment if one is expected. *)
Definition proves_membership (header : option (list byte)) (expected : option string) : Prop :=
  ∃ hv text bytes payload proof root_fr commitment_fr,
    header = Some hv ∧ header_to_str hv = Some text ∧ b64_std_decode text = Some bytes ∧
    json_payload bytes = Some payload ∧ (∀ e, expected = Some e → zp_commitment_hex payload = e) ∧
    parse_proof json_proof (zp_proof payload) = Ok proof ∧
    parse_fr_from_hex (zp_root_hex payload) = Ok root_fr ∧
    parse_fr_from_hex (zp_commitment_hex payload) = Ok commitment_fr ∧
    verify_proof groth16 membership_vkey proof [root_fr; commitment_fr] = Ok true ∧
    root_hex merkle_tree = Ok (zp_root_hex payload).

Lemma verify_header_sound header expected root :
  root_hex merkle_tree = Ok root → enforce_zk_proofs = true → verify header expected = Ok () →
  proves_membership header expected.
Proof.
  intros Hroot He. unfold verify_zk_membership_header. rewrite He. cbn [negb]. intros H.
  destruct header as [hv|]; cbn in H; [|done]. destruct (header_to_str hv) as [text|] eqn:E1; cbn in H; [|done].
  destruct (b64_std_decode text) as [bytes|] eqn:E2; cbn in H; [|done].
  destruct (json_payload bytes) as [payload|] eqn:E3; cbn in H; [|done].
  destruct (match expected with Some _ => _ | None => _ end) eqn:E4; cbn in H; [done|].
  destruct (parse_proof json_proof (zp_proof payload)) as [proof| |] eqn:E5; cbn in H; [|done..].
  destruct (parse_fr_from_hex (zp_root_hex payload)) as [root_fr| |] eqn:E6; cbn in H; [|done..].
  destruct (parse_fr_from_hex (zp_commitment_hex payload)) as [commitment_fr| |] eqn:E7; cbn in H; [|done..].
  destruct (verify_proof groth16 membership_vkey proof [root_fr; commitment_fr]) as [[]| |] eqn:E8; cbn in H; [|done..].
  rewrite Hroot in H. apply reject_if_ok, bool_decide_eq_false, dec_stable in H. subst root.
  exists hv, text, bytes, payload, proof, root_fr, commitment_fr. do 4 (split; [done|]).
  split; [|done]. intros e ->. by apply bool_decide_eq_false, dec_stable in E4.
Qed.

Lemma verify_header_complete header expected :
  proves_membership header expected → verify header expected = Ok ().
Proof.
  intros (hv & text & bytes & payload & proof & root_fr & commitment_fr & -> & E1 & E2 & E3 & E4 & E5 & E6 & E7 & E8 & E9).
  unfold verify_zk_membership_header. destruct enforce_zk_proofs; [|done].
  cbn [negb ok_or mbind result_bind]. rewrite E1. cbn. rewrite E2. cbn. rewrite E3. cbn.
  assert (match expected with Some e => bool_decide (zp_commitment_hex payload ≠ e) | None => false end = false) as ->.
  { destruct expected as [e|]; [|done]. apply bool_decide_eq_false. intros []. by apply E4. }
  cbn. rewrite E5. cbn. rewrite E6. cbn. rewrite E7. cbn. rewrite E8. cbn. rewrite E9.
  by rewrite bool_decide_eq_false_2 by (intros []; done).
Qed.

Lemma verify_header_outcome header expected root :
  root_hex merkle_tree = Ok root → verify header expected = Ok () ∨ verify header expected = Err 403.
Proof.
  intros Hroot. unfold verify_zk_membership_header. destruct enforce_zk_proofs; cbn [negb]; [|by left].
  destruct header as [hv|]; cbn; [|by right]. destruct (header_to_str hv) as [text|]; cbn; [|by right].
  destruct (b64_std_decode text) as [bytes|]; cbn; [|by right].
  destruct (json_payload bytes) as [payload|]; cbn; [|by right].
  destruct (match expected with Some _ => _ | None => _ end); cbn; [by right|].
  destruct (parse_proof json_proof (zp_proof payload)) as [proof|e|] eqn:E5; cbn; [|by right|].
  2: { by apply parse_proof_no_panic in E5. }
  unfold parse_fr_from_hex. destruct (hex_decode (zp_root_hex payload)); cbn; [|by right].
  destruct (hex_decode (zp_commitment_hex payload)); cbn; [|by right].
  unfold verify_proof. destruct (groth16 _ _ _) as [[]|]; cbn; [|by right..].
  rewrite Hroot. destruct (bool_decide _); [by right|by left].
Qed.

(** When proofs are enforced, a request passes exactly with a header whose
    proof verifies for the current root and for the commitment in it, which is
    the one of the authenticated pseudonym; only for a pseudonym without a
    known commitment any commitment in the tree will do.  Any other header is
    answered with 403. *)
Theorem verify_zk_membership_header_spec header expected root :
  root_hex merkle_tree = Ok root →
  (verify header expected = Ok () ↔ enforce_zk_proofs = false ∨ proves_membership header expected) ∧
  (verify header expected = Ok () ∨ verify header expected = Err 403).
Proof.
  intros Hroot. split; [|by eapply verify_header_outcome]. split.
  - intros H. destruct enforce_zk_proofs eqn:He; [right|by left]. rewrite <- He in H.
    by eapply verify_header_sound.
  - intros [He|H]; [|by apply verify_header_complete]. unfold verify_zk_membership_header. by rewrite He.
Qed.

(** ** Joining and leaving *)

Lemma add_member_cases fault t c p d r d' :
  add_member fault t s c p d = (r, d') →
  (d' = d ∧ (r = Ok () → t_exists (member_key c p) (channel_members d) = true)) ∨
  (r = Ok () ∧ ∃ mk, (∀ id, member_at s c p (mk id)) ∧ d' = set_members (t_insert mk (channel_members d)).2 d).
Proof.
  unfold add_member. destruct (get_channel fault c d) as [ch|e|]; [|intros [= <- <-]; by left..].
  unfold exec. destruct (fault 1%nat); [intros [= <- <-]; by left|]. unfold insert_member.
  destruct (t_exists (member_key c p) (channel_members d)) eqn:Hk; [intros [= <- <-]; by left|].
  destruct (_ || _); cbn; intros [= <- <-]; [by left|]. right. split; [done|].
  by exists (λ id, {| cm_id := id; cm_server_id := s; cm_channel_id := c; cm_pseudonym_id := p; cm_role := "MEMBER";
                   cm_joined_at := t |}).
Qed.

Lemma create_edge_cases fault t p c kind w db r db' :
  create_edge fault t s p c kind w db = (r, db') →
  (db' = db ∧ is_ok r = false) ∨
  ∃ mk, (∀ id, is_edge s p c (edge_kind_to_str kind) (mk id)) ∧ db' = (t_insert mk db).2.
Proof.
  unfold create_edge, mbind, M_bind, catch_map, exec. destruct (fault 0%nat); cbn; [intros [= <- <-]; by left|].
  destruct (t_exists _ db); cbn; intros [= <- <-]; [by left|]. right.
  by exists (λ id, {| ge_id := id; ge_server_id := s; ge_from_node := p; ge_to_node := c;
                   ge_kind := edge_kind_to_str kind; ge_weight := w; ge_created_at := t |}).
Qed.

(** What a channel asks of those who join it. *)
Definition admits (caps : Capabilities) (kind : RoleCode) (p : string) (ch : Channel) (d : FedDb) : Prop :=
  (∃ required, required_capabilities ch = Ok required ∧ Forall (λ q, has_capability caps q = true) required) ∧
  (kind = AiAgent → ∃ a status,
     a ∈ t_rows (rtx_agents (fed_rtx d)) ∧ is_agent s p a ∧ parse_alignment (ar_alignment_status a) = Some status ∧
     status ≠ AlignmentStatus.Conflict ∧
     (status = AlignmentStatus.Partial → c_channel_type ch = Types.Text) ∧
     (c_agent_min_alignment ch = Some AlignmentStatus.Aligned → status = AlignmentStatus.Aligned)).

Lemma check_capabilities_ok caps required :
  check_capabilities caps required = Ok () ↔ Forall (λ q, has_capability caps q = true) required.
Proof.
  induction required as [|q required IH]; cbn; [by split|].
  rewrite Forall_cons. unfold reject_if. destruct (has_capability caps q); cbn; naive_solver.
Qed.

Lemma check_alignment_ok ch status :
  check_alignment ch status = Ok () ↔
  status ≠ AlignmentStatus.Conflict ∧
  (status = AlignmentStatus.Partial → c_channel_type ch = Types.Text) ∧
  (c_agent_min_alignment ch = Some AlignmentStatus.Aligned → status = AlignmentStatus.Aligned).
Proof.
  unfold check_alignment, reject_if. destruct status, (c_agent_min_alignment ch) as [[]|], (c_channel_type ch);
    vm_compute; naive_solver.
Qed.

Lemma check_agent_reads env k p ch : reads (check_agent s env k p ch).
Proof. unfold check_agent. eauto 20 with annex. Qed.
Lemma check_proof_reads env p header :
  reads (check_proof enforce_zk_proofs json_proof groth16 membership_vkey merkle_tree env p header).
Proof. unfold check_proof. eauto 20 with annex. Qed.
Lemma fetch_channel_reads env k c : reads (fetch_channel env k c).
Proof. unfold fetch_channel. eauto 20 with annex. Qed.

Lemma check_agent_ok env k p ch st st' :
  check_agent s env k p ch st = (Ok (), st') →
  ∃ a status, a ∈ t_rows (rtx_agents (fed_rtx (ap_db st))) ∧ is_agent s p a ∧
    parse_alignment (ar_alignment_status a) = Some status ∧ check_alignment ch status = Ok ().
Proof.
  unfold check_agent, mbind, M_bind, gets, lift. intros H. unfold read in H.
  destruct (fault env k); [done|]. cbn in H.
  destruct (t_select (is_agent s p) _) as [|a rows] eqn:E; [done|]. cbn in H.
  destruct (parse_alignment _) as [status|] eqn:Ea; [|done]. cbn in H. injection H as Hc _.
  assert (a ∈ t_select (is_agent s p) (rtx_agents (fed_rtx (ap_db st)))) as [Ha Hin]%elem_of_t_select
    by (rewrite E; left). by exists a, status.
Qed.

(** A row that is [mine] is added, or none. *)
Definition grows {A} (mine : A → Prop) (t t' : table A) : Prop :=
  t' = t ∨ ∃ mk, (∀ id, mine (mk id)) ∧ t' = (t_insert mk t).2.

(** The voice clients as they were, or with one for [p], who had none, in the
    room of [c]. *)
Definition client_joined (c p : string) (v v' : VoiceState) : Prop :=
  vo_tts v' = vo_tts v ∧ vo_stt v' = vo_stt v ∧ vo_published v' = vo_published v ∧
  vo_left_running v' = vo_left_running v ∧
  (vo_sessions v' = vo_sessions v ∧ vo_forwarders v' = vo_forwarders v ∨
   vo_sessions v !! p = None ∧
   ∃ client, av_room_name client = c ∧ vo_sessions v' = <[p := client]> (vo_sessions v) ∧
     vo_forwarders v' = vo_forwarders v ++ [(av_id client, p)]).

(** All that a join of [p] to [c] changes; [talks] says that [c] is a voice
    channel. *)
Definition joined (kind : RoleCode) (talks : bool) (c p : string) (st st' : ApiState) : Prop :=
  ∃ ms es v,
    st' = {| ap_db := set_fed_channels (set_members ms (ap_channels st)) (ap_db st); ap_edges := es;
             ap_mgr := ap_mgr st; ap_voice := v; ap_calls := ap_calls st |} ∧
    grows (member_at s c p) (channel_members (ap_channels st)) ms ∧
    (es = ap_edges st ∨ kind = AiAgent ∧ grows (is_edge s p c "AGENT_SERVING") (ap_edges st) es) ∧
    (v = ap_voice st ∨ kind = AiAgent ∧ talks = true ∧ client_joined c p (ap_voice st) v).

(** What is there once a join has succeeded. *)
Definition present (kind : RoleCode) (talks : bool) (c p : string) (st : ApiState) : Prop :=
  t_exists (member_key c p) (channel_members (fed_channels (ap_db st))) = true ∧
  (kind = AiAgent → t_exists (is_edge s p c "AGENT_SERVING") (ap_edges st) = true ∧
                    (talks = true → is_Some (vo_sessions (ap_voice st) !! p))).

Lemma on_add_member env c p st r st' :
  catch_map (λ _, 500) (on_channels (add_member (from env 5) (sql_now (now env)) s c p)) st = (r, st') →
  (∃ ms, grows (member_at s c p) (channel_members (ap_channels st)) ms ∧
     st' = set_ap_db (set_fed_channels (set_members ms (ap_channels st)) (ap_db st)) st) ∧
  (r = Ok () → t_exists (member_key c p) (channel_members (fed_channels (ap_db st'))) = true).
Proof.
  unfold catch_map, on_channels, zoom.
  destruct (add_member _ _ _ _ _ _) as [r1 d1] eqn:Ha. intros [= <- <-].
  apply add_member_cases in Ha as [[-> Hr]|(-> & mk & Hmk & ->)].
  - split; [|intros E; apply Hr; by apply map_err_ok in E].
    exists (channel_members (ap_channels st)). split; [by left|]. by destruct (ap_channels st).
  - split; [eexists; split; [|done]; right; by exists mk|]. intros _. cbn -[t_insert].
    apply t_exists_insert. intros id. by destruct (Hmk id).
Qed.

Lemma on_create_edge env c p st r st' :
  catch_map (λ _, 500) (on_edges (create_edge (from env 7) (sql_now (now env)) s p c AgentServing f64_one)) st = (r, st') →
  (∃ es, grows (is_edge s p c "AGENT_SERVING") (ap_edges st) es ∧ st' = set_ap_edges es st) ∧
  (is_ok r = true → t_exists (is_edge s p c "AGENT_SERVING") (ap_edges st') = true).
Proof.
  unfold catch_map, on_edges, zoom.
  destruct (create_edge _ _ _ _ _ _ _ _) as [r1 d1] eqn:Ha. intros [= <- <-].
  apply create_edge_cases in Ha as [[-> Hr]|(mk & Hmk & ->)].
  - split; [eexists; split; [by left|done]|]. by destruct r1.
  - split; [eexists; split; [right; by exists mk|done]|]. intros _. cbn -[t_insert]. by apply t_exists_insert.
Qed.

Lemma add_to_channel_cases env identity c st r st' :
  add_to_channel s env identity c st = (r, st') →
  joined (pi_participant_type identity) false c (pi_pseudonym_id identity) st st' ∧
  (r = Ok () → present (pi_participant_type identity) false c (pi_pseudonym_id identity) st').
Proof.
  unfold add_to_channel, mbind, M_bind, joined, present.
  destruct (catch_map _ (on_channels _) st) as [r1 st1] eqn:E1.
  apply on_add_member in E1 as ((ms & Hg & Est) & Hm).
  assert (∃ ms es v, st1 = {| ap_db := set_fed_channels (set_members ms (ap_channels st)) (ap_db st); ap_edges := es;
             ap_mgr := ap_mgr st; ap_voice := v; ap_calls := ap_calls st |} ∧
    grows (member_at s c (pi_pseudonym_id identity)) (channel_members (ap_channels st)) ms ∧
    es = ap_edges st ∧ v = ap_voice st) as Hfirst by (by repeat eexists).
  clear ms Hg Est. destruct Hfirst as (ms & es & v & Est & Hg & -> & ->).
  destruct r1 as [[]|e|]; [|intros [= <- <-]; split; [naive_solver|done]..]. specialize (Hm eq_refl).
  destruct (decide (pi_participant_type identity = AiAgent)) as [Ha|Ha]; [|intros [= <- <-]; naive_solver].
  destruct (catch_map _ (on_edges _) st1) as [r2 st2] eqn:E2.
  apply on_create_edge in E2 as ((es & He & Est2) & Hm2). rewrite Est in He, Est2. cbn in He, Est2.
  assert (channel_members (fed_channels (ap_db st2)) = channel_members (fed_channels (ap_db st1))) as Ed
    by (by rewrite Est2, Est).
  intros H. assert (st' = st2 ∧ (r = Ok () → is_ok r2 = true)) as [-> Hr] by (destruct r2; by injection H as <- <-).
  split; [exists ms, es, (ap_voice st); by auto 10|]. intros Hok. rewrite Ed. split; [done|]. intros _.
  split; [by apply Hm2, Hr|done].
Qed.

Lemma obtain_client_joined c p v r v' :
  obtain_client voice c p v = (r, v') →
  client_joined c p v v' ∧ (is_ok r = true → is_Some (vo_sessions v' !! p)).
Proof.
  unfold obtain_client, mbind, M_bind, gets, client_joined. destruct (vo_sessions v !! p) as [client|] eqn:Ep.
  { intros [= <- <-]. rewrite Ep. split_and!; eauto. }
  unfold new_client, connect. destruct (generate_join_token _ _ _ _); [|intros [= <- <-]; cbn; split; [split_and!; auto|discriminate]].
  destruct client_builds; cbn; [|intros [= <- <-]; cbn; split; [split_and!; auto|discriminate]].
  unfold enter_session. cbn. rewrite Ep. intros [= <- <-]. cbn. split; [|rewrite lookup_insert_eq; by eexists].
  split_and!; [done..|]. right. split; [done|]. eexists. split; [|by split]. done.
Qed.

Lemma connect_agent_cases c p st r st' :
  connect_agent voice c p st = (r, st') →
  ∃ v, st' = set_ap_voice v st ∧ client_joined c p (ap_voice st) v ∧
    (r = Ok () → is_Some (vo_sessions v !! p)).
Proof.
  unfold connect_agent, mbind, M_bind, catch_map, on_voice, zoom.
  destruct (obtain_client voice c p (ap_voice st)) as [r1 v] eqn:E. apply obtain_client_joined in E as [Hv Hr].
  destruct r1; intros [= <- <-]; exists v; (split; [done|split; [done|]]); [intros _; by apply Hr|done..].
Qed.

Lemma check_proof_ok env p header st st' :
  check_proof enforce_zk_proofs json_proof groth16 membership_vkey merkle_tree env p header st = (Ok (), st') →
  ∃ commitment, lookup_commitment env 0 p (ap_db st) = Ok commitment ∧ verify header commitment = Ok ().
Proof.
  unfold check_proof, mbind, M_bind, gets, lift. destruct (lookup_commitment _ _ _ _) as [commitment| |]; [|done..].
  intros [= H _]. by exists commitment.
Qed.

Lemma fetch_channel_ok env k c st ch st' :
  fetch_channel env k c st = (Ok ch, st') →
  ∃ row, row ∈ t_rows (channels (fed_channels (ap_db st))) ∧ ch_channel_id row = c ∧ map_row_to_channel row = Ok ch.
Proof.
  unfold fetch_channel, mbind, M_bind, gets, lift. intros [= H _]. apply map_err_ok in H. by eapply get_channel_ok.
Qed.

(** Being added, then the agent's voice client. *)
Lemma joined_by env identity ch c st r st' :
  (add_to_channel s env identity c;;
   if bool_decide (pi_participant_type identity = AiAgent) && is_voice (c_channel_type ch)
   then connect_agent voice c (pi_pseudonym_id identity) else mret ()) st = (r, st') →
  joined (pi_participant_type identity) (is_voice (c_channel_type ch)) c (pi_pseudonym_id identity) st st' ∧
  (r = Ok () →
   present (pi_participant_type identity) (is_voice (c_channel_type ch)) c (pi_pseudonym_id identity) st').
Proof.
  intros H. unfold mbind, M_bind in H. destruct (add_to_channel _ _ _ _ _) as [r1 st1] eqn:E.
  apply add_to_channel_cases in E as [(ms & es & v & Est & Hm & He & Hv) Hp].
  assert (v = ap_voice st) as -> by naive_solver. unfold joined.
  destruct r1 as [[]|e|]; [|injection H as <- <-; split; [naive_solver|done]..].
  specialize (Hp eq_refl). unfold present in *.
  destruct (bool_decide_reflect (pi_participant_type identity = AiAgent)) as [Ha|Ha]; cbn in H.
  2: { injection H as <- <-. split; [naive_solver|]. intros _. split; [apply Hp|done]. }
  destruct (is_voice (c_channel_type ch)).
  2: { injection H as <- <-. split; [naive_solver|]. intros _. split; [apply Hp|]. intros _. by split; [apply Hp|]. }
  apply connect_agent_cases in H as (v & Est' & Hc & Hr). rewrite Est in Hc. cbn in Hc.
  split; [exists ms, es, v; split_and!; auto; by rewrite Est', Est|]. intros Hok. rewrite Est'. cbn.
  split; [apply Hp|]. intros _. split; [by apply Hp|]. intros _. by apply Hr.
Qed.

(** C17. Nobody gets into a channel that does not admit it: a join either
    changes nothing, or the proof of membership was accepted for the
    pseudonym's commitment, the channel exists, the identity holds every
    capability the channel requires, and an agent is registered with an
    alignment that is not Conflict, Partial only for a text channel, and Aligned
    if the channel asks for that.  All that a join then changes is the
    membership of this identity and, for an agent, its edge to the channel and,
    in a voice channel, its voice client if it had none; they are there when
    the join succeeds, and the rest of the state is as it was either way. *)
Theorem join_channel_admits env identity header c st :
  let p := pi_pseudonym_id identity in
  let '(r, st') := join env identity header c st in
  (is_ok r = false ∧ st' = st) ∨
  ∃ commitment row ch,
    lookup_commitment env 0 p (ap_db st) = Ok commitment ∧ verify header commitment = Ok () ∧
    row ∈ t_rows (channels (fed_channels (ap_db st))) ∧ ch_channel_id row = c ∧ map_row_to_channel row = Ok ch ∧
    admits (pi_caps identity) (pi_participant_type identity) p ch (ap_db st) ∧
    joined (pi_participant_type identity) (is_voice (c_channel_type ch)) c p st st' ∧
    (r = Ok () → present (pi_participant_type identity) (is_voice (c_channel_type ch)) c p st').
Proof.
  cbv zeta. destruct (join env identity header c st) as [r st'] eqn:H. unfold join_channel_handler in H.
  apply M_bind_reads_cases in H as [?|([] & Hproof & H)]; [by left| |apply check_proof_reads].
  apply M_bind_reads_cases in H as [?|(ch & Hch & H)]; [by left| |apply fetch_channel_reads].
  apply M_bind_reads_cases in H as [?|(required & Hreq & H)]; [by left| |apply reads_lift].
  apply M_bind_reads_cases in H as [?|([] & Hcaps & H)]; [by left| |apply reads_lift].
  apply M_bind_reads_cases in H as [?|([] & Hagent & H)]; [by left| |].
  2: { destruct (decide _); [apply check_agent_reads|apply reads_ret]. }
  right. apply check_proof_ok in Hproof as (commitment & Hl & Hv).
  apply fetch_channel_ok in Hch as (row & Hrow & Hid & Hmap).
  apply lift_ok in Hreq as [Hreq _]. apply lift_ok in Hcaps as [Hcaps _]. apply check_capabilities_ok in Hcaps.
  exists commitment, row, ch. do 5 (split; [done|]). split; [split|by apply joined_by in H].
  - by exists required.
  - intros Ha. rewrite decide_True in Hagent by done.
    apply check_agent_ok in Hagent as (a & status & Hin & Hof & Hs & Hal).
    apply check_alignment_ok in Hal. by exists a, status.
Qed.

Lemma add_to_channel_edge env identity c st r st' :
  pi_participant_type identity = AiAgent →
  t_exists (is_edge s (pi_pseudonym_id identity) c "AGENT_SERVING") (ap_edges st) = true →
  add_to_channel s env identity c st = (r, st') → is_ok r = false.
Proof.
  intros Ha He. unfold add_to_channel, mbind, M_bind. rewrite decide_True by done.
  destruct (catch_map _ (on_channels _) st) as [r1 st1] eqn:E1.
  apply on_add_member in E1 as ((ms & _ & Est) & _).
  assert (ap_edges st1 = ap_edges st) as Hedge by (by rewrite Est). destruct r1 as [[]|e|]; [|by intros [= <- <-]..].
  unfold catch_map, on_edges, zoom, create_edge, mbind, M_bind. rewrite Hedge. unfold exec, catch_map.
  destruct (from env 7 0%nat); cbn; [by intros [= <- <-]|].
  change (edge_kind_to_str AgentServing) with "AGENT_SERVING". rewrite He. cbn. by intros [= <- <-].
Qed.

Lemma add_to_channel_sessions env identity c st :
  ap_voice (add_to_channel s env identity c st).2 = ap_voice st.
Proof.
  unfold add_to_channel, mbind, M_bind, catch_map, on_channels, zoom.
  destruct (add_member _ _ _ _ _ _) as [[[]|e|] d]; cbn; [|done..].
  destruct (decide _); [|done]. unfold on_edges, zoom. by destruct (create_edge _ _ _ _ _ _ _ _) as [[] ?].
Qed.

(** An agent joins a channel once: where it already serves, joining again
    fails (while any other identity may join again).  And its voice client is
    connected once: with a session open, joining a voice channel opens none. *)
Theorem agent_rejoin env identity header c st :
  pi_participant_type identity = AiAgent →
  let p := pi_pseudonym_id identity in
  let '(r, st') := join env identity header c st in
  (t_exists (is_edge s p c "AGENT_SERVING") (ap_edges st) = true → is_ok r = false) ∧
  (∀ client, vo_sessions (ap_voice st) !! p = Some client → ap_voice st' = ap_voice st).
Proof.
  intros Ha. cbv zeta. destruct (join env identity header c st) as [r st'] eqn:H. unfold join_channel_handler in H.
  apply M_bind_reads_cases in H as [[Hr ->]|([] & _ & H)]; [by split| |apply check_proof_reads].
  apply M_bind_reads_cases in H as [[Hr ->]|(ch & _ & H)]; [by split| |apply fetch_channel_reads].
  apply M_bind_reads_cases in H as [[Hr ->]|(required & _ & H)]; [by split| |apply reads_lift].
  apply M_bind_reads_cases in H as [[Hr ->]|([] & _ & H)]; [by split| |apply reads_lift].
  apply M_bind_reads_cases in H as [[Hr ->]|([] & _ & H)]; [by split| |].
  2: { destruct (decide _); [apply check_agent_reads|apply reads_ret]. }
  unfold mbind, M_bind in H. destruct (add_to_channel _ _ _ _ _) as [r1 st1] eqn:E.
  pose proof (add_to_channel_sessions env identity c st) as Hs. rewrite E in Hs. cbn in Hs.
  split.
  - intros He. eapply add_to_channel_edge in E; [|done..]. destruct r1; [done|..]; by injection H as <- <-.
  - intros client Hp. rewrite <- Hs in Hp. rewrite <- Hs. destruct r1 as [[]|e|]; [|by injection H as <- <-..].
    destruct (_ && _); [|by injection H as <- <-].
    unfold connect_agent, mbind, M_bind, catch_map, on_voice, zoom in H.
    rewrite (obtain_client_open voice c (pi_pseudonym_id identity) client) in H by done. injection H as <- <-. by destruct st1.
Qed.

(** What a leave does to the database and to the subscriptions. *)
Definition left_channel (kind : RoleCode) (c p : string) (st st' : ApiState) : Prop :=
  fed_channels (ap_db st') =
    set_members (t_delete (member_at s c p) (channel_members (fed_channels (ap_db st)))).2 (fed_channels (ap_db st)) ∧
  ap_edges st' = (if decide (kind = AiAgent) then (t_delete (is_edge s p c "AGENT_SERVING") (ap_edges st)).2
                  else ap_edges st) ∧
  ap_mgr st' = (alone (unsubscribe c p) (ap_mgr st)).2 ∧
  ap_voice st' = ap_voice st.

Abbreviation leave := (leave_channel_handler voice s).

Lemma leave_ok env identity c st st' :
  leave env identity c st = (Ok (), st') →
  left_channel (pi_participant_type identity) c (pi_pseudonym_id identity) st st'.
Proof.
  unfold leave_channel_handler. intros (ch & st1 & H1 & H)%M_bind_ok.
  pose proof (fetch_channel_reads env 0 c st) as Hr. rewrite H1 in Hr. cbn in Hr. subst st1.
  apply M_bind_ok in H as ([] & st1 & H2 & H). apply M_bind_ok in H as ([] & st2 & H3 & H).
  apply M_bind_ok in H as ([] & st3 & H4 & H).
  unfold remove_member, catch_map, on_channels, zoom, mbind, M_bind, exec in H2.
  destruct (from env 1 0%nat); [done|]. cbn in H2. injection H2 as <-.
  unfold catch_map, on_edges, zoom, delete_edge, mbind, M_bind, exec, catch_map in H3.
  unfold left_channel. injection H4 as <-.
  destruct (decide (pi_participant_type identity = AiAgent)).
  - destruct (from env 2 0%nat); [done|]. cbn in H3. injection H3 as <-.
    destruct (is_voice (c_channel_type ch) && is_enabled voice); by injection H as <-.
  - injection H3 as <-. destruct (is_voice (c_channel_type ch) && is_enabled voice); by injection H as <-.
Qed.

Lemma leave_fails env identity c st r st' :
  leave env identity c st = (r, st') → is_ok r = false →
  ap_mgr st' = ap_mgr st ∧ ap_edges st' = ap_edges st ∧
  (ap_db st' = ap_db st ∨
   pi_participant_type identity = AiAgent ∧ Channels.member (fed_channels (ap_db st')) s c (pi_pseudonym_id identity) = false).
Proof.
  unfold leave_channel_handler. intros H Hr.
  apply M_bind_reads_cases in H as [[_ ->]|(ch & _ & H)]; [by auto| |apply fetch_channel_reads].
  unfold remove_member, catch_map, on_channels, zoom, mbind, M_bind, exec in H.
  destruct (from env 1 0%nat); cbn in H.
  { destruct st as [[] ? ? ? ?]. injection H as <- <-. by auto. }
  destruct (decide (pi_participant_type identity = AiAgent)) as [Ha|Ha].
  2: { cbn in H. destruct (_ && _); by injection H as <- <-. }
  unfold on_edges, zoom, delete_edge, exec, catch_map in H. destruct (from env 2 0%nat); cbn in H.
  2: { destruct (is_voice _ && _); by injection H as <- <-. }
  injection H as <- <-. do 2 (split; [done|]). right. split; [done|].
  unfold Channels.member. apply t_exists_false. cbn. intros m [Hm _]%list_elem_of_filter. exact Hm.
Qed.

(** Who leaves a channel is no member of it any more, an agent does not
    serve it, and no message of the channel reaches them; everyone else stays
    a member and a listener.  A leave that fails keeps the subscription, though it may
    have ended an agent's membership. *)
Theorem leave_channel_spec env identity c st :
  consistent (ap_mgr st) →
  let p := pi_pseudonym_id identity in
  let '(r, st') := leave env identity c st in
  let members := Channels.member (fed_channels (ap_db st)) in
  let members' := Channels.member (fed_channels (ap_db st')) in
  (r = Ok () →
   members' s c p = false ∧ ¬ listens (ap_mgr st') c p ∧
   (pi_participant_type identity = AiAgent → t_exists (is_edge s p c "AGENT_SERVING") (ap_edges st') = false) ∧
   (∀ s' c' p', (s', c', p') ≠ (s, c, p) → members' s' c' p' = members s' c' p') ∧
   (∀ c' p', (c', p') ≠ (c, p) → listens (ap_mgr st') c' p' ↔ listens (ap_mgr st) c' p') ∧
   messages (fed_channels (ap_db st')) = messages (fed_channels (ap_db st))) ∧
  (is_ok r = false →
   ap_mgr st' = ap_mgr st ∧
   (ap_db st' = ap_db st ∨ pi_participant_type identity = AiAgent ∧ members' s c p = false)).
Proof.
  intros Hc. cbv zeta. destruct (leave env identity c st) as [r st'] eqn:H. split; [intros ->|].
  2: { intros Hr. eapply leave_fails in H as (? & _ & ?); done. }
  apply leave_ok in H as (Hd & He & Hm & _). rewrite Hd, He, Hm. unfold Channels.member.
  destruct (unsubscribe_alone c (pi_pseudonym_id identity) _ Hc) as (_ & _ & Hl).
  split; [apply t_exists_false; cbn; by intros m [Hn _]%list_elem_of_filter|].
  split; [by intros [_ []]%Hl|].
  split. { intros Ha. rewrite decide_True by done. apply t_exists_false. cbn. by intros m [Hn _]%list_elem_of_filter. }
  split; [intros s' c' p' Hne; by apply member_removed|]. split; [|done].
  intros c' p' Hne. rewrite Hl. split; [by intros [? _]|]. intros ?. split; [done|]. intros [-> ->]. by apply Hne.
Qed.

(** ** Reading *)

Lemma membership_ok env k c p st b st' :
  membership s env k c p st = (Ok b, st') → b = Channels.member (fed_channels (ap_db st)) s c p ∧ st' = st.
Proof.
  unfold membership, mbind, M_bind, gets, lift, fail_500, Channels.is_member, read.
  destruct (from env k 0%nat); cbn; [done|]. by intros [= <- <-].
Qed.
Lemma membership_reads env k c p : reads (membership s env k c p).
Proof. unfold membership. eauto 20 with annex. Qed.
Lemma require_member_reads env k c p : reads (require_member s env k c p).
Proof. unfold require_member. eauto 20 using membership_reads with annex. Qed.

Lemma require_member_ok env k c p st st' :
  require_member s env k c p st = (Ok (), st') → Channels.member (fed_channels (ap_db st)) s c p = true.
Proof.
  unfold require_member. intros (b & st1 & [-> _]%membership_ok & [H _]%lift_ok)%M_bind_ok.
  by apply reject_if_ok, negb_false_iff in H.
Qed.

Abbreviation checked h := (h enforce_zk_proofs json_proof groth16 membership_vkey merkle_tree).

End theorems.

(** ** Witnesses *)

Section witnesses.
#[local] Existing Instances hex_reference toy_poseidon toy_clock toy_sha256 toy_type_serde toy_scope_serde
  toy_alignment_serde toy_policy_serde tags_serde.
#[local] Existing Instance toy_ark.
#[local] Instance toy_livekit : LiveKit :=
  {| to_jwt _ _ _ _ _ _ := Some "jwt"; list_participants _ := Some 1%nat; client_builds := true |}.
Definition toy_payload (root : string) : ZkProofPayload :=
  {| zp_proof := "proof"; zp_root_hex := root; zp_commitment_hex := "05" |}.
#[local] Instance toy_header : ProofHeader :=
  {| header_to_str bs := Some (String.string_of_list_byte bs);
     b64_std_decode t := Some (String.list_byte_of_string t);
     json_payload bs := Some (toy_payload (String.string_of_list_byte bs)) |}.
Definition toy_proof_json (t : string) : option SnarkJsProof :=
  Some {| pi_a := ["1"; "2"]; pi_b := [["1"; "2"]; ["1"; "2"]]; pi_c := ["1"; "2"] |}.
Definition toy_vkey : VerifyingKey :=
  {| alpha_g1 := (1, 1)%nat; beta_g2 := ((1, 1), (1, 1))%nat; gamma_g2 := ((1, 1), (1, 1))%nat;
     delta_g2 := ((1, 1), (1, 1))%nat; gamma_abc_g1 := [] |}.
Definition toy_groth16 : VerifyingKey → list Fr → Proof → option bool := λ _ _ _, Some true.
Definition toy_merkle : MerkleTree := {| depth := 0; next_index := 0; nodes := ∅; zeros := [fr_zero] |}.
Definition toy_root : string := fr_hex fr_zero.

(** A header for another root is refused, one for the current root and for
    another commitment too. *)
Lemma verify_zk_membership_header_spec_witness :
  root_hex toy_merkle = Ok toy_root ∧
  let verify := verify_zk_membership_header true toy_proof_json toy_groth16 toy_vkey toy_merkle in
  verify (Some (String.list_byte_of_string toy_root)) (Some "05") = Ok () ∧
  verify (Some (String.list_byte_of_string "00")) (Some "05") = Err 403 ∧
  verify (Some (String.list_byte_of_string toy_root)) (Some "06") = Err 403 ∧
  (verify None None = Ok () ↔ true = false ∨ proves_membership toy_proof_json toy_groth16 toy_vkey toy_merkle None None).
Proof.
  assert (root_hex toy_merkle = Ok toy_root) as Hroot by (by vm_compute).
  split; [exact Hroot|]. cbv zeta. do 3 (split; [by vm_compute|]).
  apply (verify_zk_membership_header_spec true toy_proof_json toy_groth16 toy_vkey toy_merkle None None toy_root Hroot).
Defined.

Definition toy_agent : PlatformIdentity :=
  {| pi_id := 1; pi_server_id := 1; pi_pseudonym_id := "alice"; pi_participant_type := AiAgent;
     pi_caps := {| can_voice := false; can_moderate := false; can_invite := false; can_federate := false;
                   can_bridge := false |};
     pi_active := true; pi_created_at := ""; pi_updated_at := "" |}.
Definition toy_serving : GraphEdgeRow :=
  {| ge_id := 1; ge_server_id := 1; ge_from_node := "alice"; ge_to_node := "general"; ge_kind := "AGENT_SERVING";
     ge_weight := f64_one; ge_created_at := "" |}.
Definition toy_voice : LiveKitConfig :=
  {| lk_url := "ws"; lk_public_url := ""; lk_api_key := ""; lk_api_secret := ""; lk_token_ttl_seconds := 60;
     lk_ice_servers := [] |}.
Definition toy_api : ApiState :=
  {| ap_db := toy_fed; ap_edges := Table [toy_serving] 1; ap_mgr := Manager_new ∅; ap_voice := VoiceState_new (TtsService_new "voices" "piper" "bark") {| st_model_path := "model"; st_binary_path := "stt" |};
     ap_calls := [] |}.

Lemma agent_rejoin_witness :
  is_ok (join_channel_handler false toy_proof_json toy_groth16 toy_vkey toy_merkle toy_voice 1
    toy_env toy_agent None "general" toy_api).1 = false.
Proof.
  pose proof (agent_rejoin false toy_proof_json toy_groth16 toy_vkey toy_merkle toy_voice 1 toy_env toy_agent None
    "general" toy_api eq_refl) as H.
  destruct (join_channel_handler _ _ _ _ _ _ _ _ _ _ _ _) as [r st']. destruct H as [H _]. apply H. by vm_compute.
Defined.

Lemma leave_channel_spec_witness :
  let '(r, st') := leave_channel_handler toy_voice 1 toy_env toy_agent "general" toy_api in
  r = Ok () ∧ t_exists (is_edge 1 "alice" "general" "AGENT_SERVING") (ap_edges st') = false.
Proof.
  pose proof (leave_channel_spec toy_voice 1 toy_env toy_agent "general" toy_api (consistent_new _)) as H.
  assert ((leave_channel_handler toy_voice 1 toy_env toy_agent "general" toy_api).1 = Ok ()) as Hr by (by vm_compute).
  destruct (leave_channel_handler _ _ _ _ _ _) as [r st']. cbn in Hr. subst r.
  split; [done|]. destruct H as [H _]. destruct (H eq_refl) as (_ & _ & He & _). by apply He.
Defined.
End witnesses.
