(* ===== verification/Api.v ===== *)
(** * Api: registration, verification and the identities

    crates/annex-server/src/api.rs, which composes the identity crate (Merkle,
    Registry, Identity, Platform), the proofs of Zk, the graph and the event
    log: a commitment is registered, a proof of membership makes a platform
    identity of it, and asking for an identity repairs a server without
    moderators.  None of these endpoints is behind the authentication. *)

From S2P Require Import RateLimit.
From S2P Require Import Prelude Sql Bytes Types Identity Merkle Registry Observe Platform Graph.
From S2P Require Import Handlers Agents Rtx Zk Federation.

#[local] Open Scope Z_scope.

(** ** State *)

(** The tables behind the endpoints; [vd_servers] are the ids in the order of
    the table.  The Merkle tree is in memory. *)
Record VerifyDb := {
  vd_registry : RegDb;
  vd_nullifiers : table NullifierRow;
  vd_platform : table PlatformRow;
  vd_nodes : table GraphNodeRow;
  vd_agents : table AgentRow;
  vd_servers : list Z;
  vd_events : table PublicEvent;
}.
Definition set_vd_registry (r : RegDb) (d : VerifyDb) : VerifyDb :=
  {| vd_registry := r; vd_nullifiers := vd_nullifiers d; vd_platform := vd_platform d; vd_nodes := vd_nodes d;
     vd_agents := vd_agents d; vd_servers := vd_servers d; vd_events := vd_events d |}.
Definition set_vd_nullifiers (t : table NullifierRow) (d : VerifyDb) : VerifyDb :=
  {| vd_registry := vd_registry d; vd_nullifiers := t; vd_platform := vd_platform d; vd_nodes := vd_nodes d;
     vd_agents := vd_agents d; vd_servers := vd_servers d; vd_events := vd_events d |}.
Definition set_vd_platform (t : table PlatformRow) (d : VerifyDb) : VerifyDb :=
  {| vd_registry := vd_registry d; vd_nullifiers := vd_nullifiers d; vd_platform := t; vd_nodes := vd_nodes d;
     vd_agents := vd_agents d; vd_servers := vd_servers d; vd_events := vd_events d |}.
Definition set_vd_nodes (t : table GraphNodeRow) (d : VerifyDb) : VerifyDb :=
  {| vd_registry := vd_registry d; vd_nullifiers := vd_nullifiers d; vd_platform := vd_platform d; vd_nodes := t;
     vd_agents := vd_agents d; vd_servers := vd_servers d; vd_events := vd_events d |}.
#[export] Instance verify_log : HasLog VerifyDb := {|
  event_log := vd_events;
  set_log t d :=
    {| vd_registry := vd_registry d; vd_nullifiers := vd_nullifiers d; vd_platform := vd_platform d;
       vd_nodes := vd_nodes d; vd_agents := vd_agents d; vd_servers := vd_servers d; vd_events := t |} |}.
Abbreviation VerifyState := (State VerifyDb).

(** serde_json: the [Value] of a text, and the text of the metadata object of
    an agent (alignment, scope, contract, reputation). *)
Class AgentMetadata := {
  JsonValue : Type;
  json_value : string → option JsonValue;
  metadata_text : string → string → JsonValue → f32 → string;
}.

Record RegisterRequest := { rg_commitment_hex : string; rg_role_code : Z; rg_node_id : Z }.
(** [vm_proof] is the text of the proof's JSON. *)
Record VerifyMembershipRequest := {
  vm_root : string;
  vm_commitment : string;
  vm_topic : string;
  vm_proof : string;
  vm_public_signals : list string;
}.

(** [format!("{:?}", node_type)]. *)
Definition node_type_debug (t : NodeType.t) : string :=
  match t with
  | NodeType.Human => "Human" | NodeType.AiAgent => "AiAgent" | NodeType.Collective => "Collective"
  | NodeType.Bridge => "Bridge" | NodeType.Service => "Service"
  end.

Definition root_is (hex : string) (r : RootRow) : Prop := rt_root_hex r = hex.
#[export] Instance root_is_dec hex r : Decision (root_is hex r).
Proof. unfold root_is. apply _. Defined.

Section api.
Context `{HX : HexCrate, SH : Sha256, PO : Poseidon, AK : !Ark, CK : Clock, AM : AgentMetadata}.
Context `{SE : Serde EventPayload.t, SL : Serde (list string)}.
(** What AppState holds: the reader of proofs, the verifier and its key, the
    server's id. *)
Context (json_proof : string → option SnarkJsProof).
Context (groth16 : VerifyingKey → list Fr → Zk.Proof → option bool) (membership_vkey : VerifyingKey) (s : Z).

Abbreviation query := (on_db (D := VerifyDb) (λ _ : sql_error, 500 : http_error)).
Abbreviation Api := (M VerifyState http_error).

(** ** The registry *)

Definition register_status (e : IdentityError) : http_error :=
  match e with
  | InvalidCommitmentFormat | InvalidRoleCode _ | InvalidHex => 400
  | DuplicateCommitment _ => 409
  | _ => 500
  end.

(** Statements 0 to 5 are those of [register_identity]. *)
Definition register_handler (env : Env) (r : RegisterRequest) : M (MerkleTree * VerifyState) http_error RegistrationResult :=
  role ← lift (ok_or (role_from_u8 (rg_role_code r)) 400);
  result ← catch_map register_status
    (zoom (λ '(t, st), (t, vd_registry (db st))) (λ '(t, reg) '(_, st), (t, set_db (set_vd_registry reg (db st)) st))
      (register_identity (fault env) (sql_now (now env)) (rg_commitment_hex r) role (rg_node_id r)));
  zoom snd (λ st '(t, _), (t, st))
    (emit env 6 s (rg_commitment_hex r) (EventPayload.IdentityRegistered (rg_commitment_hex r) (role_as_u8 role)));;
  mret result.

Definition get_path_handler (env : Env) (commitment_hex : string) (t : MerkleTree) (st : VerifyState) :
    result http_error (N * string * list string * list Z) :=
  map_err (λ e, match e with CommitmentNotFound _ => 404 | _ => 500 end)
    (get_path_for_commitment (fault env) t (vd_registry (db st)) commitment_hex).

Definition get_current_root_handler (env : Env) (t : MerkleTree) (st : VerifyState) : result http_error GetRootResponse :=
  match root_hex t with
  | Ok hex =>
      row ← map_err (λ _, 500) (read (fault env) 0
              (head (filter (root_is hex) (vrp_roots (rg_merkle (vd_registry (db st)))))));
      Ok {| gr_root_hex := hex; gr_leaf_count := next_index t; gr_updated_at := rt_created_at <$> row |}
  | _ => Panic
  end.

Definition get_topics_handler (env : Env) (st : VerifyState) : result http_error (list VrpTopic) :=
  map_err (λ _, 500) (read (fault env) 0 (get_all_topics (vd_registry (db st)))).
Definition get_roles_handler (env : Env) (st : VerifyState) : result http_error (list VrpRoleEntry) :=
  map_err (λ _, 500) (read (fault env) 0 (get_all_roles (vd_registry (db st)))).

(** ** Verification of a membership *)

(** Steps 2 to 4: the proof, and that it is about the claimed root and
    commitment. *)
Definition check_membership (r : VerifyMembershipRequest) : result http_error unit :=
  proof ← map_err (λ _, 400) (parse_proof json_proof (vm_proof r));
  signals ← map_err (λ _, 400) (parse_public_signals from_json (to_json (vm_public_signals r)));
  valid ← map_err (λ _, 401) (verify_proof groth16 membership_vkey proof signals);
  _ ← reject_if (negb valid) 401;
  match signals with
  | [proof_root; proof_commitment] =>
      claimed_root ← map_err (λ _, 400) (parse_fr_from_hex (vm_root r));
      claimed_commitment ← map_err (λ _, 400) (parse_fr_from_hex (vm_commitment r));
      _ ← reject_if (bool_decide (proof_root ≠ claimed_root)) 400;
      reject_if (bool_decide (proof_commitment ≠ claimed_commitment)) 400
  | _ => Err 400
  end.

(** Step 9, statement 4: the metadata of an agent's node. *)
Definition agent_metadata (env : Env) (server_id : Z) (p : string) (role : RoleCode) : Api (option string) :=
  if decide (role = AiAgent) then
    d ← gets db;
    rows ← query env 4 (lift (Ok (t_select (is_agent server_id p) (vd_agents d))));
    match (rows : list AgentRow) with
    | a :: _ =>
        contract ← lift (ok_or (json_value (ar_capability_contract_json a)) 500);
        mret (Some (metadata_text (ar_alignment_status a) (ar_transfer_scope a) contract (ar_reputation_score a)))
    | [] => mret None
    end
  else mret None.

(** Step 10: BEGIN is statement 5, COMMIT 12.  The events go out at once. *)
Definition persist_verification (env : Env) (server_id : Z) (r : VerifyMembershipRequest) (nullifier p : string)
    (role : RoleCode) (metadata : option string) : Api unit :=
  db_transaction (λ _, 500) env 5 12
    (call vd_nullifiers set_vd_nullifiers (λ e, match e with DuplicateNullifier _ => 409 | _ => 500 end)
       (insert_nullifier (fault env) 6 (vm_topic r) nullifier (Some p) (Some (vm_commitment r)));;
     emit env 7 s p (EventPayload.PseudonymDerived p (vm_topic r));;
     call vd_platform set_vd_platform (λ _, 500)
       (create_platform_identity (at_ env 8) (sql_now (now env)) server_id p role);;
     call vd_nodes set_vd_nodes (λ _, 500)
       (ensure_graph_node (at_ env 10) (now env) (sql_now (now env)) server_id p (role_code_to_node_type role) metadata);;
     emit env 11 server_id p (EventPayload.NodeAdded p (node_type_debug (role_code_to_node_type role)))).

Definition verify_membership_handler (env : Env) (r : VerifyMembershipRequest) : Api string :=
  d ← gets db;
  root_exists ← query env 0 (lift (Ok (bool_decide
    (filter (root_is (vm_root r)) (vrp_roots (rg_merkle (vd_registry d))) ≠ []))));
  lift (reject_if (negb root_exists) 409);;
  lift (check_membership r);;
  emit env 1 s (vm_commitment r) (EventPayload.IdentityVerified (vm_commitment r) (vm_topic r));;
  nullifier ← lift (map_err (λ _, 400) (derive_nullifier_hex (vm_commitment r) (vm_topic r)));
  p ← lift (map_err (λ _, 500) (derive_pseudonym_id (vm_topic r) nullifier));
  rows ← query env 2 (lift (Ok (t_select (has_commitment (vm_commitment r)) (vrp_identities (vd_registry d)))));
  row ← lift (ok_or (head rows) 404);
  role ← lift (ok_or (role_from_u8 (id_role_code row)) 500);
  server ← query env 3 (lift (Ok (head (vd_servers d))));
  server_id ← lift (ok_or server 500);
  metadata ← agent_metadata env server_id p role;
  persist_verification env server_id r nullifier p role metadata;;
  perform (PresenceSent (PresenceEvent.NodeUpdated p true));;
  mret p.

(** ** Identities *)

Definition get_status (e : IdentityError) : http_error :=
  match e with DatabaseError QueryReturnedNoRows => 404 | _ => 500 end.

(** An active moderator whose node was seen in the last five minutes. *)
Definition seen_since (cutoff : option string) (n : GraphNodeRow) : bool :=
  match gn_last_seen_at n, cutoff with
  | Some seen, Some c => String.ltb c seen
  | _, _ => false
  end.
Definition live_moderator (now : Z) (d : VerifyDb) (m : PlatformRow) : Prop :=
  is_moderator_on s m ∧
  t_exists (λ n, is_node s (pr_pseudonym_id m) n ∧ seen_since (datetime (now - 300)) n = true) (vd_nodes d) = true.
#[export] Instance live_moderator_dec now d m : Decision (live_moderator now d m).
Proof. unfold live_moderator. apply _. Defined.

Definition read_identity (env : Env) (k : nat) (status : IdentityError → http_error) (p : string) : Api PlatformIdentity :=
  d ← gets db;
  lift (map_err status (get_platform_identity (at_ env k) s p (vd_platform d))).

(** Statements: 0 the identity, 1 and 2 of [ensure_founder], 3 the second
    read, 4 the live moderators, 5 the promotion. *)
Definition fetch_platform_identity (env : Env) (p : string) : Api PlatformIdentity :=
  identity ← read_identity env 0 get_status p;
  if can_moderate (pi_caps identity) then mret identity
  else
    promoted ← call vd_platform set_vd_platform (λ _, 500) (ensure_founder (at_ env 1) (sql_now (now env)) s);
    if (promoted : bool) then read_identity env 3 (λ _, 500) p
    else
      d ← gets db;
      has_live_moderator ← query env 4 (lift (Ok (t_exists (live_moderator (now env) d) (vd_platform d))));
      if (has_live_moderator : bool) then mret identity
      else
        query env 5 (λ d, let '(_, t) := t_update (is_member s p) (promote (sql_now (now env))) (vd_platform d) in
                          (Ok tt, set_vd_platform t d));;
        read_identity env 3 (λ _, 500) p.

Definition get_identity_handler (env : Env) (p : string) : Api (string * RoleCode * bool * Capabilities) :=
  i ← fetch_platform_identity env p;
  mret (pi_pseudonym_id i, pi_participant_type i, pi_active i, pi_caps i).
Definition get_identity_capabilities_handler (env : Env) (p : string) : Api Capabilities :=
  i ← fetch_platform_identity env p;
  mret (pi_caps i).
End api.

(** * Theorems *)

Section registering.
Context `{HX : HexCrate, !HexLaws HX, PO : Poseidon, !PoseidonLaws PO, CK : Clock, SE : Serde EventPayload.t}.
Context (s : Z).

(** Every root in the table was the root of the tree at some time. *)
Definition known_roots (d : nat) (ls : list Fr) (db : MerkleDb) : Prop :=
  ∀ r, r ∈ vrp_roots db → ∃ n, (0 < n ≤ length ls)%nat ∧ rt_root_hex r = fr_hex (merkle_root d (take n ls)).

Lemma known_roots_snoc d ls v db db' :
  known_roots d ls db →
  (∀ r, r ∈ vrp_roots db' → rt_root_hex r = fr_hex (merkle_root d (ls ++ [v])) ∨
        rt_root_hex r ∈ rt_root_hex <$> vrp_roots db) →
  known_roots d (ls ++ [v]) db'.
Proof.
  intros Hk H r [Hr|(r0 & Hr & Hin)%list_elem_of_fmap]%H.
  - exists (length (ls ++ [v])). rewrite length_app. cbn. split; [lia|]. by rewrite take_ge by (rewrite length_app; cbn; lia).
  - destruct (Hk r0 Hin) as (n & Hn & E). exists n. rewrite length_app. cbn. split; [lia|].
    rewrite take_app_le by lia. congruence.
Qed.

Lemma persist_roots fault now idx v rt db db' :
  persist_leaf_and_root fault now idx v rt db = (Ok (), db') →
  ∀ r, r ∈ vrp_roots db' → rt_root_hex r = fr_hex rt ∨ rt_root_hex r ∈ rt_root_hex <$> vrp_roots db.
Proof.
  unfold persist_leaf_and_root, stmt, exec, mbind, M_bind, catch_map, insert_leaf_row.
  destruct (fault 0%nat); cbn; [done|]. destruct (decide _); cbn; [done|].
  destruct (fault 1%nat); cbn; [done|]. destruct (fault 2%nat); cbn; [done|]. intros [= <-]. cbn.
  intros r [(r0 & -> & Hr)%list_elem_of_fmap| ->%list_elem_of_singleton]%elem_of_app; cbn; [right|by left].
  apply list_elem_of_fmap. by exists r0.
Qed.

Lemma register_identity_roots fault now c role node_id t db res t' db' :
  register_identity fault now c role node_id (t, db) = (Ok res, (t', db')) →
  ∀ r, r ∈ vrp_roots (rg_merkle db') →
    rt_root_hex r = rr_root_hex res ∨ rt_root_hex r ∈ rt_root_hex <$> vrp_roots (rg_merkle db).
Proof.
  unfold register_identity. intros ([] & s1 & [_ ->]%lift_ok & H)%M_bind_ok.
  apply M_bind_ok in H as (bs & s1 & [_ ->]%lift_ok & H).
  apply M_bind_ok in H as ([t0 db0] & s1 & [= <- <- <-] & H).
  apply M_bind_ok in H as ([[idx rt] updates] & s1 & [_ ->]%lift_ok & H).
  apply M_bind_ok in H as (id & s1 & Htx & H). unfold zoom in Htx. cbn in Htx.
  destruct (register_tx _ _ _ _ _ _ _ _ _) as [o db1] eqn:E. injection Htx as -> <-.
  apply M_bind_ok in H as ([t1 db2] & s1 & [= <- <- <-] & H).
  apply M_bind_ok in H as ([] & s1 & [= <-] & H).
  apply M_bind_ok in H as ([t1 db2] & s1 & [= <- <- <-] & H).
  apply M_bind_ok in H as ([els bits] & s1 & [_ ->]%lift_ok & H). injection H as <- <- <-. cbn.
  unfold register_tx in E. rewrite transaction_ok in E.
  apply M_bind_ok in E as ([] & d1 & E1 & E). unfold stmt, catch_map, exec in E1.
  destruct (fault 4%nat); [done|]. injection E1 as <-.
  apply M_bind_ok in E as (id' & d1 & E1 & E).
  assert (rg_merkle d1 = rg_merkle db) as Hd.
  { unfold catch_map, exec, insert_identity_row in E1. destruct (fault 0%nat); [done|].
    destruct (t_exists _ _); [done|]. destruct (bool_decide _); [|done]. by injection E1 as _ <-. }
  apply M_bind_ok in E as ([] & d2 & E2 & E). unfold zoom in E2.
  destruct (persist_leaf_and_root _ _ _ _ _ _) as [o m] eqn:Ep. injection E2 as -> <-.
  apply M_bind_ok in E as ([] & d3 & E3 & E). unfold stmt, catch_map, exec in E3.
  destruct (fault 5%nat); [done|]. injection E3 as <-. injection E as _ <-. cbn.
  rewrite Hd in Ep. by eapply persist_roots.
Qed.

(** What registration promises the rest of the server: tree, tables and
    history of roots agree on the sequence of leaves. *)
Record in_step (t : MerkleTree) (db : RegDb) (ls : list Fr) : Prop := {
  step_registered : registered t db ls;
  step_roots : known_roots (depth t) ls (rg_merkle db);
}.

Lemma register_identity_in_step fault now c role node_id t db ls res t' db' :
  in_step t db ls → register_identity fault now c role node_id (t, db) = (Ok res, (t', db')) →
  in_step t' db' (ls ++ [leaf_of_commitment c]) ∧ depth t' = depth t.
Proof.
  intros [HR Hk] H. pose proof (register_identity_cases fault now c role node_id t db ls HR) as HC.
  rewrite H in HC. destruct HC as (_ & HR' & Hd & _ & _ & _ & Hroot & _).
  split; [|done]. split; [done|]. rewrite Hd. apply (known_roots_snoc _ _ _ (rg_merkle db)); [done|].
  intros r [Hr|Hr]%(register_identity_roots _ _ _ _ _ _ _ _ _ _ H); [left|by right].
  unfold root_hex in Hroot. rewrite (root_ok t' _ (reg_tree _ _ _ HR')) in Hroot. injection Hroot as Hroot.
  rewrite <- Hd. congruence.
Qed.

(** Registration over HTTP: what register_identity did, and nothing else.
    On success the role is one of the five, tree and tables and the history
    of roots are in step with one more leaf and the event is logged if it can
    be; otherwise nothing has changed, and the status says why: 400 for the
    role or the format, 409 for a commitment already registered, 500 for a
    full tree or a failed statement.  There is no other outcome. *)
Theorem register_handler_spec env r t st ls :
  in_step t (vd_registry (db st)) ls →
  let c := rg_commitment_hex r in
  match register_handler s env r (t, st) with
  | (Ok res, (t', st')) =>
      is_Some (role_from_u8 (rg_role_code r)) ∧ commitment_format c ∧
      in_step t' (vd_registry (db st')) (ls ++ [leaf_of_commitment c]) ∧ depth t' = depth t ∧
      leaf_index res = N.of_nat (length ls) ∧ Ok (rr_root_hex res) = root_hex t' ∧
      vd_platform (db st') = vd_platform (db st) ∧ vd_nullifiers (db st') = vd_nullifiers (db st)
  | (Err e, s') =>
      s' = (t, st) ∧
      (e = 400 ∧ (role_from_u8 (rg_role_code r) = None ∨ ¬ commitment_format c) ∨
       e = 409 ∧ t_exists (has_commitment (to_ascii_lowercase c)) (vrp_identities (vd_registry (db st))) = true ∨
       e = 500 ∧ (capacity (depth t) = N.of_nat (length ls) ∨ ∃ e', faulted (fault env) 6 e'))
  | (Panic, _) => False
  end.
Proof.
  intros Hstep. cbv zeta. unfold register_handler, mbind, M_bind, lift.
  destruct (role_from_u8 (rg_role_code r)) as [role|] eqn:Hrole; cbn [ok_or]; [|by auto].
  unfold catch_map, zoom. destruct (register_identity _ _ _ _ _ _) as [o [t' db']] eqn:E.
  pose proof (register_identity_cases (fault env) (sql_now (now env)) (rg_commitment_hex r) role (rg_node_id r) t
    (vd_registry (db st)) ls (step_registered _ _ _ Hstep)) as HC. rewrite E in HC.
  destruct o as [res|e|]; cbn [map_err]; [|..|done].
  - destruct (register_identity_in_step _ _ _ _ _ _ _ _ _ _ _ Hstep E) as [Hs Hd].
    destruct HC as (Hc & _ & _ & _ & _ & Hi & Hr & _). cbn -[emit].
    destruct (emit_ok (E := http_error) env 6 s (rg_commitment_hex r)
      (EventPayload.IdentityRegistered (rg_commitment_hex r) (role_as_u8 role))
      (set_db (set_vd_registry db' (db st)) st)) as (tb & st2 & Hem & Hdb).
    rewrite Hem. cbn. rewrite Hdb. cbn. by split_and!.
  - destruct HC as [[= -> ->] HC].
    split. { destruct st as [[] ?]. done. }
    destruct HC as [[-> Hf]|[[-> Hf]|[[-> Hf]|(e' & -> & Hf)]]]; cbn; [by auto..|].
    right; right. split; [done|]. right. by exists e'.
Qed.
End registering.

(** ** Verification *)

Section verifying.
Context `{HX : HexCrate, SH : Sha256, PO : Poseidon, AK : !Ark, CK : Clock, AM : AgentMetadata}.
Context `{SE : Serde EventPayload.t, SL : Serde (list string)}.
Context (json_proof : string → option SnarkJsProof).
Context (groth16 : VerifyingKey → list Fr → Zk.Proof → option bool) (membership_vkey : VerifyingKey) (s : Z).

(** The proof is about the claimed root and the claimed commitment. *)
Definition proves (r : VerifyMembershipRequest) : Prop :=
  ∃ proof root_fr commitment_fr,
    parse_proof json_proof (vm_proof r) = Ok proof ∧
    parse_fr_from_hex (vm_root r) = Ok root_fr ∧ parse_fr_from_hex (vm_commitment r) = Ok commitment_fr ∧
    verify_proof groth16 membership_vkey proof [root_fr; commitment_fr] = Ok true.

Lemma check_membership_ok r :
  check_membership json_proof groth16 membership_vkey r = Ok () → proves r.
Proof.
  unfold check_membership. intros H.
  destruct (parse_proof json_proof (vm_proof r)) as [proof| |] eqn:E1; cbn in H; [|done..].
  destruct (parse_public_signals _ _) as [signals| |] eqn:E2; cbn in H; [|done..].
  destruct (verify_proof _ _ _ _) as [[]| |] eqn:E3; cbn in H; [|done..].
  destruct signals as [|a [|b [|x l]]]; [done..| |done].
  destruct (parse_fr_from_hex (vm_root r)) as [root_fr| |] eqn:E4; cbn in H; [|done..].
  destruct (parse_fr_from_hex (vm_commitment r)) as [commitment_fr| |] eqn:E5; cbn in H; [|done..].
  destruct (bool_decide_reflect (a ≠ root_fr)) as [|Ha]; cbn in H; [done|].
  destruct (bool_decide_reflect (b ≠ commitment_fr)) as [|Hb]; cbn in H; [done|].
  apply dec_stable in Ha as ->. apply dec_stable in Hb as ->. by exists proof, root_fr, commitment_fr.
Qed.

Lemma insert_nullifier_ok fault k topic n p c t t' :
  insert_nullifier fault k topic n p c t = (Ok (), t') →
  t_exists (nullifier_key topic n) t = false ∧ t_exists (nullifier_key topic n) t' = true.
Proof.
  unfold insert_nullifier, catch_map, exec. destruct (fault k); [done|]. unfold nullifier_insert_stmt.
  cbn [nf_topic nf_nullifier_hex]. destruct (t_exists _ t) eqn:E; [done|]. intros [= <-]. split; [done|].
  by apply (t_exists_insert (nullifier_key topic n) (λ _, _)).
Qed.

(** The rights of a new identity: those of the founder for the first one of
    the server, none for any other. *)
Definition initial_caps (first : bool) : Capabilities :=
  {| can_voice := first; can_moderate := first; can_invite := first; can_federate := first; can_bridge := false |}.

Lemma create_platform_identity_row fault now p role server t i t' :
  create_platform_identity fault now server p role t = (Ok i, t') →
  t_exists (is_member server p) t = false ∧
  ∃ row, t_rows t' = t_rows t ++ [row] ∧ is_member server p row ∧ pr_active row = true ∧
    pr_participant_type row = role_label role ∧ pr_caps row = initial_caps (first_on_server server t).
Proof.
  unfold create_platform_identity, mbind, M_bind, catch_map, exec. destruct (fault 0%nat); [done|].
  unfold insert_platform_row. destruct (t_exists _ t); [done|]. intros H. split; [done|].
  unfold get, lift in H. cbn [map_err] in H. injection H as _ <-. by eexists.
Qed.

Lemma ensure_graph_node_ok fault now created server p ty metadata t n t' :
  ensure_graph_node fault now created server p ty metadata t = (Ok n, t') →
  ∃ r, r ∈ t_rows t' ∧ is_node server p r ∧ gn_active r = true.
Proof.
  unfold ensure_graph_node, mbind, M_bind, catch_map, exec, lift. destruct (fault 0%nat); [done|].
  destruct (upsert_node _ _ _ _ _ _ _) as [[row|e|] t1] eqn:E; cbn; [|done..].
  intros [= _ <-]. by eapply upsert_node_ok.
Qed.

(** What a verification writes. *)
Definition verified (server : Z) (topic nullifier p : string) (role : RoleCode) (d d' : VerifyDb) : Prop :=
  t_exists (nullifier_key topic nullifier) (vd_nullifiers d) = false ∧
  t_exists (nullifier_key topic nullifier) (vd_nullifiers d') = true ∧
  t_exists (is_member server p) (vd_platform d) = false ∧
  (∃ row, t_rows (vd_platform d') = t_rows (vd_platform d) ++ [row] ∧ is_member server p row ∧
     pr_active row = true ∧ pr_participant_type row = role_label role ∧
     pr_caps row = initial_caps (first_on_server server (vd_platform d))) ∧
  (∃ n, n ∈ t_rows (vd_nodes d') ∧ is_node server p n ∧ gn_active n = true) ∧
  vd_registry d' = vd_registry d ∧ vd_agents d' = vd_agents d ∧ vd_servers d' = vd_servers d.

Lemma verified_log server topic nullifier p role t d d' :
  verified server topic nullifier p role (set_log t d) d' → verified server topic nullifier p role d d'.
Proof. done. Qed.

(** The events of the transaction. *)
Definition persist_announces (env : Env) (server : Z) (r : VerifyMembershipRequest) (p : string) (role : RoleCode)
    (es : list PublicEvent) : Prop :=
  ∃ es1 es2, es = es1 ++ es2 ∧ announces env 7 s p (EventPayload.PseudonymDerived p (vm_topic r)) es1 ∧
    announces env 11 server p (EventPayload.NodeAdded p (node_type_debug (role_code_to_node_type role))) es2.

Lemma persist_verification_ok env server r nullifier p role metadata st st' :
  persist_verification s env server r nullifier p role metadata st = (Ok (), st') →
  verified server (vm_topic r) nullifier p role (db st) (db st') ∧
  ∃ es, persist_announces env server r p role es ∧
    t_rows (vd_events (db st')) = t_rows (vd_events (db st)) ++ es ∧ effects st' = effects st ++ (EventSent <$> es).
Proof.
  unfold persist_verification. intros (_ & _ & H)%db_transaction_ok.
  apply M_bind_ok in H as ([] & st1 & (t1 & H1 & ->)%call_ok & H).
  apply M_bind_ok in H as ([] & st2 & H2 & H).
  match type of H2 with emit _ _ _ _ _ ?x = _ =>
    destruct (emit_announces (E := http_error) env 7 s p (EventPayload.PseudonymDerived p (vm_topic r)) x) as (es1 & l1 & Ha1 & Hl1 & E1) end.
  pose proof (eq_trans (eq_sym E1) H2) as H2'. injection H2' as <-.
  apply M_bind_ok in H as (i & st3 & (t3 & H3 & ->)%call_ok & H).
  apply M_bind_ok in H as (n & st4 & (t4 & H4 & ->)%call_ok & H).
  match type of H with emit _ _ _ _ ?q ?x = _ =>
    destruct (emit_announces (E := http_error) env 11 server p q x) as (es2 & l2 & Ha2 & Hl2 & E2) end.
  pose proof (eq_trans (eq_sym E2) H) as H'. injection H' as <-. cbn in H3, H4, Hl1, Hl2.
  apply insert_nullifier_ok in H1 as [? ?]. apply create_platform_identity_row in H3 as [? ?].
  apply ensure_graph_node_ok in H4. split; [unfold verified; cbn; by split_and!|].
  exists (es1 ++ es2). split; [by exists es1, es2|]. cbn. rewrite Hl2, Hl1, fmap_app, !app_assoc. done.
Qed.

Abbreviation verify := (verify_membership_handler json_proof groth16 membership_vkey s).

(** Only the log differs. *)
Definition only_logged (d d' : VerifyDb) : Prop := ∃ t, d' = set_log t d.

(** Everything after the check of the proof. *)
Definition verified_by (env : Env) (r : VerifyMembershipRequest) (p : string) (st st' : VerifyState) : Prop :=
  let d := db st in
  let d' := db st' in
  ∃ row role server nullifier es1 es2,
    derive_nullifier_hex (vm_commitment r) (vm_topic r) = Ok nullifier ∧
    derive_pseudonym_id (vm_topic r) nullifier = Ok p ∧
    row ∈ t_rows (vrp_identities (vd_registry d)) ∧ id_commitment_hex row = vm_commitment r ∧
    role_from_u8 (id_role_code row) = Some role ∧ head (vd_servers d) = Some server ∧
    verified server (vm_topic r) nullifier p role d d' ∧
    announces env 1 s (vm_commitment r) (EventPayload.IdentityVerified (vm_commitment r) (vm_topic r)) es1 ∧
    persist_announces env server r p role es2 ∧ t_rows (vd_events d') = t_rows (vd_events d) ++ es1 ++ es2 ∧
    effects st' = effects st ++ (EventSent <$> es1 ++ es2) ++ [PresenceSent (PresenceEvent.NodeUpdated p true)].

Lemma agent_metadata_reads env server p role : reads (agent_metadata env server p role).
Proof.
  unfold agent_metadata. destruct (decide _); [|apply reads_ret].
  apply reads_bind; [done|intros d]. apply reads_bind; [apply on_db_lift_reads|intros rows].
  destruct rows; [apply reads_ret|]. apply reads_bind; [apply reads_lift|intros ?; apply reads_ret].
Qed.

(** The claimed root is in the table. *)
Lemma known_root_read env r st (b : bool) st' :
  on_db (D := VerifyDb) (λ _ : sql_error, 500 : http_error) env 0 (lift (Ok (bool_decide
    (filter (root_is (vm_root r)) (vrp_roots (rg_merkle (vd_registry (db st)))) ≠ [])))) st = (Ok b, st') →
  negb b = false → ∃ row, row ∈ vrp_roots (rg_merkle (vd_registry (db st))) ∧ rt_root_hex row = vm_root r.
Proof.
  intros [-> _]%on_db_lift_ok Hb%negb_false_iff%bool_decide_eq_true.
  destruct (filter _ _) as [|row rows] eqn:E; [done|].
  assert (row ∈ filter (root_is (vm_root r)) (vrp_roots (rg_merkle (vd_registry (db st))))) as [? ?]%list_elem_of_filter
    by (rewrite E; left). by exists row.
Qed.

(** Everything after the event of the verified proof. *)
Definition persisted_by (env : Env) (r : VerifyMembershipRequest) (p : string) (st st' : VerifyState) : Prop :=
  ∃ row role server nullifier metadata es,
    derive_nullifier_hex (vm_commitment r) (vm_topic r) = Ok nullifier ∧
    derive_pseudonym_id (vm_topic r) nullifier = Ok p ∧
    head (t_select (has_commitment (vm_commitment r)) (vrp_identities (vd_registry (db st)))) = Some row ∧
    role_from_u8 (id_role_code row) = Some role ∧ head (vd_servers (db st)) = Some server ∧
    agent_metadata env server p role st = (Ok metadata, st) ∧
    verified server (vm_topic r) nullifier p role (db st) (db st') ∧
    persist_announces env server r p role es ∧ t_rows (vd_events (db st')) = t_rows (vd_events (db st)) ++ es ∧
    effects st' = effects st ++ (EventSent <$> es) ++ [PresenceSent (PresenceEvent.NodeUpdated p true)].

Lemma verify_tail env r st r' st' :
  (nullifier ← lift (map_err (λ _, 400) (derive_nullifier_hex (vm_commitment r) (vm_topic r)));
   p ← lift (map_err (λ _, 500) (derive_pseudonym_id (vm_topic r) nullifier));
   rows ← on_db (λ _, 500) env 2 (lift (Ok (t_select (has_commitment (vm_commitment r)) (vrp_identities (vd_registry (db st))))));
   row ← lift (ok_or (head rows) 404);
   role ← lift (ok_or (role_from_u8 (id_role_code row)) 500);
   server ← on_db (λ _, 500) env 3 (lift (Ok (head (vd_servers (db st)))));
   server_id ← lift (ok_or server 500);
   metadata ← agent_metadata env server_id p role;
   persist_verification s env server_id r nullifier p role metadata;;
   perform (PresenceSent (PresenceEvent.NodeUpdated p true));;
   mret p) st = (r', st') →
  (is_ok r' = false ∧ db st' = db st) ∨ ∃ p, r' = Ok p ∧ persisted_by env r p st st'.
Proof.
  intros H.
  apply M_bind_reads_cases in H as [[? ->]|(nullifier & [Hn%map_err_ok _]%lift_ok & H)]; [by left| |done].
  apply M_bind_reads_cases in H as [[? ->]|(p & [Hp%map_err_ok _]%lift_ok & H)]; [by left| |done].
  apply M_bind_reads_cases in H as [[? ->]|(rows & [-> _]%on_db_lift_ok & H)]; [by left| |apply on_db_lift_reads].
  apply M_bind_reads_cases in H as [[? ->]|(row & [Hrow%ok_or_ok _]%lift_ok & H)]; [by left| |done].
  apply M_bind_reads_cases in H as [[? ->]|(role & [Hrole%ok_or_ok _]%lift_ok & H)]; [by left| |done].
  apply M_bind_reads_cases in H as [[? ->]|(sv & [-> _]%on_db_lift_ok & H)]; [by left| |apply on_db_lift_reads].
  apply M_bind_reads_cases in H as [[? ->]|(server & [Hs%ok_or_ok _]%lift_ok & H)]; [by left| |done].
  apply M_bind_reads_cases in H as [[? ->]|(metadata & Hm & H)]; [by left| |apply agent_metadata_reads].
  unfold mbind, M_bind in H.
  destruct (persist_verification s env server r nullifier p role metadata st) as [o st1] eqn:E.
  destruct o as [[]|e|]; cycle 1.
  { left. injection H as <- <-. split; [done|]. by apply (db_transaction_rolls_back _ _ _ _ _ _ _ _ E). }
  { left. injection H as <- <-. split; [done|]. by apply (db_transaction_rolls_back _ _ _ _ _ _ _ _ E). }
  apply persist_verification_ok in E as (Hv & es & Hes & Hl & He). injection H as <- <-. right. exists p. split; [done|].
  exists row, role, server, nullifier, metadata, es. cbn. rewrite He, <- app_assoc. by split_and!.
Qed.

Lemma verify_membership_full env r st :
  let '(o, st') := verify env r st in
  (is_ok o = false ∧ only_logged (db st) (db st')) ∨
  ∃ p root es t, o = Ok p ∧ root ∈ vrp_roots (rg_merkle (vd_registry (db st))) ∧ rt_root_hex root = vm_root r ∧
    proves r ∧ announces env 1 s (vm_commitment r) (EventPayload.IdentityVerified (vm_commitment r) (vm_topic r)) es ∧
    t_rows t = t_rows (vd_events (db st)) ++ es ∧
    persisted_by env r p {| db := set_log t (db st); effects := effects st ++ (EventSent <$> es) |} st'.
Proof.
  assert (only_logged (db st) (db st)) as Hsame by (exists (vd_events (db st)); by destruct (db st)).
  destruct (verify env r st) as [o st'] eqn:H. unfold verify_membership_handler in H.
  apply M_bind_reads_cases in H as [[? ->]|(d & [= <-] & H)]; [by left| |done].
  apply M_bind_reads_cases in H as [[? ->]|(b & Hb & H)]; [by left| |apply on_db_lift_reads].
  apply M_bind_reads_cases in H as [[? ->]|([] & [Hn%reject_if_ok _]%lift_ok & H)]; [by left| |done].
  apply M_bind_reads_cases in H as [[? ->]|([] & [Hp%check_membership_ok _]%lift_ok & H)]; [by left| |done].
  apply known_root_read in Hb as (root & Hroot & Hhex); [|done].
  destruct (emit_announces (E := http_error) env 1 s (vm_commitment r)
    (EventPayload.IdentityVerified (vm_commitment r) (vm_topic r)) st) as (es & t & Hes & Ht & Hem).
  unfold mbind at 1, M_bind at 1 in H. rewrite Hem in H. cbn beta iota in H.
  set (st1 := {| db := set_log t (db st); effects := _ |}) in H.
  change (vd_registry (db st)) with (vd_registry (db st1)) in H.
  change (vd_servers (db st)) with (vd_servers (db st1)) in H. apply verify_tail in H as [[Hr Hd]|(p & -> & Hv)].
  - left. split; [done|]. exists t. by rewrite Hd.
  - right. by exists p, root, es, t.
Qed.

Lemma verify_membership_cases env r st :
  let '(o, st') := verify env r st in
  (is_ok o = false ∧ only_logged (db st) (db st')) ∨
  ∃ p root, o = Ok p ∧ root ∈ vrp_roots (rg_merkle (vd_registry (db st))) ∧ rt_root_hex root = vm_root r ∧
    proves r ∧ verified_by env r p st st'.
Proof.
  pose proof (verify_membership_full env r st) as H. destruct (verify env r st) as [o st'].
  destruct H as [H|(p & root & es1 & t & -> & Hroot & Hhex & Hp & H1 & Ht & Hv)]; [by left|right]. exists p, root.
  destruct Hv as (row & role & server & n & metadata & es2 & Hn & Hd & Hrow & Hrole & Hs & _ & Hv & Hes & Hl & He).
  do 4 (split; [done|]). exists row, role, server, n, es1, es2. cbn in Hl, He, Hrow.
  assert (row ∈ t_select (has_commitment (vm_commitment r)) (vrp_identities (vd_registry (db st))))
    as [Hc Hin]%elem_of_t_select by (destruct (t_select _ _); [done|]; injection Hrow as ->; left).
  rewrite Hl, Ht, He, fmap_app, <- !app_assoc. by split_and!.
Qed.

(** C8. Verification is all or nothing.  If it answers with a pseudonym, the
    claimed root is in the table, the proof of well-formed points verifies
    for exactly this root and this commitment, the commitment is registered,
    the pseudonym is the one derived from commitment and topic, the
    nullifier and the identity are new, and they and an active node are
    there, the first identity of the server with the founder's rights, any
    other without any.  Three events, the verified commitment, the derived
    pseudonym and the new node, are each appended to the log and broadcast,
    but for those whose own statement failed, and the presence event is sent.
    Otherwise nothing but the event log has changed. *)
Theorem verify_membership_spec env r st :
  let '(o, st') := verify env r st in
  (is_ok o = false ∧ only_logged (db st) (db st')) ∨
  ∃ p root, o = Ok p ∧ root ∈ vrp_roots (rg_merkle (vd_registry (db st))) ∧ rt_root_hex root = vm_root r ∧
    proves r ∧ verified_by env r p st st'.
Proof. apply verify_membership_cases. Qed.

Lemma agent_metadata_again env env' server p role st metadata st2 :
  agent_metadata env server p role st = (Ok metadata, st) →
  vd_agents (db st2) = vd_agents (db st) → fault env' 4%nat = None →
  agent_metadata env' server p role st2 = (Ok metadata, st2).
Proof.
  unfold agent_metadata. destruct (decide _); [|by intros [= <-]]. intros H Ha Hf.
  apply M_bind_ok in H as (d & st1 & [= <- <-] & H). apply M_bind_ok in H as (rows & st1 & [-> ->]%on_db_lift_ok & H).
  unfold mbind, M_bind, gets. rewrite Ha, on_db_lift, Hf.
  destruct (t_select _ _) as [|a l]; [by injection H as <-|].
  unfold mbind, M_bind, lift in *. destruct (ok_or _ _); by injection H as <-.
Qed.

Lemma duplicate_refused env server r nullifier p role metadata st :
  t_exists (nullifier_key (vm_topic r) nullifier) (vd_nullifiers (db st)) = true →
  fault env 5%nat = None → fault env 6%nat = None →
  persist_verification s env server r nullifier p role metadata st = (Err 409, st).
Proof.
  intros Hx H5 H6. unfold persist_verification, db_transaction.
  rewrite (M_bind_run _ _ st () st) by (apply on_db_ok; split; [done|]; exists (db st); by rewrite set_db_db).
  rewrite !(M_bind_err _ _ st 409 st); [by rewrite set_db_db|]. apply M_bind_err.
  unfold call, catch_map, zoom, insert_nullifier, exec. cbn. rewrite H6. unfold nullifier_insert_stmt.
  cbn [nf_topic nf_nullifier_hex]. unfold catch_map. rewrite Hx. by destruct st as [[] ?].
Qed.

(** C24. A commitment is verified once per topic.  After a verification,
    whatever happens to the other tables, no verification of the commitment
    for the topic succeeds or changes more than the log while the nullifier
    is there.  Where nothing else refuses it (the proof passes, registry,
    servers and agents are as they were, and no statement before the
    nullifier's fails) it is refused with 409. *)
Theorem verified_once env env' r r' st p st' :
  verify env r st = (Ok p, st') →
  vm_commitment r' = vm_commitment r → vm_topic r' = vm_topic r →
  ∀ st2, (∀ x, x ∈ t_rows (vd_nullifiers (db st')) → x ∈ t_rows (vd_nullifiers (db st2))) →
  let '(o, st3) := verify env' r' st2 in
  is_ok o = false ∧ only_logged (db st2) (db st3) ∧
  (check_membership json_proof groth16 membership_vkey r' = Ok () → (∀ k, (k ≤ 6)%nat → fault env' k = None) →
   vd_registry (db st2) = vd_registry (db st') → vd_servers (db st2) = vd_servers (db st') →
   vd_agents (db st2) = vd_agents (db st') → o = Err 409).
Proof.
  intros H Hc Ht st2 Hin. pose proof (verify_membership_full env r st) as H1. rewrite H in H1.
  destruct H1 as [[Hno _]|(p1 & root1 & es & t & [= <-] & _ & _ & _ & _ & _ & Hv)]; [done|].
  destruct Hv as (row & role & server & n & metadata & es2 & Hn & Hd & Hrow & Hrole & Hs & Hm & Hv & _).
  destruct Hv as (_ & (x & Hx & Hk)%t_exists_spec & _ & _ & _ & Ereg & Eag & Esv).
  assert (t_exists (nullifier_key (vm_topic r') n) (vd_nullifiers (db st2)) = true) as Hdup.
  { rewrite Ht. apply t_exists_spec. exists x. split; [by apply Hin|done]. }
  destruct (verify env' r' st2) as [o st3] eqn:E2.
  pose proof (verify_membership_cases env' r' st2) as H2. rewrite E2 in H2.
  destruct H2 as [[Hno Hl]|(p2 & root2 & _ & _ & _ & _ & row' & role' & server' & n' & ? & ? & Hn' & _ & _ & _ & _ & _ & Hv & _)].
  2: { destruct Hv as (Hfresh & _). rewrite Hc, Ht, Hn in Hn'. injection Hn' as <-. by rewrite Hdup in Hfresh. }
  split; [done|]. split; [done|]. intros Hcheck Hf Er Es Ea. cbn in Hrow, Hs, Ereg, Eag, Esv.
  unfold verify_membership_handler in E2. erewrite M_bind_run in E2 by done.
  erewrite M_bind_run in E2 by (rewrite on_db_lift, Hf by lia; done).
  destruct (bool_decide _); [|by injection E2 as <- _]. erewrite M_bind_run in E2 by done.
  erewrite M_bind_run in E2 by (rewrite Hcheck; done).
  edestruct (emit_announces (E := http_error) env' 1 s (vm_commitment r') (EventPayload.IdentityVerified (vm_commitment r') (vm_topic r')) st2)
    as (es3 & t3 & _ & _ & Hem).
  erewrite M_bind_run in E2 by exact Hem.
  erewrite M_bind_run in E2 by (rewrite Hc, Ht, Hn; done).
  erewrite M_bind_run in E2 by (rewrite Ht, Hd; done).
  erewrite M_bind_run in E2 by (rewrite on_db_lift, Hf by lia; done).
  erewrite M_bind_run in E2 by (rewrite Hc, Er, Ereg; cbn; rewrite Hrow; done).
  erewrite M_bind_run in E2 by (rewrite Hrole; done).
  erewrite M_bind_run in E2 by (rewrite on_db_lift, Hf by lia; done).
  erewrite M_bind_run in E2 by (rewrite Es, Esv; cbn; rewrite Hs; done).
  erewrite M_bind_run in E2 by (eapply agent_metadata_again; [exact Hm|cbn; by rewrite Ea, Eag|apply Hf; lia]).
  erewrite M_bind_err in E2 by (apply duplicate_refused; [exact Hdup|apply Hf; lia..]).
  by injection E2 as <- _.
Qed.

Lemma parse_fr_hex `{!HexLaws HX, !PoseidonLaws PO} x : parse_fr_from_hex (fr_hex x) = Ok x.
Proof. unfold parse_fr_from_hex. rewrite hex_decode_fr_hex. cbn [ok_or mbind result_bind]. by rewrite fr_of_bytes_fr_bytes. Qed.

(** A verification vouches for the commitment's membership at some time:
    the proof verifies for the commitment and the Merkle root of the first n
    of the registered leaves, for some n.  It need not be the current root. *)
Theorem verified_root_was_current `{!HexLaws HX, !PoseidonLaws PO} env r st p st' t ls :
  in_step t (vd_registry (db st)) ls → verify env r st = (Ok p, st') →
  ∃ n proof commitment_fr, (0 < n ≤ length ls)%nat ∧
    vm_root r = fr_hex (merkle_root (depth t) (take n ls)) ∧
    parse_proof json_proof (vm_proof r) = Ok proof ∧ parse_fr_from_hex (vm_commitment r) = Ok commitment_fr ∧
    verify_proof groth16 membership_vkey proof [merkle_root (depth t) (take n ls); commitment_fr] = Ok true ∧
    in_step t (vd_registry (db st')) ls.
Proof.
  intros [HR Hk] H. pose proof (verify_membership_cases env r st) as HC. rewrite H in HC.
  destruct HC as [[Hno _]|(p' & root & _ & Hin & Hhex & (proof & root_fr & c_fr & Hp & Hr & Hc & Hv) & Hby)]; [done|].
  destruct (Hk root Hin) as (n & Hn & E). exists n, proof, c_fr.
  assert (vm_root r = fr_hex (merkle_root (depth t) (take n ls))) as Hroot by congruence.
  rewrite Hroot, parse_fr_hex in Hr. injection Hr as <-.
  destruct Hby as (? & ? & ? & ? & ? & ? & _ & _ & _ & _ & _ & _ & (_ & _ & _ & _ & _ & Ereg & _) & _). rewrite Ereg.
  split; [done|]. split; [done|]. split; [done|]. split; [done|]. split; [exact Hv|by split].
Qed.
End verifying.

(** ** Identities *)

Section looking_up.
Context `{CK : Clock}.
Context (s : Z).

Lemma founder_candidate_exists db : t_exists (founder_candidate s db) db = t_exists (is_active_on s) db.
Proof.
  apply eq_true_iff_eq. rewrite !t_exists_spec. split.
  - intros (r & _ & Hr). unfold founder_candidate in Hr. symmetry in Hr.
    apply min_id_spec in Hr as [(r0 & [? ?]%elem_of_t_select & _) _]. by exists r0.
  - intros (r & Hr & Ha). destruct (min_id (t_select (is_active_on s) db)) as [i|] eqn:E.
    + destruct (min_id_spec _ _ E) as [(r0 & [_ ?]%elem_of_t_select & <-) _]. by exists r0.
    + assert (r ∈ t_select (is_active_on s) db) as Hin by (by apply elem_of_t_select).
      destruct (t_select _ db); [by apply not_elem_of_nil in Hin|done].
Qed.

Lemma ensure_founder_run now db :
  ensure_founder no_fault now s db =
  if t_exists (is_moderator_on s) db then (Ok false, db)
  else (Ok (t_exists (is_active_on s) db), (t_update (founder_candidate s db) (promote now) db).2).
Proof.
  rewrite <- founder_candidate_exists, <- (t_update_positive (founder_candidate s db) (promote now)).
  unfold ensure_founder, mbind, M_bind, get, lift, read. cbn [no_fault map_err].
  by destruct (t_exists (is_moderator_on s) db).
Qed.

Lemma read_identity_run env k status p r st :
  fault env = no_fault → platform_wf (vd_platform (db st)) → r ∈ t_rows (vd_platform (db st)) → is_member s p r →
  ∃ i, read_identity s env k status p st = (Ok i, st) ∧ pi_caps i = pr_caps r ∧ pi_active i = pr_active r.
Proof.
  intros Hf HW Hr Hm. destruct (pw_labels _ HW r Hr) as [role Hl]. exists (identity_of r role).
  split; [|done]. unfold read_identity, mbind, M_bind, gets, lift. rewrite at_no_fault by done.
  by rewrite (get_platform_identity_ok no_fault s p _ r role).
Qed.

(** The row of [p] after an update that does not touch keys. *)
Lemma updated_member P `{!∀ r, Decision (P r)} now p r (db : table PlatformRow) :
  platform_wf db → r ∈ t_rows db → is_member s p r →
  let db' := (t_update P (promote now) db).2 in
  let r' := if decide (P r) then promote now r else r in
  platform_wf db' ∧ r' ∈ t_rows db' ∧ is_member s p r'.
Proof.
  intros HW Hr Hm. cbv zeta. split; [by apply platform_wf_update|]. split; [|by case_decide].
  apply elem_of_t_update. exists r. case_decide; auto.
Qed.

(** The table after asking for [p]: who is promoted. *)
Definition repaired (now : Z) (p : string) (caps : Capabilities) (d : VerifyDb) : table PlatformRow :=
  let t := vd_platform d in
  if can_moderate caps then t
  else if negb (t_exists (is_moderator_on s) t) && t_exists (is_active_on s) t
  then (t_update (founder_candidate s t) (promote (sql_now now)) t).2
  else if t_exists (live_moderator s now d) t then t
  else (t_update (is_member s p) (promote (sql_now now)) t).2.

Lemma set_vd_platform_id st : set_db (set_vd_platform (vd_platform (db st)) (db st)) st = st.
Proof. by destruct st as [[] ?]. Qed.

(** What is left when [ensure_founder] promoted nobody. *)
Definition promote_if_stale (env : Env) (p : string) (identity : PlatformIdentity) : M VerifyState http_error PlatformIdentity :=
  d ← gets db;
  has_live_moderator ← on_db (λ _, 500) env 4 (lift (Ok (t_exists (live_moderator s (now env) d) (vd_platform d))));
  if (has_live_moderator : bool) then mret identity
  else
    on_db (λ _, 500) env 5 (λ d, let '(_, t) := t_update (is_member s p) (promote (sql_now (now env))) (vd_platform d) in
                                 (Ok tt, set_vd_platform t d));;
    read_identity s env 3 (λ _, 500) p.

Lemma promote_if_stale_run env p r i st :
  fault env = no_fault → platform_wf (vd_platform (db st)) → r ∈ t_rows (vd_platform (db st)) → is_member s p r →
  pi_caps i = pr_caps r → pi_active i = pr_active r →
  let t := vd_platform (db st) in
  let t' := if t_exists (live_moderator s (now env) (db st)) t then t
            else (t_update (is_member s p) (promote (sql_now (now env))) t).2 in
  let st' := set_db (set_vd_platform t' (db st)) st in
  ∃ i' r', promote_if_stale env p i st = (Ok i', st') ∧ r' ∈ t_rows (vd_platform (db st')) ∧ is_member s p r' ∧
    pi_caps i' = pr_caps r' ∧ pi_active i' = pr_active r'.
Proof.
  intros Hf HW Hr Hm Hcaps Hact. cbv zeta. unfold promote_if_stale, mbind at 1 2, M_bind at 1 2, gets.
  rewrite on_db_lift, Hf. cbn [no_fault]. destruct (t_exists _ _).
  { exists i, r. by rewrite set_vd_platform_id. }
  destruct (updated_member (is_member s p) (sql_now (now env)) p r _ HW Hr Hm) as (HW' & Hr' & Hm').
  edestruct (read_identity_run env 3 (λ _, 500) p _
    (set_db (set_vd_platform (t_update (is_member s p) (promote (sql_now (now env))) (vd_platform (db st))).2 (db st)) st)
    Hf HW' Hr' Hm') as (i' & Hi' & ? & ?).
  eexists i', _. split; [|by split_and!].
  unfold mbind, M_bind, on_db, catch_map, zoom, exec. rewrite Hf. exact Hi'.
Qed.

Lemma fetch_run env p r st :
  fault env = no_fault → platform_wf (vd_platform (db st)) → r ∈ t_rows (vd_platform (db st)) → is_member s p r →
  let st' := set_db (set_vd_platform (repaired (now env) p (pr_caps r) (db st)) (db st)) st in
  ∃ i r', fetch_platform_identity s env p st = (Ok i, st') ∧ r' ∈ t_rows (vd_platform (db st')) ∧ is_member s p r' ∧
    pi_caps i = pr_caps r' ∧ pi_active i = pr_active r'.
Proof.
  intros Hf HW Hr Hm. cbv zeta. unfold fetch_platform_identity.
  destruct (read_identity_run env 0 get_status p r st Hf HW Hr Hm) as (i & Hi & Hcaps & Hact).
  unfold mbind at 1, M_bind at 1. rewrite Hi, Hcaps. unfold repaired.
  destruct (can_moderate (pr_caps r)). { exists i, r. by rewrite set_vd_platform_id. }
  fold (promote_if_stale env p i).
  pose proof (promote_if_stale_run env p r i st Hf HW Hr Hm Hcaps Hact) as Hrest.
  unfold mbind at 1, M_bind at 1, call, catch_map, zoom. rewrite at_no_fault by done. cbn [compose].
  rewrite ensure_founder_run. destruct (t_exists (is_moderator_on s) (vd_platform (db st))); cbn [negb andb map_err].
  { rewrite set_vd_platform_id. exact Hrest. }
  destruct (t_exists (is_active_on s) (vd_platform (db st))) eqn:Hnone; cbn [map_err].
  - destruct (updated_member (founder_candidate s (vd_platform (db st))) (sql_now (now env)) p r _ HW Hr Hm) as (HW' & Hr' & Hm').
    destruct (read_identity_run env 3 (λ _, 500) p _
      (set_db (set_vd_platform (t_update (founder_candidate s (vd_platform (db st))) (promote (sql_now (now env)))
         (vd_platform (db st))).2 (db st)) st) Hf HW' Hr' Hm') as (i' & Hi' & ? & ?).
    eexists i', _. split; [exact Hi'|]. by split_and!.
  - rewrite t_update_none by (by rewrite founder_candidate_exists). cbn [snd]. rewrite set_vd_platform_id. exact Hrest.
Qed.

Lemma member_is p r (db : table PlatformRow) :
  platform_wf db → r ∈ t_rows db → is_member s p r → ∀ x, x ∈ t_rows db → is_member s p x → x = r.
Proof. intros HW Hr [] x Hx []. apply (pw_unique _ HW); congruence. Qed.

(** Asking for an identity can make it a moderator.  As long as it is one
    itself, or some active moderator's node was seen in the last five
    minutes, the answer is what the table says and nothing changes.  If the
    server has moderators but none was seen, the identity that was asked for,
    whoever asked and even if it is deactivated, gets the founder's
    rights, and nobody else changes.  A server without a moderator has the rights
    given to its first active identity, and to the one asked for if none is
    active. *)
Theorem fetch_platform_identity_spec env p r st :
  fault env = no_fault → platform_wf (vd_platform (db st)) → r ∈ t_rows (vd_platform (db st)) → is_member s p r →
  let t := vd_platform (db st) in
  let moderated := t_exists (is_moderator_on s) t in
  let live := t_exists (live_moderator s (now env) (db st)) t in
  ∃ i t', fetch_platform_identity s env p st = (Ok i, set_db (set_vd_platform t' (db st)) st) ∧
    pi_active i = pr_active r ∧ platform_wf t' ∧
    (can_moderate (pr_caps r) = true ∨ live = true → t' = t ∧ pi_caps i = pr_caps r) ∧
    (can_moderate (pr_caps r) = false → moderated = true → live = false →
       pi_caps i = founder_caps (pr_caps r) ∧
       t_rows t' = (λ x, if decide (x = r) then promote (sql_now (now env)) r else x) <$> t_rows t) ∧
    (can_moderate (pr_caps r) = false → moderated = false → t_exists (is_active_on s) t = true →
       t' = (t_update (founder_candidate s t) (promote (sql_now (now env))) t).2) ∧
    (can_moderate (pr_caps r) = false → t_exists (is_active_on s) t = false → can_moderate (pi_caps i) = true).
Proof.
  intros Hf HW Hr Hm. cbv zeta. destruct (fetch_run env p r st Hf HW Hr Hm) as (i & r' & Hrun & Hr' & Hm' & Hc & Ha).
  cbn [db set_db vd_platform set_vd_platform] in Hr'. exists i, (repaired (now env) p (pr_caps r) (db st)).
  set (tn := sql_now (now env)) in *.
  assert (t_exists (live_moderator s (now env) (db st)) (vd_platform (db st)) = true →
          t_exists (is_moderator_on s) (vd_platform (db st)) = true) as Hlive.
  { intros (x & Hx & [Hl _])%t_exists_spec. apply t_exists_spec. by exists x. }
  assert (t_exists (is_moderator_on s) (vd_platform (db st)) = true →
          t_exists (is_active_on s) (vd_platform (db st)) = true) as Hmod.
  { intros (x & Hx & (? & _ & ?))%t_exists_spec. apply t_exists_spec. by exists x. }
  assert (∀ P `{!∀ x, Decision (P x)}, r' ∈ t_rows (t_update P (promote tn) (vd_platform (db st))).2 →
            r' = if decide (P r) then promote tn r else r) as Hupd.
  { intros P HP (x & Hx & E)%elem_of_t_update.
    assert (x = r) as -> by (eapply member_is; [done..|]; by destruct E as [[_ ->]|[_ ->]]).
    case_decide; naive_solver. }
  assert (r' ∈ t_rows (vd_platform (db st)) → r' = r) as Hsame by (intros; by eapply member_is).
  split; [exact Hrun|]. clear Hrun. unfold repaired in *. fold tn in Hr' |- *. rewrite Hc, Ha.
  destruct (can_moderate (pr_caps r)) eqn:Ecm; [by rewrite (Hsame Hr')|].
  destruct (t_exists (is_moderator_on s) (vd_platform (db st))) eqn:Em; cbn [negb andb] in *.
  - pose proof (Hmod eq_refl) as Eact. destruct (t_exists (live_moderator _ _ _) _) eqn:El.
    + rewrite (Hsame Hr'). by rewrite Eact.
    + apply Hupd in Hr'. rewrite decide_True in Hr' by done. subst r'. split; [done|].
      split; [by apply platform_wf_update|]. split; [naive_solver|]. split; [intros _ _ _|by rewrite Eact].
      split; [done|]. apply list_fmap_ext. intros j x Hx%list_elem_of_lookup_2.
      destruct (decide (x = r)) as [->|Hne]; [by rewrite decide_True|]. rewrite decide_False; [done|].
      intros Hmx. apply Hne. by eapply member_is.
  - destruct (t_exists (live_moderator _ _ _) _) eqn:El; [by discriminate (Hlive eq_refl)|].
    destruct (t_exists (is_active_on s) (vd_platform (db st))) eqn:Eact.
    + apply Hupd in Hr'. split; [subst r'; by case_decide|]. split; [by apply platform_wf_update|].
      split; [naive_solver|]. by split_and!.
    + apply Hupd in Hr'. rewrite decide_True in Hr' by done. subst r'. split; [done|].
      split; [by apply platform_wf_update|]. split; [naive_solver|]. by split_and!.
Qed.
End looking_up.

(** ** Witnesses *)

Section witnesses.
#[local] Existing Instances hex_reference toy_poseidon toy_clock toy_sha256 toy_event_serde Rtx.tags_serde.
#[local] Existing Instance toy_ark.
#[local] Instance toy_metadata : AgentMetadata :=
  {| JsonValue := unit; json_value _ := Some (); metadata_text _ _ _ _ := "{}" |}.
Definition toy_proof_json (t : string) : option SnarkJsProof :=
  Some {| pi_a := ["1"; "2"]; pi_b := [["1"; "2"]; ["1"; "2"]]; pi_c := ["1"; "2"] |}.
Definition toy_vkey : VerifyingKey :=
  {| alpha_g1 := (1, 1)%nat; beta_g2 := ((1, 1), (1, 1))%nat; gamma_g2 := ((1, 1), (1, 1))%nat;
     delta_g2 := ((1, 1), (1, 1))%nat; gamma_abc_g1 := [] |}.
Definition toy_groth16 : VerifyingKey → list Fr → Zk.Proof → option bool := λ _ _ _, Some true.

(** A tree of depth one, in which one commitment is registered. *)
Definition toy_commitment : string := fr_hex (toy_fr_of_Z 5).
Definition toy_new : MerkleTree :=
  match new_tree 1 with Ok t => t | _ => {| depth := 1; next_index := 0; nodes := ∅; zeros := [] |} end.
Definition toy_reg : RegDb :=
  {| rg_merkle := {| vrp_leaves := []; vrp_roots := [] |}; vrp_identities := t_empty; vrp_topics := [];
     vrp_roles := seeded_roles |}.
Definition toy_vdb (reg : RegDb) : VerifyState :=
  {| db := {| vd_registry := reg; vd_nullifiers := t_empty; vd_platform := t_empty; vd_nodes := t_empty;
              vd_agents := t_empty; vd_servers := [1]; vd_events := t_empty |}; effects := [] |}.
Definition toy_register : RegisterRequest :=
  {| rg_commitment_hex := toy_commitment; rg_role_code := 1; rg_node_id := 7 |}.
Definition toy_registered : MerkleTree * RegDb :=
  (register_identity no_fault "now" toy_commitment Human 7 (toy_new, toy_reg)).2.

Lemma toy_in_step : in_step toy_new toy_reg [].
Proof.
  unfold toy_new. destruct (new_tree_ok 1) as (t & -> & Hd & HR). split; [|by intros r ?%not_elem_of_nil].
  by split; [|apply toy_db_matches|].
Qed.

Lemma toy_registered_in_step : in_step toy_registered.1 toy_registered.2 [leaf_of_commitment toy_commitment].
Proof.
  unfold toy_registered. destruct (register_identity _ _ _ _ _ _) as [o [t' db']] eqn:E.
  assert (is_ok o = true) as Hok.
  { change o with ((o, (t', db')).1). rewrite <- E. by vm_compute. }
  apply is_ok_spec in Hok as [res ->]. by eapply (register_identity_in_step _ _ _ _ _ toy_new toy_reg []) in E as [? _];
    [|apply toy_in_step].
Qed.

Lemma register_handler_spec_witness :
  let '(o, (t', st')) := register_handler 1 toy_env toy_register (toy_new, toy_vdb toy_reg) in
  is_ok o = true ∧ in_step t' (vd_registry (db st')) [leaf_of_commitment toy_commitment].
Proof.
  pose proof (register_handler_spec 1 toy_env toy_register toy_new (toy_vdb toy_reg) [] toy_in_step) as H.
  assert (is_ok (register_handler 1 toy_env toy_register (toy_new, toy_vdb toy_reg)).1 = true) as Hok by (by vm_compute).
  destruct (register_handler _ _ _ _) as [[res|e|] [t' st']]; [|discriminate Hok..].
  split; [done|]. by destruct H as (_ & _ & H & _).
Defined.

Definition toy_verify : VerifyMembershipRequest :=
  {| vm_root := match root_hex toy_registered.1 with Ok h => h | _ => "" end; vm_commitment := toy_commitment;
     vm_topic := "annex:server:v1"; vm_proof := "{}";
     vm_public_signals := [match root_hex toy_registered.1 with Ok h => h | _ => "" end; toy_commitment] |}.
Abbreviation toy_verification :=
  (verify_membership_handler toy_proof_json toy_groth16 toy_vkey 1 toy_env toy_verify).

Lemma toy_verification_ok : is_ok (toy_verification (toy_vdb toy_registered.2)).1 = true.
Proof. by vm_compute. Qed.

(** The second verification of the same commitment for the same topic. *)
Lemma verified_once_witness :
  let '(o, st') := toy_verification (toy_vdb toy_registered.2) in
  is_ok o = true ∧ (toy_verification st').1 = Err 409.
Proof.
  pose proof toy_verification_ok as Hok. destruct (toy_verification (toy_vdb toy_registered.2)) as [[p|e|] st'] eqn:E;
    [|discriminate Hok..].
  split; [done|].
  pose proof (verified_once toy_proof_json toy_groth16 toy_vkey 1 toy_env toy_env toy_verify toy_verify
    (toy_vdb toy_registered.2) p st' E eq_refl eq_refl st' (λ _ H, H)) as H.
  destruct (toy_verification st') as [o st3]. destruct H as (_ & _ & H).
  apply H; [by vm_compute|done|done|done|done].
Defined.

Lemma verified_root_was_current_witness :
  vm_root toy_verify = fr_hex (merkle_root (depth toy_registered.1) [leaf_of_commitment toy_commitment]).
Proof.
  pose proof toy_verification_ok as Hok. destruct (toy_verification (toy_vdb toy_registered.2)) as [[p|e|] st'] eqn:E;
    [|discriminate Hok..].
  destruct (verified_root_was_current toy_proof_json toy_groth16 toy_vkey 1 toy_env toy_verify (toy_vdb toy_registered.2)
    p st' toy_registered.1 [leaf_of_commitment toy_commitment] toy_registered_in_step E)
    as (n & proof & c & Hn & Hroot & _).
  rewrite Hroot. by replace n with 1%nat by (cbn in Hn; lia).
Defined.

(** A deactivated identity on a server whose moderator was last seen 301
    seconds ago. *)
Definition toy_person (id : Z) (p : string) (moderator active : bool) : PlatformRow :=
  {| pr_id := id; pr_server_id := 1; pr_pseudonym_id := p; pr_participant_type := "HUMAN";
     pr_caps := initial_caps moderator; pr_active := active; pr_created_at := "t"; pr_updated_at := "t" |}.
Definition toy_people : State VerifyDb :=
  {| db := {| vd_registry := toy_reg; vd_nullifiers := t_empty;
              vd_platform := Table [toy_person 1 "founder" true true; toy_person 2 "gone" false false] 2;
              vd_nodes := Table [toy_node "founder" true 1000] 1;
              vd_agents := t_empty; vd_servers := [1]; vd_events := t_empty |}; effects := [] |}.

Lemma fetch_platform_identity_spec_witness :
  ∃ i st', fetch_platform_identity 1 {| fault := no_fault; now := 1301; now_rfc3339 := ""; anchor_clock := None |}
             "gone" toy_people = (Ok i, st') ∧ can_moderate (pi_caps i) = true ∧ pi_active i = false.
Proof.
  assert (platform_wf (vd_platform (db toy_people))) as HW.
  { split.
    - split; repeat constructor; done.
    - intros r1 r2 [->|[->|[]%elem_of_nil]%elem_of_cons]%elem_of_cons [->|[->|[]%elem_of_nil]%elem_of_cons]%elem_of_cons; done.
    - intros r [->|[->|[]%elem_of_nil]%elem_of_cons]%elem_of_cons; by exists Human. }
  destruct (fetch_platform_identity_spec 1 {| fault := no_fault; now := 1301; now_rfc3339 := ""; anchor_clock := None |}
    "gone" (toy_person 2 "gone" false false) toy_people eq_refl HW) as (i & t' & Hrun & Ha & _ & _ & Hp & _).
  - cbn. right. left.
  - done.
  - eexists i, _. split; [exact Hrun|]. destruct Hp as [Hc _]; [done|by vm_compute..|]. by rewrite Hc, Ha.
Defined.
End witnesses.
