(* ===== verification/Admin.v ===== *)
(** * Admin: the moderators' endpoints

    crates/annex-server/src/api_admin.rs.  A change of policy composes what
    Agents and Peers model: it is stored with its version, becomes the policy
    in memory, and every agent and every agreement is evaluated again.  The
    revocation of an agreement is in Peers. *)

From S2P Require Import Prelude Sql Bytes Types Identity Text Observe Platform Vrp Channels Connections Handlers Agents Peers.

#[local] Open Scope Z_scope.

(** ** State *)

Record ServerRow := {
  sr_id : Z;
  sr_slug : string;
  sr_label : string;
  sr_policy_json : string;
  sr_created_at : string;
}.
Record PolicyVersionRow := {
  pv_id : Z;
  pv_server_id : Z;
  pv_version_id : string;
  pv_policy_json : string;
  pv_activated_at : string;
}.

(** The event log is the one of [ad_agents]. *)
Record AdminDb := {
  ad_servers : table ServerRow;
  ad_versions : table PolicyVersionRow;
  ad_platform : table PlatformRow;
  ad_agents : AgentDb;
  ad_peers : PeerDb;
}.
Definition set_ad_servers (t : table ServerRow) (d : AdminDb) : AdminDb :=
  {| ad_servers := t; ad_versions := ad_versions d; ad_platform := ad_platform d; ad_agents := ad_agents d;
     ad_peers := ad_peers d |}.
Definition set_ad_versions (t : table PolicyVersionRow) (d : AdminDb) : AdminDb :=
  {| ad_servers := ad_servers d; ad_versions := t; ad_platform := ad_platform d; ad_agents := ad_agents d;
     ad_peers := ad_peers d |}.
Definition set_ad_platform (t : table PlatformRow) (d : AdminDb) : AdminDb :=
  {| ad_servers := ad_servers d; ad_versions := ad_versions d; ad_platform := t; ad_agents := ad_agents d;
     ad_peers := ad_peers d |}.
Definition set_ad_agents (a : AgentDb) (d : AdminDb) : AdminDb :=
  {| ad_servers := ad_servers d; ad_versions := ad_versions d; ad_platform := ad_platform d; ad_agents := a;
     ad_peers := ad_peers d |}.
#[export] Instance admin_log : HasLog AdminDb := {|
  event_log d := event_log (ad_agents d);
  set_log t d := set_ad_agents (set_log t (ad_agents d)) d |}.

(** The tables of the peers with the log. *)
Definition peer_view (d : AdminDb) : PeerDb := set_log (event_log d) (ad_peers d).
Definition set_peer_view (p : PeerDb) (d : AdminDb) : AdminDb :=
  {| ad_servers := ad_servers d; ad_versions := ad_versions d; ad_platform := ad_platform d;
     ad_agents := set_log (event_log p) (ad_agents d); ad_peers := p |}.

(** The database with what was sent, the sessions, and the locks of the
    AppState with the policy and the public URL. *)
Record AdminState := {
  as_state : State AdminDb;
  as_mgr : Manager;
  as_policy : ServerPolicy;
  as_public_url : string;
}.
Definition set_as_state (x : State AdminDb) (st : AdminState) : AdminState :=
  {| as_state := x; as_mgr := as_mgr st; as_policy := as_policy st; as_public_url := as_public_url st |}.

Definition server_is (s : Z) (r : ServerRow) : Prop := sr_id r = s.
#[export] Instance server_is_dec s r : Decision (server_is s r).
Proof. unfold server_is. apply _. Defined.
Definition version_is (v : string) (r : PolicyVersionRow) : Prop := pv_version_id r = v.
#[export] Instance version_is_dec v r : Decision (version_is v r).
Proof. unfold version_is. apply _. Defined.

Definition with_policy (json : string) (r : ServerRow) : ServerRow :=
  {| sr_id := sr_id r; sr_slug := sr_slug r; sr_label := sr_label r; sr_policy_json := json;
     sr_created_at := sr_created_at r |}.
Definition with_label (label : string) (r : ServerRow) : ServerRow :=
  {| sr_id := sr_id r; sr_slug := sr_slug r; sr_label := label; sr_policy_json := sr_policy_json r;
     sr_created_at := sr_created_at r |}.

(** [INSERT INTO server_policy_versions]: UNIQUE (version_id), FOREIGN KEY
    (server_id). *)
Definition insert_version (now : string) (s : Z) (version json : string) : M AdminDb sql_error unit := λ d,
  if t_exists (version_is version) (ad_versions d) then (Err ConstraintUnique, d)
  else if negb (t_exists (server_is s) (ad_servers d)) then (Err ConstraintForeignKey, d)
  else (Ok (), set_ad_versions (t_insert (λ id,
    {| pv_id := id; pv_server_id := s; pv_version_id := version; pv_policy_json := json;
       pv_activated_at := now |}) (ad_versions d)).2 d).

Record MemberInfo := {
  mi_pseudonym_id : string;
  mi_participant_type : string;
  mi_caps : Capabilities;
  mi_active : bool;
  mi_created_at : string;
}.

Definition bool_text (b : bool) : string := if b then "true" else "false".
Definition quoted (t : string) : string := String "034"%char (t +:+ String "034"%char "").

Section admin.
Context `{HX : HexCrate, SH : Sha256, UT : UnicodeText, CK : Clock}.
Context `{SR : Serde VrpValidationReport, SF : Serde VrpFederationHandshake, SE : Serde EventPayload.t}.
Context `{SC : Serde VrpCapabilitySharingContract, SA : Serde VrpAnchorSnapshot, SQ : Serde HandshakeRequest}.
Context `{SPO : Serde ServerPolicy}.
Context (s : Z).

Abbreviation query := (on_db (D := AdminDb) (λ _ : sql_error, 500 : http_error)).
Abbreviation Admin := (M AdminState http_error).

Definition on_state {A} (m : M (State AdminDb) http_error A) : Admin A := zoom as_state set_as_state m.
Definition on_agents {A} (m : M (AgentState * Manager) http_error A) : Admin A := λ st,
  let '(r, (a, mgr)) := m ({| db := ad_agents (db (as_state st)); effects := effects (as_state st) |}, as_mgr st) in
  (r, {| as_state := {| db := set_ad_agents (db a) (db (as_state st)); effects := effects a |}; as_mgr := mgr;
         as_policy := as_policy st; as_public_url := as_public_url st |}).
Definition on_peers {A} (m : M (State PeerDb) http_error A) : Admin A := λ st,
  let '(r, p) := m {| db := peer_view (db (as_state st)); effects := effects (as_state st) |} in
  (r, set_as_state {| db := set_peer_view (db p) (db (as_state st)); effects := effects p |} st).

Definition moderator_only (identity : PlatformIdentity) : Admin unit :=
  lift (reject_if (negb (can_moderate (pi_caps identity))) 403).

(** ** The policy *)

Definition get_policy_handler (identity : PlatformIdentity) : Admin ServerPolicy :=
  moderator_only identity;; gets as_policy.

Definition policy_event (moderator version : string) : EventPayload.t :=
  EventPayload.ModerationAction moderator "policy_update" None ("Server policy updated to version " +:+ version).

(** BEGIN is statement 0, COMMIT 4. *)
Definition store_policy (env : Env) (moderator version : string) (new_policy : ServerPolicy) :
    M (State AdminDb) http_error unit :=
  let json := to_json new_policy in
  db_transaction (λ _, 500) env 0 4
    (query env 1 (λ d, let '(_, t) := t_update (server_is s) (with_policy json) (ad_servers d) in
                       (Ok tt, set_ad_servers t d));;
     query env 2 (insert_version (sql_now (now env)) s version json);;
     emit env 3 s moderator (policy_event moderator version)).

Definition put_policy (p : ServerPolicy) : Admin unit := λ st,
  (Ok (), {| as_state := as_state st; as_mgr := as_mgr st; as_policy := p; as_public_url := as_public_url st |}).

(** policy.rs; the two re-evaluations are requests of their own to the
    database. *)
Definition recalculate_all_alignments (env_agents env_peers : Env) : Admin unit :=
  policy ← gets as_policy;
  on_agents (recalculate_agent_alignments env_agents policy s);;
  policy ← gets as_policy;
  url ← gets as_public_url;
  on_peers (recalculate_federation_agreements env_peers policy s url).

Definition update_policy_handler (env env_agents env_peers : Env) (identity : PlatformIdentity) (version_id : string)
    (new_policy : ServerPolicy) : Admin string :=
  moderator_only identity;;
  on_state (store_policy env (pi_pseudonym_id identity) version_id new_policy);;
  put_policy new_policy;;
  recalculate_all_alignments env_agents env_peers;;
  mret version_id.

(** ** The server *)

Definition MAX_LABEL_LEN : nat := 128.

Definition rename_server_handler (env : Env) (identity : PlatformIdentity) (label : string) : Admin string :=
  moderator_only identity;;
  let label := trim label in
  lift (reject_if (bool_decide (label = "") || bool_decide (MAX_LABEL_LEN < String.length label)%nat) 400);;
  on_state (query env 0 (λ d, let '(_, t) := t_update (server_is s) (with_label label) (ad_servers d) in
                              (Ok tt, set_ad_servers t d)));;
  on_state (emit env 1 s (pi_pseudonym_id identity)
    (EventPayload.ModerationAction (pi_pseudonym_id identity) "server_rename" None ("Server renamed to " +:+ quoted label)));;
  mret label.

Definition get_server_handler (env : Env) (identity : PlatformIdentity) : Admin (string * string * string) :=
  moderator_only identity;;
  d ← gets (db ∘ as_state);
  rows ← lift (map_err (λ _, 500) (read (fault env) 0 (t_select (server_is s) (ad_servers d))));
  row ← lift (ok_or (head rows) 500);
  url ← gets as_public_url;
  mret (sr_slug row, sr_label row, url).

Definition put_public_url (url : string) : Admin unit := λ st,
  (Ok (), {| as_state := as_state st; as_mgr := as_mgr st; as_policy := as_policy st; as_public_url := url |}).

Definition set_public_url_handler (identity : PlatformIdentity) (public_url : string) : Admin string :=
  moderator_only identity;;
  let url := trim_end_matches "/" (trim public_url) in
  lift (reject_if (negb (bool_decide (url = "")) && negb (starts_with "http://" url) && negb (starts_with "https://" url)) 400);;
  put_public_url url;;
  mret url.

(** ** The members *)

Definition member_info (r : PlatformRow) : MemberInfo :=
  {| mi_pseudonym_id := pr_pseudonym_id r; mi_participant_type := pr_participant_type r; mi_caps := pr_caps r;
     mi_active := pr_active r; mi_created_at := pr_created_at r |}.

Definition list_members_handler (env : Env) (identity : PlatformIdentity) : Admin (list MemberInfo) :=
  moderator_only identity;;
  d ← gets (db ∘ as_state);
  rows ← lift (map_err (λ _, 500) (read (fault env) 0
    (order_by String.le pr_created_at (t_select (on_server s) (ad_platform d)))));
  mret (member_info <$> rows).

Definition capabilities_text (target : string) (c : Capabilities) : string :=
  "Updated capabilities for " +:+ target +:+ ": moderate=" +:+ bool_text (can_moderate c) +:+
  ", voice=" +:+ bool_text (can_voice c) +:+ ", invite=" +:+ bool_text (can_invite c) +:+
  ", federate=" +:+ bool_text (can_federate c) +:+ ", bridge=" +:+ bool_text (can_bridge c).

Definition update_member_capabilities_handler (env : Env) (identity : PlatformIdentity) (target : string)
    (caps : Capabilities) : Admin unit :=
  moderator_only identity;;
  on_state (call ad_platform set_ad_platform (λ _, 500)
    (update_capabilities (fault env) (sql_now (now env)) s target caps));;
  on_state (emit env 1 s (pi_pseudonym_id identity)
    (EventPayload.ModerationAction (pi_pseudonym_id identity) "capabilities_update" (Some target)
       (capabilities_text target caps))).
End admin.

(** * Theorems *)

Section theorems.
Context `{HX : HexCrate, SH : Sha256, UT : UnicodeText, CK : Clock}.
Context `{SR : Serde VrpValidationReport, SF : Serde VrpFederationHandshake, SE : Serde EventPayload.t}.
Context `{SC : Serde VrpCapabilitySharingContract, SA : Serde VrpAnchorSnapshot, SQ : Serde HandshakeRequest}.
Context `{SPO : Serde ServerPolicy}.
Context `{SCL : !SerdeLaws VrpCapabilitySharingContract, SAL : !SerdeLaws VrpAnchorSnapshot}.
Context `{SFL : !SerdeLaws VrpFederationHandshake}.
Context (s : Z).

Lemma moderator_only_refuses {A} identity (m : unit → M AdminState http_error A) st :
  can_moderate (pi_caps identity) = false → (moderator_only identity ≫= m) st = (Err 403, st).
Proof. intros H. unfold moderator_only, mbind, M_bind, lift. by rewrite H. Qed.

(** Every endpoint of the moderators refuses an identity that is none,
    with 403, before it looks at anything else. *)
Theorem admin_needs_moderator env env2 env3 identity version policy label url target caps st :
  can_moderate (pi_caps identity) = false →
  get_policy_handler identity st = (Err 403, st) ∧
  update_policy_handler s env env2 env3 identity version policy st = (Err 403, st) ∧
  rename_server_handler s env identity label st = (Err 403, st) ∧
  get_server_handler s env identity st = (Err 403, st) ∧
  set_public_url_handler identity url st = (Err 403, st) ∧
  list_members_handler s env identity st = (Err 403, st) ∧
  update_member_capabilities_handler s env identity target caps st = (Err 403, st).
Proof. intros H. split_and!; by apply moderator_only_refuses. Qed.

(** The policy is the server's, and recorded under a new version. *)
Definition stored_policy (version json : string) (d d' : AdminDb) : Prop :=
  t_exists (version_is version) (ad_versions d) = false ∧
  (∃ v, t_rows (ad_versions d') = t_rows (ad_versions d) ++ [v] ∧ pv_version_id v = version ∧
     pv_server_id v = s ∧ pv_policy_json v = json) ∧
  t_exists (server_is s) (ad_servers d) = true ∧
  ad_servers d' = (t_update (server_is s) (with_policy json) (ad_servers d)).2 ∧
  ad_platform d' = ad_platform d.

Lemma server_kept json (t : table ServerRow) :
  t_exists (server_is s) (t_update (server_is s) (with_policy json) t).2 = t_exists (server_is s) t.
Proof.
  apply eq_true_iff_eq. rewrite !t_exists_spec. setoid_rewrite elem_of_t_update. split.
  - intros (r & (r0 & Hr0 & [[HP _]|[_ ->]]) & HP'); by eauto.
  - intros (r & Hr & HP). exists (with_policy json r). split; [|done]. exists r. auto.
Qed.

Lemma store_policy_cases env moderator version policy st o st' :
  store_policy s env moderator version policy st = (o, st') →
  (is_ok o = false ∧ db st' = db st) ∨
  (o = Ok () ∧ stored_policy version (to_json policy) (db st) (db st') ∧ ad_peers (db st') = ad_peers (db st) ∧
   ∃ t, ad_agents (db st') = set_log t (ad_agents (db st))).
Proof.
  unfold store_policy. intros H. destruct o as [[]|e|]; [right|left..];
    [|by split; [|apply (db_transaction_rolls_back _ _ _ _ _ _ _ _ H)]..].
  split; [done|]. apply db_transaction_ok in H as (_ & _ & H).
  apply M_bind_ok in H as ([] & st1 & (_ & d1 & [= <-] & ->)%on_db_ok & H).
  apply M_bind_ok in H as ([] & st2 & (_ & d2 & H2 & ->)%on_db_ok & H).
  unfold insert_version in H2. cbn [db set_db set_ad_servers ad_versions ad_servers] in H2.
  destruct (t_exists (version_is version) _) eqn:Ev; [done|].
  destruct (t_exists (server_is s) _) eqn:Es; cbn [negb] in H2; [|done]. injection H2 as <-.
  assert (t_exists (server_is s) (ad_servers (db st)) = true) as Hs by (rewrite <- (server_kept (to_json policy)); exact Es).
  destruct (emit_ok (E := http_error) env 3 s moderator (policy_event moderator version)
    (set_db (set_ad_versions (t_insert (λ id, {| pv_id := id; pv_server_id := s; pv_version_id := version;
       pv_policy_json := to_json policy; pv_activated_at := sql_now (now env) |}) (ad_versions (db st))).2
       (set_ad_servers (t_update (server_is s) (with_policy (to_json policy)) (ad_servers (db st))).2 (db st))) st))
    as (t & st3 & Hem & Hdb).
  match type of H with ?m ?x = _ => match type of Hem with _ ?y = _ => change x with y in H end end.
  rewrite Hem in H. injection H as <-. rewrite Hdb. split; [|by split; [|exists t]].
  unfold stored_policy. do 2 (split; [done || by eexists|]). by split_and!.
Qed.

(** The two re-evaluations, on the state with the new policy. *)
Lemma recalculate_all_cases env env' st o st' :
  agents_ok (ad_agents (db (as_state st))) → peers_ok (ad_peers (db (as_state st))) →
  recalculate_all_alignments s env env' st = (o, st') →
  let d := db (as_state st) in
  let d' := db (as_state st') in
  as_policy st' = as_policy st ∧ ad_servers d' = ad_servers d ∧ ad_versions d' = ad_versions d ∧
  ad_platform d' = ad_platform d ∧ agents_ok (ad_agents d') ∧ peers_ok (ad_peers d') ∧
  ((o = Err 500 ∧ registrations (ad_agents d') = registrations (ad_agents d) ∧ as_mgr st' = as_mgr st ∧
    agreements (ad_peers d') = agreements (ad_peers d)) ∨
   (in_force (as_policy st) s (ad_agents d') ∧
    (o = Err 500 ∧ agreements (ad_peers d') = agreements (ad_peers d) ∨
     o = Ok () ∧ ∀ a, a ∈ t_rows (agreements (ad_peers d')) → is_active a → agreement_current (as_policy st) a))).
Proof.
  intros HA HP. unfold recalculate_all_alignments, mbind, M_bind, gets, on_agents.
  pose proof (recalculate_agents_cases env (as_policy st) s
    {| db := ad_agents (db (as_state st)); effects := effects (as_state st) |} (as_mgr st) HA) as HC.
  destruct (recalculate_agent_alignments _ _ _ _) as [r [a mgr]].
  destruct HC as [(-> & Hd & ->)|(-> & HA' & Hin & _)].
  { intros [= <- <-]. cbn in *. rewrite Hd. do 6 (split; [done|]). by left. }
  unfold on_peers. cbn [as_policy as_state as_public_url db set_ad_agents].
  match goal with |- context [recalculate_federation_agreements env' ?p s ?u ?x] =>
    assert (peers_ok (db x)) as HP' by (destruct HP; by split);
    pose proof (recalculate_agreements_cases env' p s u x HP') as HC;
    destruct (recalculate_federation_agreements env' p s u x) as [r p'] end.
  intros H. assert (∀ t, agents_ok (set_log t (db a))) as HA2 by (intros t; destruct HA'; by split).
  destruct HC as [(-> & Hd)|(-> & HP2 & Hcur & _)]; injection H as <- <-; cbn in *.
  - rewrite Hd. do 4 (split; [done|]). split; [apply HA2|]. split; [exact HP'|]. right. split; [exact Hin|]. by left.
  - do 4 (split; [done|]). split; [apply HA2|]. split; [exact HP2|]. right. split; [exact Hin|]. by right.
Qed.

(** C12. A change of policy is stored or nothing happens.  If it cannot be
    stored under its version, everything, the policy in force included, is as
    before.  Otherwise the new policy is in force from then on, in memory
    and in the table, and when the answer is Ok every active agent and every
    active agreement says what the new policy says of it.  When it is 500
    the re-evaluation failed although the policy is in force: agreements are
    as before, and either the agents are too or they follow the new policy. *)
Theorem policy_update_takes_hold env env2 env3 identity version policy st :
  agents_ok (ad_agents (db (as_state st))) → peers_ok (ad_peers (db (as_state st))) →
  let '(o, st') := update_policy_handler s env env2 env3 identity version policy st in
  let d := db (as_state st) in
  let d' := db (as_state st') in
  (is_ok o = false ∧ d' = d ∧ as_policy st' = as_policy st ∧ as_mgr st' = as_mgr st) ∨
  (can_moderate (pi_caps identity) = true ∧ as_policy st' = policy ∧ stored_policy version (to_json policy) d d' ∧
   agents_ok (ad_agents d') ∧ peers_ok (ad_peers d') ∧
   (o = Ok version ∧ in_force policy s (ad_agents d') ∧
      (∀ a, a ∈ t_rows (agreements (ad_peers d')) → is_active a → agreement_current policy a) ∨
    o = Err 500 ∧ agreements (ad_peers d') = agreements (ad_peers d) ∧
      (registrations (ad_agents d') = registrations (ad_agents d) ∧ as_mgr st' = as_mgr st ∨
       in_force policy s (ad_agents d')))).
Proof.
  intros HA HP. destruct (update_policy_handler s env env2 env3 identity version policy st) as [o st'] eqn:H.
  cbv zeta. unfold update_policy_handler in H.
  apply M_bind_reads_cases in H as [[? ->]|([] & [Hm%reject_if_ok%negb_false_iff _]%lift_ok & H)]; [by left| |done].
  unfold mbind, M_bind, on_state, zoom in H.
  destruct (store_policy s env (pi_pseudonym_id identity) version policy (as_state st)) as [o1 x] eqn:E.
  apply store_policy_cases in E as [[Ho Hd]|(-> & Hst & Hpe & t & Hag)].
  { left. destruct o1 as [[]|e|]; [done|..]; injection H as <- <-; by split_and!. }
  right. unfold put_policy in H. cbn [as_state set_as_state as_mgr as_policy as_public_url] in H.
  destruct (recalculate_all_alignments s env2 env3 _) as [o2 st2] eqn:E.
  apply recalculate_all_cases in E as (Ep & Es & Ev & Epl & HA' & HP' & HC); cbn in *.
  2: { rewrite Hag. destruct HA; by split. }
  2: { by rewrite Hpe. }
  assert (st' = st2 ∧ o = (_ ← o2; Ok version)) as [-> ->] by (by destruct o2 as [[]|e|]; injection H as <- <-).
  split; [done|]. split; [done|]. split.
  { destruct Hst as (? & ? & ? & ? & ?). unfold stored_policy. by rewrite Es, Ev, Epl. }
  split; [done|]. split; [done|]. rewrite Hpe, Hag in HC.
  destruct HC as [(-> & Hr & Hmg & Hg)|[Hin [[-> Hg]|[-> Hg]]]]; [right|right|left]; cbn; split_and!; try done.
  - by left.
  - by right.
Qed.
End theorems.

(** ** Witnesses *)

Section witnesses.
#[local] Existing Instances hex_reference toy_sha256 ascii_text toy_clock report_serde handshake_serde toy_event_serde
  contract_serde anchor_serde toy_request_serde toy_policy_serde contract_serde_laws anchor_serde_laws
  handshake_serde_laws.

Definition toy_moderator (m : bool) : PlatformIdentity :=
  {| pi_id := 1; pi_server_id := 1; pi_pseudonym_id := "mod"; pi_participant_type := Human;
     pi_caps := {| can_voice := true; can_moderate := m; can_invite := true; can_federate := true; can_bridge := false |};
     pi_active := true; pi_created_at := ""; pi_updated_at := "" |}.
Definition toy_admin : AdminState :=
  {| as_state := {| db := {| ad_servers := Table [{| sr_id := 1; sr_slug := "annex"; sr_label := "Annex";
                                                      sr_policy_json := "{}"; sr_created_at := "" |}] 1;
                             ad_versions := t_empty; ad_platform := t_empty; ad_agents := db with_agent;
                             ad_peers := db shook |}; effects := [] |};
     as_mgr := bot_connected; as_policy := ServerPolicy_default; as_public_url := "" |}.

Lemma admin_needs_moderator_witness :
  update_policy_handler 1 toy_env toy_env toy_env (toy_moderator false) "v1" strict_policy toy_admin =
    (Err 403, toy_admin).
Proof.
  apply (admin_needs_moderator 1 toy_env toy_env toy_env (toy_moderator false) "v1" strict_policy "" "" ""
    (pi_caps (toy_moderator true)) toy_admin eq_refl).
Defined.

(** A policy the only agent and the only peer are in conflict with. *)
Lemma policy_update_takes_hold_witness :
  let '(o, st') := update_policy_handler 1 toy_env toy_env toy_env (toy_moderator true) "v1" strict_policy toy_admin in
  o = Ok "v1" ∧ as_policy st' = strict_policy ∧ in_force strict_policy 1 (ad_agents (db (as_state st'))).
Proof.
  pose proof (policy_update_takes_hold 1 toy_env toy_env toy_env (toy_moderator true) "v1" strict_policy toy_admin
    with_agent_ok shook_peers_ok) as H.
  assert ((update_policy_handler 1 toy_env toy_env toy_env (toy_moderator true) "v1" strict_policy toy_admin).1 = Ok "v1")
    as Hok by (by vm_compute).
  destruct (update_policy_handler _ _ _ _ _ _ _ _) as [o st']. cbn in Hok. subst o.
  destruct H as [[? _]|(_ & Hp & _ & _ & _ & [(_ & Hin & _)|[? _]])]; [done| |done]. by split_and!.
Defined.
End witnesses.
