(* ===== verification/Usernames.v ===== *)
(** * Usernames: encrypted names and who may see them

    crates/annex-server/src/api_usernames.rs.  A name is stored encrypted
    under a key derived from the server's signing key and the pseudonym;
    grants say who else may read it.  HKDF-SHA256 and ChaCha20-Poly1305 are a
    parameter ([NameCipher]) with their documented laws; the random nonce is
    an input of the request.  The handlers are shown to implement a plain
    book of names ([Book]). *)

From S2P Require Import Prelude Sql Bytes Types Identity Text Platform Handlers.

#[local] Open Scope Z_scope.

(** ** Encryption *)

(** [hkdf salt ikm info] is the 32-byte output; encryption and decryption
    take the key, the nonce and the text. *)
Class NameCipher := {
  hkdf : list byte → list byte → list byte → list byte;
  aead_encrypt : list byte → list byte → list byte → list byte;
  aead_decrypt : list byte → list byte → list byte → option (list byte);
}.
Class NameCipherLaws `(NameCipher) := {
  hkdf_length : ∀ salt ikm info, length (hkdf salt ikm info) = 32%nat;
  aead_encrypt_length : ∀ k n m,
    length k = 32%nat → length n = 12%nat → length (aead_encrypt k n m) = (length m + 16)%nat;
  aead_decrypt_encrypt : ∀ k n m,
    length k = 32%nat → length n = 12%nat → aead_decrypt k n (aead_encrypt k n m) = Some m;
}.

Definition MAX_USERNAME_LEN : nat := 32.
Definition AEAD_OVERHEAD : nat := 12 + 16.

(** [chars().count()] of UTF-8 text, and [any(|c| c.is_control())]: U+0000 to
    U+001F and U+007F to U+009F. *)
Fixpoint chars_count (s : string) : nat :=
  match s with
  | "" => 0
  | String c s => if between 128 191 c then chars_count s else S (chars_count s)
  end.
Fixpoint has_control (s : string) : bool :=
  match s with
  | "" => false
  | String c s =>
      between 0 31 c || (code c =? 127) ||
      ((code c =? 194) && match s with String d _ => between 128 159 d | "" => false end) || has_control s
  end.

Definition validate_username (username : string) : result http_error unit :=
  let trimmed := trim username in
  _ ← reject_if (is_empty trimmed) 400;
  _ ← reject_if (bool_decide (MAX_USERNAME_LEN < chars_count trimmed)%nat) 400;
  reject_if (has_control trimmed) 400.

Section cipher.
Context `{HX : HexCrate, SH : Sha256, NC : NameCipher}.
Context (signing_key : list byte).
Implicit Types (pseudonym_id : string) (data : list byte).

Definition derive_aead_key pseudonym_id : list byte :=
  hkdf (str_bytes pseudonym_id) signing_key (str_bytes "annex-username-encryption-v2").

Definition encrypt_username (nonce : list byte) pseudonym_id (username : string) : string :=
  hex_encode (nonce ++ aead_encrypt (derive_aead_key pseudonym_id) nonce (str_bytes username)).

Definition decrypt_aead pseudonym_id data : option string :=
  plaintext ← aead_decrypt (derive_aead_key pseudonym_id) (take 12 data) (drop 12 data);
  from_utf8 plaintext.

Definition byte_xor (a b : byte) : byte := byte_of_Z (Z.lxor (bval a) (bval b)).
Definition xor_stream (keystream data : list byte) : list byte :=
  imap (λ i b, byte_xor b (nth (i `mod` length keystream) keystream x00)) data.

Definition xor_key_v1 pseudonym_id : list byte :=
  sha256 (str_bytes "annex-username-key-v1" ++ signing_key ++ str_bytes pseudonym_id).
Definition decrypt_xor_legacy pseudonym_id data : option string :=
  from_utf8 (xor_stream (xor_key_v1 pseudonym_id) data).

Definition decrypt_username pseudonym_id (encrypted_hex : string) : option string :=
  data ← hex_decode encrypted_hex;
  match (if bool_decide (AEAD_OVERHEAD ≤ length data)%nat then decrypt_aead pseudonym_id data else None) with
  | Some plaintext => Some plaintext
  | None => decrypt_xor_legacy pseudonym_id data
  end.
End cipher.

(** ** State *)

Record ProfileRow := {
  pf_id : Z;
  pf_server_id : Z;
  pf_pseudonym_id : string;
  pf_encrypted_username : string;
  pf_updated_at : string;
}.
Record GrantRow := {
  gr_id : Z;
  gr_server_id : Z;
  gr_granter : string;
  gr_grantee : string;
  gr_created_at : string;
}.
Record NameDb := {
  nd_servers : list Z;
  user_profiles : table ProfileRow;
  username_grants : table GrantRow;
}.
Definition set_profiles (t : table ProfileRow) (d : NameDb) : NameDb :=
  {| nd_servers := nd_servers d; user_profiles := t; username_grants := username_grants d |}.
Definition set_grants (t : table GrantRow) (d : NameDb) : NameDb :=
  {| nd_servers := nd_servers d; user_profiles := user_profiles d; username_grants := t |}.

Definition profile_is (s : Z) (p : string) (r : ProfileRow) : Prop := pf_server_id r = s ∧ pf_pseudonym_id r = p.
#[export] Instance profile_is_dec s p r : Decision (profile_is s p r).
Proof. unfold profile_is. apply _. Defined.
Definition granted_by (s : Z) (p : string) (r : GrantRow) : Prop := gr_server_id r = s ∧ gr_granter r = p.
#[export] Instance granted_by_dec s p r : Decision (granted_by s p r).
Proof. unfold granted_by. apply _. Defined.
Definition granted_to (s : Z) (q : string) (r : GrantRow) : Prop := gr_server_id r = s ∧ gr_grantee r = q.
#[export] Instance granted_to_dec s q r : Decision (granted_to s q r).
Proof. unfold granted_to. apply _. Defined.
Definition grant_is (s : Z) (p q : string) (r : GrantRow) : Prop :=
  gr_server_id r = s ∧ gr_granter r = p ∧ gr_grantee r = q.
#[export] Instance grant_is_dec s p q r : Decision (grant_is s p q r).
Proof. unfold grant_is. apply _. Defined.

(** ** Statements: UNIQUE (server_id, pseudonym_id), UNIQUE (server_id,
    granter, grantee), FOREIGN KEY (server_id); [INSERT OR IGNORE] ignores
    the first two only. *)

Definition sealed_as (encrypted now : string) (r : ProfileRow) : ProfileRow :=
  {| pf_id := pf_id r; pf_server_id := pf_server_id r; pf_pseudonym_id := pf_pseudonym_id r;
     pf_encrypted_username := encrypted; pf_updated_at := now |}.
Definition upsert_profile (now : string) (s : Z) (p encrypted : string) : M NameDb sql_error unit := λ d,
  if bool_decide (s ∉ nd_servers d) then (Err ConstraintForeignKey, d)
  else (Ok (), set_profiles (t_upsert (profile_is s p) (sealed_as encrypted now) (λ id,
    {| pf_id := id; pf_server_id := s; pf_pseudonym_id := p; pf_encrypted_username := encrypted;
       pf_updated_at := now |}) (user_profiles d)) d).
Definition insert_grant (now : string) (s : Z) (p q : string) : M NameDb sql_error unit := λ d,
  if t_exists (grant_is s p q) (username_grants d) then (Ok (), d)
  else if bool_decide (s ∉ nd_servers d) then (Err ConstraintForeignKey, d)
  else (Ok (), set_grants (t_insert (λ id,
    {| gr_id := id; gr_server_id := s; gr_granter := p; gr_grantee := q; gr_created_at := now |})
    (username_grants d)).2 d).

(** ** Handlers *)

Section handlers.
Context `{HX : HexCrate, SH : Sha256, NC : NameCipher, CK : Clock}.
Context (s : Z) (signing_key : list byte) (enabled : bool).

Abbreviation Handler := (M NameDb http_error).

Definition statement {A} (env : Env) (k : nat) (m : M NameDb sql_error A) : Handler A :=
  catch_map (λ _, 500) (exec (fault env) k m).

Definition set_username_handler (env : Env) (nonce : list byte) (identity : PlatformIdentity) (username : string) :
    Handler unit :=
  lift (reject_if (negb enabled) 400);;
  let username := trim username in
  lift (validate_username username);;
  let pseudonym := pi_pseudonym_id identity in
  let encrypted := encrypt_username signing_key nonce pseudonym username in
  statement env 0 (upsert_profile (sql_now (now env)) s pseudonym encrypted).

Definition delete_username_handler (env : Env) (identity : PlatformIdentity) : Handler unit :=
  let pseudonym := pi_pseudonym_id identity in
  statement env 0 (λ d, (Ok (), set_profiles (t_delete (profile_is s pseudonym) (user_profiles d)).2 d));;
  statement env 1 (λ d, (Ok (), set_grants (t_delete (granted_by s pseudonym) (username_grants d)).2 d)).

Definition grant_username_handler (env : Env) (identity : PlatformIdentity) (grantee_pseudonym : string) : Handler unit :=
  let granter := pi_pseudonym_id identity in
  let grantee := trim grantee_pseudonym in
  lift (reject_if (is_empty grantee) 400);;
  lift (reject_if (bool_decide (granter = grantee)) 400);;
  has_username ← statement env 0 (gets (λ d, t_exists (profile_is s granter) (user_profiles d)));
  lift (reject_if (negb has_username) 400);;
  statement env 1 (insert_grant (sql_now (now env)) s granter grantee).

Definition revoke_grant_handler (env : Env) (identity : PlatformIdentity) (grantee_pseudonym : string) : Handler unit :=
  statement env 0 (λ d, (Ok (), set_grants
    (t_delete (grant_is s (pi_pseudonym_id identity) grantee_pseudonym) (username_grants d)).2 d)).

Definition list_grants_handler (env : Env) (identity : PlatformIdentity) : Handler (list string) :=
  statement env 0 (gets (λ d, gr_grantee <$>
    order_by String.le gr_created_at (t_select (granted_by s (pi_pseudonym_id identity)) (username_grants d)))).

(** The names of the rows that can be decrypted, in a JSON object. *)
Definition reveal (m : gmap string string) (row : string * string) : gmap string string :=
  match decrypt_username signing_key row.1 row.2 with
  | Some name => <[row.1 := name]> m
  | None => m
  end.

Definition profile_pair (r : ProfileRow) : string * string := (pf_pseudonym_id r, pf_encrypted_username r).

(** [username_grants ug JOIN user_profiles up]. *)
Definition granted_profiles (grantee : string) (d : NameDb) : list (string * string) :=
  t_select (granted_to s grantee) (username_grants d) ≫= λ ug,
    profile_pair <$> t_select (profile_is (gr_server_id ug) (gr_granter ug)) (user_profiles d).

Definition own_profile (grantee : string) (d : NameDb) : result sql_error (string * string) :=
  query_row (t_select (profile_is s grantee) (user_profiles d)) (λ r, Ok (profile_pair r)).

(** A failure to read the own name reads as none; the second query decides. *)
Definition get_visible_usernames_handler (env : Env) (identity : PlatformIdentity) : Handler (gmap string string) :=
  if enabled then
    let grantee := pi_pseudonym_id identity in
    d ← get;
    let own := match (_ ← read (fault env) 0 (); own_profile grantee d) with Ok row => reveal ∅ row | _ => ∅ end in
    rows ← statement env 1 (gets (granted_profiles grantee));
    mret (foldl reveal own rows)
  else mret ∅.
End handlers.

(** ** The book of names: what the endpoints promise

    Who has which name, and who granted whom to see it. *)

Record Book := { names : gmap string string; grants : gset (string * string) }.

Inductive request :=
  | SetUsername (identity : PlatformIdentity) (nonce : list byte) (username : string)
  | DeleteUsername (identity : PlatformIdentity)
  | GrantUsername (identity : PlatformIdentity) (grantee : string)
  | RevokeGrant (identity : PlatformIdentity) (grantee : string).

(** A request body is UTF-8, a nonce has 12 bytes. *)
Definition wf_request (r : request) : Prop :=
  match r with
  | SetUsername _ nonce username => length nonce = 12%nat ∧ utf8 username
  | _ => True
  end.
#[export] Instance wf_request_dec r : Decision (wf_request r).
Proof. destruct r; apply _. Defined.

Definition book_step (enabled : bool) (r : request) (b : Book) : result http_error unit * Book :=
  match r with
  | SetUsername i _ username =>
      if enabled then
        match validate_username (trim username) with
        | Ok _ => (Ok (), {| names := <[pi_pseudonym_id i := trim username]> (names b); grants := grants b |})
        | refused => (refused, b)
        end
      else (Err 400, b)
  | DeleteUsername i =>
      (Ok (), {| names := delete (pi_pseudonym_id i) (names b);
                 grants := filter (λ g, g.1 ≠ pi_pseudonym_id i) (grants b) |})
  | GrantUsername i q =>
      if is_empty (trim q) || bool_decide (pi_pseudonym_id i = trim q) ||
         bool_decide (names b !! pi_pseudonym_id i = None)
      then (Err 400, b)
      else (Ok (), {| names := names b; grants := {[(pi_pseudonym_id i, trim q)]} ∪ grants b |})
  | RevokeGrant i q => (Ok (), {| names := names b; grants := grants b ∖ {[(pi_pseudonym_id i, q)]} |})
  end.

(** What a request may do when statements can fail: the step, or nothing,
    or, for a removal, only its first half. *)
Inductive outcome (enabled : bool) (r : request) (b : Book) : result http_error unit → Book → Prop :=
  | as_specified : outcome enabled r b (book_step enabled r b).1 (book_step enabled r b).2
  | unavailable : outcome enabled r b (Err 500) b
  | half_deleted i : r = DeleteUsername i →
      outcome enabled r b (Err 500) {| names := delete (pi_pseudonym_id i) (names b); grants := grants b |}.

Section serve.
Context `{HX : HexCrate, SH : Sha256, NC : NameCipher, CK : Clock}.
Context (s : Z) (signing_key : list byte) (enabled : bool).

Definition serve (env : Env) (r : request) : M NameDb http_error unit :=
  match r with
  | SetUsername i nonce username => set_username_handler s signing_key enabled env nonce i username
  | DeleteUsername i => delete_username_handler s env i
  | GrantUsername i q => grant_username_handler s env i q
  | RevokeGrant i q => revoke_grant_handler s env i q
  end.

(** The requests served since the tables were empty, latest first, with
    their answers. *)
Inductive served : list (request * result http_error unit) → NameDb → Prop :=
  | served_none servers :
      s ∈ servers → served [] {| nd_servers := servers; user_profiles := t_empty; username_grants := t_empty |}
  | served_more env h d r o d' :
      served h d → wf_request r → serve env r d = (o, d') → served ((r, o) :: h) d'.
End serve.

(** [p] granted [q] and did not take it back since, as far as the answers
    told [p]. *)
Fixpoint consented (p q : string) (h : list (request * result http_error unit)) : bool :=
  match h with
  | [] => false
  | (GrantUsername i q', Ok _) :: h =>
      (bool_decide (pi_pseudonym_id i = p) && bool_decide (trim q' = q)) || consented p q h
  | (RevokeGrant i q', Ok _) :: h =>
      negb (bool_decide (pi_pseudonym_id i = p) && bool_decide (q' = q)) && consented p q h
  | (DeleteUsername i, Ok _) :: h => negb (bool_decide (pi_pseudonym_id i = p)) && consented p q h
  | _ :: h => consented p q h
  end.

(** The name [p] set last and did not remove since. *)
Fixpoint last_name (p : string) (h : list (request * result http_error unit)) : option string :=
  match h with
  | [] => None
  | (SetUsername i _ username, Ok _) :: h =>
      if bool_decide (pi_pseudonym_id i = p) then Some (trim username) else last_name p h
  | (DeleteUsername i, Ok _) :: h => if bool_decide (pi_pseudonym_id i = p) then None else last_name p h
  | _ :: h => last_name p h
  end.

(** The histories of the book itself. *)
Inductive book_history (enabled : bool) : list (request * result http_error unit) → Book → Prop :=
  | history_none : book_history enabled [] {| names := ∅; grants := ∅ |}
  | history_more h r o b b' :
      book_history enabled h b → outcome enabled r b o b' → book_history enabled ((r, o) :: h) b'.

(** * Theorems *)

Lemma byte_xor_involutive a k : byte_xor (byte_xor a k) k = a.
Proof.
  unfold byte_xor. apply bval_inj. rewrite !bval_byte_of_Z. pose proof (bval_bound a).
  rewrite <- (Z.mod_small (bval a) 256) at 2 by lia. change 256 with (2 ^ 8). rewrite <- !Z.land_ones by lia.
  apply Z.bits_inj'. intros n Hn. rewrite !Z.land_spec, !Z.lxor_spec, Z.land_spec, Z.lxor_spec, Z.testbit_ones_nonneg by lia.
  destruct (n <? 8); [|by rewrite !andb_false_r]. rewrite !andb_true_r. by destruct (Z.testbit (bval a) n), (Z.testbit (bval k) n).
Qed.

Lemma xor_stream_involutive ks data : xor_stream ks (xor_stream ks data) = data.
Proof.
  apply list_eq. intros i. unfold xor_stream. rewrite !list_lookup_imap.
  destruct (data !! i) as [b|]; [|done]. cbn. by rewrite byte_xor_involutive.
Qed.
Lemma xor_stream_length ks data : length (xor_stream ks data) = length data.
Proof. unfold xor_stream. apply length_imap. Qed.

Section cipher_lemmas.
Context `{HX : HexCrate, HL : !HexLaws HX, SH : Sha256, NC : NameCipher, NL : !NameCipherLaws NC}.
Context (signing_key : list byte).

Lemma encrypted_bytes nonce p u :
  length nonce = 12%nat → ∃ data, hex_decode (encrypt_username signing_key nonce p u) = Some data ∧
    length data = (28 + String.length u)%nat ∧
    data = nonce ++ aead_encrypt (derive_aead_key signing_key p) nonce (str_bytes u).
Proof.
  intros Hn. eexists. split; [apply hex_decode_encode|]. split; [|done].
  rewrite length_app, aead_encrypt_length, Hn by (done || apply hkdf_length).
  rewrite str_bytes_length. lia.
Qed.

Lemma decrypt_encrypt nonce p u :
  length nonce = 12%nat → utf8 u → decrypt_username signing_key p (encrypt_username signing_key nonce p u) = Some u.
Proof.
  intros Hn Hu. destruct (encrypted_bytes nonce p u Hn) as (data & Hd & Hl & ->).
  unfold decrypt_username. rewrite Hd. cbn [mbind option_bind]. rewrite bool_decide_eq_true_2 by (unfold AEAD_OVERHEAD; lia).
  unfold decrypt_aead. rewrite take_app_length', drop_app_length' by done.
  rewrite aead_decrypt_encrypt by (done || apply hkdf_length). cbn. unfold str_bytes at 1. by rewrite (from_utf8_text u Hu).
Qed.

(** A stored name reads back under the key and the pseudonym it was
    stored with, for every nonce, and takes 28 bytes more than its text, in
    hexadecimal.  A name of the old format reads back if it is shorter than
    28 bytes or the cipher rejects it; and whatever the cipher rejects is
    taken for the old format, which nothing authenticates. *)
Theorem username_round_trip nonce p u data :
  length nonce = 12%nat → utf8 u →
  let encrypted := encrypt_username signing_key nonce p u in
  let legacy := hex_encode (xor_stream (xor_key_v1 signing_key p) (str_bytes u)) in
  decrypt_username signing_key p encrypted = Some u ∧
  String.length encrypted = (2 * (AEAD_OVERHEAD + String.length u))%nat ∧
  ((String.length u < AEAD_OVERHEAD)%nat ∨
     decrypt_aead signing_key p (xor_stream (xor_key_v1 signing_key p) (str_bytes u)) = None →
   decrypt_username signing_key p legacy = Some u) ∧
  ((length data < AEAD_OVERHEAD)%nat ∨ decrypt_aead signing_key p data = None →
   decrypt_username signing_key p (hex_encode data) = decrypt_xor_legacy signing_key p data).
Proof.
  intros Hn Hu encrypted legacy.
  assert (∀ data, (length data < AEAD_OVERHEAD)%nat ∨ decrypt_aead signing_key p data = None →
    decrypt_username signing_key p (hex_encode data) = decrypt_xor_legacy signing_key p data) as Hx.
  { intros data' Hd. unfold decrypt_username. rewrite hex_decode_encode. cbn [mbind option_bind].
    case_bool_decide; [|done]. destruct Hd as [?| ->]; [lia|done]. }
  split; [by apply decrypt_encrypt|]. split.
  { destruct (encrypted_bytes nonce p u Hn) as (d & Hd & Hl & _). change encrypted with (encrypt_username signing_key nonce p u). by rewrite (hex_decode_length _ _ Hd), Hl. }
  split; [|apply Hx]. intros H. unfold legacy. rewrite Hx.
  - unfold decrypt_xor_legacy. rewrite xor_stream_involutive. by apply from_utf8_text.
  - by rewrite xor_stream_length, str_bytes_length.
Qed.
End cipher_lemmas.

(** The tables hold a book: every profile of the server can be decrypted. *)
Section book.
Context `{HX : HexCrate, HL : !HexLaws HX, SH : Sha256, NC : NameCipher, NL : !NameCipherLaws NC, CK : Clock}.
Context (s : Z) (signing_key : list byte).
Implicit Types (d : NameDb) (b : Book).

Record represents d b : Prop := {
  rep_server : s ∈ nd_servers d;
  rep_unique : ∀ p r1 r2, r1 ∈ t_rows (user_profiles d) → r2 ∈ t_rows (user_profiles d) →
    profile_is s p r1 → profile_is s p r2 → r1 = r2;
  rep_profile : ∀ p r, r ∈ t_rows (user_profiles d) → profile_is s p r →
    ∃ u, names b !! p = Some u ∧ decrypt_username signing_key p (pf_encrypted_username r) = Some u;
  rep_name : ∀ p, is_Some (names b !! p) → ∃ r, r ∈ t_rows (user_profiles d) ∧ profile_is s p r;
  rep_grant : ∀ p q, (p, q) ∈ grants b ↔ ∃ g, g ∈ t_rows (username_grants d) ∧ grant_is s p q g;
}.

Lemma represents_empty servers :
  s ∈ servers →
  represents {| nd_servers := servers; user_profiles := t_empty; username_grants := t_empty |} {| names := ∅; grants := ∅ |}.
Proof.
  intros Hs. split; cbn; [done|..].
  - by intros p r1 r2 H%not_elem_of_nil.
  - by intros p r H%not_elem_of_nil.
  - intros p [u Hu]. by rewrite lookup_empty in Hu.
  - intros p q. split; [set_solver|]. by intros (g & H%not_elem_of_nil & _).
Qed.

Lemma rep_exists d b p :
  represents d b → t_exists (profile_is s p) (user_profiles d) = negb (bool_decide (names b !! p = None)).
Proof.
  intros R. apply eq_true_iff_eq. rewrite t_exists_spec, negb_true_iff, bool_decide_eq_false. split.
  - intros (r & Hr & Hp). by destruct (rep_profile _ _ R p r Hr Hp) as (u & -> & _).
  - intros Hn. destruct (rep_name _ _ R p) as (r & ? & ?); [|by exists r]. by destruct (names b !! p).
Qed.

Lemma rep_upsert d b p u encrypted now mk :
  represents d b → decrypt_username signing_key p encrypted = Some u →
  (∀ i, profile_is s p (mk i) ∧ pf_encrypted_username (mk i) = encrypted) →
  represents (set_profiles (t_upsert (profile_is s p) (sealed_as encrypted now) mk (user_profiles d)) d)
             {| names := <[p := u]> (names b); grants := grants b |}.
Proof.
  intros R Hu Hmk.
  destruct (t_upsert_spec (profile_is s p) (sealed_as encrypted now) mk (user_profiles d))
    as (r & Hr & Hp & Hone & Hval & Hrest); [by intros r [? ?]|intros i; apply Hmk|apply (rep_unique _ _ R)|].
  assert (pf_encrypted_username r = encrypted) as He
    by (destruct Hval as [(r0 & _ & _ & ->)|[_ ->]]; [done|apply Hmk]).
  assert (∀ p' r', p' ≠ p → profile_is s p' r' → ¬ profile_is s p r') as Hother by (intros p' r' ? [? <-] [? ?]; congruence).
  split; cbn; [apply (rep_server _ _ R)|..|apply (rep_grant _ _ R)].
  - intros p' r1 r2 H1 H2 P1 P2. destruct (decide (p' = p)) as [->|Hne].
    + by rewrite (Hone r1), (Hone r2).
    + apply Hrest in H1, H2; [|by eapply Hother..]. by apply (rep_unique _ _ R p').
  - intros p' r' Hr' P'. destruct (decide (p' = p)) as [->|Hne].
    + exists u. rewrite lookup_insert_eq. split; [done|]. by rewrite (Hone r'), He.
    + apply Hrest in Hr'; [|by eapply Hother]. rewrite lookup_insert_ne by done. by apply (rep_profile _ _ R p').
  - intros p' [v Hv]. destruct (decide (p' = p)) as [->|Hne]; [by exists r|].
    rewrite lookup_insert_ne in Hv by done. destruct (rep_name _ _ R p') as (r' & ? & P'); [by exists v|].
    exists r'. split; [|done]. apply Hrest; [by eapply Hother|done].
Qed.

Lemma rep_delete_profile d b p :
  represents d b → represents (set_profiles (t_delete (profile_is s p) (user_profiles d)).2 d)
                              {| names := delete p (names b); grants := grants b |}.
Proof.
  intros R. split; cbn -[t_delete]; [apply (rep_server _ _ R)|..|apply (rep_grant _ _ R)].
  - intros p' r1 r2 [H1 _]%elem_of_t_delete [H2 _]%elem_of_t_delete. by apply (rep_unique _ _ R p').
  - intros p' r [Hr Hn]%elem_of_t_delete P'. rewrite lookup_delete_ne; [by apply (rep_profile _ _ R p')|].
    by intros ->.
  - intros p' [u [Hne Hu]%lookup_delete_Some]. destruct (rep_name _ _ R p') as (r & Hr & P'); [by exists u|].
    exists r. split; [|done]. apply elem_of_t_delete. split; [done|]. intros [_ E]. destruct P' as [_ E']. congruence.
Qed.

Lemma rep_set_grants d b t gs :
  represents d b → (∀ p q, (p, q) ∈ gs ↔ ∃ g, g ∈ t_rows t ∧ grant_is s p q g) →
  represents (set_grants t d) {| names := names b; grants := gs |}.
Proof. intros R Hg. destruct R. by split. Qed.

Lemma rep_delete_grants d b p :
  represents d b → represents (set_grants (t_delete (granted_by s p) (username_grants d)).2 d)
                              {| names := names b; grants := filter (λ g, g.1 ≠ p) (grants b) |}.
Proof.
  intros R. apply (rep_set_grants _ _ _ _ R). intros p' q. rewrite elem_of_filter, (rep_grant _ _ R). cbn [fst].
  setoid_rewrite elem_of_t_delete. unfold grant_is, granted_by. naive_solver.
Qed.

Lemma rep_delete_grant d b p q :
  represents d b → represents (set_grants (t_delete (grant_is s p q) (username_grants d)).2 d)
                              {| names := names b; grants := grants b ∖ {[(p, q)]} |}.
Proof.
  intros R. apply (rep_set_grants _ _ _ _ R). intros p' q'. rewrite elem_of_difference, elem_of_singleton, (rep_grant _ _ R).
  setoid_rewrite elem_of_t_delete. unfold grant_is. naive_solver.
Qed.

Lemma rep_insert_grant d b p q mk :
  represents d b → (∀ i, grant_is s p q (mk i)) →
  represents (set_grants (t_insert mk (username_grants d)).2 d)
             {| names := names b; grants := {[(p, q)]} ∪ grants b |}.
Proof.
  intros R Hmk. apply (rep_set_grants _ _ _ _ R). intros p' q'.
  rewrite elem_of_union, elem_of_singleton, (rep_grant _ _ R). setoid_rewrite elem_of_t_insert. unfold grant_is in *. split.
  - intros [[= -> ->]|(g & Hg & ?)]; [|by exists g; auto]. eexists. split; [by right|apply Hmk].
  - intros (g & [Hg| ->] & H); [by right; exists g|left]. destruct (Hmk (t_seq (username_grants d) + 1)) as (? & ? & ?).
    destruct H as (? & ? & ?). congruence.
Qed.

(** An answer and the tables after a request that started with the book [b]. *)
Definition meets enabled env r b (x : result http_error unit * NameDb) : Prop :=
  ∃ b', outcome enabled r b x.1 b' ∧ represents x.2 b' ∧
    ((∀ k, fault env k = None) → (x.1, b') = book_step enabled r b).

Lemma meets_step enabled env r b b' o d :
  book_step enabled r b = (o, b') → represents d b' → meets enabled env r b (o, d).
Proof.
  intros E R. exists b'. split_and!; [|done|done]. pose proof (as_specified enabled r b) as Ho. by rewrite E in Ho.
Qed.

Lemma meets_statement {A} enabled env k r b (m : M NameDb sql_error A) (f : A → M NameDb http_error unit) a d d1 :
  represents d b → m d = (Ok a, d1) → (fault env k = None → meets enabled env r b (f a d1)) →
  meets enabled env r b ((statement env k m ≫= f) d).
Proof.
  intros R Hm Hf. unfold mbind, M_bind, statement, catch_map, exec, throw. destruct (fault env k) as [code|] eqn:Hk.
  - exists b. split_and!; [constructor|done|]. intros Hn. by rewrite Hn in Hk.
  - rewrite Hm. by apply Hf.
Qed.
Lemma meets_last enabled env k r b b' (m : M NameDb sql_error unit) d d1 :
  represents d b → m d = (Ok (), d1) → book_step enabled r b = (Ok (), b') → represents d1 b' →
  meets enabled env r b (statement env k m d).
Proof.
  intros R Hm Hs R'. assert (statement env k m d = (statement env k m ≫= mret) d) as ->.
  { unfold mbind, M_bind. by destruct (statement env k m d) as [[]]. }
  apply (meets_statement enabled env k r b m mret () d d1 R Hm). intros _. by apply (meets_step _ _ _ _ b').
Qed.

Lemma set_username_meets enabled env i nonce username d b :
  represents d b → length nonce = 12%nat → utf8 username →
  meets enabled env (SetUsername i nonce username) b (set_username_handler s signing_key enabled env nonce i username d).
Proof.
  intros R Hn Hu%trim_utf8. unfold set_username_handler. destruct enabled; [|by apply (meets_step _ _ _ _ b)].
  pose proof (meets_step true env (SetUsername i nonce username) b) as Hst. cbn [book_step] in Hst.
  unfold mbind at 1 2, M_bind at 1 2, lift. cbn [negb reject_if].
  destruct (validate_username (trim username)) as [[]|e|] eqn:Ev; [|by apply (Hst b)..].
  eapply (meets_last _ _ _ _ _ _ _ _ _ R); [|cbn [book_step]; by rewrite Ev|].
  - unfold upsert_profile. by rewrite bool_decide_eq_false_2 by (intros Hs; apply Hs, (rep_server _ _ R)).
  - apply rep_upsert; [done|by apply decrypt_encrypt|done].
Qed.

Lemma delete_username_meets enabled env i d b :
  represents d b → meets enabled env (DeleteUsername i) b (delete_username_handler s env i d).
Proof.
  intros R. eapply meets_statement; [done..|]. intros _.
  pose proof (rep_delete_profile _ _ (pi_pseudonym_id i) R) as R1.
  pose proof (rep_delete_grants _ _ (pi_pseudonym_id i) R1) as R2.
  unfold statement, catch_map, exec, throw. destruct (fault env 1%nat) as [code|] eqn:Hk.
  - eexists. split; [by apply half_deleted|]. split; [exact R1|]. intros Hn. by rewrite Hn in Hk.
  - by eapply meets_step.
Qed.

Lemma grant_username_meets enabled env i q d b :
  represents d b → meets enabled env (GrantUsername i q) b (grant_username_handler s env i q d).
Proof.
  intros R. unfold grant_username_handler. pose proof (meets_step enabled env (GrantUsername i q) b) as Hst.
  cbn [book_step] in Hst. unfold mbind at 1 2, M_bind at 1 2, lift at 1 2.
  destruct (is_empty (trim q)) eqn:E1; [by apply (Hst b)|]. cbn [reject_if orb] in *.
  destruct (bool_decide (pi_pseudonym_id i = trim q)) eqn:E2; [by apply (Hst b)|]. cbn [reject_if orb] in *.
  eapply meets_statement; [exact R|reflexivity|intros _]. rewrite (rep_exists _ _ _ R), negb_involutive.
  destruct (bool_decide (names b !! pi_pseudonym_id i = None)) eqn:E3; [by apply (Hst b)|].
  unfold mbind, M_bind, lift. cbn [reject_if].
  assert (book_step enabled (GrantUsername i q) b =
    (Ok (), {| names := names b; grants := {[(pi_pseudonym_id i, trim q)]} ∪ grants b |})) as Hs
    by (cbn; by rewrite E1, E2, E3).
  destruct (t_exists (grant_is s (pi_pseudonym_id i) (trim q)) (username_grants d)) eqn:Ex.
  - eapply (meets_last _ _ _ _ _ _ _ _ _ R); [unfold insert_grant; by rewrite Ex|done|].
    apply t_exists_spec, (rep_grant _ _ R) in Ex.
    replace ({[(pi_pseudonym_id i, trim q)]} ∪ grants b) with (grants b) by set_solver. by destruct b.
  - eapply (meets_last _ _ _ _ _ _ _ _ _ R); [|done|].
    + unfold insert_grant. by rewrite Ex, bool_decide_eq_false_2 by (intros Hn; apply Hn, (rep_server _ _ R)).
    + by apply rep_insert_grant.
Qed.

Lemma serve_meets enabled env r d b :
  represents d b → wf_request r → meets enabled env r b (serve s signing_key enabled env r d).
Proof.
  intros R Hwf. destruct r as [i nonce username|i|i q|i q]; cbn [serve].
  - destruct Hwf. by apply set_username_meets.
  - by apply delete_username_meets.
  - by apply grant_username_meets.
  - eapply (meets_last _ _ _ _ _ _ _ _ _ R); [done..|]. by apply rep_delete_grant.
Qed.

Lemma served_history enabled h d :
  served s signing_key enabled h d → ∃ b, book_history enabled h b ∧ represents d b.
Proof.
  induction 1 as [servers Hs|env h d r o d' _ (b & Hb & R) Hwf E].
  - eexists. split; [constructor|by apply represents_empty].
  - destruct (serve_meets enabled env r d b R Hwf) as (b' & Ho & R' & _). rewrite E in Ho, R'.
    exists b'. split; [by econstructor|done].
Qed.

(** C13. The endpoints implement a book of names and grants: after any
    requests, whatever statements failed, the tables hold the book that the
    answers account for, every stored name readable; and as long as nothing
    fails, a request answers and does exactly what the book says. *)
Theorem usernames_refine_book enabled h d :
  served s signing_key enabled h d →
  ∃ b, book_history enabled h b ∧ represents d b ∧
    ∀ env r, wf_request r → (∀ k, fault env k = None) →
      let '(o, d') := serve s signing_key enabled env r d in
      ∃ b', book_step enabled r b = (o, b') ∧ represents d' b'.
Proof.
  intros (b & Hb & R)%served_history. exists b. split_and!; [done..|]. intros env r Hwf Hn.
  destruct (serve_meets enabled env r d b R Hwf) as (b' & _ & R' & E).
  destruct (serve _ _ _ _ _ _) as [o d']. exists b'. split; [by rewrite <- E|done].
Qed.

(** What the history of a book accounts for. *)
Lemma history_accounts enabled h b :
  book_history enabled h b →
  (∀ p q, (p, q) ∈ grants b → consented p q h = true) ∧ (∀ p u, names b !! p = Some u → last_name p h = Some u).
Proof.
  induction 1 as [|h r o b b' _ [IHg IHn] Ho].
  { cbn. split; [set_solver|]. intros p u. by rewrite lookup_empty. }
  destruct Ho as [| |i ->].
  - destruct r as [i nonce username|i|i q'|i q']; cbn [book_step fst snd].
    + destruct enabled; [|by split]. destruct (validate_username (trim username)) as [x|e|]; [|by split..].
      cbn. split; [done|]. intros p u. rewrite lookup_insert_Some. intros [[<- <-]|[Hne Hu]].
      * by rewrite bool_decide_eq_true_2.
      * rewrite bool_decide_eq_false_2 by done. by apply IHn.
    + cbn. split.
      * intros p q [Hne Hg]%elem_of_filter. cbn in Hne. rewrite bool_decide_eq_false_2 by congruence. by apply IHg.
      * intros p u [Hne Hu]%lookup_delete_Some. rewrite bool_decide_eq_false_2 by done. by apply IHn.
    + case_match; [by split|]. cbn. split; [|done]. intros p q [[= -> ->]%elem_of_singleton|Hg]%elem_of_union.
      * by rewrite !bool_decide_eq_true_2.
      * rewrite (IHg p q Hg). apply orb_true_r.
    + cbn. split; [|done]. intros p q [Hg Hne]%elem_of_difference. rewrite (IHg p q Hg), andb_true_r.
      apply negb_true_iff, andb_false_iff. rewrite !bool_decide_eq_false. rewrite elem_of_singleton in Hne.
      destruct (decide (pi_pseudonym_id i = p)) as [E|]; [right; congruence|by left].
  - assert (∀ p q, consented p q ((r, Err 500) :: h) = consented p q h) as Hc by (by intros; destruct r).
    assert (∀ p, last_name p ((r, Err 500) :: h) = last_name p h) as Hl by (by intros; destruct r).
    setoid_rewrite Hc. setoid_rewrite Hl. by split.
  - cbn. split; [done|]. intros p u [_ Hu]%lookup_delete_Some. by apply IHn.
Qed.

(** ** What is shown *)

Lemma reveal_all b l m :
  (∀ p e, (p, e) ∈ l → ∃ u, names b !! p = Some u ∧ decrypt_username signing_key p e = Some u) →
  ∀ p u, foldl (reveal signing_key) m l !! p = Some u ↔
    (names b !! p = Some u ∧ p ∈ l.*1) ∨ (m !! p = Some u ∧ p ∉ l.*1).
Proof.
  revert m. induction l as [|[p0 e0] l IH]; intros m Hl p u; cbn.
  { split; [intros Hm; right; split; [done|apply not_elem_of_nil]|]. by intros [[_ H%not_elem_of_nil]|[? _]]. }
  rewrite IH by (intros; apply Hl; by right). destruct (Hl p0 e0) as (u0 & Hu0 & Hd); [left|].
  unfold reveal. cbn [fst snd]. rewrite Hd, !elem_of_cons. destruct (decide (p = p0)) as [->|Hne].
  - rewrite lookup_insert_eq. destruct (decide (p0 ∈ l.*1)); naive_solver.
  - rewrite lookup_insert_ne by done. naive_solver.
Qed.

Lemma granted_profiles_spec d b q p e :
  represents d b → (p, e) ∈ granted_profiles s q d ↔
    (p, q) ∈ grants b ∧ ∃ r, r ∈ t_rows (user_profiles d) ∧ profile_is s p r ∧ pf_encrypted_username r = e.
Proof.
  intros R. unfold granted_profiles. rewrite list_elem_of_bind, (rep_grant _ _ R). split.
  - intros (g & (r & [= -> ->] & [[Hs Hp] Hr]%elem_of_t_select)%list_elem_of_fmap & [[Hgs Hgq] Hg]%elem_of_t_select).
    rewrite Hgs in Hs. split.
    + exists g. split; [done|]. by split_and!.
    + by exists r.
  - intros [(g & Hg & Hgs & Hgp & Hgq) (r & Hr & [Hs Hp] & <-)]. exists g. split.
    + apply list_elem_of_fmap. exists r. unfold profile_pair. rewrite Hp. split; [done|].
      apply elem_of_t_select. unfold profile_is. by rewrite Hgs, Hgp.
    + by apply elem_of_t_select.
Qed.

Lemma visible_names enabled env i d b :
  represents d b →
  let me := pi_pseudonym_id i in
  let '(o, d') := get_visible_usernames_handler s signing_key enabled env i d in
  d' = d ∧
  ((o = Err 500 ∧ fault env 1%nat ≠ None) ∨
   ∃ m, o = Ok m ∧ ∀ p u, m !! p = Some u ↔
     enabled = true ∧ names b !! p = Some u ∧ ((p, me) ∈ grants b ∨ (p = me ∧ fault env 0%nat = None))).
Proof.
  intros R me. unfold get_visible_usernames_handler. destruct enabled.
  2: { split; [done|right]. eexists. split; [done|]. intros p u. rewrite lookup_empty. by split; [|intros [? _]]. }
  unfold mbind, M_bind, get, statement, catch_map, exec, throw, gets, mret, M_ret. fold me.
  destruct (fault env 1%nat); [by split; [|left]|]. split; [done|right]. eexists. split; [done|]. intros p u.
  assert (∀ p, p ∈ (granted_profiles s me d).*1 ↔ (p, me) ∈ grants b ∧ is_Some (names b !! p)) as Hin.
  { intros p'. rewrite list_elem_of_fmap. split.
    - intros ([p1 e] & -> & (Hg & r & Hr & Hp & _)%(granted_profiles_spec _ _ _ _ _ R)). split; [done|].
      destruct (rep_profile _ _ R _ _ Hr Hp) as (u' & Hu' & _). by exists u'.
    - intros [Hg (r & Hr & Hp)%(rep_name _ _ R)]. exists (p', pf_encrypted_username r). split; [done|].
      apply (granted_profiles_spec _ _ _ _ _ R). split; [done|]. by exists r. }
  rewrite (reveal_all b), Hin.
  2: { intros p' e (_ & r & Hr & Hp & <-)%(granted_profiles_spec _ _ _ _ _ R). by apply (rep_profile _ _ R). }
  assert (∀ own, own = match (_ ← read (fault env) 0%nat (); own_profile s me d) with
                       | Ok row => reveal signing_key ∅ row | _ => ∅ end →
    (own !! p = Some u ↔ names b !! p = Some u ∧ p = me ∧ fault env 0%nat = None)) as Hown.
  { intros own ->. unfold read. destruct (fault env 0%nat).
    { cbn. rewrite lookup_empty. naive_solver. }
    cbn [mbind result_bind]. unfold own_profile. destruct (names b !! me) as [v|] eqn:Ev.
    - destruct (rep_name _ _ R me) as (r & Hr & Hp); [by eexists|].
      rewrite (query_row_unique _ _ r _ Hr Hp) by (intros r' Hr' Hp'; by apply (rep_unique _ _ R me)).
      destruct (rep_profile _ _ R _ _ Hr Hp) as (v' & Hv' & Hd). unfold reveal, profile_pair. cbn [fst snd].
      destruct Hp as [_ ->]. rewrite Hd. destruct (decide (p = me)) as [->|Hne].
      + rewrite lookup_insert_eq. naive_solver.
      + rewrite lookup_insert_ne, lookup_empty by done. naive_solver.
    - rewrite query_row_none by (rewrite (rep_exists _ _ _ R), Ev; done). cbn. rewrite lookup_empty. naive_solver. }
  rewrite (Hown _ eq_refl). destruct (decide ((p, me) ∈ grants b)); naive_solver.
Qed.

(** C9. A name is shown to its owner and to those its owner granted it to
    and did not take the grant back from since, and to nobody else; it is the
    name the owner set last.  The answer holds every such name of the book,
    the own one if its row could be read. *)
Theorem names_need_consent enabled env h d i :
  served s signing_key enabled h d →
  let me := pi_pseudonym_id i in
  let '(o, d') := get_visible_usernames_handler s signing_key enabled env i d in
  d' = d ∧
  ((o = Err 500 ∧ fault env 1%nat ≠ None) ∨
   ∃ m b, o = Ok m ∧ book_history enabled h b ∧
     (∀ p u, m !! p = Some u ↔
       enabled = true ∧ names b !! p = Some u ∧ ((p, me) ∈ grants b ∨ (p = me ∧ fault env 0%nat = None))) ∧
     (∀ p u, m !! p = Some u → last_name p h = Some u ∧ (p = me ∨ consented p me h = true))).
Proof.
  intros (b & Hb & R)%served_history. pose proof (visible_names enabled env i d b R) as H.
  pose proof (history_accounts _ _ _ Hb) as [Hg Hn]. cbv zeta in *.
  destruct (get_visible_usernames_handler _ _ _ _ _ _) as [o d']. destruct H as [-> H]. split; [done|].
  destruct H as [?|(m & -> & Hm)]; [by left|right]. exists m, b. split_and!; [done..|].
  intros p u (_ & Hu & Hor)%Hm. split; [by apply Hn|].
  destruct Hor as [?|[-> _]]; [right; by apply Hg|by left].
Qed.
End book.

(** ** Witnesses *)

(** A cipher that is the identity, with the nonce as its tag. *)
Definition toy_cipher : NameCipher :=
  {| hkdf _ _ _ := replicate 32 x00;
     aead_encrypt _ n m := m ++ take 16 (n ++ replicate 16 x00);
     aead_decrypt _ n c := if bool_decide (drop (length c - 16) c = take 16 (n ++ replicate 16 x00))
                           then Some (take (length c - 16) c) else None |}.
Lemma toy_cipher_laws : NameCipherLaws toy_cipher.
Proof.
  split; cbn -[replicate take drop]; [done|..].
  - intros _ n m _ Hn. rewrite length_app, length_take, length_app, length_replicate. lia.
  - intros _ n m _ Hn. rewrite length_app, length_take, length_app, length_replicate, Hn.
    replace (length m + 16 `min` (12 + 16) - 16)%nat with (length m) by lia.
    rewrite drop_app_length, bool_decide_eq_true_2 by done. by rewrite take_app_length.
Qed.

Section witnesses.
#[local] Existing Instances hex_reference hex_reference_laws toy_sha256 toy_cipher toy_cipher_laws toy_clock.

Definition names_env : Env := {| fault := no_fault; now := 0; now_rfc3339 := ""; anchor_clock := None |}.
Definition toy_nonce : list byte := replicate 12 x41.
Definition toy_user (p : string) : PlatformIdentity :=
  {| pi_id := 1; pi_server_id := 1; pi_pseudonym_id := p; pi_participant_type := Human;
     pi_caps := {| can_voice := true; can_moderate := false; can_invite := false; can_federate := false;
                   can_bridge := false |}; pi_active := true; pi_created_at := ""; pi_updated_at := "" |}.

Lemma username_round_trip_witness :
  decrypt_username [] "p" (encrypt_username [] toy_nonce "p" "Alice") = Some "Alice".
Proof. apply (username_round_trip [] toy_nonce "p" "Alice" []); by vm_compute. Defined.

(** Alice sets a name and grants it to Bob. *)
Definition toy_requests : list request :=
  [GrantUsername (toy_user "alice") "bob"; SetUsername (toy_user "alice") toy_nonce " Alice "].
Definition names_after (rs : list request) : NameDb :=
  foldr (λ r d, (serve 1 [] true names_env r d).2)
    {| nd_servers := [1]; user_profiles := t_empty; username_grants := t_empty |} rs.
Definition toy_names : NameDb := names_after toy_requests.
Definition toy_history : list (request * result http_error unit) := (λ r, (r, Ok ())) <$> toy_requests.
Lemma toy_served : served 1 [] true toy_history toy_names.
Proof.
  apply (served_more 1 [] true names_env _ (names_after (tail toy_requests))); [|by vm_compute|by vm_compute].
  apply (served_more 1 [] true names_env _ (names_after [])); [|by vm_compute|by vm_compute].
  constructor. by left.
Defined.

Lemma usernames_refine_book_witness :
  ∃ b, book_history true toy_history b ∧ represents 1 [] toy_names b.
Proof.
  destruct (usernames_refine_book 1 [] true toy_history toy_names toy_served) as (b & Hb & R & _). by exists b.
Defined.

Lemma names_need_consent_witness :
  (get_visible_usernames_handler 1 [] true names_env (toy_user "bob") toy_names).1 = Ok {["alice" := "Alice"]} ∧
  last_name "alice" toy_history = Some "Alice" ∧ consented "alice" "bob" toy_history = true.
Proof.
  pose proof (names_need_consent 1 [] true names_env toy_history toy_names (toy_user "bob") toy_served) as H.
  assert ((get_visible_usernames_handler 1 [] true names_env (toy_user "bob") toy_names).1 = Ok {["alice" := "Alice"]})
    as E by (by vm_compute).
  destruct (get_visible_usernames_handler _ _ _ _ _ _) as [o d']. cbn in E. subst o. split; [done|].
  destruct H as [_ [[? _]|(m & b & [= <-] & _ & _ & Hm)]]; [done|].
  destruct (Hm "alice" "Alice") as [? [?|?]]; done.
Defined.
End witnesses.
