(* ===== verification/Config.v ===== *)
(** * Config: what the server is started with

    crates/annex-server/src/config.rs and the choice of the file in
    crates/annex-server/src/main.rs; LiveKit's settings are those of Voice.  The TOML parser is a parameter
    ([Toml]); what becomes of the parsed document, default by default, is
    the source's.  [usize] has 64 bits. *)

From S2P Require Import Prelude Bytes Text Net Voice.

#[local] Open Scope Z_scope.

(** ** The settings *)

Record ServerConfig := {
  host : IpAddr;
  port : Z;
  retention_check_interval_seconds : Z;
  inactivity_threshold_seconds : Z;
  public_url : string;
  merkle_tree_depth : Z;
  presence_broadcast_capacity : Z;
}.
Record DatabaseConfig := { db_path : string; busy_timeout_ms : Z; pool_max_size : Z }.
Record LoggingConfig := { log_level : string; log_json : bool }.
Record VoicePathsConfig := {
  tts_voices_dir : string;
  tts_binary_path : string;
  stt_model_path : string;
  stt_binary_path : string;
  bark_binary_path : string;
}.
Record Config := {
  server : ServerConfig;
  database : DatabaseConfig;
  logging : LoggingConfig;
  livekit : LiveKitConfig;
  voice : VoicePathsConfig;
  allowed_origins : list string;   (* cors *)
  enforce_zk_proofs : bool;        (* security *)
}.

Definition ServerConfig_default : ServerConfig :=
  {| host := V4 127 0 0 1; port := 3000; retention_check_interval_seconds := 3600;
     inactivity_threshold_seconds := 300; public_url := ""; merkle_tree_depth := 20;
     presence_broadcast_capacity := 256 |}.
Definition DatabaseConfig_default : DatabaseConfig :=
  {| db_path := "annex.db"; busy_timeout_ms := 5000; pool_max_size := 8 |}.
Definition LoggingConfig_default : LoggingConfig := {| log_level := "info"; log_json := false |}.
Definition VoicePathsConfig_default : VoicePathsConfig :=
  {| tts_voices_dir := "assets/voices"; tts_binary_path := "assets/piper/piper";
     stt_model_path := "assets/models/ggml-base.en.bin"; stt_binary_path := "assets/whisper/whisper";
     bark_binary_path := "assets/bark/bark_tts.py" |}.
Definition Config_default : Config :=
  {| server := ServerConfig_default; database := DatabaseConfig_default; logging := LoggingConfig_default;
     livekit := LiveKitConfig_default; voice := VoicePathsConfig_default; allowed_origins := [];
     enforce_zk_proofs := false |}.

Inductive io_error := NotFound | OtherIo (code : Z).
Inductive ConfigError :=
  | FileRead (e : io_error)
  | Parse
  | InvalidEnvVar (name : string)
  | InvalidValue (field : string).

(** ** The file

    [toml::from_str] reads a struct from a table by the names of its fields;
    the integers of TOML have 64 bits. *)

Inductive toml :=
  | TString (s : string)
  | TInteger (z : Z)
  | TBoolean (b : bool)
  | TArray (l : list toml)
  | TTable (fields : list (string * toml))
  | TOther (literal : string).
Class Toml := { toml_parse : string → option (list (string * toml)) }.

Definition reader (A : Type) : Type := toml → option A.
Definition read_string : reader string := λ v, match v with TString s => Some s | _ => None end.
Definition read_bool : reader bool := λ v, match v with TBoolean b => Some b | _ => None end.
Definition read_uint (w : Z) : reader Z := λ v,
  match v with TInteger z => if (0 <=? z) && (z <? 2 ^ Z.min w 63) then Some z else None | _ => None end.
Definition read_ip : reader IpAddr := λ v, match v with TString s => parse_ip s | _ => None end.
Definition read_list {A} (r : reader A) : reader (list A) := λ v,
  match v with TArray l => mapM r l | _ => None end.
Definition read_table {A} (r : list (string * toml) → option A) : reader A := λ v,
  match v with TTable t => r t | _ => None end.

Definition toml_get (name : string) (t : list (string * toml)) : option toml :=
  snd <$> head (filter (λ f, f.1 = name) t).
(** A field without and with [#[serde(default)]]. *)
Definition required {A} (name : string) (r : reader A) (t : list (string * toml)) : option A :=
  toml_get name t ≫= r.
Definition optional {A} (name : string) (d : A) (r : reader A) (t : list (string * toml)) : option A :=
  match toml_get name t with Some v => r v | None => Some d end.

Definition read_server (t : list (string * toml)) : option ServerConfig :=
  let d := ServerConfig_default in
  host ← optional "host" (host d) read_ip t;
  port ← optional "port" (port d) (read_uint 16) t;
  interval ← optional "retention_check_interval_seconds" (retention_check_interval_seconds d) (read_uint 64) t;
  threshold ← optional "inactivity_threshold_seconds" (inactivity_threshold_seconds d) (read_uint 64) t;
  url ← optional "public_url" (public_url d) read_string t;
  depth ← optional "merkle_tree_depth" (merkle_tree_depth d) (read_uint 64) t;
  capacity ← optional "presence_broadcast_capacity" (presence_broadcast_capacity d) (read_uint 64) t;
  Some {| host := host; port := port; retention_check_interval_seconds := interval;
          inactivity_threshold_seconds := threshold; public_url := url; merkle_tree_depth := depth;
          presence_broadcast_capacity := capacity |}.

Definition read_database (t : list (string * toml)) : option DatabaseConfig :=
  let d := DatabaseConfig_default in
  path ← optional "path" (db_path d) read_string t;
  timeout ← optional "busy_timeout_ms" (busy_timeout_ms d) (read_uint 64) t;
  size ← optional "pool_max_size" (pool_max_size d) (read_uint 32) t;
  Some {| db_path := path; busy_timeout_ms := timeout; pool_max_size := size |}.

Definition read_logging (t : list (string * toml)) : option LoggingConfig :=
  level ← optional "level" (log_level LoggingConfig_default) read_string t;
  json ← optional "json" false read_bool t;
  Some {| log_level := level; log_json := json |}.

Definition read_ice_server (t : list (string * toml)) : option IceServer :=
  urls ← required "urls" (read_list read_string) t;
  username ← optional "username" "" read_string t;
  credential ← optional "credential" "" read_string t;
  Some {| urls := urls; username := username; credential := credential |}.

Definition read_livekit (t : list (string * toml)) : option LiveKitConfig :=
  url ← required "url" read_string t;
  public_url ← optional "public_url" "" read_string t;
  lk_api_key ← required "api_key" read_string t;
  lk_api_secret ← required "api_secret" read_string t;
  ttl ← optional "token_ttl_seconds" default_token_ttl_seconds (read_uint 64) t;
  ice ← optional "ice_servers" default_stun_servers (read_list (read_table read_ice_server)) t;
  Some {| lk_url := url; lk_public_url := public_url; lk_api_key := lk_api_key; lk_api_secret := lk_api_secret;
          lk_token_ttl_seconds := ttl; lk_ice_servers := ice |}.

Definition read_voice (t : list (string * toml)) : option VoicePathsConfig :=
  let d := VoicePathsConfig_default in
  voices ← optional "tts_voices_dir" (tts_voices_dir d) read_string t;
  tts ← optional "tts_binary_path" (tts_binary_path d) read_string t;
  model ← optional "stt_model_path" (stt_model_path d) read_string t;
  stt ← optional "stt_binary_path" (stt_binary_path d) read_string t;
  bark ← optional "bark_binary_path" (bark_binary_path d) read_string t;
  Some {| tts_voices_dir := voices; tts_binary_path := tts; stt_model_path := model; stt_binary_path := stt;
          bark_binary_path := bark |}.

Definition read_cors (t : list (string * toml)) : option (list string) :=
  optional "allowed_origins" [] (read_list read_string) t.
Definition read_security (t : list (string * toml)) : option bool := optional "enforce_zk_proofs" false read_bool t.

Definition read_config (t : list (string * toml)) : option Config :=
  server ← optional "server" ServerConfig_default (read_table read_server) t;
  database ← optional "database" DatabaseConfig_default (read_table read_database) t;
  logging ← optional "logging" LoggingConfig_default (read_table read_logging) t;
  livekit ← optional "livekit" LiveKitConfig_default (read_table read_livekit) t;
  voice ← optional "voice" VoicePathsConfig_default (read_table read_voice) t;
  cors ← optional "cors" [] (read_table read_cors) t;
  security ← optional "security" false (read_table read_security) t;
  Some {| server := server; database := database; logging := logging; livekit := livekit; voice := voice;
          allowed_origins := cors; enforce_zk_proofs := security |}.

(** ** The environment *)

Inductive env_var := NotPresent | NotUnicode | Present (raw : string).
Definition environment : Type := string → env_var.

(** [str::parse] of the unsigned types. *)
Definition parse_uint (w : Z) (s : string) : option Z :=
  n ← parse_u64 s; if n <? 2 ^ w then Some n else None.

Definition parse_env_var {A} (parse : string → option A) (name : string) (env : environment) :
    result ConfigError (option A) :=
  match env name with
  | Present raw => v ← ok_or (parse raw) (InvalidEnvVar name); Ok (Some v)
  | NotPresent => Ok None
  | NotUnicode => Err (InvalidEnvVar name)
  end.

Definition bool_of_text (raw : string) : option bool :=
  let normalized := to_ascii_lowercase (trim raw) in
  if decide (normalized ∈ ["1"; "true"; "yes"; "on"]) then Some true
  else if decide (normalized ∈ ["0"; "false"; "no"; "off"]) then Some false
  else None.
Definition parse_env_bool (name : string) (env : environment) : result ConfigError (option bool) :=
  parse_env_var bool_of_text name env.
Definition parse_env_string : string → environment → result ConfigError (option string) := parse_env_var Some.

(** The overrides, section by section in the order of the code. *)
Definition override_server (env : environment) (c : ServerConfig) : result ConfigError ServerConfig :=
  h ← parse_env_var parse_ip "ANNEX_HOST" env;
  p ← parse_env_var (parse_uint 16) "ANNEX_PORT" env;
  interval ← parse_env_var (parse_uint 64) "ANNEX_RETENTION_CHECK_INTERVAL_SECONDS" env;
  threshold ← parse_env_var (parse_uint 64) "ANNEX_INACTIVITY_THRESHOLD_SECONDS" env;
  url ← parse_env_string "ANNEX_PUBLIC_URL" env;
  depth ← parse_env_var (parse_uint 64) "ANNEX_MERKLE_TREE_DEPTH" env;
  cap ← parse_env_var (parse_uint 64) "ANNEX_PRESENCE_BROADCAST_CAPACITY" env;
  Ok {| host := default (host c) h; port := default (port c) p;
        retention_check_interval_seconds := default (retention_check_interval_seconds c) interval;
        inactivity_threshold_seconds := default (inactivity_threshold_seconds c) threshold;
        public_url := default (public_url c) url; merkle_tree_depth := default (merkle_tree_depth c) depth;
        presence_broadcast_capacity := default (presence_broadcast_capacity c) cap |}.

Definition override_database (env : environment) (c : DatabaseConfig) : result ConfigError DatabaseConfig :=
  path ← parse_env_string "ANNEX_DB_PATH" env;
  timeout ← parse_env_var (parse_uint 64) "ANNEX_DB_BUSY_TIMEOUT_MS" env;
  max_size ← parse_env_var (parse_uint 32) "ANNEX_DB_POOL_MAX_SIZE" env;
  Ok {| db_path := default (db_path c) path; busy_timeout_ms := default (busy_timeout_ms c) timeout;
        pool_max_size := default (pool_max_size c) max_size |}.

Definition override_logging (env : environment) (c : LoggingConfig) : result ConfigError LoggingConfig :=
  level ← parse_env_string "ANNEX_LOG_LEVEL" env;
  json ← parse_env_bool "ANNEX_LOG_JSON" env;
  Ok {| log_level := default (log_level c) level; log_json := default (log_json c) json |}.

Definition override_livekit (env : environment) (c : LiveKitConfig) : result ConfigError LiveKitConfig :=
  url ← parse_env_string "ANNEX_LIVEKIT_URL" env;
  public ← parse_env_string "ANNEX_LIVEKIT_PUBLIC_URL" env;
  key ← parse_env_string "ANNEX_LIVEKIT_API_KEY" env;
  secret ← parse_env_string "ANNEX_LIVEKIT_API_SECRET" env;
  Ok {| lk_url := default (lk_url c) url; lk_public_url := default (lk_public_url c) public;
        lk_api_key := default (lk_api_key c) key; lk_api_secret := default (lk_api_secret c) secret;
        lk_token_ttl_seconds := lk_token_ttl_seconds c; lk_ice_servers := lk_ice_servers c |}.

Definition override_voice (env : environment) (c : VoicePathsConfig) : result ConfigError VoicePathsConfig :=
  voices ← parse_env_string "ANNEX_TTS_VOICES_DIR" env;
  tts ← parse_env_string "ANNEX_TTS_BINARY_PATH" env;
  model ← parse_env_string "ANNEX_STT_MODEL_PATH" env;
  stt ← parse_env_string "ANNEX_STT_BINARY_PATH" env;
  bark ← parse_env_string "ANNEX_BARK_BINARY_PATH" env;
  Ok {| tts_voices_dir := default (tts_voices_dir c) voices; tts_binary_path := default (tts_binary_path c) tts;
        stt_model_path := default (stt_model_path c) model; stt_binary_path := default (stt_binary_path c) stt;
        bark_binary_path := default (bark_binary_path c) bark |}.

(** A value that is not Unicode is ignored here. *)
Definition origins_of_text (origins : string) : list string :=
  filter (λ s, s ≠ "") (trim <$> split_char "," origins).
Definition override_cors (env : environment) (origins : list string) : list string :=
  match env "ANNEX_CORS_ORIGINS" with Present raw => origins_of_text raw | _ => origins end.

Definition override_config (env : environment) (c : Config) : result ConfigError Config :=
  server ← override_server env (server c);
  database ← override_database env (database c);
  logging ← override_logging env (logging c);
  livekit ← override_livekit env (livekit c);
  voice ← override_voice env (voice c);
  enforce ← parse_env_bool "ANNEX_ENFORCE_ZK_PROOFS" env;
  Ok {| server := server; database := database; logging := logging; livekit := livekit; voice := voice;
        allowed_origins := override_cors env (allowed_origins c);
        enforce_zk_proofs := default (enforce_zk_proofs c) enforce |}.

(** ** Validation *)

Definition MIN_DB_BUSY_TIMEOUT_MS : Z := 1.
Definition MAX_DB_BUSY_TIMEOUT_MS : Z := 60000.
Definition MIN_DB_POOL_MAX_SIZE : Z := 1.
Definition MAX_DB_POOL_MAX_SIZE : Z := 64.
Definition MIN_RETENTION_CHECK_INTERVAL_SECONDS : Z := 1.

Definition range_contains (lo hi x : Z) : bool := (lo <=? x) && (x <=? hi).

Definition validate_config (c : Config) : result ConfigError unit :=
  _ ← reject_if (negb (range_contains MIN_DB_BUSY_TIMEOUT_MS MAX_DB_BUSY_TIMEOUT_MS (busy_timeout_ms (database c))))
    (InvalidValue "database.busy_timeout_ms");
  _ ← reject_if (negb (range_contains MIN_DB_POOL_MAX_SIZE MAX_DB_POOL_MAX_SIZE (pool_max_size (database c))))
    (InvalidValue "database.pool_max_size");
  _ ← reject_if (retention_check_interval_seconds (server c) <? MIN_RETENTION_CHECK_INTERVAL_SECONDS)
    (InvalidValue "server.retention_check_interval_seconds");
  _ ← reject_if (negb (range_contains 1 30 (merkle_tree_depth (server c)))) (InvalidValue "server.merkle_tree_depth");
  reject_if (negb (range_contains 16 10000 (presence_broadcast_capacity (server c))))
    (InvalidValue "server.presence_broadcast_capacity").

(** ** Loading *)

(** The files by path; some can not be read (a directory, permissions, bytes
    that are not UTF-8) or not be written. *)
Record Disk := { files : gmap string string; unreadable : gmap string Z; unwritable : gset string }.

Definition read_to_string (p : string) (d : Disk) : result io_error string :=
  match unreadable d !! p with
  | Some code => Err (OtherIo code)
  | None => ok_or (files d !! p) NotFound
  end.
(** The outcome of a write is only logged. *)
Definition write_file (p contents : string) (d : Disk) : Disk :=
  if decide (p ∈ unwritable d) then d
  else {| files := <[p := contents]> (files d); unreadable := unreadable d; unwritable := unwritable d |}.

Definition backslash : ascii := "092"%char.
Definition forward_slashes (contents : string) : string :=
  string_map (λ c, if decide (c = backslash) then "/"%char else c) contents.
Definition has_drive_path (contents : string) : bool := contains (String ":" (String backslash "")) contents.

Section load.
Context `{TM : Toml}.

Definition parse_contents (contents : string) : result ConfigError Config :=
  ok_or (toml_parse contents ≫= read_config) Parse.

(** The first part of [load_config]. *)
Definition load_file (path : option string) : M Disk ConfigError Config := λ d,
  match path with
  | Some p =>
      match read_to_string p d with
      | Ok contents =>
          if has_drive_path contents then
            let fixed := forward_slashes contents in
            (parse_contents fixed, write_file p fixed d)
          else (parse_contents contents, d)
      | Err NotFound => (Ok Config_default, d)
      | Err e => (Err (FileRead e), d)
      | Panic => (Panic, d)
      end
  | None => (Ok Config_default, d)
  end.

Definition load_config (env : environment) (path : option string) : M Disk ConfigError Config :=
  config ← load_file path;
  config ← lift (override_config env config);
  lift (validate_config config);;
  mret config.
End load.

(** main.rs: the file that is loaded. *)
Definition resolve_config_path (args : list string) (env : environment) : option string :=
  match args !! 1%nat with
  | Some path => if is_empty (trim path) then None else Some path
  | None => None
  end ∪
  match env "ANNEX_CONFIG_PATH" with
  | Present path => if is_empty (trim path) then None else Some path
  | _ => None
  end.
Definition selected_config_path (args : list string) (env : environment) : option string :=
  resolve_config_path args env ∪ Some "config.toml".

(** * Theorems *)

(** ** Types and bounds *)

(** Every value fits its Rust type. *)
Record server_typed (c : ServerConfig) : Prop := {
  st_host : ip_ok (host c);
  st_port : 0 ≤ port c < 2 ^ 16;
  st_retention : 0 ≤ retention_check_interval_seconds c < 2 ^ 64;
  st_inactivity : 0 ≤ inactivity_threshold_seconds c < 2 ^ 64;
  st_depth : 0 ≤ merkle_tree_depth c < 2 ^ 64;
  st_capacity : 0 ≤ presence_broadcast_capacity c < 2 ^ 64;
}.
Record database_typed (c : DatabaseConfig) : Prop := {
  dt_timeout : 0 ≤ busy_timeout_ms c < 2 ^ 64;
  dt_pool : 0 ≤ pool_max_size c < 2 ^ 32;
}.
Record config_typed (c : Config) : Prop := {
  ct_server : server_typed (server c);
  ct_database : database_typed (database c);
  ct_livekit : 0 ≤ lk_token_ttl_seconds (livekit c) < 2 ^ 64;
}.

(** The ranges the operator is told about. *)
Record config_valid (c : Config) : Prop := {
  cv_timeout : 1 ≤ busy_timeout_ms (database c) ≤ 60000;
  cv_pool : 1 ≤ pool_max_size (database c) ≤ 64;
  cv_retention : 1 ≤ retention_check_interval_seconds (server c);
  cv_depth : 1 ≤ merkle_tree_depth (server c) ≤ 30;
  cv_capacity : 16 ≤ presence_broadcast_capacity (server c) ≤ 10000;
}.

Lemma range_contains_spec lo hi x : range_contains lo hi x = true ↔ lo ≤ x ≤ hi.
Proof. unfold range_contains. rewrite andb_true_iff. lia. Qed.

Lemma validate_config_spec c : validate_config c = Ok () ↔ config_valid c.
Proof.
  assert (∀ b (e : ConfigError) (k : result ConfigError unit),
    (_ ← reject_if b e; k) = Ok () ↔ b = false ∧ k = Ok ()) as Hb by (intros [] e k; cbn; by split; [|intros []] || naive_solver).
  unfold validate_config. rewrite !Hb, reject_if_ok, !negb_false_iff, !range_contains_spec, Z.ltb_ge.
  unfold MIN_DB_BUSY_TIMEOUT_MS, MAX_DB_BUSY_TIMEOUT_MS, MIN_DB_POOL_MAX_SIZE, MAX_DB_POOL_MAX_SIZE,
    MIN_RETENTION_CHECK_INTERVAL_SECONDS.
  split; [intros (?&?&?&?&?); by split|intros []; lia].
Qed.

Lemma ServerConfig_default_typed : server_typed ServerConfig_default.
Proof. split; cbn; try lia. rewrite !Forall_cons, Forall_nil. unfold u8. lia. Qed.
Lemma Config_default_typed : config_typed Config_default.
Proof. split; [apply ServerConfig_default_typed|split; cbn; lia|cbn; unfold default_token_ttl_seconds; lia]. Qed.

(** A value read from the file or from the environment, or the default. *)
Lemma optional_inv {A} (P : A → Prop) name d (r : reader A) t v :
  P d → (∀ x y, r x = Some y → P y) → optional name d r t = Some v → P v.
Proof. intros Hd Hr. unfold optional. destruct (toml_get name t); [apply Hr|by intros [= <-]]. Qed.
Lemma read_uint_range w x v : read_uint w x = Some v → 0 ≤ v < 2 ^ w.
Proof.
  destruct x; try done. cbn. destruct ((0 <=? z) && (z <? 2 ^ Z.min w 63)) eqn:E; [|done]. intros [= <-].
  assert (2 ^ Z.min w 63 ≤ 2 ^ w); [|lia]. destruct (decide (0 ≤ w)); [apply Z.pow_le_mono_r; lia|].
  rewrite Z.min_l by lia. done.
Qed.
Lemma read_ip_ok x v : read_ip x = Some v → ip_ok v.
Proof. destruct x; try done. apply parse_ip_ok. Qed.
Lemma parse_digits_nonneg acc s v : 0 ≤ acc → parse_digits acc s = Some v → 0 ≤ v.
Proof.
  revert acc. induction s as [|c s IH]; intros acc Ha; cbn; [by intros [= <-]|].
  destruct (to_digit 10 c) as [d|] eqn:Ed; cbn; [|done]. apply to_digit_range in Ed.
  destruct (2 ^ 64 <=? acc * 10 + d); [done|]. apply IH. lia.
Qed.
Lemma parse_uint_range w s v : parse_uint w s = Some v → 0 ≤ v < 2 ^ w.
Proof.
  unfold parse_uint. destruct (parse_u64 s) as [n|] eqn:E; cbn; [|done].
  destruct (n <? 2 ^ w) eqn:Hn; [|done]. intros [= <-]. split; [|lia].
  unfold parse_u64 in E. repeat case_match; try done; by apply parse_digits_nonneg in E.
Qed.
Lemma env_value_inv {A} (P : A → Prop) parse name env o (d : A) :
  (∀ s v, parse s = Some v → P v) → P d → parse_env_var parse name env = Ok o → P (default d o).
Proof.
  intros Hp Hd. unfold parse_env_var. destruct (env name) as [| |raw]; [by intros [= <-]|done|].
  destruct (parse raw) as [v|] eqn:E; cbn; [|done]. intros [= <-]. by eapply Hp.
Qed.

(** The steps of a chain of reads, or of overrides, that succeeds. *)
Ltac chain_some H :=
  repeat match type of H with mbind _ _ = Some _ => let E := fresh "E" in apply bind_Some in H as (? & E & H) end.
Lemma result_bind_ok {E A B} (m : result E A) (f : A → result E B) b :
  (m ≫= f) = Ok b ↔ ∃ a, m = Ok a ∧ f a = Ok b.
Proof. destruct m; naive_solver. Qed.
Ltac chain_ok H :=
  repeat match type of H with mbind _ _ = Ok _ => let E := fresh "E" in apply result_bind_ok in H as (? & E & H) end.

Lemma read_server_typed x c : read_table read_server x = Some c → server_typed c.
Proof.
  destruct x as [| | | |t|]; try done. intros H. cbn [read_table] in H. unfold read_server in H. chain_some H.
  injection H as <-. pose proof ServerConfig_default_typed as [].
  split; cbn [host port retention_check_interval_seconds inactivity_threshold_seconds merkle_tree_depth
    presence_broadcast_capacity].
  - by eapply (optional_inv ip_ok); [| |exact E]; [|apply read_ip_ok].
  - by eapply (optional_inv (λ v, 0 ≤ v < 2 ^ 16)); [| |exact E0]; [|apply read_uint_range].
  - by eapply (optional_inv (λ v, 0 ≤ v < 2 ^ 64)); [| |exact E1]; [|apply read_uint_range].
  - by eapply (optional_inv (λ v, 0 ≤ v < 2 ^ 64)); [| |exact E2]; [|apply read_uint_range].
  - by eapply (optional_inv (λ v, 0 ≤ v < 2 ^ 64)); [| |exact E4]; [|apply read_uint_range].
  - by eapply (optional_inv (λ v, 0 ≤ v < 2 ^ 64)); [| |exact E5]; [|apply read_uint_range].
Qed.
Lemma read_database_typed x c : read_table read_database x = Some c → database_typed c.
Proof.
  destruct x as [| | | |t|]; try done. intros H. cbn [read_table] in H. unfold read_database in H. chain_some H.
  injection H as <-. split; cbn [busy_timeout_ms pool_max_size].
  - by eapply (optional_inv (λ v, 0 ≤ v < 2 ^ 64)); [| |exact E0]; [|apply read_uint_range].
  - by eapply (optional_inv (λ v, 0 ≤ v < 2 ^ 32)); [| |exact E1]; [|apply read_uint_range].
Qed.
Lemma read_livekit_typed x c : read_table read_livekit x = Some c → 0 ≤ lk_token_ttl_seconds c < 2 ^ 64.
Proof.
  destruct x as [| | | |t|]; try done. intros H. cbn [read_table] in H. unfold read_livekit in H. chain_some H.
  injection H as <-. cbn [lk_token_ttl_seconds].
  by eapply (optional_inv (λ v, 0 ≤ v < 2 ^ 64)); [| |exact E3]; [|apply read_uint_range].
Qed.
Lemma read_config_typed t c : read_config t = Some c → config_typed c.
Proof.
  pose proof Config_default_typed as []. unfold read_config. intros H. chain_some H. injection H as <-.
  split; cbn [server database livekit].
  - by eapply (optional_inv server_typed); [| |exact E]; [|apply read_server_typed].
  - by eapply (optional_inv database_typed); [| |exact E0]; [|apply read_database_typed].
  - by eapply (optional_inv (λ v, 0 ≤ lk_token_ttl_seconds v < 2 ^ 64)); [| |exact E2]; [|apply read_livekit_typed].
Qed.

Lemma override_typed env c c' : config_typed c → override_config env c = Ok c' → config_typed c'.
Proof.
  intros [[] [] ?] H. unfold override_config in H. chain_ok H. injection H as <-.
  unfold override_server in E. chain_ok E. injection E as <-.
  unfold override_database in E0. chain_ok E0. injection E0 as <-.
  unfold override_livekit in E2. chain_ok E2. injection E2 as <-.
  split; [split|split|]; cbn; try done;
    (eapply (env_value_inv (λ v, 0 ≤ v < 2 ^ _)); [apply parse_uint_range|done|eassumption]) ||
    (eapply (env_value_inv ip_ok); [apply parse_ip_ok|done|eassumption]).
Qed.

Section loading.
Context `{TM : Toml}.

Lemma load_file_typed path d c d' : load_file path d = (Ok c, d') → config_typed c.
Proof.
  assert (∀ contents c, parse_contents contents = Ok c → config_typed c) as Hp.
  { intros contents c0 H. unfold parse_contents in H. apply ok_or_ok, bind_Some in H as (t & _ & H).
    by apply read_config_typed in H. }
  unfold load_file. destruct path as [p|]; [|intros [= <- <-]; apply Config_default_typed].
  destruct (read_to_string p d) as [contents|[|code]|]; [|intros [= <- <-]; apply Config_default_typed|done..].
  destruct (has_drive_path contents); intros [= H _]; by apply Hp in H.
Qed.

Lemma load_config_ok env path d c d' :
  load_config env path d = (Ok c, d') ↔
  ∃ b, load_file path d = (Ok b, d') ∧ override_config env b = Ok c ∧ config_valid c.
Proof.
  unfold load_config. rewrite M_bind_ok. split.
  - intros (b & d1 & Hl & (c1 & d2 & [Ho ->]%lift_ok & ([] & d3 & [Hv ->]%lift_ok & [= -> ->])%M_bind_ok)%M_bind_ok).
    apply validate_config_spec in Hv. by exists b.
  - intros (b & Hl & Ho & Hv%validate_config_spec). exists b, d'. split; [done|]. unfold mbind, M_bind, lift.
    by rewrite Ho, Hv.
Qed.

(** C37. Whatever the file and the environment say, a configuration the
    server starts with has every value in the range of its type, and the
    database, the retention task, the Merkle tree and the presence channel
    get settings within the documented bounds. *)
Theorem loaded_config_ok env path d c d' :
  load_config env path d = (Ok c, d') → config_typed c ∧ config_valid c.
Proof.
  intros (b & Hl & Ho & Hv)%load_config_ok. split; [|done].
  by apply load_file_typed, (override_typed env b c) in Hl.
Qed.

(** The value of a variable that is set and can be parsed. *)
Definition env_value {A} (parse : string → option A) (env : environment) (name : string) : option A :=
  match env name with Present raw => parse raw | _ => None end.

Lemma parse_env_var_value {A} (parse : string → option A) name env o :
  parse_env_var parse name env = Ok o → o = env_value parse env name.
Proof.
  unfold parse_env_var, env_value. destruct (env name) as [| |raw]; [by intros [= <-]|done|].
  by destruct (parse raw); [intros [= <-]|].
Qed.

Lemma parse_env_var_fails {A} (parse : string → option A) name env e :
  parse_env_var parse name env = Err e →
  e = InvalidEnvVar name ∧ (env name = NotUnicode ∨ ∃ raw, env name = Present raw ∧ parse raw = None).
Proof.
  unfold parse_env_var. destruct (env name) as [| |raw]; [done|intros [= <-]; auto|].
  destruct (parse raw) eqn:E; [done|]. intros [= <-]. eauto.
Qed.

Definition text_value : environment → string → option string := env_value Some.

(** A variable of the environment that is set wins over the file, and
    the file over the defaults: without a file, and for a file that is not
    there, the base of the overrides is the default configuration. *)
Theorem env_overrides_file env path d c d' :
  load_config env path d = (Ok c, d') →
  ∃ b, load_file path d = (Ok b, d') ∧
    (match path with Some p => read_to_string p d = Err NotFound | None => True end → b = Config_default) ∧
    server c = {|
      host := default (host (server b)) (env_value parse_ip env "ANNEX_HOST");
      port := default (port (server b)) (env_value (parse_uint 16) env "ANNEX_PORT");
      retention_check_interval_seconds := default (retention_check_interval_seconds (server b))
        (env_value (parse_uint 64) env "ANNEX_RETENTION_CHECK_INTERVAL_SECONDS");
      inactivity_threshold_seconds := default (inactivity_threshold_seconds (server b))
        (env_value (parse_uint 64) env "ANNEX_INACTIVITY_THRESHOLD_SECONDS");
      public_url := default (public_url (server b)) (text_value env "ANNEX_PUBLIC_URL");
      merkle_tree_depth := default (merkle_tree_depth (server b)) (env_value (parse_uint 64) env "ANNEX_MERKLE_TREE_DEPTH");
      presence_broadcast_capacity := default (presence_broadcast_capacity (server b))
        (env_value (parse_uint 64) env "ANNEX_PRESENCE_BROADCAST_CAPACITY") |} ∧
    database c = {|
      db_path := default (db_path (database b)) (text_value env "ANNEX_DB_PATH");
      busy_timeout_ms := default (busy_timeout_ms (database b)) (env_value (parse_uint 64) env "ANNEX_DB_BUSY_TIMEOUT_MS");
      pool_max_size := default (pool_max_size (database b)) (env_value (parse_uint 32) env "ANNEX_DB_POOL_MAX_SIZE") |} ∧
    logging c = {|
      log_level := default (log_level (logging b)) (text_value env "ANNEX_LOG_LEVEL");
      log_json := default (log_json (logging b)) (env_value bool_of_text env "ANNEX_LOG_JSON") |} ∧
    livekit c = {|
      lk_url := default (lk_url (livekit b)) (text_value env "ANNEX_LIVEKIT_URL");
      lk_public_url := default (lk_public_url (livekit b)) (text_value env "ANNEX_LIVEKIT_PUBLIC_URL");
      lk_api_key := default (lk_api_key (livekit b)) (text_value env "ANNEX_LIVEKIT_API_KEY");
      lk_api_secret := default (lk_api_secret (livekit b)) (text_value env "ANNEX_LIVEKIT_API_SECRET");
      lk_token_ttl_seconds := lk_token_ttl_seconds (livekit b); lk_ice_servers := lk_ice_servers (livekit b) |} ∧
    voice c = {|
      tts_voices_dir := default (tts_voices_dir (voice b)) (text_value env "ANNEX_TTS_VOICES_DIR");
      tts_binary_path := default (tts_binary_path (voice b)) (text_value env "ANNEX_TTS_BINARY_PATH");
      stt_model_path := default (stt_model_path (voice b)) (text_value env "ANNEX_STT_MODEL_PATH");
      stt_binary_path := default (stt_binary_path (voice b)) (text_value env "ANNEX_STT_BINARY_PATH");
      bark_binary_path := default (bark_binary_path (voice b)) (text_value env "ANNEX_BARK_BINARY_PATH") |} ∧
    allowed_origins c = default (allowed_origins b) (origins_of_text <$> text_value env "ANNEX_CORS_ORIGINS") ∧
    enforce_zk_proofs c = default (enforce_zk_proofs b) (env_value bool_of_text env "ANNEX_ENFORCE_ZK_PROOFS").
Proof.
  intros (b & Hl & Ho & _)%load_config_ok. exists b. split; [done|]. split.
  { unfold load_file in Hl. destruct path as [p|]; [|by injection Hl as <-]. intros E. rewrite E in Hl. by injection Hl as <-. }
  unfold override_config in Ho. chain_ok Ho. injection Ho as <-.
  unfold override_server, parse_env_string in E. chain_ok E. injection E as <-.
  unfold override_database, parse_env_string in E0. chain_ok E0. injection E0 as <-.
  unfold override_logging, parse_env_string, parse_env_bool in E1. chain_ok E1. injection E1 as <-.
  unfold override_livekit, parse_env_string in E2. chain_ok E2. injection E2 as <-.
  unfold override_voice, parse_env_string in E3. chain_ok E3. injection E3 as <-.
  repeat match goal with H : parse_env_var _ _ _ = Ok _ |- _ => apply parse_env_var_value in H; subst end.
  unfold parse_env_bool in E4. apply parse_env_var_value in E4 as ->. split_and!; try done.
  cbn. unfold override_cors, text_value, env_value. by destruct (env "ANNEX_CORS_ORIGINS").
Qed.

(** ** The repair of the file *)

Lemma contains_needs_char c (p : string) s :
  string_contains_char c p = true → contains p s = true → string_contains_char c s = true.
Proof.
  intros Hc. assert (∀ p s, starts_with p s = true → string_contains_char c p = true → string_contains_char c s = true) as Hs.
  { clear. intros p. induction p as [|a p IH]; intros [|b s]; try done. unfold starts_with. cbn.
    destruct (ascii_dec a b) as [->|]; [|done]. intros Hp [->|H]%orb_true_iff; [done|].
    by rewrite (IH s Hp H), orb_true_r. }
  induction s as [|b s IH]; cbn [contains].
  - rewrite orb_false_r. intros H. by apply (Hs _ _ H).
  - intros [H|H]%orb_true_iff; [by apply (Hs _ _ H)|]. cbn. by rewrite IH, orb_true_r.
Qed.

Lemma forward_slashes_repaired contents : has_drive_path (forward_slashes contents) = false.
Proof.
  apply not_true_is_false. intros H. apply (contains_needs_char backslash) in H; [|done].
  unfold forward_slashes in H. induction contents as [|c contents IH]; [done|]. cbn in H.
  apply orb_true_iff in H as [H%bool_decide_eq_true|H]; [|by apply IH]. by case_decide.
Qed.

Lemma load_file_cases path d :
  (load_file path d).2 = d ∨
  ∃ p contents, path = Some p ∧ unreadable d !! p = None ∧ files d !! p = Some contents ∧
    has_drive_path contents = true ∧ p ∉ unwritable d ∧
    load_file path d = (parse_contents (forward_slashes contents),
      {| files := <[p := forward_slashes contents]> (files d); unreadable := unreadable d; unwritable := unwritable d |}).
Proof.
  unfold load_file. destruct path as [p|]; [|by left]. unfold read_to_string.
  destruct (unreadable d !! p) eqn:Eu; [by left|]. destruct (files d !! p) as [contents|] eqn:Ef; [cbn|by left].
  destruct (has_drive_path contents) eqn:Ed; [|by left]. unfold write_file. case_decide; [by left|right].
  by exists p, contents.
Qed.

Lemma load_config_disk env path d : (load_config env path d).2 = (load_file path d).2.
Proof.
  unfold load_config, mbind, M_bind, lift. destruct (load_file path d) as [[b|e|] d1]; [|done..].
  destruct (override_config env b) as [c|e|]; [|done..]. by destruct (validate_config c) as [[]|e|].
Qed.

(** The repair of Windows paths is done once: loading again, from the
    files as the first load left them, gives the same configuration or the
    same error and writes nothing more; and no other file is touched. *)
Theorem reload_is_stable env path d :
  let '(o, d') := load_config env path d in
  load_config env path d' = (o, d') ∧
  (∀ p, path ≠ Some p → files d' !! p = files d !! p) ∧
  (d' = d ∨ ∃ p contents, path = Some p ∧ files d !! p = Some contents ∧ has_drive_path contents = true ∧
     files d' !! p = Some (forward_slashes contents)).
Proof.
  pose proof (load_config_disk env path) as Hd.
  assert (∀ d1 d2, load_file path d1 = load_file path d2 → load_config env path d1 = load_config env path d2) as Hc
    by (intros d1 d2 E; unfold load_config, mbind, M_bind; by rewrite E).
  assert (load_file path (load_file path d).2 = load_file path d ∧
    (∀ p, path ≠ Some p → files (load_file path d).2 !! p = files d !! p) ∧
    ((load_file path d).2 = d ∨ ∃ p contents, path = Some p ∧ files d !! p = Some contents ∧
       has_drive_path contents = true ∧ files (load_file path d).2 !! p = Some (forward_slashes contents))) as (Hl & Ho & Hw).
  { destruct (load_file_cases path d) as [Hsame|(p & contents & -> & Hu & Hf & Hw & Hwritten & ->)].
    - rewrite Hsame. split_and!; [..|by left]; [|done]. by destruct (load_file path d).
    - cbn [snd files]. split_and!.
      + unfold load_file, read_to_string. cbn. rewrite Hu, lookup_insert_eq. cbn. by rewrite forward_slashes_repaired.
      + intros p' Hne. rewrite lookup_insert_ne; [done|congruence].
      + right. exists p, contents. by rewrite lookup_insert_eq. }
  pose proof (Hd d) as E. destruct (load_config env path d) as [o d'] eqn:EL. cbn in E. rewrite <- E in Hl, Ho, Hw.
  split_and!; [|done..]. by rewrite (Hc _ _ Hl), EL.
Qed.
End loading.

(** ** Witnesses *)

Section witnesses.
(** A format whose only setting is the path of the database. *)
Definition toy_toml : Toml :=
  {| toml_parse s := Some (if is_empty s then [] else [("database", TTable [("path", TString s)])]) |}.
#[local] Existing Instance toy_toml.

Definition toy_environment : environment := λ name,
  if decide (name = "ANNEX_PORT") then Present "8080" else NotPresent.
Definition toy_disk : Disk :=
  {| files := {["config.toml" := "C:" +:+ String backslash "annex.db"]}; unreadable := ∅; unwritable := ∅ |}.
Definition loaded : Config :=
  match load_config toy_environment (Some "config.toml") toy_disk with (Ok c, _) => c | _ => Config_default end.

Lemma toy_loaded :
  load_config toy_environment (Some "config.toml") toy_disk =
    (Ok loaded, (load_config toy_environment (Some "config.toml") toy_disk).2).
Proof. vm_compute. reflexivity. Defined.

Lemma loaded_config_ok_witness : db_path (database loaded) = "C:/annex.db" ∧ config_valid loaded.
Proof.
  split; [by vm_compute|].
  apply (loaded_config_ok toy_environment (Some "config.toml") toy_disk loaded
    (load_config toy_environment (Some "config.toml") toy_disk).2 toy_loaded).
Defined.

Lemma env_overrides_file_witness : ∃ b, port (server b) = 3000 ∧ port (server loaded) = 8080.
Proof.
  destruct (env_overrides_file toy_environment (Some "config.toml") toy_disk loaded
    (load_config toy_environment (Some "config.toml") toy_disk).2 toy_loaded) as (b & Hl & _ & -> & _).
  exists b. split; [|done]. vm_compute in Hl. by injection Hl as <-.
Defined.
End witnesses.
