(* ===== verification/Startup.v ===== *)
(** * Startup: from the configuration to the state of the server

    crates/annex-db/src/migrations.rs and pool.rs, and of
    crates/annex-server/src/lib.rs the keys, the state that
    [prepare_server] reads from the database and the disk, and the status of
    the voice service (crates/annex-voice/src/service.rs).  What a migration
    does to the schema is SQLite's, a parameter ([run_sql]) of the file's
    name; the generated key and the channel id are inputs. *)

From S2P Require Import Prelude Sql Bytes Types Identity Text Merkle Channels Zk Handlers Voice Admin Config.

#[local] Open Scope Z_scope.

(** ** Migrations *)

Record Migration := { mg_name : string; mg_sql : string }.

(** The text of a migration is stood for by its file's name. *)
Definition migration (name : string) : Migration := {| mg_name := name; mg_sql := name +:+ ".sql" |}.
Definition MIGRATIONS : list Migration := migration <$>
  ["000_init"; "001_identity"; "002_nullifiers"; "003_vrp_registry"; "004_platform_identity"; "005_servers";
   "006_server_policy_versions"; "007_vrp_handshake_log"; "008_agent_registrations"; "009_channels";
   "010_messages"; "011_channel_members"; "012_graph_nodes"; "013_graph_edges";
   "014_add_anchor_to_agent_registrations"; "015_voice_profiles"; "016_instances"; "017_federation_agreements";
   "018_federated_identities"; "019_add_remote_handshake_to_federation_agreements"; "020_rtx_tables";
   "021_rtx_provenance"; "022_public_event_log"; "023_production_indexes"; "024_nullifier_lookup_columns";
   "025_promote_founder"; "026_uploads"; "027_upload_category"; "028_usernames"; "029_message_edits";
   "030_federated_identity_verification"].

Inductive MigrationError :=
  | ExecutionFailed (name : string) (source : sql_error)
  | StateQuery (source : sql_error).

Section migrations.
Context {Schema : Type} (run_sql : string → Schema → result sql_error Schema).

(** The tables of the schema, and [_annex_migrations] if it exists: names in
    the order they were recorded; name UNIQUE. *)
Record MigDb := { schema : Schema; tracking : option (list string) }.

Definition tracked (d : MigDb) : list string := default [] (tracking d).

Definition create_tracking_table : M MigDb sql_error unit := λ d,
  (Ok (), {| schema := schema d; tracking := Some (tracked d) |}).
Definition already_applied (name : string) : M MigDb sql_error bool := gets (λ d, bool_decide (name ∈ tracked d)).
Definition execute_batch (sql : string) : M MigDb sql_error unit := λ d,
  match run_sql sql (schema d) with
  | Ok s => (Ok (), {| schema := s; tracking := tracking d |})
  | Err e => (Err e, d)
  | Panic => (Panic, d)
  end.
Definition record_migration (name : string) : M MigDb sql_error unit := λ d,
  if decide (name ∈ tracked d) then (Err ConstraintUnique, d)
  else (Ok (), {| schema := schema d; tracking := Some (tracked d ++ [name]) |}).

(** Statements [k] to [k + 4] belong to one migration. *)
Definition apply_migration (fault : faults) (k : nat) (m : Migration) : M MigDb MigrationError unit :=
  catch_map (ExecutionFailed (mg_name m)) (transaction (
    exec fault (k + 1) (mret ());;
    exec fault (k + 2) (execute_batch (mg_sql m));;
    exec fault (k + 3) (record_migration (mg_name m));;
    exec fault (k + 4) (mret ()))).

Fixpoint run_list (fault : faults) (k : nat) (migrations : list Migration) (applied : Z) : M MigDb MigrationError Z :=
  match migrations with
  | [] => mret applied
  | m :: migrations =>
      done ← catch_map StateQuery (exec fault k (already_applied (mg_name m)));
      if done : bool then run_list fault (k + 5) migrations applied
      else apply_migration fault k m;; run_list fault (k + 5) migrations (applied + 1)
  end.

Definition run_migrations_from_list (fault : faults) (migrations : list Migration) : M MigDb MigrationError Z :=
  catch_map (ExecutionFailed "_annex_migrations_bootstrap") (exec fault 0 create_tracking_table);;
  run_list fault 1 migrations 0.

Definition run_migrations (fault : faults) : M MigDb MigrationError Z := run_migrations_from_list fault MIGRATIONS.
End migrations.

(** ** The connection pool *)

Record DbRuntimeSettings := { rt_busy_timeout_ms : Z; rt_pool_max_size : Z }.
Definition DbRuntimeSettings_default : DbRuntimeSettings := {| rt_busy_timeout_ms := 5000; rt_pool_max_size := 8 |}.

Definition effective_max_size (db_path : string) (settings : DbRuntimeSettings) : Z :=
  if bool_decide (db_path = ":memory:") then 1 else rt_pool_max_size settings.

(** Every connection: the answer of [PRAGMA journal_mode = WAL] decides. *)
Definition init_connection (journal_mode : string) : result sql_error unit :=
  if bool_decide (journal_mode ≠ "wal") && bool_decide (journal_mode ≠ "memory") then Err (SqliteFailure 1) else Ok ().

(** ** Startup *)

Inductive StartupError :=
  | InvalidLoggingLevel (value : string)
  | PoolFailed (e : sql_error)
  | ConfigFailed (e : ConfigError)
  | IdentityFailed (e : IdentityError)
  | MigrationFailed (e : MigrationError)
  | DbQuery (e : sql_error)
  | ZkFailed (e : ZkError)
  | InvalidSigningKey.

(** The file [{data_dir}/signing.key] is given by its path; [fresh] is the
    key that [SigningKey::generate] draws. *)
Section signing_key.
Context `{HX : HexCrate}.

Definition key_of_hex (text : string) : option (list byte) :=
  bytes ← hex_decode text; if bool_decide (length bytes = 32%nat) then Some bytes else None.

Definition stored_key (key_file : string) (d : Disk) : option (list byte) :=
  match read_to_string key_file d with
  | Ok hex_key => key_of_hex (trim hex_key)
  | _ => None
  end.

Definition resolve_signing_key (env : environment) (key_file : string) (fresh : list byte) :
    M Disk StartupError (list byte) := λ d,
  match env "ANNEX_SIGNING_KEY" with
  | Present hex_key => (ok_or (key_of_hex hex_key) InvalidSigningKey, d)
  | _ =>
      match stored_key key_file d with
      | Some key => (Ok key, d)
      | None => (Ok fresh, write_file key_file (hex_encode fresh) d)
      end
  end.
End signing_key.

(** The tables that [prepare_server] reads or fills, with the files. *)
Record StartState {Schema : Type} := {
  sd_migrations : @MigDb Schema;
  sd_merkle : MerkleDb;
  sd_servers : table ServerRow;
  sd_channels : table ChannelRow;
  sd_disk : Disk;
}.
Arguments StartState Schema : clear implicits.

Definition env_or (env : environment) (name d : string) : string :=
  match env name with Present v => v | _ => d end.

(** What one start meets. *)
Record StartEnv := {
  se_vars : environment;
  se_mig_fault : faults;
  se_fault : faults;
  se_now : Z;
  se_key_file : string;
  se_fresh_key : list byte;
  se_channel_uuid : string;
}.

(** What the AppState takes from the database, the disk and the
    configuration. *)
Record Started `{PO : Poseidon, AK : !Ark} := {
  sv_server_id : Z;
  sv_policy : ServerPolicy;
  sv_tree : MerkleTree;
  sv_membership_vkey : VerifyingKey;
  sv_signing_key : list byte;
  sv_public_url : string;
  sv_cors_origins : list string;
  sv_enforce_zk_proofs : bool;
  sv_pool_size : Z;
}.

(** The key that membership proofs are verified with.  A file that can not
    be read, for whatever reason, is replaced with the dummy key. *)
Section verification_key.
Context `{PO : Poseidon, AK : !Ark} (json_vkey : string → option SnarkJsVKey).

Definition vkey_path (env : environment) : string := env_or env "ANNEX_ZK_KEY_PATH" "zk/keys/membership_vkey.json".
Definition load_vkey (env : environment) : M Disk StartupError VerifyingKey := λ d,
  match read_to_string (vkey_path env) d with
  | Ok vkey_json => (map_err ZkFailed (parse_verification_key json_vkey vkey_json), d)
  | Err _ => (Ok generate_dummy_vkey, d)
  | Panic => (Panic, d)
  end.
End verification_key.

Section start.
Context `{HX : HexCrate, PO : Poseidon, AK : !Ark, CK : Clock} (json_vkey : string → option SnarkJsVKey).
Context `{SPO : Serde ServerPolicy, ST : Serde ChannelType, SS : Serde FederationScope}.
Context {Schema : Type} (run_sql : string → Schema → result sql_error Schema).

Abbreviation Start := (M (StartState Schema) StartupError).

Definition set_sd_servers (t : table ServerRow) (x : StartState Schema) : StartState Schema :=
  {| sd_migrations := sd_migrations x; sd_merkle := sd_merkle x; sd_servers := t; sd_channels := sd_channels x;
     sd_disk := sd_disk x |}.
Definition on_migrations {A} (m : M (@MigDb Schema) MigrationError A) : Start A :=
  catch_map MigrationFailed (zoom sd_migrations (λ t x,
    {| sd_migrations := t; sd_merkle := sd_merkle x; sd_servers := sd_servers x; sd_channels := sd_channels x;
       sd_disk := sd_disk x |}) m).
Definition on_disk {A} (m : M Disk StartupError A) : Start A :=
  zoom sd_disk (λ t x,
    {| sd_migrations := sd_migrations x; sd_merkle := sd_merkle x; sd_servers := sd_servers x;
       sd_channels := sd_channels x; sd_disk := t |}) m.

(** Its queries are the statements 3 and 4 of the start. *)
Definition restore_tree (fault : faults) (depth : Z) : Start MerkleTree := λ x,
  (map_err IdentityFailed (restore (λ k, fault (3 + k)%nat) (sd_merkle x) (Z.to_nat depth)), x).

(** [SELECT id, policy_json FROM servers LIMIT 1]. *)
Definition existing_server (x : StartState Schema) : result sql_error (option (Z * ServerPolicy)) :=
  match t_rows (sd_servers x) with
  | [] => Ok None
  | row :: _ => policy ← ok_or (from_json (sr_policy_json row)) (FromSqlConversionFailure 1); Ok (Some (sr_id row, policy))
  end.

(** [INSERT INTO servers]: slug UNIQUE. *)
Definition insert_server (now slug label json : string) : M (StartState Schema) sql_error Z := λ x,
  if t_exists (λ r, sr_slug r = slug) (sd_servers x) then (Err ConstraintUnique, x)
  else
    let '(id, t) := t_insert (λ id, {| sr_id := id; sr_slug := slug; sr_label := label; sr_policy_json := json;
                                        sr_created_at := now |}) (sd_servers x) in
    (Ok id, set_sd_servers t x).

(** The #General channel; a failure is only logged. *)
Definition seed_channel (fault : faults) (now : string) (server_id : Z) (general_id : string) : Start unit := λ x,
  match fault 2%nat with
  | Some _ => (Ok (), x)
  | None =>
      if t_exists (channel_is general_id) (sd_channels x) then (Ok (), x)
      else (Ok (), {| sd_migrations := sd_migrations x; sd_merkle := sd_merkle x; sd_servers := sd_servers x;
        sd_channels := (t_insert (λ id,
          {| ch_id := id; ch_server_id := server_id; ch_channel_id := general_id; ch_name := "General";
             ch_channel_type := to_json Text; ch_topic := Some "Welcome to Annex!";
             ch_vrp_topic_binding := None; ch_required_capabilities_json := None; ch_agent_min_alignment := None;
             ch_retention_days := None; ch_federation_scope := to_json Local; ch_created_at := now |})
          (sd_channels x)).2;
        sd_disk := sd_disk x |})
  end.

Definition load_server (e : StartEnv) : Start (Z * ServerPolicy) :=
  x ← get;
  existing ← lift (map_err DbQuery (_ ← read (se_fault e) 0 (); existing_server x));
  match existing with
  | Some row => mret row
  | None =>
      let slug := env_or (se_vars e) "ANNEX_SERVER_SLUG" "default" in
      let label := env_or (se_vars e) "ANNEX_SERVER_LABEL" "Annex Server" in
      id ← catch_map DbQuery (exec (se_fault e) 1
             (insert_server (sql_now (se_now e)) slug label (to_json ServerPolicy_default)));
      seed_channel (se_fault e) (sql_now (se_now e)) id (se_channel_uuid e);;
      mret (id, ServerPolicy_default)
  end.

(** The pool, and a connection from it, fail with a code of their own. *)
Definition obtain_pool (fault : faults) (k : nat) : Start unit := lift (map_err PoolFailed (read fault k ())).

(** [prepare_server], up to the network.  The pool is made by statement 5,
    its connections are statements 6 to 8. *)
Definition prepare_state (e : StartEnv) (config : Config) : Start Started :=
  obtain_pool (se_fault e) 5;;
  obtain_pool (se_fault e) 6;;
  on_migrations (run_migrations run_sql (se_mig_fault e));;
  obtain_pool (se_fault e) 7;;
  tree ← restore_tree (se_fault e) (merkle_tree_depth (Config.server config));
  obtain_pool (se_fault e) 8;;
  row ← load_server e;
  membership_vkey ← on_disk (load_vkey json_vkey (se_vars e));
  signing_key ← on_disk (resolve_signing_key (se_vars e) (se_key_file e) (se_fresh_key e));
  mret {| sv_server_id := row.1; sv_policy := row.2; sv_tree := tree; sv_membership_vkey := membership_vkey;
          sv_signing_key := signing_key;
          sv_public_url := Config.public_url (Config.server config);
          sv_cors_origins := Config.allowed_origins config;
          sv_enforce_zk_proofs := Config.enforce_zk_proofs config;
          sv_pool_size := effective_max_size (Config.db_path (Config.database config))
            {| rt_busy_timeout_ms := Config.busy_timeout_ms (Config.database config);
               rt_pool_max_size := Config.pool_max_size (Config.database config) |} |}.
End start.

(** ** The voice service *)

Inductive SetupHint := DisabledByPolicy | NotConfigured | NoPublicUrl | Ready.
Record VoiceStatus := {
  vs_voice_enabled : bool;
  vs_policy_enabled : bool;
  vs_infrastructure_ready : bool;
  vs_has_public_url : bool;
  vs_setup_hint : SetupHint;
}.
Definition voice_config_status (c : LiveKitConfig) (policy : ServerPolicy) : VoiceStatus :=
  let infrastructure_ready := is_enabled c in
  let has_public_url := negb (is_empty (get_public_url c)) in
  let policy_enabled := voice_enabled policy in
  {| vs_voice_enabled := policy_enabled && infrastructure_ready; vs_policy_enabled := policy_enabled;
     vs_infrastructure_ready := infrastructure_ready; vs_has_public_url := has_public_url;
     vs_setup_hint :=
       if negb policy_enabled then DisabledByPolicy
       else if negb infrastructure_ready then NotConfigured
       else if negb has_public_url then NoPublicUrl
       else Ready |}.

(** * Theorems *)

Section migration_theorems.
Context {Schema : Type} (run_sql : string → Schema → result sql_error Schema).
Implicit Types (d : @MigDb Schema).

(** The schema that a list of migrations makes of [s0]. *)
Fixpoint exec_all (migrations : list Migration) (s : Schema) : result sql_error Schema :=
  match migrations with
  | [] => Ok s
  | m :: migrations => s ← run_sql (mg_sql m) s; exec_all migrations s
  end.

(** The schema is what the recorded migrations, in their order, made. *)
Definition tracks (s0 : Schema) (done : list Migration) d : Prop :=
  tracked d = mg_name <$> done ∧ exec_all done s0 = Ok (schema d).

Lemma exec_all_app l1 l2 s : exec_all (l1 ++ l2) s = s ← exec_all l1 s; exec_all l2 s.
Proof. revert s. induction l1 as [|m l1 IH]; intros s; cbn; [done|]. by destruct (run_sql (mg_sql m) s); cbn. Qed.

(** A migration is applied and recorded, or leaves no trace. *)
Lemma apply_migration_cases fault k m d :
  mg_name m ∉ tracked d →
  (∃ s, run_sql (mg_sql m) (schema d) = Ok s ∧ apply_migration run_sql fault k m d =
     (Ok (), {| schema := s; tracking := Some (tracked d ++ [mg_name m]) |})) ∨
  (∃ o, apply_migration run_sql fault k m d = (o, d) ∧ is_ok o = false ∧
     ((∃ j code, fault j = Some code) ∨ is_ok (run_sql (mg_sql m) (schema d)) = false)).
Proof.
  intros Hn. unfold apply_migration, catch_map, transaction, mbind, M_bind, exec, throw, mret, M_ret.
  destruct (fault (k + 1)%nat) as [?|] eqn:E1; [right; by eauto 8|].
  destruct (fault (k + 2)%nat) as [?|] eqn:E2; [right; by eauto 8|].
  unfold execute_batch. destruct (run_sql (mg_sql m) (schema d)) as [s|e|] eqn:Er; [|by right; eauto 6..].
  destruct (fault (k + 3)%nat) as [?|] eqn:E3; [right; by eauto 8|].
  unfold record_migration. change (tracked {| schema := s; tracking := tracking d |}) with (tracked d).
  rewrite decide_False by done. destruct (fault (k + 4)%nat) as [?|] eqn:E4; [right; by eauto 8|].
  left. by exists s.
Qed.

Lemma tracks_snoc s0 done m d s :
  tracks s0 done d → run_sql (mg_sql m) (schema d) = Ok s →
  tracks s0 (done ++ [m]) {| schema := s; tracking := Some (tracked d ++ [mg_name m]) |}.
Proof.
  intros [Ht Hs] Hr. split; cbn; [by rewrite Ht, fmap_app|]. rewrite exec_all_app, Hs. cbn. by rewrite Hr.
Qed.

Lemma query_applied fault k name d :
  catch_map StateQuery (exec fault k (already_applied name)) d =
    (match fault k with Some code => Err (StateQuery (SqliteFailure code)) | None => Ok (bool_decide (name ∈ tracked d)) end, d).
Proof. unfold catch_map, exec, throw, already_applied, gets. by destruct (fault k). Qed.

Definition all_ok (fault : faults) (s0 : Schema) (l : list Migration) : Prop :=
  (∀ k, fault k = None) ∧ is_ok (exec_all l s0) = true.

(** The pending migrations. *)
Lemma run_list_pending fault k post n s0 pre d :
  NoDup (mg_name <$> pre ++ post) → tracks s0 pre d →
  let '(o, d') := run_list run_sql fault k post n d in
  ∃ done rest, post = done ++ rest ∧ tracks s0 (pre ++ done) d' ∧
    (o = Ok (n + Z.of_nat (length done)) ∧ rest = [] ∨ is_ok o = false ∧ rest ≠ []) ∧
    (all_ok fault s0 (pre ++ post) → is_ok o = true).
Proof.
  revert k n pre d. induction post as [|m post IH]; intros k n pre d Hnd HT.
  { cbn. exists [], []. rewrite (app_nil_r pre). do 2 (split; [done|]). split; [left|done]. by rewrite Z.add_0_r. }
  cbn [run_list]. unfold mbind at 1, M_bind at 1. rewrite query_applied.
  assert (∀ (o : result MigrationError Z), is_ok o = false → (all_ok fault s0 (pre ++ m :: post) → False) →
    ∃ done rest, m :: post = done ++ rest ∧ tracks s0 (pre ++ done) d ∧
      (o = Ok (n + Z.of_nat (length done)) ∧ rest = [] ∨ is_ok o = false ∧ rest ≠ []) ∧
      (all_ok fault s0 (pre ++ m :: post) → is_ok o = true)) as Hstop.
  { intros o Ho Hall. exists [], (m :: post). rewrite (app_nil_r pre). do 2 (split; [done|]). split; [by right|]. intros H. by destruct (Hall H). }
  destruct (fault k) as [code|] eqn:Hk; [apply Hstop; [done|]; intros [Hf _]; by rewrite Hf in Hk|].
  assert (mg_name m ∉ mg_name <$> pre) as Hn.
  { rewrite fmap_app in Hnd. apply NoDup_app in Hnd as (_ & Hd & _). intros Hin. apply (Hd _ Hin). left. }
  rewrite bool_decide_eq_false_2 by (destruct HT as [-> _]; done).
  unfold mbind, M_bind.
  destruct (apply_migration_cases fault k m d) as [(s & Hr & ->)|(o & -> & Ho & Hwhy)]; [by destruct HT as [-> _]|..].
  - pose proof (tracks_snoc _ _ _ _ _ HT Hr) as HT1. set (d1 := {| schema := s; tracking := _ |}) in *.
    assert (NoDup (mg_name <$> (pre ++ [m]) ++ post)) as Hnd1 by (by rewrite <- app_assoc).
    pose proof (IH (k + 5)%nat (n + 1) (pre ++ [m]) d1 Hnd1 HT1) as HR.
    destruct (run_list run_sql fault (k + 5) post (n + 1) d1) as [o2 d2].
    destruct HR as (done & rest & -> & HT2 & Ho2 & Hall). exists (m :: done), rest.
    rewrite <- !app_assoc in *. do 2 (split; [done|]). split; [|done].
    destruct Ho2 as [[-> ->]|?]; [left|by right]. split; [|done]. f_equal. cbn [length]. lia.
  - assert (∀ o' : result MigrationError Z, is_ok o' = false → ∃ done rest, m :: post = done ++ rest ∧ tracks s0 (pre ++ done) d ∧
      (o' = Ok (n + Z.of_nat (length done)) ∧ rest = [] ∨ is_ok o' = false ∧ rest ≠ []) ∧
      (all_ok fault s0 (pre ++ m :: post) → is_ok o' = true)) as Hstop'; [|by destruct o as [[]|e|]; [done|apply Hstop'..]].
    intros o' Ho'. apply Hstop; [done|]. intros [Hf He]. destruct Hwhy as [(j & code & Hj)|Hr]; [by rewrite Hf in Hj|].
    rewrite exec_all_app in He. destruct HT as [_ Hs]. rewrite Hs in He. cbn in He.
    by destruct (run_sql (mg_sql m) (schema d)).
Qed.

(** The migrations that are recorded already are skipped. *)
Lemma run_list_skips fault k pre post n d :
  (∀ m, m ∈ pre → mg_name m ∈ tracked d) →
  (∃ e, run_list run_sql fault k (pre ++ post) n d = (Err (StateQuery e), d) ∧ ∃ j code, fault j = Some code) ∨
  run_list run_sql fault k (pre ++ post) n d = run_list run_sql fault (k + 5 * length pre) post n d.
Proof.
  revert k. induction pre as [|m pre IH]; intros k Hin; [right; cbn; by rewrite Nat.add_0_r|].
  cbn [app run_list]. unfold mbind at 1 3, M_bind at 1 3. rewrite query_applied.
  destruct (fault k) as [code|] eqn:Hk; [left; eexists; split; [done|by eexists _, _]|].
  rewrite bool_decide_eq_true_2 by (apply Hin; left).
  destruct (IH (k + 5)%nat) as [?|E]; [intros; apply Hin; by right|by left|right].
  rewrite E. f_equal. cbn [length]. lia.
Qed.

(** C25. Each migration is run exactly once and in order.  A start that finds
    the first few of them recorded runs the next ones, each together with its
    record or not at all; it reports how many it ran if it ran all the rest,
    and otherwise fails with the database where a later start can go on; and
    it does run all of them if no statement and no migration fails. *)
Theorem migrations_run_once fault s0 pre post d :
  NoDup (mg_name <$> pre ++ post) → tracks s0 pre d →
  let '(o, d') := run_migrations_from_list run_sql fault (pre ++ post) d in
  ∃ done rest, post = done ++ rest ∧ tracks s0 (pre ++ done) d' ∧
    (o = Ok (Z.of_nat (length done)) ∧ rest = [] ∨ is_ok o = false) ∧
    (all_ok fault s0 (pre ++ post) → o = Ok (Z.of_nat (length post))).
Proof.
  intros Hnd HT. unfold run_migrations_from_list, mbind, M_bind, catch_map, exec, throw.
  assert (∀ d (o : result MigrationError Z), tracks s0 pre d → is_ok o = false → (∃ j code, fault j = Some code) →
    ∃ done rest, post = done ++ rest ∧ tracks s0 (pre ++ done) d ∧
      (o = Ok (Z.of_nat (length done)) ∧ rest = [] ∨ is_ok o = false) ∧
      (all_ok fault s0 (pre ++ post) → o = Ok (Z.of_nat (length post)))) as Hstop.
  { intros d1 o HT1 Ho (j & code & Hj). exists [], post. rewrite (app_nil_r pre). do 2 (split; [done|]). split; [by right|].
    intros [Hf _]. by rewrite Hf in Hj. }
  destruct (fault 0%nat) as [code|] eqn:H0; [by apply Hstop; [..|eauto]|]. cbn [create_tracking_table map_err].
  set (d1 := {| schema := schema d; tracking := Some (tracked d) |}).
  assert (tracks s0 pre d1) as HT1 by (destruct HT; by split).
  destruct (run_list_skips fault 1 pre post 0 d1) as [(e & -> & Hj)| ->].
  { intros m Hm. destruct HT1 as [-> _]. by apply list_elem_of_fmap_2. }
  { by apply Hstop. }
  pose proof (run_list_pending fault (1 + 5 * length pre) post 0 s0 pre d1 Hnd HT1) as HR.
  destruct (run_list run_sql fault (1 + 5 * length pre) post 0 d1) as [o d2].
  destruct HR as (done & rest & -> & HT2 & Ho & Hall). exists done, rest. do 2 (split; [done|]). split.
  - destruct Ho as [[-> ->]|[? _]]; [by left|by right].
  - intros H%Hall. destruct Ho as [[-> ->]|[Ho _]]; [by rewrite app_nil_r|congruence].
Qed.
End migration_theorems.

(** ** The signing key *)

(** Text of ASCII characters that are not spaces is left alone by [trim]. *)
Definition is_graphic (c : ascii) : bool := between 33 126 c.

Lemma trim_start_graphic (back : bool) s : string_all is_graphic s = true → trim_start_with back s = s.
Proof.
  destruct s as [|c1 s1]; [done|]. cbn [string_all]. intros [Hc _]%andb_true_iff.
  unfold is_graphic, between in Hc. cbn [trim_start_with].
  assert (is_ascii_space c1 = false) as -> by (apply not_true_is_false; unfold is_ascii_space, between;
    rewrite orb_true_iff, bool_decide_eq_true; lia).
  destruct s1 as [|c2 s2]; [done|].
  assert ((if back then space2 (code c2) (code c1) else space2 (code c1) (code c2)) = false) as ->
    by (unfold space2; destruct back; lia).
  destruct s2 as [|c3 s3]; [done|].
  by assert ((if back then space3 (code c3) (code c2) (code c1) else space3 (code c1) (code c2) (code c3)) = false) as ->
    by (unfold space3; destruct back; lia).
Qed.
Lemma string_all_rev p s : string_all p (string_rev s) = string_all p s.
Proof.
  induction s as [|c s IH]; [done|]. rewrite string_rev_cons, string_all_app, IH. cbn. rewrite andb_true_r. apply andb_comm.
Qed.
Lemma trim_graphic s : string_all is_graphic s = true → trim s = s.
Proof.
  intros H. unfold trim. rewrite (trim_start_graphic false) by done.
  rewrite trim_start_graphic by (by rewrite string_all_rev). apply string_rev_involutive.
Qed.
Lemma hexdigit_graphic c : is_lower_hexdigit c = true → is_graphic c = true.
Proof. by_bits c. Qed.

Section signing_key_theorems.
Context `{HX : HexCrate, HL : !HexLaws HX}.

Lemma key_of_own_hex key : length key = 32%nat → key_of_hex (trim (hex_encode key)) = Some key.
Proof.
  intros Hl. rewrite trim_graphic by (apply (string_all_impl is_lower_hexdigit); [apply hexdigit_graphic|apply hex_encode_lower]).
  unfold key_of_hex. rewrite hex_decode_encode. cbn. by rewrite bool_decide_eq_true_2.
Qed.

(** The key can be read back at the next start. *)
Definition key_persists (env : environment) (key_file : string) (d : Disk) : Prop :=
  (∃ hex, env "ANNEX_SIGNING_KEY" = Present hex) ∨ (unreadable d !! key_file = None ∧ key_file ∉ unwritable d).

Lemma resolve_signing_key_again env key_file fresh d key d' :
  length fresh = 32%nat → key_persists env key_file d →
  resolve_signing_key env key_file fresh d = (Ok key, d') →
  length key = 32%nat ∧ ∀ fresh', resolve_signing_key env key_file fresh' d' = (Ok key, d').
Proof.
  intros Hl Hp. unfold resolve_signing_key.
  assert (∀ text k, key_of_hex text = Some k → length k = 32%nat) as Hk.
  { intros text k (bs & _ & H)%bind_Some. by case_bool_decide; [injection H as <-|]. }
  assert (∀ k, stored_key key_file d = Some k → length k = 32%nat) as Hs.
  { intros k. unfold stored_key. destruct (read_to_string key_file d); [apply Hk|done..]. }
  assert (∀ p o, (match stored_key key_file d with
                  | Some k => (Ok k, d)
                  | None => (Ok fresh, write_file key_file (hex_encode fresh) d) end : result StartupError (list byte) * Disk) = (o, p) →
    unreadable d !! key_file = None → key_file ∉ unwritable d → ∃ k, o = Ok k ∧ length k = 32%nat ∧
      stored_key key_file p = Some k) as Hfile.
  { intros p o H Hu Hw. destruct (stored_key key_file d) as [k|] eqn:Ek; injection H as <- <-.
    - exists k. split_and!; [done|by apply Hs|done].
    - exists fresh. split_and!; [done|done|]. unfold stored_key, write_file, read_to_string.
      rewrite decide_False by done. cbn. rewrite Hu, lookup_insert_eq. cbn. by apply key_of_own_hex. }
  destruct (env "ANNEX_SIGNING_KEY") as [| |hex] eqn:Ee.
  1, 2: destruct Hp as [[? ?]|[Hu Hw]]; [congruence|]; intros H;
    destruct (Hfile _ _ H Hu Hw) as (k & [= <-] & Hlk & Hk'); split; [done|]; intros fresh'; by rewrite Hk'.
  intros [= Hok%ok_or_ok <-]. split; [by eapply Hk|]. intros fresh'. by rewrite Hok.
Qed.
End signing_key_theorems.

(** ** Restarts *)

Section restart.
Context `{HX : HexCrate, HL : !HexLaws HX, PO : Poseidon, AK : !Ark, CK : Clock} (json_vkey : string → option SnarkJsVKey).
Context `{SPO : Serde ServerPolicy, ST : Serde ChannelType, SS : Serde FederationScope}.
Context (default_policy_reads : from_json (to_json ServerPolicy_default) = Some ServerPolicy_default).
Context {Schema : Type} (run_sql : string → Schema → result sql_error Schema).
Implicit Types (x : StartState Schema) (e : StartEnv).

Lemma run_list_complete fault k l n d r d' :
  run_list run_sql fault k l n d = (Ok r, d') →
  (∀ m, m ∈ l → mg_name m ∈ tracked d') ∧ (∀ name, name ∈ tracked d → name ∈ tracked d') ∧
  (is_Some (tracking d) → is_Some (tracking d')).
Proof.
  revert k n d. induction l as [|m l IH]; intros k n d; cbn [run_list].
  { intros [= _ <-]. split; [by intros m H%not_elem_of_nil|by split]. }
  unfold mbind at 1, M_bind at 1. rewrite query_applied. destruct (fault k); [done|].
  case_bool_decide as Ha.
  { intros H. destruct (IH _ _ _ H) as (H1 & H2 & H3). split_and!; [|done|done].
    intros m' [->|Hm]%elem_of_cons; [by apply H2|by apply H1]. }
  unfold mbind, M_bind. destruct (apply_migration_cases run_sql fault k m d Ha) as [(s & _ & ->)|(o & -> & Ho & _)];
    [|by destruct o as [[]|?|]].
  intros H. destruct (IH _ _ _ H) as (H1 & H2 & H3). cbn in H2.
  split_and!.
  - intros m' [->|Hm]%elem_of_cons; [|by apply H1]. apply H2, elem_of_app. right. by left.
  - intros name Hn. apply H2, elem_of_app. by left.
  - intros _. apply H3. by eexists.
Qed.

Lemma run_migrations_again fault l d r d' :
  run_migrations_from_list run_sql fault l d = (Ok r, d') → ∀ fault', (∀ k, fault' k = None) →
  run_migrations_from_list run_sql fault' l d' = (Ok 0, d').
Proof.
  unfold run_migrations_from_list, mbind, M_bind, catch_map, exec, throw. destruct (fault 0%nat); [done|].
  cbn [create_tracking_table map_err]. intros H fault' Hf. apply run_list_complete in H as (Hall & _ & Hs).
  rewrite Hf. cbn [create_tracking_table map_err].
  destruct (Hs (ltac:(by eexists))) as [names Hn].
  assert ({| schema := schema d'; tracking := Some (tracked d') |} = d') as -> by (destruct d'; cbn in *; by subst).
  destruct (run_list_skips run_sql fault' 1 l [] 0 d' Hall) as [(e & _ & j & code & Hj)|E].
  - by rewrite Hf in Hj.
  - rewrite app_nil_r in E. by rewrite E.
Qed.

(** After a start the row of the server is there, and says what the start
    made of it. *)
Lemma load_server_again e x row x' :
  load_server e x = (Ok row, x') →
  existing_server x' = Ok (Some row) ∧ sd_migrations x' = sd_migrations x ∧ sd_merkle x' = sd_merkle x ∧
  sd_disk x' = sd_disk x.
Proof.
  unfold load_server, mbind, M_bind, get, lift, read. destruct (se_fault e 0%nat); [done|]. cbn [mbind result_bind map_err].
  destruct (existing_server x) as [[row0|]|?|] eqn:Ex; cbn [map_err]; [by intros [= <- <-]| |done..].
  unfold catch_map, exec, throw. destruct (se_fault e 1%nat); [done|].
  unfold insert_server. destruct (t_exists _ (sd_servers x)); [done|]. cbn [map_err t_insert].
  assert (t_rows (sd_servers x) = []) as E0.
  { unfold existing_server in Ex. destruct (t_rows (sd_servers x)) as [|r l]; [done|].
    by destruct (from_json (sr_policy_json r)). }
  assert (∀ (y : StartState Schema) o y', seed_channel (se_fault e) (sql_now (se_now e)) (t_seq (sd_servers x) + 1) (se_channel_uuid e) y = (o, y') →
    o = Ok () ∧ sd_servers y' = sd_servers y ∧ sd_migrations y' = sd_migrations y ∧ sd_merkle y' = sd_merkle y ∧
    sd_disk y' = sd_disk y) as Hseed.
  { intros y o y'. unfold seed_channel. destruct (se_fault e 2%nat); [by intros [= <- <-]|].
    destruct (t_exists _ (sd_channels y)); by intros [= <- <-]. }
  destruct (seed_channel _ _ _ _ _) as [o y] eqn:Es. apply Hseed in Es as (-> & Hs & Hm & Hk & Hd).
  intros [= <- <-]. split_and!; [|done..]. unfold existing_server. rewrite Hs. cbn. rewrite E0. cbn.
  by rewrite default_policy_reads.
Qed.

Lemma load_vkey_kept env key_file fresh d vk d1 r d2 :
  vkey_path env ≠ key_file → load_vkey json_vkey env d = (Ok vk, d1) →
  resolve_signing_key env key_file fresh d1 = (r, d2) → d1 = d ∧ load_vkey json_vkey env d2 = (Ok vk, d2).
Proof.
  intros Hne Hv Hk. assert (d1 = d) as ->.
  { unfold load_vkey in Hv. by destruct (read_to_string _ d) as [?|?|]; injection Hv as _ <-. }
  split; [done|]. assert (read_to_string (vkey_path env) d2 = read_to_string (vkey_path env) d) as E.
  { unfold resolve_signing_key in Hk. destruct (env "ANNEX_SIGNING_KEY"); [..|by injection Hk as _ <-];
      (destruct (stored_key key_file d); injection Hk as _ <-; [done|]);
      unfold write_file; case_decide; try done; unfold read_to_string; cbn; by rewrite lookup_insert_ne. }
  unfold load_vkey in *. rewrite E. destruct (read_to_string (vkey_path env) d) as [?|?|]; congruence.
Qed.

Lemma obtain_pool_ok {A} fault k (m : M (StartState Schema) StartupError A) x v x' :
  (obtain_pool fault k;; m) x = (Ok v, x') → m x = (Ok v, x').
Proof. unfold obtain_pool, mbind, M_bind, lift, read. by destruct (fault k). Qed.
Lemma obtain_pool_step {A} fault k (m : M (StartState Schema) StartupError A) x : fault k = None → (obtain_pool fault k;; m) x = m x.
Proof. unfold obtain_pool, mbind, M_bind, lift, read. by intros ->. Qed.

(** A restart changes nothing: once the server has started, every later
    start under the same variables and settings, whatever key and channel
    id it would have drawn, runs no migration, finds the same server with
    the same policy, the same tree and the same keys, and leaves the
    database and the files as they are. *)
Theorem restart_is_stable e config x v x' :
  length (se_fresh_key e) = 32%nat →
  key_persists (se_vars e) (se_key_file e) (sd_disk x) →
  vkey_path (se_vars e) ≠ se_key_file e →
  prepare_state json_vkey run_sql e config x = (Ok v, x') →
  ∀ e', se_vars e' = se_vars e → se_key_file e' = se_key_file e →
    (∀ k, se_mig_fault e' k = None) → (∀ k, se_fault e' k = None) →
    prepare_state json_vkey run_sql e' config x' = (Ok v, x').
Proof.
  intros Hl Hp Hne H e' Hv Hkf Hmf Hf. unfold prepare_state in H.
  apply obtain_pool_ok, obtain_pool_ok in H.
  apply M_bind_ok in H as (n & x1 & Hm & H). unfold on_migrations, catch_map, zoom in Hm.
  destruct (run_migrations run_sql (se_mig_fault e) (sd_migrations x)) as [r t1] eqn:Em.
  destruct r as [n'|?|]; [|done..]. injection Hm as -> <-.
  apply obtain_pool_ok in H. apply M_bind_ok in H as (tree & x2 & Ht & H). unfold restore_tree in Ht. injection Ht as Ht <-.
  apply map_err_ok in Ht. apply obtain_pool_ok in H. apply M_bind_ok in H as (row & x3 & Hs & H). apply load_server_again in Hs as (Hs & Hs1 & Hs2 & Hs3).
  apply M_bind_ok in H as (vk & x3' & Hvk & H). unfold on_disk, zoom in Hvk. rewrite Hs3 in Hvk. cbn in Hvk.
  destruct (load_vkey _ _ (sd_disk x)) as [rv dv] eqn:Ev. injection Hvk as -> <-.
  apply M_bind_ok in H as (key & x4 & Hk & [= <- <-]). unfold on_disk, zoom in Hk. cbn in Hk.
  destruct (resolve_signing_key _ _ _ dv) as [rk dk] eqn:Ek. injection Hk as -> <-.
  destruct (load_vkey_kept _ _ _ _ _ _ _ _ Hne Ev Ek) as [-> Hvagain].
  destruct (resolve_signing_key_again _ _ _ _ _ _ Hl Hp Ek) as [_ Hagain].
  pose proof (run_migrations_again _ _ _ _ _ Em _ Hmf) as Em'.
  unfold prepare_state. rewrite !obtain_pool_step by done. unfold mbind, M_bind, obtain_pool, lift, read.
  rewrite !Hf. cbn [map_err]. unfold on_migrations, catch_map, zoom. cbn [sd_migrations]. rewrite Hs1. cbn [sd_migrations].
  unfold run_migrations. rewrite Em'. cbn [map_err]. unfold restore_tree. cbn [sd_merkle] in *.
  rewrite Hs2, (restore_again _ (λ k, se_fault e' (3 + k)%nat) _ _ _ Ht) by (intros k; apply Hf). cbn [map_err].
  unfold load_server, mbind, M_bind, get, lift, read. rewrite Hf. cbn [mbind result_bind].
  unfold existing_server in *. cbn [sd_servers]. rewrite Hs. cbn [map_err]. unfold mret, M_ret.
  unfold on_disk, zoom. cbn [sd_disk]. rewrite Hv, Hvagain, Hkf. cbn [sd_disk]. rewrite Hagain. by do 2 f_equal.
Qed.
End restart.

(** ** Voice *)

(** The status of the voice service: calls are possible exactly when
    the policy allows them and a LiveKit URL is set; the hint says which of
    the two is missing, and never that the public URL is, because the
    internal one stands in for it. *)
Theorem voice_status_hints c policy :
  let v := voice_config_status c policy in
  (vs_voice_enabled v = true ↔ vs_setup_hint v = Ready) ∧
  (vs_setup_hint v = DisabledByPolicy ↔ voice_enabled policy = false) ∧
  (vs_setup_hint v = NotConfigured ↔ voice_enabled policy = true ∧ lk_url c = "") ∧
  vs_setup_hint v ≠ NoPublicUrl ∧
  (vs_infrastructure_ready v = true → vs_has_public_url v = true).
Proof.
  unfold voice_config_status, is_enabled, get_public_url, is_empty. cbn.
  destruct (voice_enabled policy), (decide (lk_url c = "")) as [E|E], (decide (lk_public_url c = "")) as [E'|E'];
    rewrite ?(bool_decide_eq_true_2 (lk_url c = "")), ?(bool_decide_eq_false_2 (lk_url c = "")),
      ?(bool_decide_eq_true_2 (lk_public_url c = "")), ?(bool_decide_eq_false_2 (lk_public_url c = "")) by done;
    cbn; rewrite ?(bool_decide_eq_true_2 (lk_url c = "")), ?(bool_decide_eq_false_2 (lk_url c = "")),
      ?(bool_decide_eq_true_2 (lk_public_url c = "")), ?(bool_decide_eq_false_2 (lk_public_url c = "")) by done;
    cbn; naive_solver.
Qed.

(** ** Witnesses *)

Section witnesses.
#[local] Existing Instances hex_reference hex_reference_laws toy_poseidon toy_clock toy_policy_serde toy_type_serde
  toy_scope_serde.
#[local] Existing Instance toy_ark.
Definition no_vkey : string → option SnarkJsVKey := λ _, None.

(** The schema is the list of the files that were run. *)
Definition toy_run_sql (sql : string) (s : list string) : result sql_error (list string) := Ok (s ++ [sql]).
Definition toy_mig : @MigDb (list string) := {| schema := ["000_init.sql"]; tracking := Some ["000_init"] |}.
Definition first_migrations (n : nat) : list Migration := take n MIGRATIONS.

(** The third statement of the third migration fails. *)
Lemma migrations_run_once_witness :
  ∃ done rest, drop 1 MIGRATIONS = done ++ rest ∧
    (run_migrations_from_list toy_run_sql (λ k, if decide (k = 13%nat) then Some 5 else None)
       (first_migrations 1 ++ drop 1 MIGRATIONS) toy_mig).1 =
      Err (ExecutionFailed "002_nullifiers" (SqliteFailure 5)) ∧
    tracks toy_run_sql [] (first_migrations 1 ++ done)
      (run_migrations_from_list toy_run_sql (λ k, if decide (k = 13%nat) then Some 5 else None)
         (first_migrations 1 ++ drop 1 MIGRATIONS) toy_mig).2.
Proof.
  pose proof (migrations_run_once toy_run_sql (λ k, if decide (k = 13%nat) then Some 5 else None) []
    (first_migrations 1) (drop 1 MIGRATIONS) toy_mig ltac:(by apply (bool_decide_unpack _); vm_compute)
    ltac:(by split)) as H.
  assert ((run_migrations_from_list toy_run_sql (λ k, if decide (k = 13%nat) then Some 5 else None)
       (first_migrations 1 ++ drop 1 MIGRATIONS) toy_mig).1 =
      Err (ExecutionFailed "002_nullifiers" (SqliteFailure 5))) as E by (by vm_compute).
  destruct (run_migrations_from_list _ _ _ _) as [o d']. destruct H as (done & rest & Hp & HT & _). by exists done, rest.
Defined.

Definition first_start : StartState (list string) :=
  {| sd_migrations := {| schema := []; tracking := None |}; sd_merkle := Merkle.toy_db; sd_servers := t_empty;
     sd_channels := t_empty; sd_disk := {| files := ∅; unreadable := ∅; unwritable := ∅ |} |}.
Definition toy_start (uuid : string) (key : byte) : StartEnv :=
  {| se_vars _ := NotPresent; se_mig_fault := no_fault; se_fault := no_fault; se_now := 0; se_key_file := "signing.key";
     se_fresh_key := replicate 32 key; se_channel_uuid := uuid |}.

Definition small_config : Config :=
  let c := Config.server Config_default in
  {| Config.server := {| host := host c; port := port c; retention_check_interval_seconds := 3600;
       inactivity_threshold_seconds := 300; public_url := ""; merkle_tree_depth := 2; presence_broadcast_capacity := 256 |};
     database := database Config_default; logging := logging Config_default; livekit := livekit Config_default;
     voice := voice Config_default; allowed_origins := []; enforce_zk_proofs := false |}.
Definition start_result : result StartupError Started * StartState (list string) :=
  prepare_state no_vkey toy_run_sql (toy_start "a" x41) small_config first_start.

Lemma restart_is_stable_witness :
  ∃ v, start_result.1 = Ok v ∧ sv_server_id v = 1 ∧
    prepare_state no_vkey toy_run_sql (toy_start "b" x42) small_config start_result.2 = (Ok v, start_result.2).
Proof.
  assert (match start_result.1 with Ok v => sv_server_id v =? 1 | _ => false end = true) as E by (by vm_compute).
  destruct start_result.1 as [v|?|] eqn:Ev; [|discriminate E..]. exists v. split; [done|]. split; [by apply Z.eqb_eq|].
  apply (restart_is_stable no_vkey (SPO := toy_policy_serde) eq_refl toy_run_sql (toy_start "a" x41) small_config first_start v start_result.2 eq_refl
    (or_intror (conj eq_refl (not_elem_of_empty _)))); [done| |done..].
  rewrite <- Ev. apply surjective_pairing.
Defined.
End witnesses.
