(* ===== verification/Router.v ===== *)
(** * Router: which requests reach which handler

    [app] of crates/annex-server/src/lib.rs: the routes and their layers, and
    security_headers_middleware of middleware.rs, composed with the
    authentication and the rate limit of RateLimit.  The last layer added is
    the first that a request meets.  The matching of paths (axum's matchit)
    and the recognition of CORS preflights (tower-http) are parameters. *)

From S2P Require Import Prelude Sql Bytes Types Text Net Platform RateLimit.

#[local] Open Scope Z_scope.

(** ** Routes *)

Inductive Method := Get | Head | Post | Put | Delete | Patch | OtherMethod.
#[export] Instance Method_eq_dec : EqDecision Method.
Proof. solve_decision. Defined.

Inductive Handler :=
  | CreateChannel | ListChannels | GetChannel | DeleteChannel | JoinChannel | JoinVoiceChannel | LeaveVoiceChannel
  | VoiceStatus | LeaveChannel | GetChannelHistory | GetMessageEdits | GetAgentProfile | UpdateAgentVoiceProfile |
  Publish | Subscribe | Unsubscribe | GetSubscription | GovernanceTransfers | GovernanceSummary | GetPolicy |
  UpdatePolicy | GetServer | RenameServer | SetPublicUrl | RevokeFederation | ListMembers |
  UpdateMemberCapabilities | SetUsername | DeleteUsername | GrantUsername | RevokeGrant | ListGrants |
  GetVisibleUsernames | LinkPreview | CreateWsToken | GetProfile | UploadServerImage | UploadChat | Health |
  Register | GetPath | GetCurrentRoot | VerifyMembership | GetTopics | GetRoles | GetIdentity |
  GetIdentityCapabilities | AgentHandshake | FederationHandshake | GetVrpRoot | AttestMembership |
  GetFederatedChannels | JoinFederatedChannel | ReceiveFederatedMessage | ReceiveFederatedRtx | GetDegrees |
  GetPresenceStream | GetEvents | GetEventStream | GetServerSummary | GetFederationPeers | GetAgents |
  VoiceConfigStatus | GetServerImage | ImageProxy | Ws.
#[export] Instance Handler_eq_dec : EqDecision Handler.
Proof. solve_decision. Defined.

Definition routes : Type := list (string * list (Method * Handler)).

Definition protected_routes : routes :=
  [("/api/channels", [(Post, CreateChannel); (Get, ListChannels)]);
   ("/api/channels/{channelId}", [(Get, GetChannel); (Delete, DeleteChannel)]);
   ("/api/channels/{channelId}/join", [(Post, JoinChannel)]);
   ("/api/channels/{channelId}/voice/join", [(Post, JoinVoiceChannel)]);
   ("/api/channels/{channelId}/voice/leave", [(Post, LeaveVoiceChannel)]);
   ("/api/channels/{channelId}/voice/status", [(Get, VoiceStatus)]);
   ("/api/channels/{channelId}/leave", [(Post, LeaveChannel)]);
   ("/api/channels/{channelId}/messages", [(Get, GetChannelHistory)]);
   ("/api/channels/{channelId}/messages/{messageId}/edits", [(Get, GetMessageEdits)]);
   ("/api/agents/{pseudonymId}", [(Get, GetAgentProfile)]);
   ("/api/agents/{pseudonymId}/voice-profile", [(Put, UpdateAgentVoiceProfile)]);
   ("/api/rtx/publish", [(Post, Publish)]);
   ("/api/rtx/subscribe", [(Post, Subscribe); (Delete, Unsubscribe)]);
   ("/api/rtx/subscriptions", [(Get, GetSubscription)]);
   ("/api/rtx/governance/transfers", [(Get, GovernanceTransfers)]);
   ("/api/rtx/governance/summary", [(Get, GovernanceSummary)]);
   ("/api/admin/policy", [(Get, GetPolicy); (Put, UpdatePolicy)]);
   ("/api/admin/server", [(Get, GetServer); (Patch, RenameServer)]);
   ("/api/admin/public-url", [(Put, SetPublicUrl)]);
   ("/api/admin/federation/{id}", [(Delete, RevokeFederation)]);
   ("/api/admin/members", [(Get, ListMembers)]);
   ("/api/admin/members/{pseudonymId}/capabilities", [(Patch, UpdateMemberCapabilities)]);
   ("/api/profile/username", [(Put, SetUsername); (Delete, DeleteUsername)]);
   ("/api/profile/username/grant", [(Post, GrantUsername)]);
   ("/api/profile/username/grant/{granteePseudonym}", [(Delete, RevokeGrant)]);
   ("/api/profile/username/grants", [(Get, ListGrants)]);
   ("/api/usernames/visible", [(Get, GetVisibleUsernames)]);
   ("/api/link-preview", [(Get, LinkPreview)]);
   ("/api/ws/token", [(Post, CreateWsToken)]);
   ("/api/graph/profile/{targetPseudonym}", [(Get, GetProfile)])].
Definition upload_routes : routes :=
  [("/api/admin/server/image", [(Post, UploadServerImage)]);
   ("/api/channels/{channelId}/upload", [(Post, UploadChat)])].
Definition public_routes : routes :=
  [("/health", [(Get, Health)]);
   ("/api/registry/register", [(Post, Register)]);
   ("/api/registry/path/{commitmentHex}", [(Get, GetPath)]);
   ("/api/registry/current-root", [(Get, GetCurrentRoot)]);
   ("/api/zk/verify-membership", [(Post, VerifyMembership)]);
   ("/api/registry/topics", [(Get, GetTopics)]);
   ("/api/registry/roles", [(Get, GetRoles)]);
   ("/api/identity/{pseudonymId}", [(Get, GetIdentity)]);
   ("/api/identity/{pseudonymId}/capabilities", [(Get, GetIdentityCapabilities)]);
   ("/api/vrp/agent-handshake", [(Post, AgentHandshake)]);
   ("/api/federation/handshake", [(Post, FederationHandshake)]);
   ("/api/federation/vrp-root", [(Get, GetVrpRoot)]);
   ("/api/federation/attest-membership", [(Post, AttestMembership)]);
   ("/api/federation/channels", [(Get, GetFederatedChannels)]);
   ("/api/federation/channels/{channelId}/join", [(Post, JoinFederatedChannel)]);
   ("/api/federation/messages", [(Post, ReceiveFederatedMessage)]);
   ("/api/federation/rtx", [(Post, ReceiveFederatedRtx)]);
   ("/api/graph/degrees", [(Get, GetDegrees)]);
   ("/events/presence", [(Get, GetPresenceStream)]);
   ("/api/public/events", [(Get, GetEvents)]);
   ("/events/stream", [(Get, GetEventStream)]);
   ("/api/public/server/summary", [(Get, GetServerSummary)]);
   ("/api/public/federation/peers", [(Get, GetFederationPeers)]);
   ("/api/public/agents", [(Get, GetAgents)]);
   ("/api/voice/config-status", [(Get, VoiceConfigStatus)]);
   ("/api/public/server/image", [(Get, GetServerImage)]);
   ("/api/link-preview/image", [(Get, ImageProxy)]);
   ("/ws", [(Get, Ws)])].

(** A route with what its router puts around it. *)
Record Route := { rt_pattern : string; rt_methods : list (Method * Handler); rt_auth : bool; rt_body_limit : Z }.

Definition MAX_REQUEST_BODY_BYTES : Z := 2 * 1024 * 1024.
Definition UPLOAD_BODY_BYTES : Z := 50 * 1024 * 1024.

(** The limit nearest to the route counts. *)
Definition with_layers (auth : bool) (limit : Z) (rs : routes) : list Route :=
  (λ r, {| rt_pattern := r.1; rt_methods := r.2; rt_auth := auth; rt_body_limit := limit |}) <$> rs.
Definition all_routes : list Route :=
  with_layers false MAX_REQUEST_BODY_BYTES public_routes ++ with_layers true MAX_REQUEST_BODY_BYTES protected_routes ++
  with_layers true UPLOAD_BODY_BYTES upload_routes.

(** HEAD is answered by the handler of GET. *)
Definition method_handler (m : Method) (ms : list (Method * Handler)) : option Handler :=
  snd <$> head (filter (λ x, x.1 = if decide (m = Head) then Get else m) ms).

(** ** Responses *)

Inductive Outcome :=
  | Reached (h : Handler) (req : Request) (body_limit : Z)
  | StaticFile
  | Status (code : Z)
  | TooManyRequests
  | Preflight.
Record Response := { rs_outcome : Outcome; rs_security_headers : bool }.

(** [security_headers_middleware]. *)
Definition security_headers : list (string * string) :=
  [("x-content-type-options", "nosniff");
   ("x-frame-options", "DENY");
   ("referrer-policy", "no-referrer");
   ("x-xss-protection", "1; mode=block");
   ("permissions-policy", "camera=(), microphone=(), geolocation=()");
   ("content-security-policy", "default-src 'self'; script-src 'self' 'wasm-unsafe-eval'; connect-src 'self' ws: wss:; img-src 'self' data: blob:; style-src 'self' 'unsafe-inline'; frame-ancestors 'none'; object-src 'none'")].

(** ** The CORS policy *)

Inductive CorsPolicy := AnyOrigin | Origins (l : list string).
Definition cors_policy (valid_header : string → bool) (origins : list string) : CorsPolicy :=
  if existsb (λ o, bool_decide (o = "*")) origins then AnyOrigin
  else if bool_decide (origins = []) then Origins []
  else Origins (filter (λ o, valid_header o = true) origins).

(** ** The application *)

(** What a request meets: the identities, the policy (none when its lock is
    poisoned), the clock, and which directories exist. *)
Record Server := {
  sv_fault : faults;
  sv_pool_ok : bool;
  sv_id : Z;
  sv_identities : table PlatformRow;
  sv_policy : option RateLimitConfig;
  sv_now : Z;
  sv_uploads_exist : bool;
  sv_client_exists : bool;
}.
Record Incoming := { in_method : Method; in_request : Request }.

Class Matchit := { match_path : list string → string → option string }.
Class MatchitLaws `(Matchit) := { match_path_in : ∀ ps p q, match_path ps p = Some q → q ∈ ps }.

Section app.
Context `{MA : Matchit}.
Context (preflight : Incoming → bool).

Definition find_route (path : string) : option Route :=
  pattern ← match_path (rt_pattern <$> all_routes) path;
  head (filter (λ r, rt_pattern r = pattern) all_routes).

Definition static_files (srv : Server) (path : string) : Outcome :=
  if sv_uploads_exist srv && (bool_decide (path = "/uploads") || starts_with "/uploads/" path) then StaticFile
  else if sv_client_exists srv then StaticFile
  else Status 404.

(** The routers of the routes, with the layer of their own. *)
Definition route_request (srv : Server) (i : Incoming) : Outcome :=
  let req := in_request i in
  match find_route (uri_path req) with
  | None => static_files srv (uri_path req)
  | Some r =>
      match (if rt_auth r then auth_middleware (sv_fault srv) (sv_pool_ok srv) (sv_id srv) (sv_identities srv) req
             else Ok req) with
      | Err e => Status e
      | Panic => Status 500
      | Ok req =>
          match method_handler (in_method i) (rt_methods r) with
          | Some h => Reached h req (rt_body_limit r)
          | None => Status 405
          end
      end
  end.

Definition security_headers_middleware (o : Outcome) : Response :=
  {| rs_outcome := o; rs_security_headers := true |}.

Definition bare (o : Outcome) : Response := {| rs_outcome := o; rs_security_headers := false |}.

(** CORS, the rate limit, the security headers, the routes. *)
Definition app (srv : Server) (i : Incoming) (st : LimitState) : Response * LimitState :=
  if preflight i then (bare Preflight, st)
  else
    match rate_limit_middleware (sv_policy srv) (sv_now srv) (in_request i) st with
    | (Ok true, st) => (security_headers_middleware (route_request srv i), st)
    | (Ok false, st) => (bare TooManyRequests, st)
    | (Err e, st) => (bare (Status e), st)
    | (Panic, st) => (bare (Status 500), st)
    end.

Fixpoint serve_all (l : list (Server * Incoming)) (st : LimitState) : list Response * LimitState :=
  match l with
  | [] => ([], st)
  | (srv, i) :: l => let '(r, st) := app srv i st in let '(rs, st) := serve_all l st in (r :: rs, st)
  end.
End app.

(** * Theorems *)

Definition handlers (rs : list Route) : list Handler := rs ≫= λ r, (rt_methods r).*2.

(** Who has to show an identity, stated handler by handler and apart from the
    table of routes: whatever acts for a member, or shows what is for members,
    does.  The others are the public readings, what one calls to get an
    identity, the answers about one identity, what other servers and agents
    call with a credential of their own, and the socket, whose token is
    checked by its handler. *)
Definition needs_identity (h : Handler) : bool :=
  match h with
  | CreateChannel | ListChannels | GetChannel | DeleteChannel | JoinChannel | JoinVoiceChannel | LeaveVoiceChannel
  | VoiceStatus | LeaveChannel | GetChannelHistory | GetMessageEdits | UploadChat => true
  | GetAgentProfile | UpdateAgentVoiceProfile | GetProfile | LinkPreview | CreateWsToken => true
  | Publish | Subscribe | Unsubscribe | GetSubscription | GovernanceTransfers | GovernanceSummary => true
  | GetPolicy | UpdatePolicy | GetServer | RenameServer | SetPublicUrl | RevokeFederation | ListMembers
  | UpdateMemberCapabilities | UploadServerImage => true
  | SetUsername | DeleteUsername | GrantUsername | RevokeGrant | ListGrants | GetVisibleUsernames => true
  | Health | GetTopics | GetRoles | GetCurrentRoot | GetPath | GetDegrees | GetPresenceStream | GetEvents | GetEventStream
  | GetServerSummary | GetFederationPeers | GetAgents | VoiceConfigStatus | GetServerImage | ImageProxy => false
  | Register | VerifyMembership | GetIdentity | GetIdentityCapabilities | Ws => false
  | AgentHandshake | FederationHandshake | GetVrpRoot | AttestMembership | GetFederatedChannels | JoinFederatedChannel
  | ReceiveFederatedMessage | ReceiveFederatedRtx => false
  end.
Definition upload_handlers : list Handler := [UploadServerImage; UploadChat].

(** Whoever is in the list by computation. *)
Definition route_facts (r : Route) : bool :=
  forallb (λ x, Bool.eqb (rt_auth r) (needs_identity x.2) &&
    (bool_decide (rt_body_limit r = MAX_REQUEST_BODY_BYTES) ||
     (bool_decide (rt_body_limit r = UPLOAD_BODY_BYTES) && bool_decide (x.2 ∈ upload_handlers)))) (rt_methods r).

Lemma all_routes_facts : forallb route_facts all_routes = true.
Proof. by vm_compute. Qed.

Section theorems.
Context `{MA : Matchit}.
Context (preflight : Incoming → bool).

Lemma find_route_in path r : find_route path = Some r → r ∈ all_routes.
Proof.
  unfold find_route. intros (p & _ & H)%bind_Some.
  destruct (filter _ all_routes) as [|r' l] eqn:E; [done|]. injection H as ->.
  assert (r ∈ filter (λ r, rt_pattern r = p) all_routes) as Hr by (rewrite E; left).
  by apply list_elem_of_filter in Hr as [_ ?].
Qed.

Lemma route_of_handler r m h :
  r ∈ all_routes → method_handler m (rt_methods r) = Some h →
  rt_auth r = needs_identity h ∧
  (rt_body_limit r = MAX_REQUEST_BODY_BYTES ∨ (rt_body_limit r = UPLOAD_BODY_BYTES ∧ h ∈ upload_handlers)).
Proof.
  intros Hr Hm. pose proof all_routes_facts as Hall. rewrite forallb_forall in Hall.
  specialize (Hall r (proj1 (list_elem_of_In _ _) Hr)). unfold route_facts in Hall. rewrite forallb_forall in Hall.
  unfold method_handler in Hm. destruct (filter _ (rt_methods r)) as [|[m' h'] l] eqn:E; [done|]. injection Hm as ->.
  assert ((m', h) ∈ rt_methods r) as Hin.
  { assert ((m', h) ∈ filter (λ x, x.1 = (if decide (m = Head) then Get else m)) (rt_methods r)) as Hx by (rewrite E; left).
    by apply list_elem_of_filter in Hx as [_ ?]. }
  specialize (Hall _ (proj1 (list_elem_of_In _ _) Hin)). cbn [snd] in Hall.
  apply andb_true_iff in Hall as [Ha Hl]. apply Bool.eqb_prop in Ha. split.
  - done.
  - apply orb_true_iff in Hl as [Hl|[Hl Hu]%andb_true_iff]; [left|right]; rewrite ?bool_decide_eq_true in *; by rewrite ?Hl.
Qed.

Lemma app_reached srv i st h req limit :
  rs_outcome (app preflight srv i st).1 = Reached h req limit → route_request srv i = Reached h req limit.
Proof.
  unfold app. destruct (preflight i); [done|]. by destruct (rate_limit_middleware _ _ _ st) as [[[]|e|] st'].
Qed.

(** C10. Whatever acts for a member or shows what is for members is reached
    only with the active identity that the request's header names, looked up
    in this server's table; the handlers that are open see the request as it
    came.  Only the two upload handlers take a body of more than two
    megabytes. *)
Theorem protected_needs_identity srv i st h req limit :
  rs_outcome (app preflight srv i st).1 = Reached h req limit →
  (needs_identity h = true → ∃ p identity,
     bearer_pseudonym (in_request i) = Ok p ∧
     get_platform_identity (sv_fault srv) (sv_id srv) p (sv_identities srv) = Ok identity ∧
     pi_active identity = true ∧ identity_context req = Some identity) ∧
  (needs_identity h = false → req = in_request i) ∧
  (limit = MAX_REQUEST_BODY_BYTES ∨ (limit = UPLOAD_BODY_BYTES ∧ h ∈ [UploadServerImage; UploadChat])).
Proof.
  intros H%app_reached. unfold route_request in H. destruct (find_route (uri_path (in_request i))) as [r|] eqn:Er.
  2: { unfold static_files in H. by repeat case_match. }
  apply find_route_in in Er.
  destruct (if rt_auth r then _ else _) as [req'| |] eqn:Ea; [|done..].
  destruct (method_handler (in_method i) (rt_methods r)) as [h'|] eqn:Em; [|done]. injection H as -> -> <-.
  destruct (route_of_handler r _ _ Er Em) as [Hp Hl]. rewrite Hp in Ea. split_and!; [intros Hh; rewrite Hh in Ea..|done].
  - apply auth_middleware_ok in Ea as (p & identity & ? & ? & ? & ? & _). by exists p, identity.
  - by injection Ea as <-.
Qed.

(** A request from the network has no identity yet. *)
Definition from_network (i : Incoming) : Prop := identity_context (in_request i) = None.
Definition is_ip_key (k : RateLimitKey) : Prop := match k with Ip _ _ => True | Pseudonym _ _ => False end.
Definition keyed_by_address (st : LimitState) : Prop := ∀ k, is_Some (rate_limiter st !! k) → is_ip_key k.

Lemma check_keys key limit now (st : RateLimiter) k :
  is_Some ((check key limit now st).2 !! k) → k = key ∨ is_Some (st !! k).
Proof.
  unfold check. destruct (decide (k = key)) as [->|Hne]; [by left|]. intros H. right.
  cbn [snd] in H. rewrite lookup_insert_ne in H by done. destruct (5000 <? size st)%nat; [|done].
  destruct H as [ws H]. unfold cleanup_expired in H. apply map_lookup_filter_Some in H as [H _]. by exists ws.
Qed.

Lemma app_keyed_by_address srv i st :
  from_network i → keyed_by_address st → keyed_by_address (app preflight srv i st).2.
Proof.
  intros Hn Hk. unfold app. destruct (preflight i); [done|]. unfold rate_limit_middleware.
  destruct (sv_policy srv) as [config|]; [|done].
  destruct (endpoint_limit config (uri_path (in_request i))) as [category limit].
  unfold request_key. rewrite Hn. destruct (connect_info (in_request i)) as [ip|]; [|done].
  destruct (check (Ip ip category) limit (sv_now srv) _) as [b limiter] eqn:E.
  assert (∀ k, is_Some (limiter !! k) → is_ip_key k) as Hl.
  { intros k Hs. pose proof (check_keys (Ip ip category) limit (sv_now srv) (rate_limiter st) k) as HC.
    change (rate_limiter {| RateLimit.public_url := _; rate_limiter := rate_limiter st |}) with (rate_limiter st) in E.
    rewrite E in HC. destruct (HC Hs) as [->|?]; [done|by apply Hk]. }
  by destruct b.
Qed.

(** The rate limit counts addresses only: it runs before the
    authentication, so that no sequence of requests makes it count a request
    for a pseudonym; whoever shares an address shares its budget. *)
Theorem limiter_counts_addresses l st :
  Forall (λ x, from_network x.2) l → keyed_by_address st →
  keyed_by_address (serve_all preflight l st).2.
Proof.
  intros Hl. revert st. induction Hl as [|[srv i] l Hi _ IH]; intros st Hk; [done|]. cbn [serve_all].
  pose proof (app_keyed_by_address srv i st Hi Hk) as Hk1. destruct (app preflight srv i st) as [r st1].
  specialize (IH st1 Hk1). by destruct (serve_all preflight l st1).
Qed.

(** Every response of a route or of a file, errors of the
    authentication included, carries the security headers; the refusals of
    the rate limit and the answers to preflights do not. *)
Theorem security_headers_cover srv i st :
  let '(r, st') := app preflight srv i st in
  (rs_security_headers r = true → rs_outcome r = route_request srv i) ∧
  (rs_security_headers r = false →
     (preflight i = true ∧ r = bare Preflight ∧ st' = st) ∨
     (rate_limit_middleware (sv_policy srv) (sv_now srv) (in_request i) st).1 = Ok false ∧ rs_outcome r = TooManyRequests ∨
     ∃ e, (rate_limit_middleware (sv_policy srv) (sv_now srv) (in_request i) st).1 = Err e ∧ rs_outcome r = Status e).
Proof.
  unfold app. destruct (preflight i); [cbn; split; [done|by left]|].
  destruct (rate_limit_middleware _ _ _ st) as [[[]|e|] st'] eqn:E; cbn; (split; [done|]); intros ?; [done|by right; left|right; right; by exists e|].
  unfold rate_limit_middleware in E. destruct (sv_policy srv); [|done]. destruct (endpoint_limit _ _) as [category limit].
  unfold request_key in E. destruct (identity_context (in_request i)); [by destruct (check _ _ _ _)|].
  destruct (connect_info (in_request i)); [by destruct (check _ _ _ _)|done].
Qed.
End theorems.

(** The table of routes: every handler is on exactly one route and
    method, no path pattern is listed twice, and the handlers that are
    reached without an identity are exactly these. *)
Theorem routes_complete :
  NoDup (rt_pattern <$> all_routes) ∧ NoDup (handlers all_routes) ∧ (∀ h, h ∈ handlers all_routes) ∧
  handlers (filter (λ r, rt_auth r = false) all_routes) =
    [Health; Register; GetPath; GetCurrentRoot; VerifyMembership; GetTopics; GetRoles; GetIdentity;
     GetIdentityCapabilities; AgentHandshake; FederationHandshake; GetVrpRoot; AttestMembership; GetFederatedChannels;
     JoinFederatedChannel; ReceiveFederatedMessage; ReceiveFederatedRtx; GetDegrees; GetPresenceStream; GetEvents;
     GetEventStream; GetServerSummary; GetFederationPeers; GetAgents; VoiceConfigStatus; GetServerImage; ImageProxy; Ws].
Proof.
  split; [apply (bool_decide_unpack _); by vm_compute|]. split; [apply (bool_decide_unpack _); by vm_compute|].
  split; [intros h; apply (bool_decide_unpack _); by destruct h; vm_compute|by vm_compute].
Qed.

(** ** Witnesses *)

Section witnesses.
(** Paths without parameters. *)
Definition toy_matchit : Matchit := {| match_path ps p := if decide (p ∈ ps) then Some p else None |}.
#[local] Existing Instance toy_matchit.

Definition toy_server : Server :=
  {| sv_fault := no_fault; sv_pool_ok := true; sv_id := 1;
     sv_identities := Table [{| pr_id := 1; pr_server_id := 1; pr_pseudonym_id := "alice"; pr_participant_type := "HUMAN";
       pr_caps := {| can_voice := true; can_moderate := false; can_invite := false; can_federate := false;
                     can_bridge := false |};
       pr_active := true; pr_created_at := ""; pr_updated_at := "" |}] 1;
     sv_policy := Some RateLimitConfig_default; sv_now := 0; sv_uploads_exist := false; sv_client_exists := false |}.
Definition toy_incoming (pseudonym : option string) : Incoming :=
  {| in_method := Post;
     in_request := {| header name := if decide (name = "X-Annex-Pseudonym") then pseudonym else None;
                      uri_path := "/api/channels"; connect_info := Some (V4 8 8 8 8); identity_context := None |} |}.
Definition toy_limits : LimitState := {| RateLimit.public_url := "https://a"; rate_limiter := ∅ |}.

Lemma protected_needs_identity_witness :
  ∃ req limit, rs_outcome (app (λ _, false) toy_server (toy_incoming (Some "alice")) toy_limits).1 =
      Reached CreateChannel req limit ∧ pi_pseudonym_id <$> identity_context req = Some "alice".
Proof.
  destruct (rs_outcome (app (λ _, false) toy_server (toy_incoming (Some "alice")) toy_limits).1) as [h req limit| | | |] eqn:E;
    [|by vm_compute in E..].
  pose proof (protected_needs_identity (λ _, false) toy_server (toy_incoming (Some "alice")) toy_limits h req limit E)
    as (H & _ & _).
  assert (h = CreateChannel) as -> by (vm_compute in E; by injection E).
  destruct H as (p & identity & Hp & Hi & _ & Hc); [done|].
  exists req, limit. split; [done|]. rewrite Hc. vm_compute in Hp. injection Hp as <-. vm_compute in Hi. by injection Hi as <-.
Defined.

Lemma limiter_counts_addresses_witness :
  keyed_by_address (serve_all (λ _, false) [(toy_server, toy_incoming (Some "alice")); (toy_server, toy_incoming None)]
    toy_limits).2 ∧
  size (rate_limiter (serve_all (λ _, false)
    [(toy_server, toy_incoming (Some "alice")); (toy_server, toy_incoming None)] toy_limits).2) = 1%nat.
Proof.
  split; [|by vm_compute].
  apply (limiter_counts_addresses (λ _, false) [(toy_server, toy_incoming (Some "alice")); (toy_server, toy_incoming None)]
    toy_limits).
  - by repeat constructor.
  - intros k [ws H]. by vm_compute in H.
Defined.
End witnesses.
