(* ===== verification/PublicApi.v ===== *)
(** * PublicApi: what the server tells everybody

    The summaries and the streams of crates/annex-server/src/api_observe.rs
    and api_sse.rs, and the server's image (api_upload.rs).  A stream turns
    what a subscriber receives from a broadcast channel (see
    [delivered] in Observe) into server-sent events. *)

From S2P Require Import Prelude Sql Types Observe Graph Channels RateLimit Agents Peers Admin.

#[local] Open Scope Z_scope.

(** ** Streams *)

Inductive Frame := Data (json : string) | LaggedFrame (missed_events : Z).

Definition get_presence_stream_handler `{Serde PresenceEvent.t} (items : list (Received PresenceEvent.t)) : list Frame :=
  omap (λ item, match item with
                | Event event => Some (Data (to_json event))
                | Lagged count => Some (LaggedFrame count)
                end) items.

(** An unknown domain is ignored. *)
Definition get_event_stream_handler `{Serde PublicEvent} (domain : option string) (items : list (Received PublicEvent)) :
    list Frame :=
  let domain_filter := domain ≫= domain_from_str in
  omap (λ item, match item with
                | Event event =>
                    match domain_filter with
                    | Some d => if bool_decide (ev_domain event ≠ domain_as_str d) then None else Some (Data (to_json event))
                    | None => Some (Data (to_json event))
                    end
                | Lagged count => Some (LaggedFrame count)
                end) items.

(** ** Tables *)

Record PublicDb := {
  pb_servers : table ServerRow;
  pb_images : gmap Z (option string);
  pb_nodes : table GraphNodeRow;
  pb_channels : table ChannelRow;
  pb_instances : table InstanceRow;
  pb_agreements : table AgreementRow;
  pb_agents : table AgentRow;
}.

Definition active_node (s : Z) (n : GraphNodeRow) : Prop := gn_server_id n = s ∧ gn_active n = true.
#[export] Instance active_node_dec s n : Decision (active_node s n).
Proof. unfold active_node. apply _. Defined.
Definition channel_of (s : Z) (c : ChannelRow) : Prop := ch_server_id c = s.
#[export] Instance channel_of_dec s c : Decision (channel_of s c).
Proof. unfold channel_of. apply _. Defined.
Definition active_agreement (s : Z) (a : AgreementRow) : Prop := ag_local_server_id a = s ∧ ag_active a = true.
#[export] Instance active_agreement_dec s a : Decision (active_agreement s a).
Proof. unfold active_agreement. apply _. Defined.
Definition active_agent (s : Z) (a : AgentRow) : Prop := ar_server_id a = s ∧ ar_active a = true.
#[export] Instance active_agent_dec s a : Decision (active_agent s a).
Proof. unfold active_agent. apply _. Defined.

Definition sql_count {R} (l : list R) : Z := Z.of_nat (length l).

(** ** The summary *)

Record ServerSummaryResponse := {
  sm_slug : string;
  sm_label : string;
  sm_public_url : string;
  sm_members_by_type : gmap string Z;
  sm_total_active_members : Z;
  sm_channel_count : Z;
  sm_federation_peer_count : Z;
  sm_active_agent_count : Z;
}.

(** [SELECT key, COUNT( * ) ... GROUP BY key]. *)
Definition group_counts (keys : list string) : list (string * Z) :=
  (λ k, (k, sql_count (filter (λ x, x = k) keys))) <$> remove_dups keys.

(** The loop over the groups: the map and the total. *)
Definition add_group (acc : gmap string Z * Z) (row : string * Z) : gmap string Z * Z :=
  (<[row.1 := row.2]> acc.1, acc.2 + row.2).

Definition get_server_summary_handler (fault : faults) (s : Z) (public_url : string) (d : PublicDb) :
    result http_error ServerSummaryResponse :=
  let stmt {A} k (a : A) : result http_error A := map_err (λ _, 500) (read fault k a) in
  servers ← stmt 0%nat (t_select (server_is s) (pb_servers d));
  row ← ok_or (head servers) 500;
  groups ← stmt 1%nat (group_counts (gn_node_type <$> t_select (active_node s) (pb_nodes d)));
  let '(members_map, total_active) := foldl add_group (∅, 0) groups in
  channel_count ← stmt 2%nat (sql_count (t_select (channel_of s) (pb_channels d)));
  federation_peer_count ← stmt 3%nat (sql_count (t_select (active_agreement s) (pb_agreements d)));
  active_agent_count ← stmt 4%nat (sql_count (t_select (active_agent s) (pb_agents d)));
  Ok {| sm_slug := sr_slug row; sm_label := sr_label row; sm_public_url := public_url;
        sm_members_by_type := members_map; sm_total_active_members := total_active;
        sm_channel_count := channel_count; sm_federation_peer_count := federation_peer_count;
        sm_active_agent_count := active_agent_count |}.

(** ** Peers and agents *)

Record FederationPeerEntry := {
  fp_base_url : string;
  fp_label : string;
  fp_alignment_status : string;
  fp_transfer_scope : string;
  fp_active : bool;
}.

Definition peer_entry (a : AgreementRow) (i : InstanceRow) : FederationPeerEntry :=
  {| fp_base_url := in_base_url i; fp_label := in_label i; fp_alignment_status := ag_alignment_status a;
     fp_transfer_scope := ag_transfer_scope a; fp_active := ag_active a |}.

Definition get_federation_peers_handler (fault : faults) (s : Z) (d : PublicDb) :
    result http_error (list FederationPeerEntry * nat) :=
  peers ← map_err (λ _, 500) (read fault 0 (order_by String.le fp_label
    (t_select (active_agreement s) (pb_agreements d) ≫= λ a,
       peer_entry a <$> t_select (λ i, in_id i = ag_remote_instance_id a) (pb_instances d))));
  Ok (peers, length peers).

Section agents.
(** [serde_json::from_str] into a [Value]; a text that is no JSON is shown as
    it is. *)
Context {Value : Type} (json_value : string → option Value) (json_string : string → Value).

Record AgentEntry := {
  ae_pseudonym_id : string;
  ae_alignment_status : string;
  ae_transfer_scope : string;
  ae_capability_contract : Value;
  ae_reputation_score : f32;
}.
Definition agent_entry (a : AgentRow) : AgentEntry :=
  {| ae_pseudonym_id := ar_pseudonym_id a; ae_alignment_status := ar_alignment_status a;
     ae_transfer_scope := ar_transfer_scope a;
     ae_capability_contract :=
       default (json_string (ar_capability_contract_json a)) (json_value (ar_capability_contract_json a));
     ae_reputation_score := ar_reputation_score a |}.

Definition reputation_ge (x y : f32) : Prop := SFleb y x = true.
#[export] Instance reputation_ge_dec : RelDecision reputation_ge.
Proof. intros x y. unfold reputation_ge. apply _. Defined.

Definition get_agents_handler (fault : faults) (s : Z) (d : PublicDb) : result http_error (list AgentEntry * nat) :=
  rows ← map_err (λ _, 500) (read fault 0
    (sql_limit 1000 (order_by reputation_ge ar_reputation_score (t_select (active_agent s) (pb_agents d)))));
  let agents := agent_entry <$> rows in
  Ok (agents, length agents).
End agents.

Definition get_server_image_handler (fault : faults) (s : Z) (d : PublicDb) : result http_error (option string) :=
  image ← map_err (λ _, 500) (read fault 0 (pb_images d !! s));
  ok_or image 500.

(** * Theorems *)

(** ** Streams *)

Lemma sublist_full {A} (l1 l2 : list A) : l1 `sublist_of` l2 → (length l2 ≤ length l1)%nat → l1 = l2.
Proof.
  induction 1 as [|x l1 l2 _ IH|x l1 l2 Hs _]; cbn; intros Hl; [done|f_equal; apply IH; lia|].
  apply sublist_length in Hs. lia.
Qed.

Definition data_of (frames : list Frame) : list string :=
  omap (λ f, match f with Data json => Some json | LaggedFrame _ => None end) frames.
Definition missed_of (frames : list Frame) : Z :=
  foldr (λ f n, match f with Data _ => n | LaggedFrame k => k + n end) 0 frames.

Definition in_domain (domain : option string) (e : PublicEvent) : bool :=
  match domain ≫= domain_from_str with
  | Some d => bool_decide (ev_domain e = domain_as_str d)
  | None => true
  end.

Section streams.
Context `{SP : Serde PresenceEvent.t, SE : Serde PublicEvent}.

Lemma missed_nonneg {A} (sent : list A) items : delivered sent items →
  0 ≤ foldr (λ i n, match i with Event _ => n | Lagged k => k + n end) 0 items.
Proof. induction 1 as [| |missed sent items Hne _ IH]; cbn; [done|done|lia]. Qed.

Lemma event_stream_frames domain sent items :
  delivered sent items →
  let frames := get_event_stream_handler domain items in
  data_of frames `sublist_of` (to_json <$> filter (λ e, in_domain domain e = true) sent) ∧
  0 ≤ missed_of frames ∧
  (missed_of frames = 0 → data_of frames = to_json <$> filter (λ e, in_domain domain e = true) sent).
Proof.
  unfold get_event_stream_handler, in_domain. cbv zeta. induction 1 as [|a sent items _ (IH1 & IH2 & IH3)|missed sent items Hne _ (IH1 & IH2 & IH3)].
  - cbn. by split_and!.
  - cbn [omap list_omap]. rewrite filter_cons. destruct (domain ≫= domain_from_str) as [d|].
    + destruct (decide (ev_domain a = domain_as_str d)) as [E|E].
      * rewrite (bool_decide_eq_false_2 (ev_domain a ≠ _)) by (by intros []). rewrite decide_True by (by apply bool_decide_eq_true).
        cbn. split_and!; [by apply sublist_skip|done|]. intros H. f_equal. exact (IH3 H).
      * rewrite (bool_decide_eq_true_2 (ev_domain a ≠ _)) by done.
        rewrite decide_False by (by rewrite bool_decide_eq_true). by split_and!.
    + rewrite decide_True by done. cbn. split_and!; [by apply sublist_skip|done|]. intros H. f_equal. exact (IH3 H).
  - cbn [omap list_omap]. cbn [data_of missed_of omap list_omap foldr]. split_and!.
    + rewrite filter_app, fmap_app. by apply sublist_inserts_l.
    + unfold missed_of in *. lia.
    + destruct missed; [done|]. cbn [length]. unfold missed_of in *. lia.
Qed.

(** A client of the presence stream can account for every event: those
    it gets are the events sent, in order, and the markers say how many it
    missed between them; without a marker it has them all.  A client of the
    event stream gets, of the events of its domain, those it did not miss,
    in order, and all of them when no marker came. *)
Theorem streams_account_for_events presence items domain sent items' :
  delivered presence items → delivered sent items' →
  let p := get_presence_stream_handler items in
  let e := get_event_stream_handler domain items' in
  (Z.of_nat (length (data_of p)) + missed_of p = Z.of_nat (length presence) ∧
   data_of p `sublist_of` (to_json <$> presence) ∧
   (missed_of p = 0 → data_of p = to_json <$> presence)) ∧
  data_of e `sublist_of` (to_json <$> filter (λ x, in_domain domain x = true) sent) ∧
  (missed_of e = 0 → data_of e = to_json <$> filter (λ x, in_domain domain x = true) sent).
Proof.
  intros Hp He. split; [|destruct (event_stream_frames domain sent items' He) as (? & _ & ?); by split]. clear He.
  assert (Z.of_nat (length (data_of (get_presence_stream_handler items))) +
    missed_of (get_presence_stream_handler items) = Z.of_nat (length presence) ∧
    data_of (get_presence_stream_handler items) `sublist_of` (to_json <$> presence)) as [Hn Hs].
  { induction Hp as [|a presence items _ [IH1 IH2]|missed presence items _ _ [IH1 IH2]]; [by split|..];
      set (p := get_presence_stream_handler items) in *.
    - change (Z.of_nat (S (length (data_of p))) + missed_of p = Z.of_nat (S (length presence)) ∧
        (to_json a :: data_of p) `sublist_of` (to_json a :: (to_json <$> presence))).
      split; [lia|by apply sublist_skip].
    - change (Z.of_nat (length (data_of p)) + (Z.of_nat (length missed) + missed_of p) =
          Z.of_nat (length (missed ++ presence)) ∧ data_of p `sublist_of` (to_json <$> (missed ++ presence))).
      rewrite length_app, fmap_app. split; [lia|by apply sublist_inserts_l]. }
  split_and!; [done..|]. intros H0. rewrite H0 in Hn. apply sublist_full; [done|]. rewrite length_fmap. lia.
Qed.
End streams.

(** ** Counts *)

Lemma count_split (k : string) D (keys : list string) :
  k ∉ D → length (filter (λ x, x ∈ k :: D) keys) =
    (length (filter (λ x, x = k) keys) + length (filter (λ x, x ∈ D) keys))%nat.
Proof.
  intros Hk. induction keys as [|x keys IH]; [done|]. rewrite !filter_cons.
  assert (x ∈ k :: D ↔ x = k ∨ x ∈ D) as Hx by apply elem_of_cons.
  destruct (decide (x ∈ k :: D)), (decide (x = k)), (decide (x ∈ D)); cbn; try lia; exfalso; subst; tauto.
Qed.

Lemma group_sum (keys D : list string) (n : Z) :
  NoDup D → (∀ k, k ∈ keys → k ∈ D) →
  foldl (λ n row, n + row.2) n ((λ k, (k, sql_count (filter (λ x, x = k) keys))) <$> D) = n + sql_count keys.
Proof.
  intros Hnd Hin. assert (∀ m, foldl (λ n row, n + row.2) (n + m) ((λ k, (k, sql_count (filter (λ x, x = k) keys))) <$> D) =
    n + m + sql_count (filter (λ x, x ∈ D) keys)) as H.
  { clear Hin. induction Hnd as [|k D Hk _ IH]; intros m; cbn.
    - replace (filter (λ x, x ∈ []) keys) with (@nil string); [unfold sql_count; cbn; lia|].
      clear n. induction keys as [|x keys IHk]; [done|]. rewrite filter_cons, decide_False; [done|apply not_elem_of_nil].
    - rewrite <- Z.add_assoc, IH. unfold sql_count.
      rewrite count_split by done. lia. }
  specialize (H 0). rewrite Z.add_0_r in H. rewrite H. unfold sql_count. do 2 f_equal.
  clear H. induction keys as [|x keys IH]; [done|]. rewrite filter_cons, decide_True by (apply Hin; left).
  cbn. f_equal. apply IH. intros. apply Hin. by right.
Qed.

Lemma fold_groups_total rows m n : (foldl add_group (m, n) rows).2 = foldl (λ n row, n + row.2) n rows.
Proof. revert m n. induction rows as [|row rows IH]; intros m n; [done|]. cbn. apply IH. Qed.

Lemma fold_groups_lookup rows m n k :
  NoDup rows.*1 →
  (foldl add_group (m, n) rows).1 !! k =
    match list_find (λ row, row.1 = k) rows with Some (_, row) => Some row.2 | None => m !! k end.
Proof.
  revert m n. induction rows as [|row rows IH]; intros m n Hnd; [done|]. cbn in Hnd. apply NoDup_cons in Hnd as [Hn Hnd].
  cbn [foldl]. unfold add_group at 2. cbn [fst snd]. rewrite IH by done. cbn. case_decide as Hk.
  - rewrite <- Hk. destruct (list_find (λ r, r.1 = row.1) rows) as [[i r]|] eqn:E.
    + apply list_find_Some in E as (Hi & Hr & _). destruct Hn. rewrite <- Hr.
      apply list_elem_of_fmap_2, (list_elem_of_lookup_2 _ _ _ Hi).
    + by rewrite lookup_insert_eq.
  - destruct (list_find (λ r, r.1 = k) rows) as [[i r]|]; [done|]. by rewrite lookup_insert_ne.
Qed.

Lemma group_counts_lookup keys k :
  (foldl add_group (∅, 0) (group_counts keys)).1 !! k =
    (if decide (k ∈ keys) then Some (sql_count (filter (λ x, x = k) keys)) else None).
Proof.
  rewrite fold_groups_lookup.
  2: { unfold group_counts. rewrite <- list_fmap_compose. cbn. rewrite list_fmap_id. apply NoDup_remove_dups. }
  destruct (list_find _ (group_counts keys)) as [[i row]|] eqn:E.
  - apply list_find_Some in E as (Hi%list_elem_of_lookup_2 & Hk & _). unfold group_counts in Hi.
    apply list_elem_of_fmap in Hi as (k' & -> & Hk').
    rewrite elem_of_remove_dups in Hk'. cbn in *. subst. by rewrite decide_True.
  - apply list_find_None in E. rewrite decide_False; [apply lookup_empty|]. intros Hk.
    rewrite Forall_forall in E. apply (E (k, sql_count (filter (λ x, x = k) keys))); [|done].
    apply list_elem_of_fmap. exists k. split; [done|]. by rewrite elem_of_remove_dups.
Qed.

(** C38. The summary counts what it says: the members of every type present,
    their total, the channels, the active peers and the active agents of
    this server; it answers 500 exactly when the server has no row or a
    statement fails. *)
Theorem server_summary_counts fault s url d :
  match get_server_summary_handler fault s url d with
  | Ok r =>
      let nodes := t_select (active_node s) (pb_nodes d) in
      (∃ row, row ∈ t_rows (pb_servers d) ∧ sr_id row = s ∧ sm_slug r = sr_slug row ∧ sm_label r = sr_label row) ∧
      sm_total_active_members r = sql_count nodes ∧
      (∀ ty, sm_members_by_type r !! ty =
         if decide (ty ∈ gn_node_type <$> nodes) then Some (sql_count (filter (λ n, gn_node_type n = ty) nodes)) else None) ∧
      sm_channel_count r = sql_count (filter (channel_of s) (t_rows (pb_channels d))) ∧
      sm_federation_peer_count r = sql_count (filter (active_agreement s) (t_rows (pb_agreements d))) ∧
      sm_active_agent_count r = sql_count (filter (active_agent s) (t_rows (pb_agents d)))
  | Err e => e = 500 ∧ ((∀ row, row ∈ t_rows (pb_servers d) → sr_id row ≠ s) ∨ ∃ k code, (k < 5)%nat ∧ fault k = Some code)
  | Panic => False
  end.
Proof.
  unfold get_server_summary_handler, read.
  assert (∀ k code, fault k = Some code → (k < 5)%nat → (500 : http_error) = 500 ∧
    ((∀ row, row ∈ t_rows (pb_servers d) → sr_id row ≠ s) ∨ ∃ k code, (k < 5)%nat ∧ fault k = Some code)) as Hf
    by (intros k code Hk Hlt; split; [done|right; by exists k, code]).
  destruct (fault 0%nat) as [?|] eqn:E0; [apply (Hf 0%nat _ E0); lia|]. cbn [map_err mbind result_bind].
  destruct (t_select (server_is s) (pb_servers d)) as [|row rows] eqn:Er.
  { cbn. split; [done|left]. rewrite t_select_nil in Er. exact Er. }
  cbn [head ok_or mbind result_bind].
  destruct (fault 1%nat) as [?|] eqn:E1; [apply (Hf 1%nat _ E1); lia|]. cbn [map_err mbind result_bind].
  set (nodes := t_select (active_node s) (pb_nodes d)).
  pose proof (group_counts_lookup (gn_node_type <$> nodes)) as Hmap.
  pose proof (fold_groups_total (group_counts (gn_node_type <$> nodes)) ∅ 0) as Htot.
  destruct (foldl add_group _ _) as [members total]. cbn [fst snd] in Hmap, Htot.
  destruct (fault 2%nat) as [?|] eqn:E2; [apply (Hf 2%nat _ E2); lia|]. cbn [map_err mbind result_bind].
  destruct (fault 3%nat) as [?|] eqn:E3; [apply (Hf 3%nat _ E3); lia|]. cbn [map_err mbind result_bind].
  destruct (fault 4%nat) as [?|] eqn:E4; [apply (Hf 4%nat _ E4); lia|]. cbn [map_err mbind result_bind].
  cbn [sm_slug sm_label sm_total_active_members sm_members_by_type sm_channel_count sm_federation_peer_count
    sm_active_agent_count]. split; [|split; [|split; [|done]]].
  - exists row. assert (row ∈ t_select (server_is s) (pb_servers d)) as [? ?]%elem_of_t_select by (rewrite Er; left). done.
  - rewrite Htot. unfold group_counts. rewrite group_sum; [|apply NoDup_remove_dups|intros; by apply elem_of_remove_dups].
    unfold sql_count. by rewrite length_fmap.
  - intros ty. rewrite Hmap. destruct (decide (ty ∈ _)); [|done]. do 2 f_equal. unfold sql_count. f_equal.
    rewrite <- (length_fmap gn_node_type (filter _ nodes)). f_equal. clear. induction nodes as [|n nodes IH]; [done|].
    cbn [fmap list_fmap]. rewrite !filter_cons. case_decide; cbn; by rewrite IH.
Qed.

(** The lists of peers and agents show every active agreement and every
    active agent of this server and nothing else, the peers by their label,
    of the agents at most a thousand. *)
Theorem public_lists_show_active {Value} (json_value : string → option Value) json_string fault s d :
  fault 0%nat = None →
  (∃ peers, get_federation_peers_handler fault s d = Ok (peers, length peers) ∧
     StronglySorted String.le (fp_label <$> peers) ∧
     ∀ e, e ∈ peers ↔ ∃ a i, a ∈ t_rows (pb_agreements d) ∧ i ∈ t_rows (pb_instances d) ∧
       ag_local_server_id a = s ∧ ag_active a = true ∧ in_id i = ag_remote_instance_id a ∧ e = peer_entry a i) ∧
  (∃ shown rest, get_agents_handler json_value json_string fault s d =
       Ok (agent_entry json_value json_string <$> shown, length shown) ∧
     shown ++ rest ≡ₚ filter (active_agent s) (t_rows (pb_agents d)) ∧ (length shown ≤ 1000)%nat ∧
     (rest = [] ∨ length shown = 1000%nat)).
Proof.
  intros Hf. split.
  - unfold get_federation_peers_handler, read. rewrite Hf. cbn [map_err mbind result_bind]. eexists. split; [done|]. split.
    + pose proof (order_by_sorted String.le fp_label (t_select (active_agreement s) (pb_agreements d) ≫= λ a,
        peer_entry a <$> t_select (λ i, in_id i = ag_remote_instance_id a) (pb_instances d))) as Hs.
      induction Hs as [|e l _ IH HF]; constructor; [done|]. apply Forall_fmap. exact HF.
    + intros e. rewrite elem_of_order_by, list_elem_of_bind. split.
      * intros (a & (i & -> & [Hi Hii]%elem_of_t_select)%list_elem_of_fmap & [[Hs Ha] Hin]%elem_of_t_select). by exists a, i.
      * intros (a & i & Ha & Hi & Hs & Hac & Hid & ->). exists a. split; [|by apply elem_of_t_select].
        apply list_elem_of_fmap. exists i. split; [done|]. by apply elem_of_t_select.
  - unfold get_agents_handler, read. rewrite Hf. cbn [map_err mbind result_bind]. unfold sql_limit. change (1000 <? 0) with false.
    change (Z.to_nat 1000) with 1000%nat. cbv iota. set (l := order_by _ _ _). exists (take 1000 l), (drop 1000 l). rewrite length_fmap, take_drop, length_take.
    split_and!; [done|apply order_by_permutation|lia|].
    destruct (decide (length l ≤ 1000)%nat); [left; by apply drop_ge|right; lia].
Qed.

(** * Witnesses *)

Section Witnesses.
#[local] Instance toy_presence_serde : Serde PresenceEvent.t := {| to_json _ := "presence"; from_json _ := None |}.
#[local] Instance toy_public_serde : Serde PublicEvent := {| to_json e := ev_payload_json e; from_json _ := None |}.

Definition toy_public_event (seq : Z) (domain : string) : PublicEvent :=
  {| ev_id := seq; ev_server_id := 1; ev_domain := domain; ev_event_type := "T"; ev_entity_type := "node";
     ev_entity_id := "p"; ev_seq := seq; ev_payload_json := domain; ev_occurred_at := "2026-01-01 00:00:00" |}.

(** A presence stream that missed two of three events, and an event stream
    filtered to the agents' events. *)
Lemma streams_account_for_events_witness :
  data_of (get_presence_stream_handler [Lagged 2; Event (PresenceEvent.NodePruned "c")]) = ["presence"] ∧
  missed_of (get_presence_stream_handler [Lagged 2; Event (PresenceEvent.NodePruned "c")]) = 2 ∧
  data_of (get_event_stream_handler (Some "AGENT")
    [Event (toy_public_event 1 "AGENT"); Event (toy_public_event 2 "PRESENCE")]) = ["AGENT"].
Proof.
  assert (delivered [PresenceEvent.NodePruned "a"; PresenceEvent.NodePruned "b"; PresenceEvent.NodePruned "c"]
    [Lagged 2; Event (PresenceEvent.NodePruned "c")]) as Hp
    by (apply (delivered_lagged [PresenceEvent.NodePruned "a"; PresenceEvent.NodePruned "b"]);
        [discriminate|apply delivered_event, delivered_nil]).
  assert (delivered [toy_public_event 1 "AGENT"; toy_public_event 2 "PRESENCE"]
    [Event (toy_public_event 1 "AGENT"); Event (toy_public_event 2 "PRESENCE")]) as He
    by (apply delivered_event, delivered_event, delivered_nil).
  destruct (streams_account_for_events _ _ (Some "AGENT") _ _ Hp He) as ((Hn & _ & _) & _ & Hd).
  split_and!; [reflexivity|reflexivity|]. rewrite Hd by reflexivity. vm_compute. reflexivity.
Defined.

Definition toy_agent (id : Z) (active : bool) : AgentRow :=
  {| ar_id := id; ar_server_id := 1; ar_pseudonym_id := "p"; ar_alignment_status := "Aligned";
     ar_transfer_scope := "FULL"; ar_capability_contract_json := "{}"; ar_voice_profile_id := None;
     ar_reputation_score := S754_zero false; ar_last_handshake_at := ""; ar_active := active; ar_created_at := "";
     ar_updated_at := ""; ar_anchor_snapshot_json := None |}.
Definition toy_public_db : PublicDb :=
  {| pb_servers := t_empty; pb_images := ∅; pb_nodes := t_empty;
     pb_channels := t_empty; pb_instances := t_empty;
     pb_agreements := t_empty;
     pb_agents := Table [toy_agent 1 true; toy_agent 2 false] 2 |}.

Lemma public_lists_show_active_witness :
  ∃ shown rest, get_agents_handler (λ s, Some s) id (λ _, None) 1 toy_public_db =
      Ok (agent_entry (λ s, Some s) id <$> shown, length shown) ∧ shown ++ rest ≡ₚ [toy_agent 1 true].
Proof.
  destruct (public_lists_show_active (λ s, Some s) id (λ _, None) 1 toy_public_db eq_refl)
    as [_ (shown & rest & H & HP & _)].
  exists shown, rest. split; [exact H|]. rewrite HP. reflexivity.
Defined.
End Witnesses.
