(* ===== verification/Desktop.v ===== *)
(** * Desktop: the desktop application

    crates/annex-desktop/src/main.rs: the files, the processes and the
    variables with which the application runs an embedded server (Config,
    Startup), a cloudflared tunnel and a LiveKit server, and the state that
    its commands share.  Paths are Unix paths.  The windows of Tauri, the
    download, the programs that are started and the OS keyring are arguments
    of the commands ([World]). *)

From stdpp Require Import pretty.
From S2P Require Import Prelude Sql Bytes Types Text Identity Merkle Zk Channels Admin Net Voice Config Startup.

#[local] Open Scope Z_scope.

Inductive DesktopError :=
  | WriteDefaultConfig (path : string)
  | ReadConfig (path : string)
  | FixPaths (path : string)
  | WriteError
  | RemoveError
  | ConfigFailed (e : ConfigError)
  | StartupFailed
  | NotReady
  | ServerNotRunning
  | ServerRunning
  | PortOf (url : string)
  | NoDownload
  | CreateDir
  | DownloadFailed
  | DownloadStatus (code : Z)
  | ArchiveFailed (stderr : string)
  | SetPermissions
  | SpawnFailed
  | StderrRead
  | ExitedEarly
  | TimedOutAfter (seconds : Z)
  | NoPort
  | KeyringFailed
  | ConfigShape
  | Serialize
  | HttpClient.

(** ** Files *)

(** [Path::exists] for a file of the application. *)
Definition file_exists (p : string) (d : Disk) : bool :=
  bool_decide (is_Some (files d !! p)) || bool_decide (is_Some (unreadable d !! p)).
(** [fs::write] with its result. *)
Definition fs_write {E} (e : E) (p contents : string) : M Disk E unit := λ d,
  if decide (p ∈ unwritable d) then (Err e, d) else (Ok (), write_file p contents d).
Definition fs_remove {E} (e : E) (p : string) : M Disk E unit := λ d,
  if decide (p ∈ unwritable d) then (Err e, d)
  else (Ok (), {| files := delete p (files d); unreadable := delete p (unreadable d); unwritable := unwritable d |}).

(** ** The settings *)

Definition resolve_data_dir (os_data_dir : option string) : string := path_join (default "." os_data_dir) "Annex".

(** The text of the default file; an apostrophe stands for a quotation
    mark. *)
Definition quotation_mark : ascii := "034"%char.
Definition quoted : string → string := string_map (λ c, if decide (c = "'"%char) then quotation_mark else c).
Definition config_before : string := quoted "# Annex desktop configuration (auto-generated).

[server]
host = '127.0.0.1'
port = 0

[database]
path = '".
Definition config_after : string := quoted "'
busy_timeout_ms = 5000
pool_max_size = 8

[logging]
level = 'info'
json = false

[cors]
# Desktop defaults: allow Tauri webview origins (macOS/Linux + Windows).
# Override with ANNEX_CORS_ORIGINS env var if needed.
allowed_origins = ['tauri://localhost', 'https://tauri.localhost', 'http://tauri.localhost']

# [livekit]
# Uncomment and configure to enable voice channels (LiveKit WebRTC).
# url = 'ws://localhost:7880'
# api_key = ''
# api_secret = ''
# token_ttl_seconds = 3600
#
# STUN/TURN servers for WebRTC NAT traversal. Defaults to Google STUN.
# Add TURN servers for restrictive corporate networks that block UDP.
# [[livekit.ice_servers]]
# urls = ['stun:stun.l.google.com:19302', 'stun:stun1.l.google.com:19302']
#
# [[livekit.ice_servers]]
# urls = ['turn:turn.example.com:3478?transport=udp', 'turns:turn.example.com:5349?transport=tcp']
# username = 'your-turn-username'
# credential = 'your-turn-credential'
".
Definition default_config (db_path : string) : string := config_before +:+ forward_slashes db_path +:+ config_after.

Definition fix_backslash_paths (config_path : string) : M Disk DesktopError unit := λ d,
  match read_to_string config_path d with
  | Ok contents =>
      if has_drive_path contents then fs_write (FixPaths config_path) config_path (forward_slashes contents) d
      else (Ok (), d)
  | Err NotFound => (Ok (), d)
  | Err _ => (Err (ReadConfig config_path), d)
  | Panic => (Panic, d)
  end.

Definition ensure_config (data_dir : string) : M Disk DesktopError string :=
  let config_path := path_join data_dir "config.toml" in
  exists_ ← gets (file_exists config_path);
  (if exists_ : bool then mret ()
   else fs_write (WriteDefaultConfig config_path) config_path (default_config (path_join data_dir "annex.db")));;
  fix_backslash_paths config_path;;
  mret config_path.

(** ** The choice of the mode *)

Inductive StartupMode := Host | Client (server_url : string).
Record StartupPrefs := { startup_mode : StartupMode }.

Section prefs.
Context `{SPr : Serde StartupPrefs}.

Definition get_startup_mode (data_dir : string) (d : Disk) : option StartupPrefs :=
  match read_to_string (path_join data_dir "startup_prefs.json") d with
  | Ok s => from_json s
  | _ => None
  end.
Definition save_startup_mode (data_dir : string) (prefs : StartupPrefs) : M Disk DesktopError unit :=
  fs_write WriteError (path_join data_dir "startup_prefs.json") (to_json prefs).
Definition clear_startup_mode (data_dir : string) : M Disk DesktopError unit :=
  exists_ ← gets (file_exists (path_join data_dir "startup_prefs.json"));
  if exists_ : bool then fs_remove RemoveError (path_join data_dir "startup_prefs.json") else mret ().
End prefs.

(** ** Programs that are downloaded *)

Inductive Os := Linux | MacOs | Windows | OtherOs.
#[export] Instance Os_eq_dec : EqDecision Os.
Proof. solve_decision. Defined.
Inductive Arch := X86_64 | Aarch64 | OtherArch.

Definition cloudflared_binary_name (os : Os) : string :=
  match os with Windows => "cloudflared.exe" | _ => "cloudflared" end.
Definition cloudflared_download_url (os : Os) (arch : Arch) : option string :=
  match os, arch with
  | Linux, X86_64 => Some "https://github.com/cloudflare/cloudflared/releases/latest/download/cloudflared-linux-amd64"
  | Linux, Aarch64 => Some "https://github.com/cloudflare/cloudflared/releases/latest/download/cloudflared-linux-arm64"
  | MacOs, X86_64 => Some "https://github.com/cloudflare/cloudflared/releases/latest/download/cloudflared-darwin-amd64.tgz"
  | MacOs, Aarch64 => Some "https://github.com/cloudflare/cloudflared/releases/latest/download/cloudflared-darwin-arm64.tgz"
  | Windows, X86_64 => Some "https://github.com/cloudflare/cloudflared/releases/latest/download/cloudflared-windows-amd64.exe"
  | _, _ => None
  end.

Definition LIVEKIT_VERSION : string := "1.7.2".
Definition livekit_binary_name (os : Os) : string :=
  match os with Windows => "livekit-server.exe" | _ => "livekit-server" end.
Definition livekit_release (file : string) : string :=
  "https://github.com/livekit/livekit/releases/download/v" +:+ LIVEKIT_VERSION +:+ "/livekit_" +:+ LIVEKIT_VERSION +:+ file.
Definition livekit_download_url (os : Os) (arch : Arch) : option string :=
  match os, arch with
  | Linux, X86_64 => Some (livekit_release "_linux_amd64.tar.gz")
  | Linux, Aarch64 => Some (livekit_release "_linux_arm64.tar.gz")
  | MacOs, X86_64 => Some (livekit_release "_darwin_amd64.tar.gz")
  | MacOs, Aarch64 => Some (livekit_release "_darwin_arm64.tar.gz")
  | Windows, X86_64 => Some (livekit_release "_windows_amd64.zip")
  | _, _ => None
  end.

(** [PATH] is read when it is Unicode. *)
Definition find_in_path (name : string) (env : environment) (d : Disk) : option string :=
  match env "PATH" with
  | Present paths =>
      head (filter (λ full, bool_decide (is_Some (files d !! full)) = true)
        ((λ dir, path_join dir name) <$> split_char ":" paths))
  | _ => None
  end.
Definition find_cloudflared_in_path (os : Os) : environment → Disk → option string :=
  find_in_path (cloudflared_binary_name os).
Definition find_livekit_in_path (os : Os) : environment → Disk → option string :=
  find_in_path (livekit_binary_name os).

(** What a download and the unpacking of an archive meet: the answer to a
    request (status and body), the files that a program writes (its success,
    its errors and the files by name), and whether permissions can be set. *)
Record Fetch := {
  ft_mkdir : bool;
  ft_get : string → option (Z * option string);
  ft_unpack : Command → option (bool * string * list (string * string));
  ft_chmod : bool;
}.

(** The files, and which of them can be executed. *)
Record Bins := { bn_disk : Disk; bn_executable : gset string }.
Definition bins_disk {E A} (m : M Disk E A) : M Bins E A :=
  zoom bn_disk (λ d b, {| bn_disk := d; bn_executable := bn_executable b |}) m.

Definition Fetching (A : Type) : Type := M Bins DesktopError A.

Section fetch.
Context (os : Os) (arch : Arch) (f : Fetch).

(** The body of a successful answer. *)
Definition download (url : string) : Fetching string :=
  '(status, body) ← lift (ok_or (ft_get f url) DownloadFailed);
  lift (reject_if (negb ((200 <=? status) && (status <? 300))) (DownloadStatus status));;
  lift (ok_or body DownloadFailed).

(** An archive is written, unpacked into the directory, and removed. *)
Definition unpack (archive bytes dir : string) (cmd : Command) : Fetching unit :=
  bins_disk (fs_write WriteError archive bytes);;
  '(success, stderr, unpacked) ← lift (ok_or (ft_unpack f cmd) SpawnFailed);
  bins_disk (λ d, (Ok (), foldl (λ d x, write_file (path_join dir x.1) x.2 d) d unpacked));;
  lift (reject_if (negb success) (ArchiveFailed stderr));;
  bins_disk (λ d, (Ok (), (fs_remove RemoveError archive d).2)).

(** [set_permissions(0o755)], on Unix. *)
Definition make_executable (p : string) : Fetching unit := λ b,
  if decide (os = Windows) then (Ok (), b)
  else if ft_chmod f && file_exists p (bn_disk b)
  then (Ok (), {| bn_disk := bn_disk b; bn_executable := {[p]} ∪ bn_executable b |})
  else (Err SetPermissions, b).

Definition tar_command (archive dir : string) : Command :=
  {| cmd_program := "tar"; cmd_args := [Word "xzf"; Path archive; Word "-C"; Path dir]; cmd_stdin := None |}.
Definition zip_command (archive dir : string) : Command :=
  match os with
  | Windows =>
      {| cmd_program := "powershell";
         cmd_args := [Word "-Command"; Word ("Expand-Archive -Path '" +:+ archive +:+ "' -DestinationPath '" +:+ dir +:+ "' -Force")];
         cmd_stdin := None |}
  | _ => {| cmd_program := "unzip"; cmd_args := [Word "-o"; Path archive; Word "-d"; Path dir]; cmd_stdin := None |}
  end.

Definition ensure_cloudflared (env : environment) (data_dir : string) : Fetching string :=
  d ← gets bn_disk;
  match find_cloudflared_in_path os env d with
  | Some path => mret path
  | None =>
      let bin_dir := path_join data_dir "bin" in
      let cf_path := path_join bin_dir (cloudflared_binary_name os) in
      if file_exists cf_path d then mret cf_path
      else
        url ← lift (ok_or (cloudflared_download_url os arch) NoDownload);
        lift (reject_if (negb (ft_mkdir f)) CreateDir);;
        bytes ← download url;
        (if ends_with ".tgz" url then
           let tgz_path := path_join bin_dir "cloudflared.tgz" in
           unpack tgz_path bytes bin_dir (tar_command tgz_path bin_dir)
         else bins_disk (fs_write WriteError cf_path bytes));;
        make_executable cf_path;;
        mret cf_path
  end.

Definition ensure_livekit (env : environment) (data_dir : string) : Fetching string :=
  d ← gets bn_disk;
  match find_livekit_in_path os env d with
  | Some path => mret path
  | None =>
      let bin_dir := path_join data_dir "bin" in
      let lk_path := path_join bin_dir (livekit_binary_name os) in
      if file_exists lk_path d then mret lk_path
      else
        url ← lift (ok_or (livekit_download_url os arch) NoDownload);
        lift (reject_if (negb (ft_mkdir f)) CreateDir);;
        bytes ← download url;
        (if ends_with ".tar.gz" url then
           let tgz_path := path_join bin_dir "livekit.tar.gz" in
           unpack tgz_path bytes bin_dir (tar_command tgz_path bin_dir)
         else if ends_with ".zip" url then
           let zip_path := path_join bin_dir "livekit.zip" in
           unpack zip_path bytes bin_dir (zip_command zip_path bin_dir)
         else bins_disk (fs_write WriteError lk_path bytes));;
        make_executable lk_path;;
        mret lk_path
  end.
End fetch.

(** ** The state of the commands *)

(** A child of the application.  One that has ended by itself stays in the
    system's table until it is waited for. *)
Record Process := { ps_command : Command; ps_alive : bool }.

(** The children that have not been waited for; the embedded servers that
    were started, by URL. *)
Record Desktop {Schema : Type} := {
  dk_start : StartState Schema;
  dk_env : environment;
  dk_keyring : option string;
  dk_executable : gset string;
  dk_server : option string;
  dk_tunnel : option (string * nat);
  dk_livekit : option (string * nat);
  dk_processes : gmap nat Process;
  dk_next : nat;
  dk_serving : list string;
}.
Arguments Desktop Schema : clear implicits.

(** What a program that was started writes to its standard error within the
    time that is waited for it, line by line ([None]: it can not be read),
    and whether it has ended by then. *)
Record Output := { ou_lines : list (option string); ou_ended : bool }.

Inductive KeyringError := NewFails | PlatformFailure | NoStorageAccess | OtherKeyring.

Record World := {
  wd_fetch : Fetch;
  wd_spawn : Command → bool;
  wd_output : Command → Output;
  wd_bindable : Z → bool;
  wd_uuids : string * string;
  wd_keyring : option KeyringError;
  wd_start : StartEnv;
  wd_bound : option Z;          (* the port of the listener *)
  wd_health : list bool;        (* the answers of GET /health *)
}.

(** ** Commands *)

(** Extract a trycloudflare.com URL from a line of cloudflared's output. *)
Definition extract_tunnel_url (line : string) : option string :=
  head (filter (λ w, contains ".trycloudflare.com" w = true ∧ starts_with "https://" w = true)
    ((λ word, trim (trim_matches "|" word)) <$> split_whitespace line)).

(** What the reading of the output sends first, and what is received of it
    in time: a line that [found] accepts, an error, the end. *)
Fixpoint await_output {A} (found : string → option A) (lines : list (option string)) (ended : bool) (seconds : Z) :
    result DesktopError A :=
  match lines with
  | Some line :: lines => match found line with Some a => Ok a | None => await_output found lines ended seconds end
  | None :: _ => Err StderrRead
  | [] => if ended then Err ExitedEarly else Err (TimedOutAfter seconds)
  end.

Definition port_of_url (url : string) : option Z :=
  parse_uint 16 (match rsplit_once ":" url with Some (_, p) => p | None => url end).

(** Ports are tried in their order, each by binding it. *)
Definition find_available_port (bindable : Z → bool) (first last : Z) : option Z :=
  head (filter (λ p, bindable p = true) (seqZ first (last - first + 1))).

Definition set_var (name v : string) (env : environment) : environment :=
  λ n, if decide (n = name) then Present v else env n.

Section commands.
Context `{HX : HexCrate, PO : Poseidon, AK : !Ark, CK : Clock, TM : Toml} (json_vkey : string → option SnarkJsVKey).
Context `{SPO : Serde ServerPolicy, ST : Serde ChannelType, SS : Serde FederationScope}.
Context {Schema : Type} (run_sql : string → Schema → result sql_error Schema).
Context (os : Os) (arch : Arch) (data_dir config_path : string).

Abbreviation Cmd := (M (Desktop Schema) DesktopError).

Definition dk_disk (s : Desktop Schema) : Disk := sd_disk (dk_start s).
Definition with_start (x : StartState Schema) (s : Desktop Schema) : Desktop Schema :=
  {| dk_start := x; dk_env := dk_env s; dk_keyring := dk_keyring s; dk_executable := dk_executable s;
     dk_server := dk_server s; dk_tunnel := dk_tunnel s; dk_livekit := dk_livekit s; dk_processes := dk_processes s;
     dk_next := dk_next s; dk_serving := dk_serving s |}.
Definition with_disk (d : Disk) (s : Desktop Schema) : Desktop Schema :=
  with_start {| sd_migrations := sd_migrations (dk_start s); sd_merkle := sd_merkle (dk_start s);
                sd_servers := sd_servers (dk_start s); sd_channels := sd_channels (dk_start s); sd_disk := d |} s.
Definition with_env (env : environment) (s : Desktop Schema) : Desktop Schema :=
  {| dk_start := dk_start s; dk_env := env; dk_keyring := dk_keyring s; dk_executable := dk_executable s;
     dk_server := dk_server s; dk_tunnel := dk_tunnel s; dk_livekit := dk_livekit s; dk_processes := dk_processes s;
     dk_next := dk_next s; dk_serving := dk_serving s |}.
Definition with_keyring (k : option string) (s : Desktop Schema) : Desktop Schema :=
  {| dk_start := dk_start s; dk_env := dk_env s; dk_keyring := k; dk_executable := dk_executable s;
     dk_server := dk_server s; dk_tunnel := dk_tunnel s; dk_livekit := dk_livekit s; dk_processes := dk_processes s;
     dk_next := dk_next s; dk_serving := dk_serving s |}.
Definition with_executable (e : gset string) (s : Desktop Schema) : Desktop Schema :=
  {| dk_start := dk_start s; dk_env := dk_env s; dk_keyring := dk_keyring s; dk_executable := e;
     dk_server := dk_server s; dk_tunnel := dk_tunnel s; dk_livekit := dk_livekit s; dk_processes := dk_processes s;
     dk_next := dk_next s; dk_serving := dk_serving s |}.
Definition with_server (u : option string) (serving : list string) (s : Desktop Schema) : Desktop Schema :=
  {| dk_start := dk_start s; dk_env := dk_env s; dk_keyring := dk_keyring s; dk_executable := dk_executable s;
     dk_server := u; dk_tunnel := dk_tunnel s; dk_livekit := dk_livekit s; dk_processes := dk_processes s;
     dk_next := dk_next s; dk_serving := serving |}.
Definition with_children (t l : option (string * nat)) (r : gmap nat Process) (n : nat) (s : Desktop Schema) :
    Desktop Schema :=
  {| dk_start := dk_start s; dk_env := dk_env s; dk_keyring := dk_keyring s; dk_executable := dk_executable s;
     dk_server := dk_server s; dk_tunnel := t; dk_livekit := l; dk_processes := r;
     dk_next := n; dk_serving := dk_serving s |}.

Definition desktop_disk {E A} (m : M Disk E A) : M (Desktop Schema) E A := zoom dk_disk with_disk m.
Definition desktop_bins {A} (m : Fetching A) : Cmd A :=
  zoom (λ s, {| bn_disk := dk_disk s; bn_executable := dk_executable s |})
       (λ b s, with_executable (bn_executable b) (with_disk (bn_disk b) s)) m.

Definition modify (f : Desktop Schema → Desktop Schema) : Cmd unit := λ s, (Ok (), f s).

(** [Command::spawn]: the child runs until it ends or is ended, also when its
    handle is dropped. *)
Definition spawn (w : World) (cmd : Command) : Cmd nat := λ s,
  if wd_spawn w cmd
  then (Ok (dk_next s), with_children (dk_tunnel s) (dk_livekit s)
    (<[dk_next s := {| ps_command := cmd; ps_alive := true |}]> (dk_processes s)) (S (dk_next s)) s)
  else (Err SpawnFailed, s).

(** A child ends by itself. *)
Definition exits (child : nat) (s : Desktop Schema) : Desktop Schema :=
  with_children (dk_tunnel s) (dk_livekit s)
    (alter (λ p, {| ps_command := ps_command p; ps_alive := false |}) child (dk_processes s)) (dk_next s) s.

(** The wait for what a new child writes.  When the output has come to its
    end without it, the child has ended. *)
Definition await_child {A} (child : nat) (found : string → option A) (o : Output) (seconds : Z) : Cmd A := λ s,
  match await_output found (ou_lines o) (ou_ended o) seconds with
  | Err ExitedEarly => (Err ExitedEarly, exits child s)
  | r => (r, s)
  end.

(** [kill], whose error is ignored, and [wait], which returns only once the
    child has ended, whatever [kill] did. *)
Definition kill_and_wait (child : nat) (processes : gmap nat Process) : gmap nat Process := delete child processes.

(** What follows the check that no server runs.  The lock is not held in
    between, so that a second command can be here too.  The start of the
    server is not undone when its health is not seen in time. *)
Definition boot_server (w : World) : Cmd string :=
  env ← gets dk_env;
  cfg ← catch_map ConfigFailed (desktop_disk (load_config env (Some config_path)));
  catch_map (λ _, StartupFailed) (zoom dk_start with_start (prepare_state json_vkey run_sql
    {| se_vars := env; se_mig_fault := se_mig_fault (wd_start w); se_fault := se_fault (wd_start w);
       se_now := se_now (wd_start w); se_key_file := se_key_file (wd_start w);
       se_fresh_key := se_fresh_key (wd_start w); se_channel_uuid := se_channel_uuid (wd_start w) |} cfg));;
  port ← lift (ok_or (wd_bound w) StartupFailed);
  let url := "http://127.0.0.1:" +:+ pretty (Z.to_N port) in
  modify (λ s, with_server (Some url) (dk_serving s ++ [url]) s);;
  lift (reject_if (negb (existsb id (take 50 (wd_health w)))) NotReady);;
  mret url.

Definition start_embedded_server (w : World) : Cmd string :=
  running ← gets dk_server;
  match running with Some url => mret url | None => boot_server w end.

Definition tunnel_command (cf_path : string) (port : Z) : Command :=
  {| cmd_program := cf_path;
     cmd_args := [Word "tunnel"; Word "--url"; Word ("http://127.0.0.1:" +:+ pretty (Z.to_N port))]; cmd_stdin := None |}.

Definition start_tunnel (w : World) : Cmd string :=
  running ← gets dk_tunnel;
  match running with
  | Some (url, _) => mret url
  | None =>
      server ← gets dk_server;
      srv_url ← lift (ok_or server ServerNotRunning);
      port ← lift (ok_or (port_of_url srv_url) (PortOf srv_url));
      env ← gets dk_env;
      cf_path ← desktop_bins (ensure_cloudflared os arch (wd_fetch w) env data_dir);
      let cmd := tunnel_command cf_path port in
      child ← spawn w cmd;
      url ← await_child child extract_tunnel_url (wd_output w cmd) 30;
      modify (λ s, with_children (Some (url, child)) (dk_livekit s) (dk_processes s) (dk_next s) s);;
      mret url
  end.

Definition stop_tunnel : Cmd unit := λ s,
  match dk_tunnel s with
  | Some (_, child) => (Ok (), with_children None (dk_livekit s) (kill_and_wait child (dk_processes s)) (dk_next s) s)
  | None => (Ok (), s)
  end.
Definition get_tunnel_url (s : Desktop Schema) : option string := fst <$> dk_tunnel s.

Definition livekit_command (lk_path api_key api_secret : string) (port : Z) : Command :=
  {| cmd_program := lk_path;
     cmd_args := [Word "--dev"; Word "--bind"; Word "127.0.0.1"; Word "--port"; Word (pretty (Z.to_N port));
                  Word "--keys"; Word (api_key +:+ ": " +:+ api_secret)];
     cmd_stdin := None |}.
Definition livekit_ready (line : string) : option unit :=
  if contains "started" line || contains "ready" line || contains "listening" line then Some () else None.

(** The URL, and the port when it has just been started. *)
Definition start_local_livekit (w : World) : Cmd (string * option Z) :=
  running ← gets dk_livekit;
  match running with
  | Some (url, _) => mret (url, None)
  | None =>
      server ← gets dk_server;
      lift (reject_if (bool_decide (is_Some server)) ServerRunning);;
      env ← gets dk_env;
      lk_path ← desktop_bins (ensure_livekit os arch (wd_fetch w) env data_dir);
      let api_key := "annex_" +:+ (wd_uuids w).1 in
      let api_secret := "secret_" +:+ (wd_uuids w).2 in
      port ← lift (ok_or (find_available_port (wd_bindable w) 7880 7899) NoPort);
      let lk_url := "ws://127.0.0.1:" +:+ pretty (Z.to_N port) in
      let cmd := livekit_command lk_path api_key api_secret port in
      child ← spawn w cmd;
      await_child child livekit_ready (wd_output w cmd) 15;;
      modify (λ s, with_env (set_var "ANNEX_LIVEKIT_API_SECRET" api_secret (set_var "ANNEX_LIVEKIT_API_KEY" api_key
                     (set_var "ANNEX_LIVEKIT_PUBLIC_URL" lk_url (set_var "ANNEX_LIVEKIT_URL" lk_url (dk_env s))))) s);;
      modify (λ s, with_children (dk_tunnel s) (Some (lk_url, child)) (dk_processes s) (dk_next s) s);;
      mret (lk_url, Some port)
  end.

Definition stop_local_livekit : Cmd unit := λ s,
  match dk_livekit s with
  | Some (_, child) => (Ok (), with_children (dk_tunnel s) None (kill_and_wait child (dk_processes s)) (dk_next s) s)
  | None => (Ok (), s)
  end.
Definition get_local_livekit_url (s : Desktop Schema) : option string := fst <$> dk_livekit s.
End commands.

(** ** The OS keyring *)

Section keyring.
Context {Schema : Type}.
Abbreviation Cmd := (M (Desktop Schema) DesktopError).

Definition store_api_secret_in_keyring (w : World) (secret : string) : Cmd unit := λ s,
  match wd_keyring w with
  | Some _ => (Err KeyringFailed, s)
  | None => (Ok (), with_keyring (Some secret) s)
  end.
Definition load_api_secret_from_keyring (w : World) (s : Desktop Schema) : result DesktopError (option string) :=
  match wd_keyring w with
  | None => Ok (dk_keyring s)
  | Some PlatformFailure | Some NoStorageAccess => Ok None
  | Some _ => Err KeyringFailed
  end.
Definition delete_api_secret_from_keyring (w : World) : Cmd unit := λ s,
  match wd_keyring w with
  | Some _ => (Err KeyringFailed, s)
  | None => (Ok (), with_keyring None s)
  end.
End keyring.

(** ** LiveKit's settings

    toml's tables are sorted by their keys. *)

Class TomlPrint := { toml_print : list (string * toml) → option string }.

Fixpoint keys_sorted (l : list string) : bool :=
  match l with
  | k1 :: (k2 :: _) as l' => String.ltb k1 k2 && keys_sorted l'
  | _ => true
  end.
Fixpoint canonical (v : toml) : bool :=
  match v with
  | TArray l => forallb canonical l
  | TTable fields => keys_sorted (fields.*1) && forallb (λ f, canonical f.2) fields
  | _ => true
  end.
(** What is parsed is sorted, and what is printed parses to what it was. *)
Class TomlLaws `(TM : Toml, TomlPrint) := {
  toml_parse_canonical : ∀ text t, toml_parse text = Some t → canonical (TTable t) = true;
  toml_parse_print : ∀ text t, canonical (TTable t) = true → toml_print t = Some text → toml_parse text = Some t;
}.

Fixpoint toml_insert (name : string) (v : toml) (t : list (string * toml)) : list (string * toml) :=
  match t with
  | [] => [(name, v)]
  | (n, x) :: t' =>
      if decide (name = n) then (n, v) :: t'
      else if String.ltb name n then (name, v) :: t else (n, x) :: toml_insert name v t'
  end.
Definition toml_remove (name : string) (t : list (string * toml)) : list (string * toml) :=
  filter (λ f, f.1 ≠ name) t.

Record LiveKitSettingsResponse := {
  ls_configured : bool;
  ls_url : string;
  ls_api_key : string;
  ls_has_api_secret : bool;
  ls_token_ttl_seconds : Z;
}.
Record SaveLiveKitInput := { si_url : string; si_api_key : string; si_api_secret : string; si_token_ttl_seconds : Z }.
Definition default_token_ttl : Z := 3600.

(** [u64 as i64]. *)
Definition as_i64 (z : Z) : Z := if z <? 2 ^ 63 then z else z - 2 ^ 64.

Section livekit_settings.
Context `{TM : Toml, TP : TomlPrint}.
Context {Schema : Type} (config_path : string).
Abbreviation Cmd := (M (Desktop Schema) DesktopError).

Definition get_livekit_config (w : World) : Cmd LiveKitSettingsResponse :=
  env ← gets dk_env;
  cfg ← catch_map ConfigFailed (desktop_disk (load_config env (Some config_path)));
  s ← get;
  let has_secret_in_keyring :=
    match load_api_secret_from_keyring w s with Ok (Some secret) => negb (is_empty secret) | _ => false end in
  let explicitly_configured :=
    match read_to_string config_path (dk_disk s) with
    | Ok contents =>
        match toml_parse contents with Some doc => bool_decide (is_Some (toml_get "livekit" doc)) | None => false end
    | _ => false
    end in
  mret {| ls_configured := explicitly_configured; ls_url := lk_url (livekit cfg); ls_api_key := lk_api_key (livekit cfg);
          ls_has_api_secret := negb (is_empty (lk_api_secret (livekit cfg))) || has_secret_in_keyring;
          ls_token_ttl_seconds := lk_token_ttl_seconds (livekit cfg) |}.

(** The document of the file. *)
Definition read_document : Cmd (list (string * toml)) :=
  s ← get;
  contents ← lift (map_err (λ _, ReadConfig config_path) (read_to_string config_path (dk_disk s)));
  lift (ok_or (toml_parse contents) ConfigShape).
Definition write_document (doc : list (string * toml)) : Cmd unit :=
  serialized ← lift (ok_or (toml_print doc) Serialize);
  desktop_disk (fs_write WriteError config_path serialized).

Definition livekit_table (input : SaveLiveKitInput) (secret_in_keyring : bool) (lk : list (string * toml)) :
    list (string * toml) :=
  let lk := toml_insert "url" (TString (si_url input)) lk in
  let lk := toml_insert "api_key" (TString (si_api_key input)) lk in
  let lk := toml_insert "token_ttl_seconds" (TInteger (as_i64 (si_token_ttl_seconds input))) lk in
  if secret_in_keyring then toml_remove "api_secret" lk
  else toml_insert "api_secret" (TString (si_api_secret input)) lk.

Definition save_livekit_config (w : World) (input : SaveLiveKitInput) : Cmd unit :=
  s0 ← get;
  let secret_in_keyring := is_ok (store_api_secret_in_keyring w (si_api_secret input) s0).1 in
  put (store_api_secret_in_keyring w (si_api_secret input) s0).2;;
  doc ← read_document;
  lk ← lift (match toml_get "livekit" doc with
             | None => Ok []
             | Some (TTable lk) => Ok lk
             | Some _ => Err ConfigShape
             end);
  write_document (toml_insert "livekit" (TTable (livekit_table input secret_in_keyring lk)) doc).

Definition clear_livekit_config (w : World) : Cmd unit :=
  s0 ← get;
  put (delete_api_secret_from_keyring w s0).2;;
  doc ← read_document;
  write_document (toml_remove "livekit" doc).
End livekit_settings.

(** [get] is the status of the answer. *)
Definition check_livekit_reachable (client_builds : bool) (http_get : string → option Z) (url : string) :
    result DesktopError bool :=
  let http_url := replace "wss://" "https://" (replace "ws://" "http://" url) in
  _ ← reject_if (negb client_builds) HttpClient;
  match http_get http_url with
  | Some status => Ok ((200 <=? status) && (status <? 400))
  | None => Ok false
  end.

(** The file chosen in the dialog, if any. *)
Definition export_identity_json (chosen : option string) (json : string) : M Disk DesktopError (option string) :=
  match chosen with
  | None => mret None
  | Some path => fs_write WriteError path json;; mret (Some path)
  end.

(** ** Media *)

Inductive MediaWarning := RuntimeDirNotSet | PipeWireNotDetected | PortalNotRunning | UnsupportedPlatform.
Record PlatformMediaStatus := {
  pm_screen_share_available : bool;
  pm_camera_mic_available : bool;
  pm_warnings : list MediaWarning;
  pm_display_server : string;
}.

(** The files, and the programs that are asked: pw-cli and dbus-send. *)
Record Probe := { pb_exists : string → bool; pb_pw_cli : bool; pb_portal : bool }.

Definition detect_pipewire (p : Probe) (env : environment) : bool * bool * list MediaWarning :=
  let runtime_dir := env_or env "XDG_RUNTIME_DIR" "" in
  let '(pipewire_found, warnings) :=
    if is_empty runtime_dir then (false, [RuntimeDirNotSet])
    else ((pb_exists p (path_join runtime_dir "pipewire-0") || pb_pw_cli p), []) in
  (pipewire_found, pb_portal p,
   warnings ++ (if pipewire_found : bool then [] else [PipeWireNotDetected]) ++
   (if pb_portal p then [] else [PortalNotRunning])).

Definition detect_display_server (env : environment) : string :=
  if negb (is_empty (env_or env "WAYLAND_DISPLAY" "")) then "wayland"
  else if negb (is_empty (env_or env "DISPLAY" "")) then "x11"
  else "unknown".

Definition get_platform_media_status (os : Os) (p : Probe) (env : environment) : PlatformMediaStatus :=
  match os with
  | Linux =>
      let display_server := detect_display_server env in
      let '(pipewire_ok, portal_ok, warnings) := detect_pipewire p env in
      {| pm_screen_share_available := if decide (display_server = "wayland") then pipewire_ok && portal_ok else true;
         pm_camera_mic_available := true; pm_warnings := warnings; pm_display_server := display_server |}
  | MacOs => {| pm_screen_share_available := true; pm_camera_mic_available := true; pm_warnings := [];
                pm_display_server := "macos" |}
  | Windows => {| pm_screen_share_available := true; pm_camera_mic_available := true; pm_warnings := [];
                  pm_display_server := "windows" |}
  | OtherOs => {| pm_screen_share_available := false; pm_camera_mic_available := false;
                  pm_warnings := [UnsupportedPlatform]; pm_display_server := "unknown" |}
  end.

Inductive WindowEvent := Resized | Focused (focused : bool) | OtherEvent.
(** Whether an event makes the hidden window visible again, to keep its
    tracks alive; [minimized] may fail. *)
Definition media_keepalive_on_window_event (os : Os) (keepalive : bool) (minimized : option bool) (e : WindowEvent) : bool :=
  match os with
  | Windows =>
      keepalive && match e with Resized => default false minimized | Focused true => true | _ => false end
  | _ => false
  end.

(** ** main *)

(** Where the application lies: the directory of the executable and its
    parent, and the root of the workspace for development; and what exists. *)
Record Layout := {
  ly_exe_dir : string;
  ly_parent : option string;
  ly_workspace : string;
  ly_exists : string → bool;
  ly_is_dir : string → bool;
}.

Definition first_that (P : string → bool) (candidates : list string) : option string :=
  head (filter (λ p, P p = true) candidates).
(** In the directory above the executable's. *)
Definition in_parent (ly : Layout) (rest : string) : string :=
  match ly_parent ly with Some p => path_join p rest | None => "" end.
Definition resource_base (ly : Layout) : string :=
  if ly_exists ly (path_join (ly_exe_dir ly) "client/dist") then ly_exe_dir ly else ly_workspace ly.
Definition vkey_candidates (ly : Layout) : list string :=
  [path_join (ly_exe_dir ly) "membership_vkey.json"; path_join (ly_exe_dir ly) "zk/keys/membership_vkey.json";
   in_parent ly "Resources/membership_vkey.json"; path_join (resource_base ly) "zk/keys/membership_vkey.json"].
Definition piper_candidates (os : Os) (ly : Layout) : list string :=
  let name := match os with Windows => "piper.exe" | _ => "piper" end in
  [path_join (ly_exe_dir ly) ("piper/" +:+ name); in_parent ly ("Resources/piper/" +:+ name);
   path_join (resource_base ly) ("assets/piper/" +:+ name)].
Definition voices_candidates (ly : Layout) : list string :=
  [path_join (ly_exe_dir ly) "voices"; in_parent ly "Resources/voices"; path_join (resource_base ly) "assets/voices"].

Definition DESKTOP_CORS_ORIGINS : string := "tauri://localhost,https://tauri.localhost,http://tauri.localhost".
Definition set_if_some (name : string) (v : option string) (env : environment) : environment :=
  match v with Some v => set_var name v env | None => env end.
(** [var(name).is_err()]. *)
Definition is_unset (name : string) (env : environment) : bool :=
  match env name with Present _ => false | _ => true end.

Definition prepare_environment (os : Os) (ly : Layout) (data_dir : string)
    (secret : result DesktopError (option string)) (env : environment) : environment :=
  let env := set_var "ANNEX_CLIENT_DIR" (path_join (resource_base ly) "client/dist") env in
  let env := set_if_some "ANNEX_ZK_KEY_PATH" (first_that (ly_exists ly) (vkey_candidates ly)) env in
  let env := set_if_some "ANNEX_TTS_BINARY_PATH" (first_that (ly_exists ly) (piper_candidates os ly)) env in
  let env := set_if_some "ANNEX_TTS_VOICES_DIR" (first_that (ly_is_dir ly) (voices_candidates ly)) env in
  let env := set_var "ANNEX_UPLOAD_DIR" (path_join data_dir "uploads") env in
  let env := if is_unset "ANNEX_CORS_ORIGINS" env then set_var "ANNEX_CORS_ORIGINS" DESKTOP_CORS_ORIGINS env else env in
  if is_unset "ANNEX_LIVEKIT_API_SECRET" env then
    match secret with Ok (Some secret) => set_var "ANNEX_LIVEKIT_API_SECRET" secret env | _ => env end
  else env.

(** The state that is managed for the commands: nothing has been started. *)
Definition managed {Schema} (start : StartState Schema) (env : environment) (keyring : option string)
    (executable : gset string) : Desktop Schema :=
  {| dk_start := start; dk_env := env; dk_keyring := keyring; dk_executable := executable; dk_server := None;
     dk_tunnel := None; dk_livekit := None; dk_processes := ∅; dk_next := 0; dk_serving := [] |}.

(** [main], up to the windows: the state that the commands start from; an
    error of [ensure_config] is a panic. *)
Definition desktop_main {Schema} (os : Os) (ly : Layout) (data_dir : string) (w : World) (start : StartState Schema)
    (env : environment) (keyring : option string) (executable : gset string) : option (string * Desktop Schema) :=
  match ensure_config data_dir (sd_disk start) with
  | (Ok config_path, d) =>
      let s := with_disk d (managed start env keyring executable) in
      Some (config_path, with_env (prepare_environment os ly data_dir (load_api_secret_from_keyring w s) env) s)
  | _ => None
  end.

(** ** The commands that the window can call *)

Inductive Invocation :=
  | SaveStartupMode (prefs : StartupPrefs)
  | ClearStartupMode
  | StartEmbeddedServer
  | StartTunnel
  | StopTunnel
  | ExportIdentityJson (chosen : option string) (json : string)
  | GetLivekitConfig
  | StartLocalLivekit.

Section invoke.
Context `{HX : HexCrate, PO : Poseidon, AK : !Ark, CK : Clock, TM : Toml} (json_vkey : string → option SnarkJsVKey).
Context `{SPO : Serde ServerPolicy, ST : Serde ChannelType, SS : Serde FederationScope, SPr : Serde StartupPrefs}.
Context {Schema : Type} (run_sql : string → Schema → result sql_error Schema).
Context (os : Os) (arch : Arch) (data_dir config_path : string).

(** Whether the command succeeds; the others only read. *)
Definition invoke (c : Invocation) (w : World) (s : Desktop Schema) : bool * Desktop Schema :=
  let done {A} (o : result DesktopError A * Desktop Schema) := (is_ok o.1, o.2) in
  match c with
  | SaveStartupMode prefs => done (desktop_disk (save_startup_mode data_dir prefs) s)
  | ClearStartupMode => done (desktop_disk (clear_startup_mode data_dir) s)
  | StartEmbeddedServer => done (start_embedded_server json_vkey run_sql config_path w s)
  | StartTunnel => done (start_tunnel os arch data_dir w s)
  | StopTunnel => done (stop_tunnel s)
  | ExportIdentityJson chosen json => done (desktop_disk (export_identity_json chosen json) s)
  | GetLivekitConfig => done (get_livekit_config config_path w s)
  | StartLocalLivekit => done (start_local_livekit os arch data_dir w s)
  end.

(** What happens to the desktop: a command is called, one after another
    here, or a child ends by itself. *)
Inductive DesktopEvent :=
  | Called (c : Invocation) (w : World)
  | Exited (child : nat).

(** A run, with the children that failed commands left: a command that
    spawned one and failed. *)
Fixpoint run_events (l : list DesktopEvent) (s : Desktop Schema) : list nat * Desktop Schema :=
  match l with
  | [] => ([], s)
  | Called c w :: l =>
      let '(ok, s1) := invoke c w s in
      let '(orphans, s2) := run_events l s1 in
      ((if ok then [] else if decide (dk_next s < dk_next s1)%nat then [dk_next s] else []) ++ orphans, s2)
  | Exited child :: l => run_events l (exits child s)
  end.
End invoke.

(** * Theorems *)

(** ** Files *)

Lemma fs_write_cases {E} (e : E) p contents d r d' :
  fs_write e p contents d = (r, d') →
  (p ∈ unwritable d ∧ r = Err e ∧ d' = d) ∨ (p ∉ unwritable d ∧ r = Ok () ∧ d' = write_file p contents d).
Proof. unfold fs_write. case_decide; intros [= <- <-]; [by left|by right]. Qed.

Lemma write_file_lookup p contents d :
  p ∉ unwritable d → unreadable d !! p = None → read_to_string p (write_file p contents d) = Ok contents.
Proof. intros Hw Hr. unfold read_to_string, write_file. rewrite decide_False by done. cbn. by rewrite Hr, lookup_insert_eq. Qed.

Lemma string_map_app f s t : string_map f (s +:+ t) = string_map f s +:+ string_map f t.
Proof.
  induction s as [|c s IH]; [done|].
  change (String (f c) (string_map f (s +:+ t)) = String (f c) (string_map f s +:+ string_map f t)). by rewrite IH.
Qed.

(** A text without backslashes. *)
Definition slashed (s : string) : Prop := forward_slashes s = s.
Lemma slashed_app s t : slashed s → slashed t → slashed (s +:+ t).
Proof. unfold slashed, forward_slashes. intros Hs Ht. by rewrite string_map_app, Hs, Ht. Qed.
Lemma slashed_forward s : slashed (forward_slashes s).
Proof.
  unfold slashed, forward_slashes. induction s as [|c s IH]; [done|]. cbn. rewrite IH. by repeat case_decide.
Qed.
Lemma slashed_no_drive s : slashed s → has_drive_path s = false.
Proof. intros <-. apply forward_slashes_repaired. Qed.
Lemma default_config_slashed p : slashed (default_config p).
Proof. apply slashed_app; [by vm_compute|]. apply slashed_app; [apply slashed_forward|by vm_compute]. Qed.

Lemma fix_backslash_paths_cases p d r d' :
  fix_backslash_paths p d = (r, d') →
  match read_to_string p d with
  | Ok contents =>
      if has_drive_path contents
      then (p ∈ unwritable d ∧ r = Err (FixPaths p) ∧ d' = d) ∨
           (p ∉ unwritable d ∧ r = Ok () ∧ d' = write_file p (forward_slashes contents) d)
      else r = Ok () ∧ d' = d
  | Err NotFound => r = Ok () ∧ d' = d
  | Err _ => r = Err (ReadConfig p) ∧ d' = d
  | Panic => False
  end.
Proof.
  unfold fix_backslash_paths. destruct (read_to_string p d) as [contents|[]|] eqn:E; try by intros [= <- <-].
  - destruct (has_drive_path contents); [apply fs_write_cases|by intros [= <- <-]].
  - unfold read_to_string in E. destruct (unreadable d !! p), (files d !! p); done.
Qed.

(** A readable text without a drive is left alone, by this and by the
    server. *)
Lemma settled `{TM : Toml} data_dir d contents :
  read_to_string (path_join data_dir "config.toml") d = Ok contents → has_drive_path contents = false →
  ensure_config data_dir d = (Ok (path_join data_dir "config.toml"), d) ∧
  (load_file (Some (path_join data_dir "config.toml")) d).2 = d.
Proof.
  set (p := path_join data_dir "config.toml"). intros Hr Hd.
  unfold ensure_config, load_file, mbind, M_bind, gets. fold p.
  assert (file_exists p d = true) as Hex.
  { unfold file_exists, read_to_string in *. destruct (unreadable d !! p); [done|]. destruct (files d !! p); [|done].
    by rewrite bool_decide_eq_true_2. }
  unfold fix_backslash_paths, mret, M_ret. rewrite Hex. cbv beta iota. rewrite Hr. cbv beta iota. by rewrite Hd.
Qed.

Lemma ensure_config_cases `{TM : Toml} data_dir d path :
  (ensure_config data_dir d).1 = Ok path → path = path_join data_dir "config.toml".
Proof.
  unfold ensure_config, mbind, M_bind, gets, mret, M_ret. set (p := path_join data_dir "config.toml").
  destruct (file_exists p d); cbv beta iota; [|destruct (fs_write _ _ _ _) as [[[]| |] ?]; [|done..]];
    destruct (fix_backslash_paths p _) as [[[]| |] ?]; cbn; congruence.
Qed.

(** The settings of the desktop.  When the application is started they
    are in their file, or it ends with an error and nothing has changed.  A file that was there keeps its text, but for
    the backslashes if it names a drive; a missing file gets the default text.
    What is there then is not changed again: not by a second start, and not
    by the server when it loads it. *)
Theorem ensure_config_spec `{TM : Toml} data_dir d :
  let p := path_join data_dir "config.toml" in
  let '(r, d') := ensure_config data_dir d in
  (∀ q, q ≠ p → files d' !! q = files d !! q) ∧
  match r with
  | Ok path => path = p ∧
      files d' !! p = Some (match files d !! p with
        | Some contents => if has_drive_path contents then forward_slashes contents else contents
        | None => default_config (path_join data_dir "annex.db") end) ∧
      ensure_config data_dir d' = (Ok p, d') ∧ (load_file (Some p) d').2 = d'
  | Err e => (e = WriteDefaultConfig p ∨ e = FixPaths p ∨ e = ReadConfig p) ∧ d' = d
  | Panic => False
  end.
Proof.
  cbv zeta. set (p := path_join data_dir "config.toml").
  pose proof (settled data_dir) as Hstable. fold p in Hstable.
  destruct (ensure_config data_dir d) as [r d'] eqn:H. unfold ensure_config, mbind, M_bind, gets, mret, M_ret in H. fold p in H.
  destruct (file_exists p d) eqn:Hex; cbv beta iota in H.
  - destruct (fix_backslash_paths p d) as [r1 d1] eqn:Ef. apply fix_backslash_paths_cases in Ef.
    destruct (read_to_string p d) as [contents|[|code]|] eqn:Er; [| | |done].
    + assert (files d !! p = Some contents) as Hf
        by (unfold read_to_string in Er; destruct (unreadable d !! p), (files d !! p); cbn in Er; congruence).
      rewrite Hf. destruct (has_drive_path contents) eqn:Ed.
      * destruct Ef as [(Hw & -> & ->)|(Hw & -> & ->)]; cbv beta iota in H; injection H as <- <-; [split; [done|by eauto]|].
        assert (unreadable d !! p = None) as Hu by (unfold read_to_string in Er; by destruct (unreadable d !! p)).
        split; [intros q Hq; unfold write_file; rewrite decide_False by done; by apply lookup_insert_ne|].
        split; [done|]. split; [unfold write_file; rewrite decide_False by done; apply lookup_insert_eq|].
        eapply Hstable; [by apply write_file_lookup|apply slashed_no_drive, slashed_forward].
      * destruct Ef as [-> ->]. cbv beta iota in H. injection H as <- <-. split; [done|]. split; [done|]. split; [done|]. by eapply Hstable.
    + exfalso. unfold file_exists, read_to_string in *. destruct (unreadable d !! p); [done|].
      destruct (files d !! p); [done|]. cbn in Hex. done.
    + destruct Ef as [-> ->]. cbv beta iota in H. injection H as <- <-. by eauto.
  - unfold file_exists in Hex. apply orb_false_iff in Hex as [Hf%bool_decide_eq_false Hu%bool_decide_eq_false].
    apply eq_None_not_Some in Hf. apply eq_None_not_Some in Hu. rewrite Hf.
    destruct (fs_write _ p _ d) as [r0 d0] eqn:Ew. apply fs_write_cases in Ew as [(Hw & -> & ->)|(Hw & -> & ->)].
    { cbv beta iota in H. injection H as <- <-. by eauto. }
    set (text := default_config (path_join data_dir "annex.db")) in *.
    assert (read_to_string p (write_file p text d) = Ok text) as Hr by by apply write_file_lookup.
    assert (has_drive_path text = false) as Hd by apply slashed_no_drive, default_config_slashed.
    cbv beta iota in H.
    destruct (fix_backslash_paths p _) as [r1 d1] eqn:Ef. apply fix_backslash_paths_cases in Ef.
    rewrite Hr, Hd in Ef. destruct Ef as [-> ->]. cbv beta iota in H. injection H as <- <-.
    split; [intros q Hq; unfold write_file; rewrite decide_False by done; by apply lookup_insert_ne|].
    split; [done|]. split; [unfold write_file; rewrite decide_False by done; apply lookup_insert_eq|]. by eapply Hstable.
Qed.

Section prefs_theorems.
Context `{SPr : Serde StartupPrefs, !SerdeLaws StartupPrefs}.

(** The choice of the mode is kept until it is changed: what is saved
    is read, also after it was cleared, and once cleared there is none.  A
    failed command changes nothing. *)
Theorem startup_mode_round_trip data_dir prefs d :
  unreadable d !! path_join data_dir "startup_prefs.json" = None →
  let '(r1, d1) := save_startup_mode data_dir prefs d in
  let '(r2, d2) := clear_startup_mode data_dir d in
  (r1 = Ok () → get_startup_mode data_dir d1 = Some prefs) ∧ (r2 = Ok () → get_startup_mode data_dir d2 = None) ∧
  (r1 ≠ Ok () → d1 = d) ∧ (r2 ≠ Ok () → d2 = d).
Proof.
  set (p := path_join data_dir "startup_prefs.json"). intros Hu.
  unfold save_startup_mode, clear_startup_mode, get_startup_mode, mbind, M_bind, gets. fold p.
  destruct (fs_write WriteError p (to_json prefs) d) as [r1 d1] eqn:E1.
  assert (r1 = Ok () → read_to_string p d1 = Ok (to_json prefs)) as H1.
  { apply fs_write_cases in E1 as [(_ & -> & _)|(Hw & -> & ->)]; [done|]. intros _. by apply write_file_lookup. }
  assert (r1 ≠ Ok () → d1 = d) as H1'.
  { by apply fs_write_cases in E1 as [(_ & -> & ->)|(_ & -> & _)]. }
  assert (∀ x, unreadable x !! p = None → files x !! p = None →
    match read_to_string p x with Ok s => from_json s | _ => None end = None (A := StartupPrefs)) as Hnone.
  { intros x Hx Hf. unfold read_to_string. by rewrite Hx, Hf. }
  destruct (file_exists p d) eqn:Hex; cbv beta iota.
  - unfold fs_remove. case_decide as Hw; (split; [intros Hr; rewrite (H1 Hr); apply from_json_to_json|]);
      (split; [|by split]); [done|]. intros _. apply Hnone; cbn; apply lookup_delete_eq.
  - unfold file_exists in Hex. apply orb_false_iff in Hex as [Hf%bool_decide_eq_false _].
    apply eq_None_not_Some in Hf. split; [intros Hr; rewrite (H1 Hr); apply from_json_to_json|].
    split; [|by split]. intros _. by apply Hnone.
Qed.
End prefs_theorems.

(** ** Ports and URLs *)

(** The first port of the range that can be bound, if any. *)
Lemma find_available_port_spec bindable first last :
  match find_available_port bindable first last with
  | Some p => first ≤ p ≤ last ∧ bindable p = true ∧ ∀ q, first ≤ q < p → bindable q = false
  | None => ∀ q, first ≤ q ≤ last → bindable q = false
  end.
Proof.
  unfold find_available_port. remember (Z.to_nat (last - first + 1)) as n eqn:Hn.
  assert (seqZ first (last - first + 1) = (λ i, first + Z.of_nat i) <$> seq 0 n) as -> by (unfold seqZ; subst n; apply list_fmap_ext; lia).
  assert (∀ n k, match head (filter (λ p, bindable p = true) ((λ i, first + Z.of_nat i) <$> seq k n)) with
    | Some p => first + Z.of_nat k ≤ p < first + Z.of_nat (k + n) ∧ bindable p = true ∧
        ∀ q, first + Z.of_nat k ≤ q < p → bindable q = false
    | None => ∀ q, first + Z.of_nat k ≤ q < first + Z.of_nat (k + n) → bindable q = false
    end) as H.
  { clear. intros n. induction n as [|n IH]; intros k; cbn [seq fmap list_fmap]; [cbn; lia|].
    rewrite filter_cons. case_decide as Hb; [cbn; split; [lia|split; [done|lia]]|]. specialize (IH (S k)).
    apply not_true_is_false in Hb. destruct (head _) as [p|].
    - destruct IH as (Hp & Hbp & Hq). split; [lia|]. split; [done|]. intros q Hlt.
      destruct (decide (q = first + Z.of_nat k)) as [->|]; [done|apply Hq; lia].
    - intros q Hlt. destruct (decide (q = first + Z.of_nat k)) as [->|]; [done|apply IH; lia]. }
  specialize (H n 0%nat). destruct (head _) as [p|]; [|intros q Hq; apply H; lia].
  destruct H as (Hp & Hb & Hq). split; [lia|]. split; [done|]. intros q Hlt. apply Hq. lia.
Qed.

Lemma port_of_server_url n : Z.of_N n < 2 ^ 16 → port_of_url ("http://127.0.0.1:" +:+ pretty n) = Some (Z.of_N n).
Proof.
  intros Hn. unfold port_of_url.
  change ("http://127.0.0.1:" +:+ pretty n) with ("http://127.0.0.1" +:+ String ":" (pretty n)).
  rewrite rsplit_once_app by by apply pretty_N_lacks.
  unfold parse_uint. rewrite parse_u64_pretty by lia. cbn. by rewrite (proj2 (Z.ltb_lt _ _)).
Qed.

(** ** LiveKit's settings *)

Lemma toml_get_insert name v t : toml_get name (toml_insert name v t) = Some v.
Proof.
  unfold toml_get. induction t as [|[n x] t IH]; cbn; [by rewrite decide_True|].
  case_decide as E; cbn; [by rewrite decide_True|].
  destruct (String.ltb name n); cbn; [by rewrite decide_True|]. by rewrite decide_False by (by intros ->).
Qed.
Lemma toml_get_insert_ne name n v t : n ≠ name → toml_get name (toml_insert n v t) = toml_get name t.
Proof.
  intros Hne. unfold toml_get. induction t as [|[m x] t IH]; cbn; [by rewrite decide_False|].
  case_decide as E; cbn; [subst; by rewrite !decide_False|].
  destruct (String.ltb n m); cbn; [by rewrite decide_False|]. case_decide; [done|exact IH].
Qed.
Lemma toml_get_remove name t : toml_get name (toml_remove name t) = None.
Proof.
  unfold toml_get, toml_remove. induction t as [|[n x] t IH]; cbn; [done|].
  destruct (decide (n = name)) as [->|Hn].
  - rewrite decide_False by (intros []; done). exact IH.
  - rewrite decide_True by done. cbn. by rewrite decide_False.
Qed.
Lemma toml_get_remove_ne name n t : n ≠ name → toml_get name (toml_remove n t) = toml_get name t.
Proof.
  intros Hne. unfold toml_get, toml_remove. induction t as [|[m x] t IH]; cbn; [done|].
  destruct (decide (m = n)) as [->|Hn].
  - rewrite decide_False by (intros []; done). by rewrite (decide_False (P := n = name)).
  - rewrite decide_True by done. cbn. case_decide; [done|exact IH].
Qed.

Lemma ltb_spec a b : String.ltb a b = true ↔ String.le a b ∧ a ≠ b.
Proof.
  split; [apply text_lt_le|]. unfold String.le, String.leb, String.ltb. intros [H Hne].
  destruct (a ?= b)%string eqn:E; [|done|done]. by apply String.compare_eq_iff in E.
Qed.
Lemma ltb_trans a b c : String.ltb a b = true → String.ltb b c = true → String.ltb a c = true.
Proof.
  rewrite !ltb_spec. intros [H1 N1] [H2 N2]. split; [by etransitivity|].
  intros ->. by apply N1, (anti_symm String.le).
Qed.
Lemma ltb_total a b : a ≠ b → String.ltb a b = false → String.ltb b a = true.
Proof.
  intros Hne H. rewrite ltb_spec. split; [|done]. destruct (total String.le a b) as [Hle|]; [|done].
  assert (String.ltb a b = true) by (by rewrite ltb_spec). congruence.
Qed.

Lemma keys_sorted_cons k l : keys_sorted (k :: l) = true ↔ (∀ k', head l = Some k' → String.ltb k k' = true) ∧ keys_sorted l = true.
Proof.
  destruct l as [|k' l]; cbn; [naive_solver|]. rewrite andb_true_iff. naive_solver.
Qed.
Lemma toml_insert_head name v t k :
  head (toml_insert name v t).*1 = Some k → k = name ∨ head t.*1 = Some k.
Proof. destruct t as [|[n x] t]; cbn; [naive_solver|]. case_decide; [naive_solver|]. destruct (String.ltb name n); cbn; naive_solver. Qed.

Lemma forallb_cons_true {A} (P : A → bool) a l : P a = true → forallb P l = true → forallb P (a :: l) = true.
Proof. intros H1 H2. cbn. by rewrite H1. Qed.

Lemma canonical_insert name v t :
  canonical (TTable t) = true → canonical v = true → canonical (TTable (toml_insert name v t)) = true.
Proof.
  intros Ht Hv. cbn in *. apply andb_true_iff in Ht as [Hs Hc]. apply andb_true_iff. revert Hs Hc.
  induction t as [|[n x] t IH]; cbn [toml_insert fmap list_fmap]; [intros _ _; split; [done|by apply forallb_cons_true]|].
  intros [Hh Hs]%keys_sorted_cons [Hx Hc]%andb_true_iff. cbn in Hx.
  case_decide as E; [|destruct (String.ltb name n) eqn:El].
  - subst. split; [by apply keys_sorted_cons|]. by apply forallb_cons_true.
  - split; [|by repeat apply forallb_cons_true]. apply keys_sorted_cons. split; [by intros k [= <-]|by apply keys_sorted_cons].
  - destruct (IH Hs Hc) as [Hs' Hc']. split; [|by apply forallb_cons_true].
    apply keys_sorted_cons. split; [|exact Hs']. intros k [->|Hk]%toml_insert_head; [by apply ltb_total|by apply Hh].
Qed.

Lemma keys_sorted_below k l k' : keys_sorted (k :: l) = true → k' ∈ l → String.ltb k k' = true.
Proof.
  revert k. induction l as [|a l IH]; [by intros k _ ?%not_elem_of_nil|].
  intros k [Hh Hs]%keys_sorted_cons [->|Hin]%elem_of_cons; [by apply Hh|].
  eapply ltb_trans; [by apply Hh|]. by apply IH.
Qed.

Lemma canonical_remove name t : canonical (TTable t) = true → canonical (TTable (toml_remove name t)) = true.
Proof.
  intros Ht. cbn in *. apply andb_true_iff in Ht as [Hs Hc]. apply andb_true_iff. revert Hs Hc. unfold toml_remove.
  induction t as [|[n x] t IH]; [done|]. intros Hs [Hx Hc]%andb_true_iff. cbn [fmap list_fmap] in Hs. rewrite filter_cons.
  pose proof Hs as [_ Hs']%keys_sorted_cons. destruct (IH Hs' Hc) as [Hs1 Hc1].
  case_decide; [|done]. split; [|by apply forallb_cons_true]. apply keys_sorted_cons. split; [|done].
  intros k Hk. eapply keys_sorted_below; [exact Hs|]. apply head_Some_elem_of in Hk.
  apply list_elem_of_fmap in Hk as (f & -> & [_ Hf]%list_elem_of_filter). by apply list_elem_of_fmap_2.
Qed.

Section livekit_theorems.
Context `{TM : Toml, TP : TomlPrint, !TomlLaws TM TP}.
Context {Schema : Type} (config_path : string).
Implicit Types s : Desktop Schema.

Lemma read_config_no_secret doc lk :
  toml_get "livekit" doc = Some (TTable lk) → toml_get "api_secret" lk = None → read_config doc = None.
Proof.
  intros Hd Hl. assert (read_table read_livekit (TTable lk) = None) as Hr.
  { assert (required "api_secret" read_string lk = None) as Hs by (unfold required; by rewrite Hl).
    unfold read_table, read_livekit. destruct (required "url" _ _); [|done].
    cbn [mbind option_bind]. destruct (optional "public_url" _ _ _); [|done].
    cbn [mbind option_bind]. destruct (required "api_key" _ _); [|done].
    cbn [mbind option_bind]. by rewrite Hs. }
  assert (optional "livekit" LiveKitConfig_default (read_table read_livekit) doc = None) as Ho
    by (unfold optional; by rewrite Hd, Hr).
  unfold read_config. destruct (optional "server" _ _ _); [|done].
  cbn [mbind option_bind]. destruct (optional "database" _ _ _); [|done].
  cbn [mbind option_bind]. destruct (optional "logging" _ _ _); [|done].
  cbn [mbind option_bind]. by rewrite Ho.
Qed.

Lemma livekit_table_no_secret input lk : toml_get "api_secret" (livekit_table input true lk) = None.
Proof. apply toml_get_remove. Qed.
Lemma livekit_table_canonical input b lk :
  canonical (TTable lk) = true → canonical (TTable (livekit_table input b lk)) = true.
Proof.
  intros H. unfold livekit_table. destruct b; [apply canonical_remove|apply canonical_insert; [|done]];
    do 3 (apply canonical_insert; [|done]); done.
Qed.

(** What a command that rewrites the document leaves on the disk. *)
Lemma write_document_ok doc s s' :
  write_document config_path doc s = (Ok (), s') →
  ∃ text, toml_print doc = Some text ∧ config_path ∉ unwritable (dk_disk s) ∧
    s' = with_disk (write_file config_path text (dk_disk s)) s.
Proof.
  unfold write_document, mbind, M_bind, lift. destruct (toml_print doc) as [text|]; cbn; [|done].
  unfold desktop_disk, zoom. destruct (fs_write WriteError config_path text (dk_disk s)) as [r d] eqn:E.
  intros [= -> <-]. apply fs_write_cases in E as [(_ & [=] & _)|(Hw & _ & ->)]. by exists text.
Qed.

Lemma read_document_ok doc s s' :
  read_document config_path s = (Ok doc, s') →
  s' = s ∧ ∃ contents, read_to_string config_path (dk_disk s) = Ok contents ∧ toml_parse contents = Some doc.
Proof.
  unfold read_document, mbind, M_bind, get, lift.
  destruct (read_to_string config_path (dk_disk s)) as [contents|e|]; cbn; [|done..].
  destruct (toml_parse contents) as [t|] eqn:E; cbn; [|done]. intros [= -> <-]. split; [done|]. by exists contents.
Qed.

Lemma canonical_lookup name t v : canonical (TTable t) = true → toml_get name t = Some v → canonical v = true.
Proof.
  intros [_ H]%andb_true_iff. unfold toml_get. induction t as [|[n x] t IH]; [done|].
  apply andb_true_iff in H as [Hx Ht]. rewrite filter_cons. case_decide; [by intros [= <-]|by apply IH].
Qed.

Lemma desktop_load_config env s r s' :
  catch_map ConfigFailed (desktop_disk (load_config env (Some config_path))) s = (r, s') →
  (∀ cfg, r = Ok cfg → (load_config env (Some config_path) (dk_disk s)).1 = Ok cfg) ∧
  s' = with_disk (load_file (Some config_path) (dk_disk s)).2 s.
Proof.
  unfold catch_map, desktop_disk, zoom. rewrite <- (load_config_disk env).
  destruct (load_config env (Some config_path) (dk_disk s)) as [r0 d]. intros [= <- <-]. split; [|done].
  intros cfg. cbn. by destruct r0; intros [= ->].
Qed.

(** Saving and clearing, with what is stored where. *)
Lemma save_livekit_config_ok w input s s' :
  save_livekit_config config_path w input s = (Ok (), s') →
  ∃ doc text, canonical (TTable doc) = true ∧ toml_print doc = Some text ∧
    dk_disk s' = write_file config_path text (dk_disk s) ∧ config_path ∉ unwritable (dk_disk s) ∧
    unreadable (dk_disk s) !! config_path = None ∧
    dk_keyring s' = (if wd_keyring w is Some _ then dk_keyring s else Some (si_api_secret input)) ∧ dk_env s' = dk_env s ∧
    ∃ lk, toml_get "livekit" doc = Some (TTable lk) ∧
      toml_get "api_secret" lk = (if wd_keyring w is Some _ then Some (TString (si_api_secret input)) else None).
Proof.
  intros H. unfold save_livekit_config in H. apply M_bind_ok in H as (s0 & s1 & [= <- <-] & H).
  apply M_bind_ok in H as ([] & s1 & [= <-] & H). set (stored := (store_api_secret_in_keyring w (si_api_secret input) s).2) in *.
  assert (dk_disk stored = dk_disk s ∧ dk_env stored = dk_env s ∧
    dk_keyring stored = (if wd_keyring w is Some _ then dk_keyring s else Some (si_api_secret input))) as (Ed & Ee & Ek)
    by (unfold stored, store_api_secret_in_keyring; by destruct (wd_keyring w)).
  assert (is_ok (store_api_secret_in_keyring w (si_api_secret input) s).1 = if wd_keyring w is Some _ then false else true) as Eok
    by (unfold store_api_secret_in_keyring; by destruct (wd_keyring w)).
  rewrite Eok in H. apply M_bind_ok in H as (doc & s2 & Hdoc & H). apply read_document_ok in Hdoc as (-> & contents & Hr & Hp).
  apply M_bind_ok in H as (lk & s3 & Hlk & H). apply lift_ok in Hlk as [Hlk ->].
  apply toml_parse_canonical in Hp.
  assert (canonical (TTable lk) = true) as Hc.
  { destruct (toml_get "livekit" doc) as [v|] eqn:Eg; [|injection Hlk as <-; done].
    apply canonical_lookup in Eg; [|done]. destruct v; try done. by injection Hlk as <-. }
  apply write_document_ok in H as (text & Ht & Hw & ->). rewrite Ed in *.
  assert (unreadable (dk_disk s) !! config_path = None) as Hu
    by (unfold read_to_string in Hr; by destruct (unreadable (dk_disk s) !! config_path)).
  eexists _, text. split; [apply canonical_insert; [exact Hp|]; by apply livekit_table_canonical|].
  split; [exact Ht|]. do 3 (split; [done|]). split; [exact Ek|]. split; [exact Ee|].
  eexists. split; [apply toml_get_insert|]. destruct (wd_keyring w); [apply toml_get_insert|apply livekit_table_no_secret].
Qed.

(** Settings that lock the server out.  Once LiveKit's settings are
    saved with the secret in the OS keyring, where it belongs, the file has
    the table without the secret, and the server's configuration demands it:
    whatever the environment provides, the secret included, loading fails, and
    with it the start of the embedded server and the look at the settings.  With the
    keyring out of reach the secret goes to the file. *)
Theorem keyring_secret_locks_out w input s s' :
  save_livekit_config config_path w input s = (Ok (), s') →
  (wd_keyring w = None → dk_keyring s' = Some (si_api_secret input)) ∧
  (∀ text, read_to_string config_path (dk_disk s') = Ok text → has_drive_path text = false →
     match wd_keyring w with
     | None => ∀ env, (load_config env (Some config_path) (dk_disk s')).1 = Err Parse
     | Some _ => ∃ doc lk, toml_parse text = Some doc ∧ toml_get "livekit" doc = Some (TTable lk) ∧
         toml_get "api_secret" lk = Some (TString (si_api_secret input))
     end).
Proof.
  intros (doc & text & Hc & Ht & Ed & Hw & Hu & Ek & _ & lk & Hl & Hs)%save_livekit_config_ok.
  split; [intros Hk; by rewrite Ek, Hk|]. intros text' Hr Hd.
  rewrite Ed, write_file_lookup in Hr by done. injection Hr as <-. pose proof (toml_parse_print _ _ Hc Ht) as Hp.
  destruct (wd_keyring w) as [e|]; [by exists doc, lk|]. intros env.
  unfold load_config, mbind, M_bind, load_file. rewrite Ed, write_file_lookup by done. rewrite Hd.
  unfold parse_contents. rewrite Hp. cbn [mbind option_bind]. by rewrite (read_config_no_secret _ _ Hl Hs).
Qed.

(** Clearing the settings: the document has no LiveKit table, and the
    keyring, within reach, no secret; the status says that nothing is
    configured. *)
Theorem clear_livekit_config_spec w s s' :
  clear_livekit_config config_path w s = (Ok (), s') →
  (wd_keyring w = None → dk_keyring s' = None) ∧
  (∃ text doc, read_to_string config_path (dk_disk s') = Ok text ∧ toml_parse text = Some doc ∧
     toml_get "livekit" doc = None ∧
     ∀ w' status s'', has_drive_path text = false → get_livekit_config config_path w' s' = (Ok status, s'') →
       ls_configured status = false ∧ s'' = s').
Proof.
  intros H. unfold clear_livekit_config in H. apply M_bind_ok in H as (s0 & s1 & [= <- <-] & H).
  apply M_bind_ok in H as ([] & s1 & [= <-] & H). set (cleared := (delete_api_secret_from_keyring w s).2) in *.
  assert (dk_disk cleared = dk_disk s ∧ (wd_keyring w = None → dk_keyring cleared = None)) as (Ed & Ek)
    by (unfold cleared, delete_api_secret_from_keyring; by destruct (wd_keyring w)).
  apply M_bind_ok in H as (doc & s2 & Hdoc & H). apply read_document_ok in Hdoc as (-> & contents & Hr & Hp).
  apply write_document_ok in H as (text & Ht & Hw & ->). rewrite Ed in *.
  assert (unreadable (dk_disk s) !! config_path = None) as Hu
    by (unfold read_to_string in Hr; by destruct (unreadable (dk_disk s) !! config_path)).
  split; [done|]. apply toml_parse_canonical in Hp.
  pose proof (toml_parse_print _ _ (canonical_remove "livekit" _ Hp) Ht) as Hp'.
  assert (read_to_string config_path (dk_disk (with_disk (write_file config_path text (dk_disk s)) cleared)) = Ok text) as Hr'
    by (by apply write_file_lookup).
  exists text, (toml_remove "livekit" doc). do 2 (split; [done|]). split; [apply toml_get_remove|].
  intros w' status s'' Hd Hg. set (s1 := with_disk _ cleared) in *. unfold get_livekit_config in Hg.
  apply M_bind_ok in Hg as (env & s2 & [= <- <-] & Hg). apply M_bind_ok in Hg as (cfg & s2 & Hcfg & Hg).
  assert (s2 = s1) as ->.
  { apply desktop_load_config in Hcfg as [_ ->]. unfold load_file. rewrite Hr', Hd. by destruct s as [[]]. }
  apply M_bind_ok in Hg as (s3 & s4 & [= <- <-] & [= <- <-]). cbn [ls_configured].
  rewrite Hr', Hp', toml_get_remove. by split.
Qed.
End livekit_theorems.

(** ** The environment of the server *)

Lemma set_var_same name v env : set_var name v env name = Present v.
Proof. unfold set_var. by rewrite decide_True. Qed.
Lemma set_var_other name n v env : n ≠ name → set_var name v env n = env n.
Proof. intros H. unfold set_var. by rewrite decide_False. Qed.
Lemma set_if_some_other name n o env : n ≠ name → set_if_some name o env n = env n.
Proof. intros H. destruct o; [by apply set_var_other|done]. Qed.

Lemma prepare_environment_spec os ly data_dir secret env :
  let env' := prepare_environment os ly data_dir secret env in
  env' "ANNEX_CORS_ORIGINS" = Present (env_or env "ANNEX_CORS_ORIGINS" DESKTOP_CORS_ORIGINS) ∧
  env' "ANNEX_UPLOAD_DIR" = Present (path_join data_dir "uploads") ∧
  env' "ANNEX_LIVEKIT_API_SECRET" = match env "ANNEX_LIVEKIT_API_SECRET" with
    | Present v => Present v
    | o => match secret with Ok (Some v) => Present v | _ => o end end ∧
  env' "ANNEX_LIVEKIT_URL" = env "ANNEX_LIVEKIT_URL".
Proof.
  cbv zeta. unfold prepare_environment. set (e0 := set_if_some "ANNEX_TTS_VOICES_DIR" _ _).
  set (e1 := set_var "ANNEX_UPLOAD_DIR" _ e0).
  assert (∀ n, n ≠ "ANNEX_TTS_VOICES_DIR" → n ≠ "ANNEX_TTS_BINARY_PATH" → n ≠ "ANNEX_ZK_KEY_PATH" →
    n ≠ "ANNEX_CLIENT_DIR" → n ≠ "ANNEX_UPLOAD_DIR" → e1 n = env n) as H1.
  { intros n N1 N2 N3 N4 N5. unfold e1, e0. rewrite set_var_other by done. rewrite !set_if_some_other by done.
    by rewrite set_var_other. }
  assert (e1 "ANNEX_UPLOAD_DIR" = Present (path_join data_dir "uploads")) as Hup by apply set_var_same.
  clearbody e1. clear e0. pose proof (H1 "ANNEX_CORS_ORIGINS") as Hc. pose proof (H1 "ANNEX_LIVEKIT_API_SECRET") as Hs.
  pose proof (H1 "ANNEX_LIVEKIT_URL") as Hl. specialize (Hc ltac:(done) ltac:(done) ltac:(done) ltac:(done) ltac:(done)).
  specialize (Hs ltac:(done) ltac:(done) ltac:(done) ltac:(done) ltac:(done)).
  specialize (Hl ltac:(done) ltac:(done) ltac:(done) ltac:(done) ltac:(done)).
  set (e2 := if is_unset "ANNEX_CORS_ORIGINS" e1 then _ else e1).
  assert (e2 "ANNEX_CORS_ORIGINS" = Present (env_or env "ANNEX_CORS_ORIGINS" DESKTOP_CORS_ORIGINS)) as E1.
  { unfold e2, is_unset, env_or. rewrite Hc. destruct (env "ANNEX_CORS_ORIGINS"); [apply set_var_same..|exact Hc]. }
  assert (∀ n, n ≠ "ANNEX_CORS_ORIGINS" → e2 n = e1 n) as E2
    by (intros n Hn; unfold e2; destruct (is_unset _ e1); [by apply set_var_other|done]).
  clearbody e2. assert (e2 "ANNEX_LIVEKIT_API_SECRET" = env "ANNEX_LIVEKIT_API_SECRET") as E3 by (by rewrite E2).
  unfold is_unset. rewrite E3. assert (e2 "ANNEX_UPLOAD_DIR" = Present (path_join data_dir "uploads")) as E4 by (by rewrite E2).
  assert (e2 "ANNEX_LIVEKIT_URL" = env "ANNEX_LIVEKIT_URL") as E5 by (by rewrite E2).
  destruct (env "ANNEX_LIVEKIT_API_SECRET"), secret as [[v|]|e|];
    rewrite ?set_var_same, ?set_var_other by done; split_and!; try done; apply set_var_same.
Qed.

(** The desktop's CORS origins are those of the environment, or the
    three of the application: whatever the file of settings says, the section
    that the application itself writes into it included, the server that the
    application starts never looks at it.  The secret of LiveKit in the
    environment wins over the one of the keyring. *)
Theorem desktop_ignores_cors_settings `{TM : Toml} {Schema} os ly data_dir w (start : StartState Schema) env k x
    config_path s' :
  desktop_main os ly data_dir w start env k x = Some (config_path, s') →
  config_path = path_join data_dir "config.toml" ∧
  dk_env s' "ANNEX_LIVEKIT_API_SECRET" = match env "ANNEX_LIVEKIT_API_SECRET" with
    | Present v => Present v
    | o => match load_api_secret_from_keyring w s' with Ok (Some v) => Present v | _ => o end end ∧
  ∀ path d cfg d', load_config (dk_env s') path d = (Ok cfg, d') →
    allowed_origins cfg = origins_of_text (env_or env "ANNEX_CORS_ORIGINS" DESKTOP_CORS_ORIGINS).
Proof.
  unfold desktop_main. pose proof (ensure_config_cases data_dir (sd_disk start)) as Hc.
  destruct (ensure_config data_dir (sd_disk start)) as [r d]. destruct r as [p|e|]; [|done..].
  intros [= <- <-]. split; [by apply Hc|]. set (s := with_disk d _).
  destruct (prepare_environment_spec os ly data_dir (load_api_secret_from_keyring w s) env) as (Ho & _ & Hs & _).
  split; [exact Hs|]. intros path d1 cfg d2 (b & _ & Hov & _)%load_config_ok. unfold override_config in Hov.
  chain_ok Hov. injection Hov as <-. cbn [allowed_origins]. unfold override_cors. cbn [dk_env with_env]. by rewrite Ho.
Qed.

(** ** Processes *)

(** What the commands know of the server and of the children, and the
    children themselves. *)
Definition processes {Schema} (s : Desktop Schema) :=
  (dk_server s, dk_serving s, dk_tunnel s, dk_livekit s, dk_processes s, dk_next s).
Definition keeps_processes {Schema E A} (m : M (Desktop Schema) E A) : Prop := ∀ s, processes (m s).2 = processes s.

(** The children that a command can end. *)
Definition tracked {Schema} (s : Desktop Schema) : list nat :=
  option_list (snd <$> dk_tunnel s) ++ option_list (snd <$> dk_livekit s).

Section processes.
Context {Schema : Type}.
Implicit Types s : Desktop Schema.

Lemma keeps_bind {E A B} (m : M (Desktop Schema) E A) (f : A → M (Desktop Schema) E B) :
  keeps_processes m → (∀ a, keeps_processes (f a)) → keeps_processes (m ≫= f).
Proof.
  intros Hm Hf s. unfold mbind, M_bind. specialize (Hm s). destruct (m s) as [[a|e|] s1]; [|done..].
  by rewrite (Hf a s1).
Qed.
Lemma keeps_reads {E A} (m : M (Desktop Schema) E A) : reads m → keeps_processes m.
Proof. intros H s. by rewrite H. Qed.
Lemma keeps_desktop_disk {E A} (m : M Disk E A) : keeps_processes (desktop_disk m : M (Desktop Schema) E A).
Proof. intros s. unfold desktop_disk, zoom. by destruct (m (dk_disk s)). Qed.
Lemma keeps_desktop_bins {A} (m : Fetching A) : keeps_processes (desktop_bins m : M (Desktop Schema) DesktopError A).
Proof. intros s. unfold desktop_bins, zoom. by destruct (m _). Qed.
Lemma keeps_start {E A} (m : M (StartState Schema) E A) :
  keeps_processes (zoom dk_start with_start m : M (Desktop Schema) E A).
Proof. intros s. unfold zoom. by destruct (m (dk_start s)). Qed.
Lemma keeps_catch {E E' A} (f : E → E') (m : M (Desktop Schema) E A) :
  keeps_processes m → keeps_processes (catch_map f m).
Proof. intros H s. specialize (H s). unfold catch_map. by destruct (m s). Qed.

Lemma M_bind_gets {T E A B} (g : T → A) (f : A → M T E B) x r y : (gets g ≫= f) x = (r, y) → f (g x) x = (r, y).
Proof. done. Qed.

(** A step that leaves the processes alone, in a run that is known. *)
Lemma keeps_step {E A B} (m : M (Desktop Schema) E A) (f : A → M (Desktop Schema) E B) s r s' :
  (m ≫= f) s = (r, s') → keeps_processes m →
  (is_ok r = false ∧ processes s' = processes s) ∨
  ∃ a s1, m s = (Ok a, s1) ∧ processes s1 = processes s ∧ f a s1 = (r, s').
Proof.
  intros H Hm. unfold mbind, M_bind in H. specialize (Hm s). destruct (m s) as [[a|e|] s1]; cbn in Hm.
  - right. by exists a, s1.
  - injection H as <- <-. by left.
  - injection H as <- <-. by left.
Qed.
End processes.

#[export] Hint Resolve keeps_bind keeps_reads keeps_desktop_disk keeps_desktop_bins keeps_start keeps_catch : annex.

(** Go over a step that leaves the processes alone; what is left is the run
    of the rest. *)
Tactic Notation "keeps_step" hyp(H) ident(a) ident(Ha) :=
  apply keeps_step in H as [[? ?]|(a & ? & Ha & ? & H)]; [by left; split; [|congruence]| |by auto with annex].

Section children.
Context `{HX : HexCrate, PO : Poseidon, AK : !Ark, CK : Clock, TM : Toml} (json_vkey : string → option SnarkJsVKey).
Context `{SPO : Serde ServerPolicy, ST : Serde ChannelType, SS : Serde FederationScope, SPr : Serde StartupPrefs}.
Context {Schema : Type} (run_sql : string → Schema → result sql_error Schema).
Context (os : Os) (arch : Arch) (data_dir config_path : string).
Implicit Types s : Desktop Schema.

Lemma boot_server_cases w s r s' :
  boot_server json_vkey run_sql config_path w s = (r, s') →
  (is_ok r = false ∧ processes s' = processes s) ∨
  ∃ url, (r = Ok url ∨ r = Err NotReady) ∧
    processes s' = (Some url, dk_serving s ++ [url], dk_tunnel s, dk_livekit s, dk_processes s, dk_next s).
Proof.
  unfold boot_server. intros H. keeps_step H env Henv. keeps_step H cfg Hcfg. keeps_step H u Hu. keeps_step H port Hport.
  right. eexists. unfold modify, mbind, M_bind, lift, mret, M_ret in H.
  destruct (existsb _ _); cbn in H; injection H as <- <-; (split; [by eauto|]); unfold processes in *; cbn; congruence.
Qed.

(** A child after its start: it runs unless the start says that it ended. *)
Definition started {A} (cmd : Command) (r : result DesktopError A) : Process :=
  {| ps_command := cmd; ps_alive := match r with Err ExitedEarly => false | _ => true end |}.

Lemma await_child_spawned {A} cmd found o seconds s r s' :
  await_child (Schema := Schema) (dk_next s) found o seconds
    (with_children (dk_tunnel s) (dk_livekit s) (<[dk_next s := {| ps_command := cmd; ps_alive := true |}]> (dk_processes s))
       (S (dk_next s)) s) = (r, s') →
  s' = with_children (dk_tunnel s) (dk_livekit s) (<[dk_next s := started (A := A) cmd r]> (dk_processes s)) (S (dk_next s)) s.
Proof.
  unfold await_child, exits, started. destruct (await_output _ _ _ _) as [a|[]|]; intros [= <- <-]; try done.
  cbn. by rewrite alter_insert_eq.
Qed.

(** A start without a child so far: it fails before a child is spawned, or
    the child is there, and tracked if the start succeeds. *)
Lemma start_tunnel_cases w s r s' :
  dk_tunnel s = None → start_tunnel os arch data_dir w s = (r, s') →
  (is_ok r = false ∧ processes s' = processes s) ∨
  ∃ srv port path, dk_server s = Some srv ∧ port_of_url srv = Some port ∧
    processes s' = (dk_server s, dk_serving s, (if r is Ok url then Some (url, dk_next s) else None), dk_livekit s,
      <[dk_next s := started (tunnel_command path port) r]> (dk_processes s), S (dk_next s)).
Proof.
  unfold start_tunnel. intros Hn H. apply M_bind_gets in H. rewrite Hn in H. cbv beta iota in H.
  apply M_bind_gets in H. keeps_step H srv Hsrv. apply lift_ok in Hsrv as [Hsrv%ok_or_ok ->].
  keeps_step H p Hp. apply lift_ok in Hp as [Hp%ok_or_ok ->].
  apply M_bind_gets in H. keeps_step H path Hpath. unfold mbind at 1, M_bind at 1, spawn at 1 in H.
  destruct (wd_spawn w _); [|injection H as <- <-; by left].
  right. exists srv, p, path. do 2 (split; [done|]). unfold mbind, M_bind, modify, mret, M_ret in H.
  destruct (await_child _ _ _ _ _) as [r1 s1] eqn:Ew. apply await_child_spawned in Ew as ->.
  destruct r1; injection H as <- <-; unfold processes in *; cbn; simplify_eq/=; congruence.
Qed.

Lemma start_local_livekit_cases w s r s' :
  dk_livekit s = None → start_local_livekit os arch data_dir w s = (r, s') →
  (is_ok r = false ∧ processes s' = processes s) ∨
  ∃ port path, dk_server s = None ∧ find_available_port (wd_bindable w) 7880 7899 = Some port ∧
    let url := "ws://127.0.0.1:" +:+ pretty (Z.to_N port) in
    let key := "annex_" +:+ (wd_uuids w).1 in
    let secret := "secret_" +:+ (wd_uuids w).2 in
    processes s' = (dk_server s, dk_serving s, dk_tunnel s, (if is_ok r then Some (url, dk_next s) else None),
      <[dk_next s := started (livekit_command path key secret port) r]> (dk_processes s), S (dk_next s)) ∧
    ∀ x, r = Ok x → x = (url, Some port) ∧
      dk_env s' = set_var "ANNEX_LIVEKIT_API_SECRET" secret (set_var "ANNEX_LIVEKIT_API_KEY" key
                    (set_var "ANNEX_LIVEKIT_PUBLIC_URL" url (set_var "ANNEX_LIVEKIT_URL" url (dk_env s)))).
Proof.
  unfold start_local_livekit. intros Hn H. apply M_bind_gets in H. rewrite Hn in H. cbv beta iota in H.
  apply M_bind_gets in H. keeps_step H u Hu. apply lift_ok in Hu as [Hu ->].
  assert (dk_server s = None) as Hs.
  { destruct u. apply reject_if_ok, bool_decide_eq_false in Hu. by apply eq_None_not_Some. }
  apply M_bind_gets in H. apply keeps_step in H as [[? ?]|(path & s1 & Hpath & Hps & H)]; [by left| |by auto with annex].
  assert (dk_env s1 = dk_env s) as Henv.
  { unfold desktop_bins, zoom in Hpath. destruct (ensure_livekit _ _ _ _ _ _). by injection Hpath as _ <-. }
  keeps_step H p Hp. apply lift_ok in Hp as [Hp%ok_or_ok ->]. unfold mbind at 1, M_bind at 1, spawn at 1 in H.
  destruct (wd_spawn w _); [|injection H as <- <-; by left].
  right. exists p, path. do 2 (split; [done|]). unfold mbind, M_bind, modify, mret, M_ret in H.
  destruct (await_child _ _ _ _ _) as [r1 s2] eqn:Ew. apply await_child_spawned in Ew as ->.
  destruct r1; injection H as <- <-; unfold started, processes in *; cbn; simplify_eq/=;
    (split; [congruence|]); [|done..]. intros x [= <-]. by rewrite Henv.
Qed.

(** The processes after a run of commands; one server at most; of the
    children that have not been waited for, those that a command can end and
    [orphans], which none can; and what they are. *)
Definition runs s (i : nat) : Prop := ps_alive <$> dk_processes s !! i = Some true.
Definition children_ok (orphans : list nat) s : Prop :=
  dk_serving s = option_list (dk_server s) ∧
  NoDup (tracked s ++ orphans) ∧
  (∀ i, is_Some (dk_processes s !! i) ↔ i ∈ tracked s ++ orphans) ∧
  (∀ i, i ∈ tracked s ++ orphans → (i < dk_next s)%nat) ∧
  ∀ i p, dk_processes s !! i = Some p →
    (∃ srv port path, dk_server s = Some srv ∧ port_of_url srv = Some port ∧ ps_command p = tunnel_command path port) ∨
    (∃ path key secret port, 7880 ≤ port ≤ 7899 ∧ ps_command p = livekit_command path key secret port).

Lemma children_ok_processes o o' s s' :
  o ≡ₚ o' → processes s' = processes s → children_ok o s → children_ok o' s'.
Proof.
  intros Ho [= E1 E2 E3 E4 E5 E6] (H1 & H2 & H3 & H4 & H5). unfold children_ok, tracked. rewrite E1, E2, E3, E4, E5, E6.
  split; [done|]. split; [by rewrite <- Ho|]. split; [intros i; rewrite <- Ho; apply H3|]. split; [|done].
  intros i. rewrite <- Ho. apply H4.
Qed.

(** A child is spawned: it is tracked, or an orphan. *)
Lemma children_ok_spawn o s s' p ids o' :
  children_ok o s → dk_server s' = dk_server s → dk_serving s' = dk_serving s →
  dk_processes s' = <[dk_next s := p]> (dk_processes s) → dk_next s' = S (dk_next s) →
  tracked s' = ids → ids ++ o' ≡ₚ dk_next s :: tracked s ++ o →
  ((∃ srv port path, dk_server s = Some srv ∧ port_of_url srv = Some port ∧ ps_command p = tunnel_command path port) ∨
    (∃ path key secret port, 7880 ≤ port ≤ 7899 ∧ ps_command p = livekit_command path key secret port)) →
  children_ok o' s'.
Proof.
  intros (H1 & H2 & H3 & H4 & H5) E1 E2 E3 E4 <- Hp Hc. unfold children_ok. rewrite E1, E2, E3, E4. split; [done|].
  split; [rewrite Hp; constructor; [intros Hin%H4; lia|done]|].
  split; [|split].
  - intros i. rewrite Hp, elem_of_cons, <- H3, lookup_insert_is_Some'. naive_solver.
  - intros i. rewrite Hp. intros [->|Hi%H4]%elem_of_cons; lia.
  - intros i c [[_ <-]|[_ Hi]]%lookup_insert_Some; [done|by eapply H5].
Qed.

Lemma find_available_port_range bindable first last p :
  find_available_port bindable first last = Some p → first ≤ p ≤ last.
Proof. pose proof (find_available_port_spec bindable first last) as H. intros E. rewrite E in H. apply H. Qed.

Lemma children_ok_start_tunnel w o s r s' :
  children_ok o s → start_tunnel os arch data_dir w s = (r, s') →
  children_ok ((if is_ok r then [] else if decide (dk_next s < dk_next s')%nat then [dk_next s] else []) ++ o) s'.
Proof.
  intros Hok H. destruct (dk_tunnel s) as [[url c]|] eqn:Et.
  - unfold start_tunnel in H. apply M_bind_gets in H. rewrite Et in H. by injection H as <- <-.
  - apply start_tunnel_cases in H as [[Hr Hp]|(srv & p & path & Hs & Hport & Hp)]; [| |done].
    { rewrite Hr. injection Hp as E1 E2 E3 E4 E5 E6. rewrite decide_False by lia.
      eapply children_ok_processes; [| |done]; [done|]. unfold processes. congruence. }
    injection Hp as E1 E2 E3 E4 E5 E6.
    eapply children_ok_spawn; [exact Hok|done..| |by left; eauto 6].
    rewrite E6, (decide_True (P := (_ < _)%nat)) by lia. unfold tracked. rewrite E3, E4, Et.
    destruct r; cbn; [done|by rewrite <- Permutation_middle..].
Qed.

Lemma children_ok_start_livekit w o s r s' :
  children_ok o s → start_local_livekit os arch data_dir w s = (r, s') →
  children_ok ((if is_ok r then [] else if decide (dk_next s < dk_next s')%nat then [dk_next s] else []) ++ o) s'.
Proof.
  intros Hok H. destruct (dk_livekit s) as [[url c]|] eqn:Et.
  - unfold start_local_livekit in H. apply M_bind_gets in H. rewrite Et in H. by injection H as <- <-.
  - apply start_local_livekit_cases in H as [[Hr Hp]|(p & path & Hs & Hport & Hp & _)]; [| |done].
    { rewrite Hr. injection Hp as E1 E2 E3 E4 E5 E6. rewrite decide_False by lia.
      eapply children_ok_processes; [| |done]; [done|]. unfold processes. congruence. }
    injection Hp as E1 E2 E3 E4 E5 E6.
    eapply children_ok_spawn; [exact Hok|done..| |right; apply find_available_port_range in Hport; eauto 6].
    rewrite E6, (decide_True (P := (_ < _)%nat)) by lia. unfold tracked. rewrite E3, E4, Et.
    destruct r; cbn; rewrite ?app_nil_r, <- ?app_assoc; cbn; by rewrite <- Permutation_middle.
Qed.

Lemma children_ok_start_server w o s :
  children_ok o s → children_ok o (start_embedded_server json_vkey run_sql config_path w s).2.
Proof.
  intros Hok. destruct (start_embedded_server _ _ _ _ s) as [r s'] eqn:H. unfold start_embedded_server in H.
  apply M_bind_gets in H. destruct (dk_server s) as [u|] eqn:Es; [by injection H as <- <-|].
  apply boot_server_cases in H as [[_ Hp]|(url & _ & [= E1 E2 E3 E4 E5 E6])]; [by eapply children_ok_processes|].
  destruct Hok as (H1 & H2 & H3 & H4 & H5). rewrite Es in H1. unfold children_ok, tracked. cbn.
  rewrite E1, E2, E3, E4, E5, E6, H1. do 4 (split; [done|]). intros i cmd Hi.
  destruct (H5 i cmd Hi) as [(srv & p & path & ? & _)|?]; [congruence|by right].
Qed.

Lemma children_ok_stop_tunnel o s : children_ok o s → children_ok o (stop_tunnel s).2.
Proof.
  intros Hok. unfold stop_tunnel. destruct (dk_tunnel s) as [[url c]|] eqn:Et; [|done].
  destruct Hok as (H1 & H2 & H3 & H4 & H5). revert H2 H3 H4. unfold children_ok, tracked, kill_and_wait. cbn. rewrite Et. cbn.
  rewrite NoDup_cons. intros [Hc Hnd] H3 H4. split; [done|]. split; [done|]. split; [|split].
  - intros i. rewrite lookup_delete_is_Some, H3, elem_of_cons. split; [naive_solver|].
    intros Hi. split; [by intros ->|by right].
  - intros i Hi. apply H4. by right.
  - intros i cmd [_ Hi]%lookup_delete_Some. by eapply H5.
Qed.

Lemma children_ok_stop_livekit o s : children_ok o s → children_ok o (stop_local_livekit s).2.
Proof.
  intros Hok. unfold stop_local_livekit. destruct (dk_livekit s) as [[url c]|] eqn:Et; [|done].
  destruct Hok as (H1 & H2 & H3 & H4 & H5).
  assert (tracked s ++ o ≡ₚ c :: option_list (snd <$> dk_tunnel s) ++ o) as Hp
    by (unfold tracked; rewrite Et; cbn; rewrite <- app_assoc; cbn; by rewrite <- Permutation_middle).
  revert H2 H3 H4. rewrite Hp, NoDup_cons. intros [Hc Hnd] H3 H4. unfold children_ok, tracked, kill_and_wait. cbn. rewrite app_nil_r.
  split; [done|]. split; [done|]. split; [|split].
  - intros i. rewrite lookup_delete_is_Some, H3, Hp, elem_of_cons. split; [naive_solver|].
    intros Hi. split; [by intros ->|by right].
  - intros i Hi. apply H4. rewrite Hp. by right.
  - intros i cmd [_ Hi]%lookup_delete_Some. by eapply H5.
Qed.

Lemma children_ok_invoke c w o s b s' :
  children_ok o s → invoke json_vkey run_sql os arch data_dir config_path c w s = (b, s') →
  children_ok ((if b then [] else if decide (dk_next s < dk_next s')%nat then [dk_next s] else []) ++ o) s'.
Proof.
  intros Hok. assert (∀ {A} (m : M (Desktop Schema) DesktopError A), keeps_processes m →
    (is_ok (m s).1, (m s).2) = (b, s') →
    children_ok ((if b then [] else if decide (dk_next s < dk_next s')%nat then [dk_next s] else []) ++ o) s') as Hkeeps.
  { intros A m Hm [= <- <-]. pose proof (Hm s) as E. pose proof E as [= _ _ _ _ _ En]. rewrite En, decide_False by lia.
    destruct (is_ok _); by eapply children_ok_processes. }
  destruct c; cbn [invoke].
  - apply Hkeeps; auto with annex.
  - apply Hkeeps; auto with annex.
  - intros [= <- <-]. pose proof (children_ok_start_server w o s Hok) as H.
    assert (dk_next (start_embedded_server json_vkey run_sql config_path w s).2 = dk_next s) as En.
    { destruct (start_embedded_server _ _ _ _ s) as [r s'] eqn:E. unfold start_embedded_server in E.
      apply M_bind_gets in E. destruct (dk_server s); [by injection E as <- <-|].
      by apply boot_server_cases in E as [[_ [=]]|(url & _ & [=])]. }
    rewrite En, decide_False by lia. by destruct (is_ok _).
  - destruct (start_tunnel _ _ _ w s) as [r s1] eqn:E. intros [= <- <-]. by eapply children_ok_start_tunnel.
  - intros [= <- <-]. pose proof (children_ok_stop_tunnel o s Hok) as H. unfold stop_tunnel in *.
    by destruct (dk_tunnel s) as [[]|].
  - apply Hkeeps; auto with annex.
  - apply Hkeeps. unfold get_livekit_config. apply keeps_bind; [by apply keeps_reads|intros env].
    apply keeps_bind; [auto with annex|intros cfg]. apply keeps_bind; [by apply keeps_reads|by intros ? ?].
  - destruct (start_local_livekit _ _ _ w s) as [r s1] eqn:E. intros [= <- <-]. by eapply children_ok_start_livekit.
Qed.

Lemma children_ok_exits o s i : children_ok o s → children_ok o (exits i s).
Proof.
  intros (H1 & H2 & H3 & H4 & H5). unfold children_ok, tracked. cbn. do 2 (split; [done|]).
  split; [intros j; rewrite lookup_alter_is_Some; apply H3|]. split; [done|].
  intros j p Hj. rewrite lookup_alter in Hj. case_decide; [|by eapply H5].
  destruct (dk_processes s !! i) as [q|] eqn:Eq; [|done]. injection Hj as <-. exact (H5 i q Eq).
Qed.

Lemma children_ok_run l o s :
  children_ok o s →
  children_ok ((run_events json_vkey run_sql os arch data_dir config_path l s).1 ++ o)
    (run_events json_vkey run_sql os arch data_dir config_path l s).2.
Proof.
  revert o s. induction l as [|[c w|i] l IH]; intros o s Hok; [done| |by apply IH, children_ok_exits]. cbn [run_events].
  destruct (invoke _ _ _ _ _ _ c w s) as [b s1] eqn:E. apply (children_ok_invoke c w o) in E; [|done].
  apply IH in E. destruct (run_events _ _ _ _ _ _ l s1) as [orphans s2]. cbn in *.
  eapply children_ok_processes; [|done|exact E]. by rewrite app_assoc, (Permutation_app_comm orphans).
Qed.

(** No command touches a child that is there and not tracked. *)
Lemma invoke_spares c w s i :
  (i < dk_next s)%nat → i ∉ tracked s →
  dk_processes (invoke json_vkey run_sql os arch data_dir config_path c w s).2 !! i = dk_processes s !! i.
Proof.
  intros Hi Ht. assert (∀ {A} (m : M (Desktop Schema) DesktopError A), keeps_processes m →
    dk_processes (m s).2 !! i = dk_processes s !! i) as Hkeeps by (by intros A m Hm; injection (Hm s) as _ _ _ _ -> _).
  destruct c; cbn [invoke snd].
  - apply Hkeeps; auto with annex.
  - apply Hkeeps; auto with annex.
  - destruct (start_embedded_server _ _ _ _ s) as [r s'] eqn:E. unfold start_embedded_server in E.
    apply M_bind_gets in E. destruct (dk_server s); [by injection E as <- <-|].
    by apply boot_server_cases in E as [[_ [= _ _ _ _ E _]]|(url & _ & [= _ _ _ _ E _])]; cbn; rewrite E.
  - destruct (start_tunnel _ _ _ w s) as [r s'] eqn:E. destruct (dk_tunnel s) as [[url c]|] eqn:Et.
    { unfold start_tunnel in E. apply M_bind_gets in E. rewrite Et in E. by injection E as <- <-. }
    apply start_tunnel_cases in E as [[_ [= _ _ _ _ E _]]|(srv & p & path & _ & _ & [= _ _ _ _ E _])]; [by cbn; rewrite E| |done].
    cbn. rewrite E, lookup_insert_ne; [done|lia].
  - unfold stop_tunnel. unfold tracked in Ht. destruct (dk_tunnel s) as [[url c]|] eqn:Et; [|done]. cbn in *.
    unfold kill_and_wait. rewrite lookup_delete_ne; [done|]. intros ->. apply Ht. by left.
  - apply Hkeeps; auto with annex.
  - apply Hkeeps. unfold get_livekit_config. apply keeps_bind; [by apply keeps_reads|intros env].
    apply keeps_bind; [auto with annex|intros cfg]. apply keeps_bind; [by apply keeps_reads|by intros ? ?].
  - destruct (start_local_livekit _ _ _ w s) as [r s'] eqn:E. destruct (dk_livekit s) as [[url c]|] eqn:Et.
    { unfold start_local_livekit in E. apply M_bind_gets in E. rewrite Et in E. by injection E as <- <-. }
    apply start_local_livekit_cases in E as [[_ [= _ _ _ _ E _]]|(p & path & _ & _ & [= _ _ _ _ E _] & _)]; [by cbn; rewrite E| |done].
    cbn. rewrite E, lookup_insert_ne; [done|lia].
Qed.

Lemma stops_tracked s : tracked (stop_local_livekit (stop_tunnel s).2).2 = [].
Proof.
  unfold stop_local_livekit, stop_tunnel, tracked.
  destruct (dk_tunnel s) as [[]|] eqn:Et; cbn; destruct (dk_livekit s) as [[]|] eqn:El; cbn; by rewrite ?Et, ?El.
Qed.
Lemma stops_spare s i : i ∉ tracked s → dk_processes (stop_local_livekit (stop_tunnel s).2).2 !! i = dk_processes s !! i.
Proof.
  unfold stop_local_livekit, stop_tunnel, tracked, kill_and_wait.
  destruct (dk_tunnel s) as [[u1 c1]|] eqn:Et; cbn; destruct (dk_livekit s) as [[u2 c2]|] eqn:El; cbn;
    rewrite ?El, ?not_elem_of_cons; intros Hi; rewrite ?lookup_delete_ne by naive_solver; done.
Qed.


(** C40. The embedded server.  A start without a server either fails and
    starts none, or serves at one more URL, which is the URL of the state and
    the answer, or the answer is that it did not become ready: the server is kept,
    and the next start, whatever it would meet, answers with its URL and does
    nothing.  Two starts that both find no server before either has stored
    its own (the lock is not held in between) serve twice, and the state
    knows the second. *)
Theorem start_embedded_server_spec w w' s :
  dk_server s = None →
  let '(r, s') := start_embedded_server json_vkey run_sql config_path w s in
  match dk_server s' with
  | None => is_ok r = false ∧ processes s' = processes s
  | Some url => (r = Ok url ∨ r = Err NotReady) ∧ dk_serving s' = dk_serving s ++ [url] ∧
      start_embedded_server json_vkey run_sql config_path w' s' = (Ok url, s') ∧
      ∀ url', (boot_server json_vkey run_sql config_path w' s').1 = Ok url' →
        dk_serving (boot_server json_vkey run_sql config_path w' s').2 = dk_serving s ++ [url; url'] ∧
        dk_server (boot_server json_vkey run_sql config_path w' s').2 = Some url'
  end.
Proof.
  intros Hn. destruct (start_embedded_server _ _ _ _ s) as [r s'] eqn:H. unfold start_embedded_server in H.
  apply M_bind_gets in H. rewrite Hn in H. apply boot_server_cases in H as [[Hr Hp]|(url & Hr & Hp)].
  { pose proof Hp as [= -> _ _ _ _ _]. by rewrite Hn. }
  injection Hp as E1 E2 _ _ _ _. rewrite E1. split; [done|]. split; [done|].
  split; [unfold start_embedded_server; unfold mbind, M_bind, gets; by rewrite E1|].
  intros url' Hu. destruct (boot_server _ _ _ w' s') as [r2 s2] eqn:H2. cbn in *. subst r2.
  apply boot_server_cases in H2 as [[[=] _]|(url2 & Hu2 & [= F1 F2 _ _ _ _])].
  assert (url2 = url') as -> by naive_solver. by rewrite F1, F2, E2, <- app_assoc.
Qed.

Lemma override_config_livekit env b cfg :
  override_config env b = Ok cfg →
  lk_url (livekit cfg) = default (lk_url (livekit b)) (text_value env "ANNEX_LIVEKIT_URL") ∧
  lk_public_url (livekit cfg) = default (lk_public_url (livekit b)) (text_value env "ANNEX_LIVEKIT_PUBLIC_URL") ∧
  lk_api_key (livekit cfg) = default (lk_api_key (livekit b)) (text_value env "ANNEX_LIVEKIT_API_KEY") ∧
  lk_api_secret (livekit cfg) = default (lk_api_secret (livekit b)) (text_value env "ANNEX_LIVEKIT_API_SECRET").
Proof.
  unfold override_config. intros Hov. chain_ok Hov. injection Hov as <-. cbn [livekit].
  match goal with H : override_livekit _ _ = Ok _ |- _ => rename H into Hl end.
  unfold override_livekit, parse_env_string in Hl. chain_ok Hl. injection Hl as <-. cbn.
  repeat match goal with H : parse_env_var Some _ _ = Ok _ |- _ => apply parse_env_var_value in H as -> end. done.
Qed.

(** The local LiveKit server is the one that the embedded server uses.
    Once it is started, it listens on the first free port of the range and
    takes the pair of keys that was made for it; every configuration loaded
    from then on has its URL and its keys, whatever the file says, so that
    tokens for rooms can be made; and it was started before the embedded server,
    since afterwards it is refused. *)
Theorem local_livekit_reaches_server w s url port s' :
  start_local_livekit os arch data_dir w s = (Ok (url, Some port), s') →
  dk_server s' = None ∧ 7880 ≤ port ≤ 7899 ∧ wd_bindable w port = true ∧
  (∀ q, 7880 ≤ q < port → wd_bindable w q = false) ∧
  url = "ws://127.0.0.1:" +:+ pretty (Z.to_N port) ∧
  ∃ child path,
    dk_livekit s' = Some (url, child) ∧
    ∀ file d cfg d', load_config (dk_env s') file d = (Ok cfg, d') →
      lk_url (livekit cfg) = url ∧ get_public_url (livekit cfg) = url ∧ is_enabled (livekit cfg) = true ∧
      dk_processes s' !! child =
        Some {| ps_command := livekit_command path (lk_api_key (livekit cfg)) (lk_api_secret (livekit cfg)) port;
                ps_alive := true |}.
Proof.
  intros H. destruct (dk_livekit s) as [[u c]|] eqn:El.
  { unfold start_local_livekit in H. apply M_bind_gets in H. by rewrite El in H. }
  apply start_local_livekit_cases in H as [[[=] _]|(p & path & Hs & Hport & Hp & Hx)]; [|done].
  destruct (Hx _ eq_refl) as [[= -> ->] Henv]. injection Hp as E1 _ _ E4 E5 _. rewrite E1.
  pose proof (find_available_port_spec (wd_bindable w) 7880 7899) as Hf. rewrite Hport in Hf. destruct Hf as (? & ? & ?).
  do 5 (split; [done|]). exists (dk_next s), path. split; [done|].
  intros file d cfg d' (b & _ & Hov & _)%load_config_ok. rewrite Henv in Hov. apply override_config_livekit in Hov.
  unfold text_value, env_value in Hov. repeat (rewrite set_var_same in Hov || rewrite set_var_other in Hov by done).
  destruct Hov as (Hu & Hpub & Hkey & Hsecret). cbn [default] in *.
  unfold get_public_url, is_enabled. rewrite Hu, Hpub, Hkey, Hsecret, E5, lookup_insert_eq. done.
Qed.
End children.

(** ** Witnesses *)

Section witnesses.
#[local] Existing Instances hex_reference toy_poseidon toy_clock toy_policy_serde toy_type_serde toy_scope_serde toy_ark.

(** A format that can express LiveKit's settings with their URL, without a
    key and a secret. *)
Definition toy_document (url : string) : list (string * toml) :=
  [("livekit", TTable [("api_key", TString ""); ("token_ttl_seconds", TInteger 60); ("url", TString url)])].
Definition toy_livekit_toml : Toml :=
  {| toml_parse s := Some (if is_empty s then [] else toy_document s) |}.
Definition toy_print : TomlPrint :=
  {| toml_print doc :=
       match doc with
       | [(n, TTable [(a, TString k); (b, TInteger t); (c, TString url)])] =>
           if decide (n = "livekit" ∧ a = "api_key" ∧ b = "token_ttl_seconds" ∧ c = "url" ∧ k = "" ∧ t = 60 ∧ url ≠ "")
           then Some url else None
       | _ => None
       end |}.
#[local] Existing Instances toy_livekit_toml toy_print.
#[local] Instance toy_toml_laws : TomlLaws toy_livekit_toml toy_print.
Proof.
  split.
  - intros text t. cbn. intros [= <-]. by destruct (is_empty text).
  - intros text t _. cbn. intros H. repeat (case_match; try discriminate H; []). subst. injection H as ->.
    match goal with H : _ ∧ _ |- _ => destruct H as (-> & -> & -> & -> & -> & -> & ?) end. by destruct text.
Qed.

Definition toy_fetch : Fetch :=
  {| ft_mkdir := true; ft_get _ := Some (200, Some "archive"); ft_chmod := true;
     ft_unpack _ := Some (true, "", [("livekit-server", "binary"); ("LICENSE", "text")]) |}.
Definition toy_desktop_world (health : list bool) : World :=
  {| wd_fetch := toy_fetch; wd_spawn _ := true; wd_bindable p := negb (p =? 7880); wd_uuids := ("a", "b");
     wd_output _ := {| ou_lines := [Some "starting LiveKit server"; Some "listening on 7881"]; ou_ended := false |};
     wd_keyring := None; wd_start := toy_start "a" x41; wd_bound := Some 4000; wd_health := health |}.
Definition toy_env : environment := λ n, if decide (n = "ANNEX_MERKLE_TREE_DEPTH") then Present "2" else NotPresent.
Definition toy_desktop : Desktop (list string) :=
  with_disk {| files := {["config.toml" := ""]}; unreadable := ∅; unwritable := ∅ |}
    (managed first_start toy_env None ∅).

(** No health in time. *)
Lemma start_embedded_server_spec_witness :
  let start w := start_embedded_server no_vkey toy_run_sql "config.toml" (toy_desktop_world w) in
  (start [] toy_desktop).1 = Err NotReady ∧
  (start [true] (start [] toy_desktop).2).1 = Ok "http://127.0.0.1:4000".
Proof.
  cbv zeta. pose proof (start_embedded_server_spec no_vkey toy_run_sql "config.toml" (toy_desktop_world []) (toy_desktop_world [true])
    toy_desktop eq_refl) as H.
  assert ((start_embedded_server no_vkey toy_run_sql "config.toml" (toy_desktop_world []) toy_desktop).1 = Err NotReady ∧
    dk_server (start_embedded_server no_vkey toy_run_sql "config.toml" (toy_desktop_world []) toy_desktop).2 =
      Some "http://127.0.0.1:4000") as [E1 E2] by (split; by vm_compute).
  destruct (start_embedded_server _ _ _ (toy_desktop_world []) toy_desktop) as [r s']. cbn in E1, E2. rewrite E2 in H.
  split; [done|]. cbn [snd]. destruct H as (_ & _ & H & _). by rewrite H.
Defined.

Definition toy_livekit_run := start_local_livekit Linux X86_64 "data" (toy_desktop_world []) toy_desktop.
Definition toy_livekit_load := load_config (dk_env toy_livekit_run.2) (Some "config.toml") (dk_disk toy_livekit_run.2).
Lemma local_livekit_reaches_server_witness :
  ∃ cfg, toy_livekit_load.1 = Ok cfg ∧ lk_url (livekit cfg) = "ws://127.0.0.1:7881" ∧ is_enabled (livekit cfg) = true.
Proof.
  assert (toy_livekit_run.1 = Ok ("ws://127.0.0.1:7881", Some 7881)) as E by (by vm_compute).
  pose proof (local_livekit_reaches_server Linux X86_64 "data" (toy_desktop_world []) toy_desktop
    "ws://127.0.0.1:7881" 7881 toy_livekit_run.2) as H.
  destruct H as (_ & _ & _ & _ & _ & child & path & _ & H); [rewrite <- E; apply surjective_pairing|].
  assert (is_ok toy_livekit_load.1 = true) as El by (by vm_compute).
  destruct toy_livekit_load.1 as [cfg|?|] eqn:Ec; [|discriminate El..]. exists cfg. split; [done|].
  by destruct (H (Some "config.toml") (dk_disk toy_livekit_run.2) cfg toy_livekit_load.2) as (? & _ & ? & _);
    [rewrite <- Ec; apply surjective_pairing|].
Defined.

Definition toy_input : SaveLiveKitInput :=
  {| si_url := "wss://voice.example"; si_api_key := ""; si_api_secret := "secret"; si_token_ttl_seconds := 60 |}.
Definition toy_saved := save_livekit_config "config.toml" (toy_desktop_world []) toy_input toy_desktop.
Lemma keyring_secret_locks_out_witness :
  toy_saved.1 = Ok () ∧ dk_keyring toy_saved.2 = Some "secret" ∧
  (load_config toy_env (Some "config.toml") (dk_disk toy_saved.2)).1 = Err Parse.
Proof.
  assert (toy_saved.1 = Ok ()) as E by (by vm_compute). split; [done|].
  destruct (keyring_secret_locks_out "config.toml" (toy_desktop_world []) toy_input toy_desktop toy_saved.2) as [Hk Hl];
    [rewrite <- E; apply surjective_pairing|].
  split; [by apply Hk|]. apply (Hl "wss://voice.example"); by vm_compute.
Defined.

Definition toy_layout : Layout :=
  {| ly_exe_dir := "/opt/annex"; ly_parent := Some "/opt"; ly_workspace := "/src"; ly_exists _ := false; ly_is_dir _ := false |}.
Definition toy_main :=
  desktop_main Linux toy_layout "data" (toy_desktop_world []) first_start toy_env (Some "kept") ∅.
Lemma desktop_ignores_cors_settings_witness :
  ∃ s, toy_main = Some ("data/config.toml", s) ∧ dk_env s "ANNEX_LIVEKIT_API_SECRET" = Present "kept".
Proof.
  destruct toy_main as [[p s]|] eqn:E; [|exfalso; revert E; by vm_compute]. exists s.
  destruct (desktop_ignores_cors_settings Linux toy_layout "data" (toy_desktop_world []) first_start toy_env (Some "kept") ∅
    p s E) as (-> & -> & _).
  split; [done|]. revert E. vm_compute. by intros [= <-].
Defined.
End witnesses.
