(* ===== verification/Launch.v ===== *)
(** * Launch: the server's process

    crates/annex-server/src/main.rs and, of lib.rs, the LiveKit server that
    is started when none answers.  [server_main] is the composition of Config
    and Startup up to the listener; signals and the serving itself are the
    runtime's.  Which verification key a server runs with decides what Api and
    Federation admit. *)

From stdpp Require Import pretty.
From S2P Require Import Prelude Sql Bytes Types Identity Text Observe Agents Channels Rtx Registry Handlers Zk Net Voice Admin Peers Config Startup Federation Api.

#[local] Open Scope Z_scope.

(** ** LiveKit *)

(** A program with the variables that it is given. *)
Record Program := { pg_command : Command; pg_env : list (string * string) }.

(** What is met: whether the [n]-th request is answered, whether a program can be
    started, and whether one that is waited for succeeds. *)
Record LaunchWorld := {
  lw_client_builds : bool;
  lw_get : nat → string → bool;
  lw_spawn : Program → bool;
  lw_status : Program → option bool;
}.

(** The requests so far, the programs that run since, the milliseconds slept. *)
Record Launched := { la_requests : nat; la_started : list Program; la_slept : Z }.

Abbreviation Launch A := (Launched → A * Launched).

Section livekit.
Context (w : LaunchWorld) (config : LiveKitConfig).

Definition is_livekit_reachable (ws_url : string) : Launch bool := λ l,
  if lw_client_builds w
  then (lw_get w (la_requests l) (replace "wss://" "https://" (replace "ws://" "http://" ws_url)),
        {| la_requests := S (la_requests l); la_started := la_started l; la_slept := la_slept l |})
  else (false, l).

Definition livekit_keys : string := lk_api_key config +:+ ": " +:+ lk_api_secret config.
Definition native_livekit : Program :=
  {| pg_command := {| cmd_program := "livekit-server"; cmd_args := [Word "--dev"; Word "--bind"; Word "0.0.0.0"];
                      cmd_stdin := None |};
     pg_env := [("LIVEKIT_KEYS", livekit_keys)] |}.
Definition docker_livekit : Program :=
  {| pg_command := {| cmd_program := "docker";
       cmd_args := [Word "run"; Word "-d"; Word "--rm"; Word "--name"; Word "annex-livekit-dev"; Word "-p"; Word "7880:7880";
                    Word "-p"; Word "7881:7881"; Word "-p"; Word "7882:7882/udp"; Word "-e";
                    Word ("LIVEKIT_KEYS=" +:+ livekit_keys); Word "livekit/livekit-server:latest"; Word "--dev";
                    Word "--bind"; Word "0.0.0.0"];
       cmd_stdin := None |};
     pg_env := [] |}.

Definition started (p : Program) (l : Launched) : Launched :=
  {| la_requests := la_requests l; la_started := la_started l ++ [p]; la_slept := la_slept l |}.

(** The child, if there is one to keep. *)
Definition try_start_livekit_dev : Launch (option Program) := λ l,
  if lw_spawn w native_livekit then (Some native_livekit, started native_livekit l)
  else match lw_status w docker_livekit with
       | Some true => (None, started docker_livekit l)
       | _ => (None, l)
       end.

(** A sleep before every attempt. *)
Fixpoint await_reachable (attempts : list Z) : Launch bool := λ l,
  match attempts with
  | [] => (false, l)
  | attempt :: attempts =>
      let '(ok, l) := is_livekit_reachable (lk_url config)
        {| la_requests := la_requests l; la_started := la_started l; la_slept := la_slept l + 500 * attempt |} in
      if ok : bool then (true, l) else await_reachable attempts l
  end.

Definition ensure_livekit_running : Launch (option Program) := λ l,
  if is_empty (lk_url config) then (None, l)
  else
    let '(reachable, l) := is_livekit_reachable (lk_url config) l in
    if reachable : bool then (None, l)
    else
      let '(child, l) := try_start_livekit_dev l in
      let '(_, l) := await_reachable [1; 2; 3; 4; 5] l in
      (child, l).
End livekit.

(** ** main *)

Section main.
Context `{HX : HexCrate, PO : Poseidon, AK : !Ark, CK : Clock, TM : Toml} (json_vkey : string → option SnarkJsVKey).
Context `{SPO : Serde ServerPolicy, ST : Serde ChannelType, SS : Serde FederationScope}.
Context {Schema : Type} (run_sql : string → Schema → result sql_error Schema).

(** Whether tracing_subscriber's [EnvFilter::try_new] takes a level. *)
Context (filter_parses : string → bool).

Definition init_tracing (logging : LoggingConfig) : result StartupError unit :=
  reject_if (negb (filter_parses (log_level logging))) (InvalidLoggingLevel (log_level logging)).

(** [main], up to the listener. *)
Definition server_main (args : list string) (e : StartEnv) : M (StartState Schema) StartupError (Config * Started) :=
  config ← on_disk (catch_map ConfigFailed (load_config (se_vars e) (selected_config_path args (se_vars e))));
  lift (init_tracing (logging config));;
  v ← prepare_state json_vkey run_sql e config;
  mret (config, v).
End main.

(** The address that the browser is sent to, for the address of the
    listener, if it is opened at all. *)
Definition is_unspecified (ip : IpAddr) : bool :=
  match ip with
  | V4 a b c d => v4_is_unspecified a b c d
  | V6 s0 s1 s2 s3 s4 s5 s6 s7 => v6_is_unspecified [s0; s1; s2; s3; s4; s5; s6; s7]
  end.
(** No other letter than an ASCII one has a lower case in these words. *)
Definition maybe_open_browser (env : environment) (dockerenv : bool) (local_addr : option (IpAddr * Z)) :
    option (IpAddr * Z) :=
  let env_val := to_ascii_lowercase (env_or env "ANNEX_OPEN_BROWSER" "") in
  let should_open :=
    if bool_decide (env_val ∈ ["true"; "1"; "yes"]) then true
    else if bool_decide (env_val ∈ ["false"; "0"; "no"]) then false
    else negb dockerenv in
  if should_open then '(ip, port) ← local_addr; Some (if is_unspecified ip then V4 127 0 0 1 else ip, port) else None.

(** * Theorems *)

(** ** LiveKit *)

Section livekit_theorems.
Context (w : LaunchWorld) (config : LiveKitConfig).

Lemma is_livekit_reachable_state url l :
  let '(_, l') := is_livekit_reachable w url l in
  la_started l' = la_started l ∧ la_slept l' = la_slept l ∧ (la_requests l' ≤ S (la_requests l))%nat.
Proof. unfold is_livekit_reachable. destruct (lw_client_builds w); cbn; (split; [done|split; [done|lia]]). Qed.

Lemma await_reachable_state attempts l :
  Forall (λ a, 0 ≤ a) attempts →
  let '(ok, l') := await_reachable w config attempts l in
  la_started l' = la_started l ∧ la_slept l ≤ la_slept l' ≤ la_slept l + 500 * foldr Z.add 0 attempts ∧
  (la_requests l' ≤ la_requests l + length attempts)%nat ∧
  (ok = false → la_slept l' = la_slept l + 500 * foldr Z.add 0 attempts).
Proof.
  intros Ha. revert l. induction Ha as [|a attempts Ha Hs IH]; intros l; [cbn; split; [done|lia]|].
  cbn [await_reachable foldr length]. set (l1 := {| la_requests := la_requests l; la_started := _; la_slept := _ |}).
  pose proof (is_livekit_reachable_state (lk_url config) l1) as H1.
  destruct (is_livekit_reachable _ _ l1) as [ok l2]. cbn [la_started la_slept la_requests l1] in H1.
  assert (0 ≤ foldr Z.add 0 attempts) by (clear -Hs; induction Hs; cbn; lia).
  destruct ok; [destruct H1 as (E1 & ? & ?); split; [exact E1|split; [lia|split; [lia|done]]]|]. specialize (IH l2).
  destruct (await_reachable w config attempts l2) as [ok l3]. destruct H1 as (E1 & ? & ?).
  rewrite E1 in IH. destruct IH as (-> & ? & ? & ?). split; [done|]. split; [lia|]. split; [lia|]. intros ->.
  lia.
Qed.

(** The start is over after six requests and seven and a half seconds of
    sleep at most.  Without a URL, or when LiveKit answers, nothing is
    started.  Otherwise, whatever the URL, also one of another host with
    the keys of production: the installed server or else one container is started,
    not both, listening on every address of this host with the
    configured keys; a child is kept exactly when the installed one was
    started, and one that never answers is kept all the same. *)
Theorem ensure_livekit_running_spec l :
  let '(child, l') := ensure_livekit_running w config l in
  (la_requests l' ≤ la_requests l + 6)%nat ∧ la_slept l ≤ la_slept l' ≤ la_slept l + 7500 ∧
  if is_empty (lk_url config) || (is_livekit_reachable w (lk_url config) l).1
  then child = None ∧ la_started l' = la_started l ∧ la_slept l' = la_slept l
  else
    ∃ programs, la_started l' = la_started l ++ programs ∧
      (programs = [native_livekit config] ∧ child = Some (native_livekit config) ∨
       programs = [docker_livekit config] ∧ child = None ∨ programs = [] ∧ child = None) ∧
      (lw_spawn w (native_livekit config) = true ↔ programs = [native_livekit config]).
Proof.
  unfold ensure_livekit_running. destruct (is_empty (lk_url config)); [cbn; split; [lia|]; by split; [lia|]|].
  pose proof (is_livekit_reachable_state (lk_url config) l) as H1.
  destruct (is_livekit_reachable w _ l) as [reachable l1]. destruct H1 as (E1 & E2 & E3).
  destruct reachable; cbn [orb fst]; [split; [lia|]; by split; [lia|]|].
  assert (∃ programs, (try_start_livekit_dev w config l1) =
      (if lw_spawn w (native_livekit config) then Some (native_livekit config) else None,
       {| la_requests := la_requests l1; la_started := la_started l1 ++ programs; la_slept := la_slept l1 |}) ∧
      (programs = [native_livekit config] ∨ programs = [docker_livekit config] ∨ programs = []) ∧
      (lw_spawn w (native_livekit config) = true ↔ programs = [native_livekit config])) as (programs & Et & Hp & Hs).
  { unfold try_start_livekit_dev. destruct (lw_spawn w _); [exists [native_livekit config]; naive_solver|].
    destruct (lw_status w _) as [[]|]; [exists [docker_livekit config]; naive_solver|exists []..];
      rewrite app_nil_r; (split; [by destruct l1|naive_solver]). }
  rewrite Et. set (l2 := {| la_requests := la_requests l1; la_started := _; la_slept := _ |}).
  pose proof (await_reachable_state [1; 2; 3; 4; 5] l2 ltac:(repeat constructor; lia)) as H2.
  destruct (await_reachable w config _ l2) as [ok l3]. cbn in H2. destruct H2 as (F1 & F2 & F3 & _).
  split; [lia|]. split; [lia|]. exists programs. split; [by rewrite F1, E1|]. split; [|done].
  destruct (lw_spawn w _); [rewrite (proj1 Hs) by done; by left|].
  destruct Hp as [->|[->| ->]]; [by destruct Hs as [_ Hs]; specialize (Hs eq_refl)|auto..].
Qed.
End livekit_theorems.

(** ** The whole start *)

(** The file of settings is as the first load left it when another file has been
    written. *)
Lemma load_file_elsewhere `{TM : Toml} p k contents d r :
  p ≠ k → load_file (Some p) d = (r, d) →
  load_file (Some p) (write_file k contents d) = (r, write_file k contents d).
Proof.
  intros Hne H. assert (read_to_string p (write_file k contents d) = read_to_string p d) as Er.
  { unfold write_file. case_decide; [done|]. unfold read_to_string. cbn. by rewrite lookup_insert_ne. }
  unfold load_file in *. rewrite Er. destruct (read_to_string p d) as [text|[]|] eqn:Et; try (injection H as <-; done).
  destruct (has_drive_path text) eqn:Ed; [|by injection H as <-].
  injection H as <- Hd. f_equal. unfold write_file in Hd |- *.
  destruct (decide (p ∈ unwritable d)) as [Hp|Hp]; [by destruct (decide (k ∈ unwritable d)); rewrite decide_True|].
  exfalso. assert (files d !! p = Some (forward_slashes text)) as Hf by (rewrite <- Hd; apply lookup_insert_eq).
  unfold read_to_string in Et. destruct (unreadable d !! p); [done|]. rewrite Hf in Et. injection Et as Et.
  by rewrite <- Et, forward_slashes_repaired in Ed.
Qed.

Section restart.
Context `{HX : HexCrate, HL : !HexLaws HX, PO : Poseidon, AK : !Ark, CK : Clock, TM : Toml}.
Context (json_vkey : string → option SnarkJsVKey).
Context `{SPO : Serde ServerPolicy, ST : Serde ChannelType, SS : Serde FederationScope}.
Context (default_policy_reads : from_json (to_json ServerPolicy_default) = Some ServerPolicy_default).
Context {Schema : Type} (run_sql : string → Schema → result sql_error Schema).

Lemma load_config_elsewhere env path k contents d r :
  path ≠ Some k → load_config env path d = (r, d) →
  load_config env path (write_file k contents d) = (r, write_file k contents d).
Proof.
  intros Hne H. destruct path as [p|].
  - pose proof (load_config_disk env (Some p) d) as Hd. rewrite H in Hd. cbn [snd] in Hd.
    destruct (load_file (Some p) d) as [r0 d0] eqn:E. cbn in Hd. subst d0.
    apply (load_file_elsewhere p k contents) in E as E'; [|congruence].
    unfold load_config, mbind, M_bind in *. rewrite E in H. rewrite E'.
    destruct r0 as [b|e|]; [|congruence..]. unfold lift in *. destruct (override_config env b) as [c|e|]; [|congruence..].
    destruct (validate_config c) as [[]|e|]; [|congruence..]. unfold mret, M_ret in *. congruence.
  - unfold load_config, mbind, M_bind, lift in *. cbn [load_file] in *.
    destruct (override_config env _) as [c|e|]; [|congruence..].
    destruct (validate_config c) as [[]|e|]; [|congruence..]. unfold mret, M_ret in *. congruence.
Qed.

(** What a start reads from the disk and leaves there: the verification key;
    at most one file more, the signing key's. *)
Lemma prepare_state_disk e config x v x' :
  prepare_state json_vkey run_sql e config x = (Ok v, x') →
  load_vkey json_vkey (se_vars e) (sd_disk x) = (Ok (sv_membership_vkey v), sd_disk x) ∧
  (sd_disk x' = sd_disk x ∨ ∃ contents, sd_disk x' = write_file (se_key_file e) contents (sd_disk x)).
Proof using default_policy_reads.
  intros H. unfold prepare_state in H. do 2 apply obtain_pool_ok in H. apply M_bind_ok in H as (n & x1 & Hm & H).
  assert (sd_disk x1 = sd_disk x) as E1.
  { unfold on_migrations, catch_map, zoom in Hm. destruct (run_migrations run_sql _ _). by injection Hm as _ <-. }
  apply obtain_pool_ok in H. apply M_bind_ok in H as (tree & x2 & [= _ <-] & H). apply obtain_pool_ok in H.
  apply M_bind_ok in H as (row & x3 & (_ & _ & _ & E3)%load_server_again & H); [|done].
  apply M_bind_ok in H as (vk & x4 & Hv & H).
  assert (load_vkey json_vkey (se_vars e) (sd_disk x3) = (Ok vk, sd_disk x4) ∧ sd_disk x4 = sd_disk x3) as [Hvk E4].
  { unfold on_disk, zoom, load_vkey in *. destruct (read_to_string _ (sd_disk x3)) as [?|?|]; injection Hv as -> <-; done. }
  apply M_bind_ok in H as (key & x5 & Hk & [= <- <-]). rewrite <- E1, <- E3. split; [by rewrite Hvk, E4|]. rewrite <- E4.
  unfold on_disk, zoom, resolve_signing_key in Hk.
  destruct (se_vars e "ANNEX_SIGNING_KEY"); [..|by injection Hk as _ <-; left];
    (destruct (stored_key _ _); injection Hk as _ <-; [by left|right; by eexists]).
Qed.

Lemma load_config_access env path d :
  unreadable (load_config env path d).2 = unreadable d ∧ unwritable (load_config env path d).2 = unwritable d.
Proof.
  rewrite load_config_disk. destruct (load_file_cases path d) as [->|(p & contents & _ & _ & _ & _ & _ & ->)]; done.
Qed.

(** C27. A restart of the whole process changes nothing: once the server has
    started, every later start with the same arguments and variables, whatever
    key and channel id it would have drawn, loads the same configuration from
    the file that the first start left, backslashes repaired or not, runs no
    migration, finds the same server, policy, tree and keys, and leaves the
    database and the files as they are.  The settings and the verification key
    must lie in other files than the signing key, which the start
    writes. *)
Theorem main_restart_is_stable filter_parses args e x config v x' :
  length (se_fresh_key e) = 32%nat →
  key_persists (se_vars e) (se_key_file e) (sd_disk x) →
  vkey_path (se_vars e) ≠ se_key_file e → selected_config_path args (se_vars e) ≠ Some (se_key_file e) →
  server_main json_vkey run_sql filter_parses args e x = (Ok (config, v), x') →
  ∀ e', se_vars e' = se_vars e → se_key_file e' = se_key_file e →
    (∀ k, se_mig_fault e' k = None) → (∀ k, se_fault e' k = None) →
    server_main json_vkey run_sql filter_parses args e' x' = (Ok (config, v), x').
Proof.
  intros Hl Hp Hv Hc H e' Ev Ek Hmf Hf. unfold server_main in H.
  apply M_bind_ok in H as (c & x1 & Hload & H). apply M_bind_ok in H as ([] & x1' & [Hlevel ->]%lift_ok & H).
  apply M_bind_ok in H as (v' & x2 & Hprep & [= -> -> <-]).
  unfold on_disk, zoom, catch_map in Hload.
  destruct (load_config _ _ (sd_disk x)) as [r d1] eqn:El. destruct r as [c|?|]; [|done..]. injection Hload as -> <-.
  pose proof (reload_is_stable (se_vars e) (selected_config_path args (se_vars e)) (sd_disk x)) as Hre.
  pose proof (load_config_access (se_vars e) (selected_config_path args (se_vars e)) (sd_disk x)) as [Hu Hw].
  rewrite El in Hre, Hu, Hw. destruct Hre as (Hre & _). cbn [snd] in Hu, Hw.
  assert (load_config (se_vars e) (selected_config_path args (se_vars e)) (sd_disk x2) = (Ok config, sd_disk x2)) as Hload2.
  { destruct (prepare_state_disk _ _ _ _ _ Hprep) as [_ [E|[contents E]]]; cbn in E; rewrite E; [done|].
    by apply load_config_elsewhere. }
  unfold server_main. unfold mbind at 1, M_bind at 1. unfold on_disk at 1, zoom at 1, catch_map at 1. rewrite Ev, Hload2.
  cbn [map_err]. assert ({| sd_migrations := sd_migrations x2; sd_merkle := sd_merkle x2; sd_servers := sd_servers x2;
    sd_channels := sd_channels x2; sd_disk := sd_disk x2 |} = x2) as -> by (by destruct x2).
  unfold mbind, M_bind. rewrite Hlevel. cbn [lift]. erewrite restart_is_stable; [reflexivity|done|exact Hl| |exact Hv|exact Hprep|done..].
  unfold key_persists in *. cbn [sd_disk]. by rewrite Hu, Hw.
Qed.
End restart.

(** ** A server without a verification key *)

Section no_key.
Context `{HX : HexCrate, SH : Sha256, PO : Poseidon, AK : !Ark, CK : Clock, TM : Toml, AM : AgentMetadata}.
Context `{ED : Ed25519, JF : JsonFields}.
Context (json_vkey : string → option SnarkJsVKey) (json_proof : string → option SnarkJsProof).
Context (groth16 : VerifyingKey → list Fr → Zk.Proof → option bool).
(** arkworks: a key with another number of points than inputs and one more
    is malformed. *)
Context (groth16_arity : ∀ vk inputs proof, length (gamma_abc_g1 vk) ≠ S (length inputs) → groth16 vk inputs proof = None).

Lemma dummy_key_fails proof a b : verify_proof groth16 generate_dummy_vkey proof [a; b] = Err SnarkError.
Proof using groth16_arity. unfold verify_proof. by rewrite groth16_arity. Qed.

Lemma check_membership_dummy `{SL : Serde (list string)} r :
  is_ok (check_membership json_proof groth16 generate_dummy_vkey r) = false.
Proof using groth16_arity.
  destruct (check_membership _ _ _ r) as [[]|e|] eqn:E; [|done..]. exfalso.
  apply check_membership_ok in E as (proof & a & b & _ & _ & _ & E). by rewrite dummy_key_fails in E.
Qed.

(** A computation that fails at a step, after steps that only read. *)
Definition refuses {S E A} (m : M S E A) : Prop := ∀ s, is_ok (m s).1 = false ∧ (m s).2 = s.
Lemma refuses_bind_reads {S E A B} (m : M S E A) (f : A → M S E B) : reads m → (∀ a, refuses (f a)) → refuses (m ≫= f).
Proof.
  intros Hm Hf s. unfold mbind, M_bind. specialize (Hm s). destruct (m s) as [[a|e|] s1]; cbn in Hm; subst s1; [apply Hf|done..].
Qed.
Lemma refuses_bind {S E A B} (m : M S E A) (f : A → M S E B) : refuses m → refuses (m ≫= f).
Proof. intros Hm s. specialize (Hm s). unfold mbind, M_bind. by destruct (m s) as [[a|e|] s1], Hm. Qed.

Section admission.
Context `{SPO : Serde ServerPolicy, ST : Serde ChannelType, SS : Serde FederationScope}.
Context `{SE : Serde EventPayload.t, SL : Serde (list string), SRR : Serde GetRootResponse}.
Context (default_policy_reads : from_json (to_json ServerPolicy_default) = Some ServerPolicy_default).
Context {Schema : Type} (run_sql : string → Schema → result sql_error Schema).

(** C26. A server that was started without a verification key admits nobody.
    The start succeeds, if the rest of it does, and takes the dummy key, for whatever reason
    the file could not be read; from then on every request to verify a
    membership and every attestation of another server's member is refused,
    and nothing is written.  What makes it so is that the dummy key has room for one
    public input only, and a membership has two. *)
Theorem no_key_admits_nobody e config x v x' err :
  read_to_string (vkey_path (se_vars e)) (sd_disk x) = Err err →
  prepare_state json_vkey run_sql e config x = (Ok v, x') →
  (∀ env r st,
     let '(o, st') := verify_membership_handler json_proof groth16 (sv_membership_vkey v) (sv_server_id v) env r st in
     is_ok o = false ∧ st' = st) ∧
  (∀ env http_get r st,
     let '(o, st') := attest_membership_handler env http_get json_proof groth16 (sv_membership_vkey v) (sv_server_id v) r st in
     is_ok o = false ∧ st' = st).
Proof using groth16_arity default_policy_reads.
  intros Hr [Hv _]%prepare_state_disk; [|done]. unfold load_vkey in Hv. rewrite Hr in Hv. injection Hv as <-.
  split; [intros env r st|intros env http_get r st].
  - assert (refuses (verify_membership_handler json_proof groth16 generate_dummy_vkey (sv_server_id v) env r)) as H.
    { apply refuses_bind_reads; [done|intros d]. apply refuses_bind_reads; [apply on_db_lift_reads|intros exists_].
      apply refuses_bind_reads; [done|intros _]. apply refuses_bind. intros y. split; [apply check_membership_dummy|done]. }
    specialize (H st). by destruct (verify_membership_handler _ _ _ _ _ _ st).
  - assert (refuses (attest_membership_handler env http_get json_proof groth16 generate_dummy_vkey (sv_server_id v) r)) as H.
    { apply refuses_bind_reads; [done|intros d]. apply refuses_bind_reads; [apply on_db_lift_reads|intros rows].
      do 8 (apply refuses_bind_reads; [done|intros ?]). apply refuses_bind. intros y. by rewrite dummy_key_fails. }
    specialize (H st). by destruct (attest_membership_handler _ _ _ _ _ _ _ st).
Qed.
End admission.
End no_key.

(** ** Witnesses *)

Section witnesses.
#[local] Existing Instances hex_reference hex_reference_laws toy_poseidon toy_clock toy_policy_serde toy_type_serde
  toy_scope_serde toy_ark toy_toml toy_sha256 toy_ed toy_json_fields toy_metadata toy_event_serde Rtx.tags_serde
  toy_root_serde.

(** The settings name a Windows path. *)
Definition windows_start : StartState (list string) :=
  {| sd_migrations := sd_migrations first_start; sd_merkle := sd_merkle first_start; sd_servers := t_empty;
     sd_channels := t_empty; sd_disk := toy_disk |}.
Definition main_result := server_main no_vkey toy_run_sql (λ level, bool_decide (level = "info")) [] (toy_start "a" x41) windows_start.

Lemma main_restart_is_stable_witness :
  ∃ config v, main_result.1 = Ok (config, v) ∧ db_path (database config) = "C:/annex.db" ∧
    server_main no_vkey toy_run_sql (λ level, bool_decide (level = "info")) [] (toy_start "b" x42) main_result.2 = (Ok (config, v), main_result.2).
Proof.
  assert (match main_result.1 with Ok (c, _) => bool_decide (db_path (database c) = "C:/annex.db") | _ => false end = true)
    as E by (by vm_compute).
  destruct main_result.1 as [[config v]|?|] eqn:Ev; [|discriminate E..]. exists config, v. split; [done|].
  split; [by apply bool_decide_eq_true_1 in E|].
  apply (main_restart_is_stable no_vkey (SPO := toy_policy_serde) eq_refl toy_run_sql _ [] (toy_start "a" x41) windows_start
    config v main_result.2 eq_refl (or_intror (conj eq_refl (not_elem_of_empty _)))); [done|done| |done..].
  rewrite <- Ev. apply surjective_pairing.
Defined.

(** A verifier that accepts every proof of the right number of inputs. *)
Definition lenient_groth16 : VerifyingKey → list Fr → Zk.Proof → option bool := λ vk inputs _,
  if decide (length (gamma_abc_g1 vk) = S (length inputs)) then Some true else None.

Lemma no_key_admits_nobody_witness :
  ∃ v, start_result.1 = Ok v ∧ ∀ st,
    is_ok (verify_membership_handler toy_proof_json lenient_groth16 (sv_membership_vkey v) (sv_server_id v) toy_env
      toy_verify st).1 = false.
Proof.
  assert (is_ok start_result.1 = true) as E by (by vm_compute).
  destruct start_result.1 as [v|?|] eqn:Ev; [|discriminate E..]. exists v. split; [done|]. intros st.
  pose proof (no_key_admits_nobody no_vkey toy_proof_json lenient_groth16
    (λ vk inputs proof H, decide_False _ _ H) eq_refl toy_run_sql (toy_start "a" x41) small_config first_start v
    start_result.2 NotFound eq_refl) as H.
  destruct H as [H _]; [rewrite <- Ev; apply surjective_pairing|]. specialize (H toy_env toy_verify st).
  by destruct (verify_membership_handler _ _ _ _ _ _ st), H.
Defined.
End witnesses.
