(* ===== verification/Accounts.v ===== *)
(** * Accounts: who appears in the tables

    For a set of pseudonyms, such as those that proved a membership: which
    operations of the components keep everybody named in the identities and the
    members within the set, and whom the others add; where a message comes
    from, and who comes to listen to a channel.  Server puts these lemmas
    together. *)

From S2P Require Import Prelude Sql Bytes Types Identity Merkle Registry Observe Platform Graph Channels Text RateLimit Connections.
From S2P Require Import Vrp Handlers Agents Peers Rtx Wire Voice Zk Federation Sockets ChannelApi Api Admin.

#[local] Open Scope Z_scope.

(** ** Tables whose rows name somebody *)

Section owned.
Context {R K : Type} (who : R → K) (E : K → Prop).
Implicit Types t : table R.

Definition owned t : Prop := ∀ r, r ∈ t_rows t → E (who r).

Lemma owned_insert mk t : (∀ id, E (who (mk id))) → owned t → owned (t_insert mk t).2.
Proof. intros Hmk Ht r [Hr| ->]%elem_of_t_insert; [by apply Ht|apply Hmk]. Qed.
Lemma owned_update P `{!∀ r, Decision (P r)} f t :
  (∀ r, who (f r) = who r) → owned t → owned (t_update P f t).2.
Proof. intros Hf Ht r (r0 & Hr & [[_ ->]|[_ ->]])%elem_of_t_update; rewrite ?Hf; by apply Ht. Qed.
Lemma owned_delete P `{!∀ r, Decision (P r)} t : owned t → owned (t_delete P t).2.
Proof. intros Ht r [Hr _]%elem_of_t_delete. by apply Ht. Qed.
Lemma owned_snoc t t' r : t_rows t' = t_rows t ++ [r] → E (who r) → owned t → owned t'.
Proof.
  intros Et Hr Ht x Hx. rewrite Et in Hx. apply elem_of_app in Hx as [Hx| ->%list_elem_of_singleton]; [by apply Ht|done].
Qed.
Lemma owned_upsert P `{!∀ r, Decision (P r)} f mk t :
  (∀ r, who (f r) = who r) → (∀ id, E (who (mk id))) → owned t → owned (t_upsert P f mk t).
Proof.
  intros Hf Hmk Ht. unfold t_upsert. destruct (t_exists P t); [by apply owned_update|by apply owned_insert].
Qed.
End owned.

Lemma owned_mono {R K} (who : R → K) (E E' : K → Prop) (t : table R) :
  (∀ p, E p → E' p) → owned who E t → owned who E' t.
Proof. intros HE Ht r Hr. by apply HE, Ht. Qed.

(** ** The connection manager *)

Section manager.
Context (E : string → Prop) (L : string → string → Prop).
Implicit Types m : Manager.

(** The maps are consistent, whoever is connected is in the set, and who
    listens to which channel is in [L]. *)
Record connected (m : Manager) : Prop := {
  co_consistent : consistent m;
  co_sessions : ∀ p x, sessions m !! p = Some x → E p;
  co_listens : ∀ c p, listens m c p → L c p;
}.

Lemma connected_mail f m : connected m → connected (set_mailboxes f m).
Proof. intros [H1 H2 H3]. split; [by apply consistent_mail|done..]. Qed.
Lemma connected_send p json m : connected m → connected (alone (send p json) m).2.
Proof. apply connected_mail. Qed.
Lemma connected_broadcast c json m : connected m → connected (alone (broadcast c json) m).2.
Proof. rewrite broadcast_alone. apply connected_mail. Qed.
Lemma connected_unsubscribe c p m : connected m → connected (alone (unsubscribe c p) m).2.
Proof.
  intros [H1 H2 H3]. destruct (unsubscribe_alone c p m H1) as (Hc & [Hs _] & Hl).
  split; [done|by rewrite Hs|]. intros c' p' [? _]%Hl. by eapply H3.
Qed.
Lemma connected_add id p h m : E p → connected m → connected (alone (add_session id p h) m).2.
Proof.
  intros Hp [H1 H2 H3]. destruct (add_session_alone id p h m H1) as (Hc & _ & Hs & Hl).
  split; [done| |intros c' p' [? _]%Hl; by eapply H3]. intros q x. rewrite Hs.
  intros [[<- _]|[_ Hq]]%lookup_insert_Some; [done|by eapply H2].
Qed.
Lemma connected_remove p id m : connected m → connected (alone (remove_session p id) m).2.
Proof.
  intros [H1 H2 H3]. destruct (remove_session_alone p id m H1) as (Hc & _ & Hs). split; [done|..].
  - intros q x. case_decide; [|rewrite Hs; apply H2]. destruct Hs as [-> _].
    intros [_ Hq]%lookup_delete_Some. by eapply H2.
  - intros c q. case_decide; [|rewrite Hs; apply H3]. destruct Hs as [_ Hl]. intros [? _]%Hl. by eapply H3.
Qed.
Lemma connected_disconnect p m : connected m → connected (alone (disconnect_user p) m).2.
Proof.
  intros Hm. change (alone (disconnect_user p) m) with
    (alone (match fst <$> sessions m !! p with Some id => remove_session p id | None => mret () end) m).
  destruct (fst <$> sessions m !! p); [by apply connected_remove|done].
Qed.
Lemma connected_disconnect_all ps m :
  connected m → connected (foldl (λ m p, (alone (disconnect_user p) m).2) m ps).
Proof. revert m. induction ps as [|p ps IH]; intros m Hm; [done|]. by apply IH, connected_disconnect. Qed.
End manager.


(** ** Channels *)

(** A computation from a state that is known. *)
Lemma bind_at {T E A B} (I : T → Prop) (m : M T E A) (f : A → M T E B) x :
  I (m x).2 → (∀ a, preserves I (f a)) → I ((m ≫= f) x).2.
Proof. intros Hm Hf. unfold mbind, M_bind. destruct (m x) as [[a|e|] y]; [by apply Hf|done..]. Qed.

(** What a message keeps: its id, its channel and its author. *)
Definition origin (m : Message) : string * string * string := (m_message_id m, m_channel_id m, m_sender_pseudonym m).

(** An edit or a deletion changes the edits and the one message, and leaves its
    origin. *)
Section changes.
Context `{CK : Clock, ST : Serde ChannelType, SF : Serde FederationScope, SA : Serde AlignmentStatus.t, SP : Serde ServerPolicy}.
Context (J : ChannelDb → Prop).
Context (Hm : ∀ m f, (∀ r, origin (f r) = origin r) → preserves J (update_messages m f)).

Lemma kept_edit_message flt now m p content :
  (∀ t d, J d → J (set_edits t d)) → preserves J (edit_message flt now m p content).
Proof using Hm.
  intros He. apply preserves_bind; [by apply preserves_reads|intros d]. apply preserves_bind; [by apply preserves_reads|intros msg].
  apply preserves_bind; [apply preserves_catch, preserves_exec|intros _].
  { intros d' Hd'. unfold insert_edit. destruct (negb _); [done|]. by apply He. }
  apply preserves_bind; [by apply preserves_catch, preserves_exec, Hm|intros _].
  apply preserves_bind; [by apply preserves_reads|intros d']. by apply preserves_reads.
Qed.
Lemma kept_delete_message flt now m p : preserves J (delete_message flt now m p).
Proof using Hm.
  apply preserves_bind; [by apply preserves_reads|intros d]. apply preserves_bind; [by apply preserves_reads|intros msg].
  apply preserves_bind; [by apply preserves_catch, preserves_exec, Hm|intros _].
  apply preserves_bind; [by apply preserves_reads|intros d']. by apply preserves_reads.
Qed.
End changes.

Section channels.
Context `{ST : Serde ChannelType, SF : Serde FederationScope, SA : Serde AlignmentStatus.t}.
Context `{SP : Serde ServerPolicy, CK : Clock, SO : ScanOrder}.
Context (E : string → Prop) (Q : table PlatformRow → Prop) (R : string * string * string → Prop).

(** Everybody in the tables is in the set, the messages are of the origins
    [R]; [Q] is anything known of the identities, which few operations
    write. *)
Record accounts (d : ChannelDb) : Prop := {
  ac_identities : owned pr_pseudonym_id E (identities d);
  ac_members : owned cm_pseudonym_id E (channel_members d);
  ac_messages : owned origin R (messages d);
  ac_platform : Q (identities d);
}.

Lemma accounts_channels t d : accounts d → accounts (set_channels t d).
Proof. by intros []. Qed.
Lemma accounts_edits t d : accounts d → accounts (set_edits t d).
Proof. by intros []. Qed.
Lemma accounts_messages t d : owned origin R t → accounts d → accounts (set_messages t d).
Proof. by intros ? []. Qed.
Lemma accounts_members t d : owned cm_pseudonym_id E t → accounts d → accounts (set_members t d).
Proof. by intros ? []. Qed.
Lemma accounts_platform t d : owned pr_pseudonym_id E t → Q t → accounts d → accounts (set_platform t d).
Proof. by intros ? ? []. Qed.

(** The foreign key of the members is to the identities. *)
Lemma accounts_insert_member now s c p : preserves accounts (insert_member now s c p).
Proof.
  intros d Hd. unfold insert_member. destruct (t_exists (member_key c p) _); [done|].
  destruct (bool_decide _ || _ || negb (t_exists (Platform.is_member s p) (identities d))) eqn:Ef; [done|].
  apply orb_false_iff in Ef as [_ (r & Hr & _ & Hp)%negb_false_iff%t_exists_spec].
  apply accounts_members; [|done]. apply owned_insert; [|apply Hd]. intros id. cbn. rewrite <- Hp. by apply Hd.
Qed.
Lemma accounts_add_member flt now s c p : preserves accounts (add_member flt now s c p).
Proof.
  intros d Hd. unfold add_member. destruct (get_channel flt c d); [|done..].
  pose proof (preserves_exec accounts (λ k, flt (S k)) 0 _ (accounts_insert_member now s c p) d Hd) as H.
  destruct (exec _ _ _ d) as [[?|[]|] d1]; exact H.
Qed.
Lemma accounts_remove_member flt s c p : preserves accounts (remove_member flt s c p).
Proof.
  apply preserves_bind; [|intros; by apply preserves_reads]. apply preserves_catch, preserves_exec.
  intros d Hd. apply accounts_members; [apply owned_delete, Hd|done].
Qed.

Lemma accounts_delete_messages P `{!∀ r, Decision (P r)} : preserves accounts (delete_messages P).
Proof.
  intros d Hd. unfold delete_messages. case_bool_decide; [done|].
  apply accounts_messages; [apply owned_delete, Hd|done].
Qed.
Lemma accounts_delete_channel flt c : preserves accounts (delete_channel flt c).
Proof.
  apply preserves_bind; [apply preserves_catch, preserves_exec, accounts_delete_messages|intros _].
  apply preserves_bind; [apply preserves_catch, preserves_exec|intros _].
  { intros d Hd. apply accounts_members; [apply owned_delete, Hd|done]. }
  apply preserves_bind; [apply preserves_catch, preserves_exec|intros n; by apply preserves_reads].
  intros d Hd. unfold delete_channel_row. destruct (_ && _); [done|]. by apply accounts_channels.
Qed.
Lemma accounts_create_channel flt now p : preserves accounts (create_channel flt now p).
Proof.
  apply preserves_catch, preserves_exec. intros d Hd. unfold insert_channel.
  destruct (t_exists _ _); [done|]. case_bool_decide; [done|]. by apply accounts_channels.
Qed.

(** A new message has an origin; a change leaves it. *)
Lemma accounts_create_message flt now p d :
  R (mp_message_id p, mp_channel_id p, mp_sender_pseudonym p) → accounts d → accounts (create_message flt now p d).2.
Proof.
  intros Hp Hd. pose proof (create_message_cases flt now p d) as HC. destruct (create_message flt now p d) as [r d'].
  destruct HC as [[_ ->]|(sid & days & _ & _ & ->)]; [done|].
  apply accounts_messages; [|done]. apply owned_insert; [by intros|apply Hd].
Qed.
Lemma accounts_update_messages m f :
  (∀ r, origin (f r) = origin r) → preserves accounts (update_messages m f).
Proof. intros Hf d Hd. apply accounts_messages; [by apply owned_update, Hd|done]. Qed.
Lemma accounts_edit_message flt now m p content : preserves accounts (edit_message flt now m p content).
Proof. apply kept_edit_message; [apply accounts_update_messages|apply accounts_edits]. Qed.
Lemma accounts_delete_message flt now m p : preserves accounts (delete_message flt now m p).
Proof. apply kept_delete_message, accounts_update_messages. Qed.
Lemma accounts_retention fuel flt now total : preserves accounts (retention_loop fuel flt now total).
Proof.
  revert flt now total. induction fuel as [|fuel IH]; intros flt now total; [by apply preserves_reads|].
  apply preserves_bind; [|intros n; apply preserves_if; [by apply preserves_reads|apply IH]].
  apply preserves_bind; [by apply preserves_reads|intros d].
  apply preserves_catch, preserves_exec, accounts_delete_messages.
Qed.
End channels.

(** ** The endpoints other servers call *)

Section federation.
Context `{HX : HexCrate, SH : Sha256, PO : Poseidon, AK : !Ark, CK : Clock, ED : Ed25519, JF : JsonFields}.
Context `{ST : Serde ChannelType, SF : Serde FederationScope, SA : Serde AlignmentStatus.t, SP : Serde ServerPolicy}.
Context `{SO : Serde OutgoingMessage, SG : Serde GetRootResponse}.
Context `{SL : Serde (list string), SM : Serde RtxMessage, SPV : Serde BundleProvenance}.
Context (E : string → Prop) (Q : table PlatformRow → Prop) (R : string * string * string → Prop).

Definition fed_accounts (d : FedDb) : Prop := accounts E Q R (fed_channels d).

(** A relayed message is the one that was vouched for. *)
Lemma accounts_receive_message env http_get s e st :
  (∀ identity, vouched_for s e (db st) identity → R (fm_message_id e, fm_channel_id e, fi_pseudonym_id identity)) →
  fed_accounts (db st) → fed_accounts (db (receive_federated_message_handler env http_get s e st).2).
Proof.
  intros HR Hst. pose proof (receive_message_clean env http_get s e st) as Hc.
  destruct (receive_federated_message_handler env http_get s e st) as [r st'] eqn:H.
  cbn in Hc. destruct Hc as [[[] ->]| ->]; [|done].
  apply received_checks in H as (identity & Hv%HR & H). cbn [snd].
  apply M_bind_ok in H as (inserted & st1 & Hins & H).
  match type of Hins with insert_received ?a ?b ?c st = _ =>
    pose proof (insert_received_cases a b c st) as HC; rewrite Hins in HC end.
  assert (fed_accounts (db st1)) as H1.
  { destruct HC as [[_ ->]|(x & _ & Hid & Hch & Hs & _ & _ & _ & t & -> & Ht)]; [done|].
    apply accounts_messages; [|exact Hst]. eapply owned_snoc; [exact Ht| |apply Hst].
    unfold origin. by rewrite Hid, Hch, Hs. }
  destruct inserted; by injection H as <-.
Qed.

Lemma accounts_attest env http_get json_proof groth16 membership_vkey s r st :
  (∀ now p ty d, Q (identities (fed_channels d)) → Q (identities (fed_channels (upsert_platform now s p ty d).2))) →
  (∀ i root p, attestation_proved http_get json_proof groth16 membership_vkey r (db st) i root p → E p) →
  fed_accounts (db st) →
  fed_accounts (db (attest_membership_handler env http_get json_proof groth16 membership_vkey s r st).2).
Proof.
  intros HQ HE Hst. pose proof (attest_checks env http_get json_proof groth16 membership_vkey s r st) as HA.
  destruct (attest_membership_handler env http_get json_proof groth16 membership_vkey s r st) as [o st'].
  destruct HA as [[_ ->]|(i & root & p & ty & Hp & H)]; [done|]. apply HE in Hp.
  assert (preserves (fed_accounts ∘ db)
    (persist_attestation env s (in_id i) r (gr_root_hex root) p ty;; mret p : M (State FedDb) _ _)) as HP;
    [|specialize (HP st Hst); by rewrite H in HP].
  apply preserves_bind; [|intros; by apply preserves_reads]. apply preserves_db_transaction.
  apply preserves_bind; [apply preserves_on_db|intros _].
  { intros d Hd. unfold upsert_federated_identity. by destruct (_ || _). }
  apply preserves_bind; [apply preserves_on_db|intros _].
  { intros d Hd. apply accounts_platform; [|by apply (HQ _ p (at_participant_type r) d), Hd|exact Hd].
    apply owned_upsert; [done|done|apply Hd]. }
  apply preserves_bind; [|intros; by apply preserves_reads].
  apply preserves_catch, (preserves_zoom _ (λ _, True)); [done|by intros|by intros].
Qed.

Lemma accounts_join_federated env s c r : preserves (fed_accounts ∘ db) (join_federated_channel_handler env s c r).
Proof.
  unfold join_federated_channel_handler.
  repeat (apply preserves_bind; [apply preserves_reads; solve [apply active_instance_reads
    |apply require_agreement_reads|apply on_db_lift_reads|done]|intros ?]).
  apply preserves_catch, (preserves_zoom _ (accounts E Q R)); [done|by intros|apply accounts_add_member].
Qed.

(** Bundles are no messages of channels. *)
Lemma accounts_receive_rtx env url s e : preserves (fed_accounts ∘ db) (receive_federated_rtx_handler env url s e).
Proof.
  intros st Hst. destruct (receive_federated_rtx_handler env url s e st) as [r st'] eqn:H. cbn [snd].
  apply federated_rtx_checks in H as [->|(i & a & sc & scoped & _ & H)]; [done|].
  unfold store_and_deliver, mbind, M_bind in H. pose proof (store_received_cases env s e sc scoped st) as HC.
  destruct (store_received env s e sc scoped st) as [r1 st1].
  destruct HC as [[-> (err & ->)]|(b & t & -> & _ & ->)]; [destruct err|]; cbn in H; by injection H as <- <-.
Qed.
End federation.

(** ** The endpoints on channels *)

Section channel_api.
Context `{HX : HexCrate, SH : Sha256, PO : Poseidon, AK : !Ark, CK : Clock, LK : LiveKit, PH : ProofHeader}.
Context `{ST : Serde ChannelType, SF : Serde FederationScope, SA : Serde AlignmentStatus.t, SP : Serde ServerPolicy}.
Context `{SL : Serde (list string)}.
Context (enforce_zk_proofs : bool) (json_proof : string → option SnarkJsProof).
Context (groth16 : VerifyingKey → list Fr → Proof → option bool) (membership_vkey : VerifyingKey).
Context (merkle_tree : MerkleTree) (voice : LiveKitConfig) (s : Z) (E : string → Prop) (Q : table PlatformRow → Prop).
Context (R : string * string * string → Prop) (L : string → string → Prop).

Definition api_accounts (st : ApiState) : Prop := accounts E Q R (ap_channels st) ∧ connected E L (ap_mgr st).

Lemma accounts_on_channels {F A} (m : M ChannelDb F A) :
  preserves (accounts E Q R) m → preserves api_accounts (on_channels m).
Proof. intros H. apply (preserves_zoom _ (accounts E Q R)); [by intros st []|by intros st t []|done]. Qed.
Lemma accounts_on_edges {F A} (m : M (table GraphEdgeRow) F A) : preserves api_accounts (on_edges m).
Proof. by apply (preserves_zoom _ (λ _, True)). Qed.
Lemma accounts_api_voice {F A} (m : Speak F A) : preserves api_accounts (ChannelApi.on_voice m).
Proof. by apply (preserves_zoom _ (λ _, True)). Qed.
Lemma accounts_call_voice {F} q : preserves api_accounts (call_voice q : M ApiState F unit).
Proof. by intros st Hst. Qed.
Lemma accounts_unsubscribe {F} c p : preserves api_accounts (call_manager (unsubscribe c p) : M ApiState F unit).
Proof. intros st [Hst Hm]. split; [done|by apply connected_unsubscribe]. Qed.
#[local] Hint Resolve accounts_on_channels accounts_on_edges accounts_api_voice accounts_call_voice
  accounts_unsubscribe accounts_create_channel accounts_delete_channel accounts_add_member accounts_remove_member
  check_proof_reads fetch_channel_reads check_agent_reads require_member_reads : annex.

Lemma accounts_create_channel_handler env identity r :
  preserves api_accounts (create_channel_handler voice s env identity r).
Proof. unfold create_channel_handler. eauto 20 with annex. Qed.
Lemma accounts_delete_channel_handler env identity c : preserves api_accounts (delete_channel_handler env identity c).
Proof. unfold delete_channel_handler. eauto 20 with annex. Qed.
Lemma accounts_join_channel env identity header c :
  preserves api_accounts
    (join_channel_handler enforce_zk_proofs json_proof groth16 membership_vkey merkle_tree voice s env identity header c).
Proof. unfold join_channel_handler, add_to_channel, connect_agent. eauto 30 with annex. Qed.
Lemma accounts_leave_channel env identity c : preserves api_accounts (leave_channel_handler voice s env identity c).
Proof. unfold leave_channel_handler. eauto 30 with annex. Qed.
Lemma accounts_leave_voice env identity c : preserves api_accounts (leave_voice_channel_handler voice s env identity c).
Proof. unfold leave_voice_channel_handler. eauto 30 with annex. Qed.
End channel_api.

(** ** Sockets *)

Section sockets.
Context `{HX : HexCrate, SH : Sha256, CK : Clock, ED : Ed25519, ET : ErrorText}.
Context `{ST : Serde ChannelType, SF : Serde FederationScope, SA : Serde AlignmentStatus.t, SP : Serde ServerPolicy}.
Context `{SFM : Serde FederatedMessageEnvelope, SO : Serde OutgoingMessage, SI : Serde IncomingMessage}.
Context `{LK : LiveKit, VT : VoiceErrorText}.
Context (key : signing_key) (pub_url : string) (cfg : LiveKitConfig) (s : Z) (k : Socket).

(** The frame is a message, which is stored as this. *)
Definition sends (a : Arrival) (c content : string) (reply : option string) : Prop :=
  ∃ text, ar_frame a = TextFrame text ∧ from_json text = Some (SendMessage c content reply).
Definition sent_message (a : Arrival) (c content : string) (reply : option string) : CreateMessageParams :=
  {| mp_channel_id := c; mp_message_id := ar_uuid a; mp_sender_pseudonym := sk_pseudonym k;
     mp_content := content; mp_reply_to := reply |}.

(** What the three operations on messages keep, the first one in a channel
    that the user is a member of, the whole loop keeps; it writes no other
    tables than the channels' and the nodes. *)
Section kept.
Context (J : ChannelDb → Prop) (rtx : RtxDb) (commitments : table IdentityRow) (voices : table VoiceProfileRow).
Context (P : Arrival → Prop).
Context (HJc : ∀ a c content reply d, P a → sends a c content reply → Channels.member d s c (sk_pseudonym k) = true →
  J d → J (create_message (shifted (ar_env a) 1) (now (ar_env a)) (sent_message a c content reply) d).2).
Context (HJe : ∀ flt now m p content, preserves J (edit_message flt now m p content)).
Context (HJd : ∀ flt now m p, preserves J (delete_message flt now m p)).

Definition kept (st : SocketState) : Prop :=
  J (fed_channels (so_db st)) ∧ fed_rtx (so_db st) = rtx ∧ fed_commitments (so_db st) = commitments ∧ so_voices st = voices.

Lemma kept_on_mgr {F A} (q : prog A) : preserves kept (on_mgr q : M SocketState F A).
Proof. intros st Hst. unfold on_mgr. by destruct (alone q (so_mgr st)). Qed.
Lemma kept_ws_error {F} text : preserves kept (send_ws_error k text : M SocketState F unit).
Proof. by intros st Hst. Qed.
Lemma kept_voice {F A} (m : Speak F A) : preserves kept (Sockets.on_voice m).
Proof. by apply (preserves_zoom _ (λ _, True)). Qed.
Lemma kept_blocking_at {A} failed join_failed (m : M ChannelDb Channels.ChannelError A) st :
  J (m (fed_channels (so_db st))).2 → kept st → kept (blocking failed join_failed m st).2.
Proof. intros H (_ & H1 & H2 & H3). unfold blocking. by destruct (m (fed_channels (so_db st))). Qed.
Lemma kept_blocking {A} failed join_failed (m : M ChannelDb Channels.ChannelError A) :
  preserves J m → preserves kept (blocking failed join_failed m).
Proof. intros H st Hst. apply kept_blocking_at; [apply H, Hst|done]. Qed.
Lemma ws_membership_reads env c : reads (check_ws_membership s k env c).
Proof. done. Qed.
Lemma kept_relay env c m : preserves kept (relay key pub_url s env c m).
Proof. by intros st Hst. Qed.
#[local] Hint Resolve kept_on_mgr kept_ws_error kept_voice kept_blocking ws_membership_reads kept_relay HJe HJd : annex.

Lemma kept_message a c content reply :
  P a → sends a c content reply →
  preserves kept (on_message key pub_url s k (ar_env a) (ar_relay_env a) (ar_uuid a) c content reply).
Proof using HJc.
  intros Ha Hs. unfold on_message, check_length. apply preserves_bind; [eauto with annex|intros _].
  apply preserves_bind_ok; [eauto with annex|]. intros st [] st' Hst Hm.
  destruct (check_ws_membership_cases s k (ar_env a) c st) as [[E Hmem]|[e E]]; rewrite E in Hm; [|done]. injection Hm as <-.
  apply bind_at; [|intros [m b]; eauto 20 with annex]. apply kept_blocking_at; [|done].
  unfold persist_message. apply bind_at; [by apply (HJc a c content reply); [..|apply Hst]|]. intros m. apply preserves_reads. eauto 20 with annex.
Qed.

Lemma kept_incoming a incoming :
  P a → (∀ c content reply, incoming = SendMessage c content reply → sends a c content reply) →
  preserves kept (on_incoming key pub_url cfg s k a incoming).
Proof using HJc HJe HJd.
  intros Ha Hs. destruct incoming as [c|c|c content reply|c id content|c id|c text]; cbn [on_incoming];
    [..|by apply kept_message, Hs| | |]; unfold on_subscribe, on_edit, on_delete, on_voice_intent, check_length; eauto 30 with annex.
Qed.
Lemma kept_touch env st : kept st → kept (touch_activity s k env st).
Proof. intros Hst. unfold touch_activity. by destruct (update_node_activity _ _ _ _ _). Qed.
Lemma kept_serve arrivals st : Forall P arrivals → kept st → kept (serve key pub_url cfg s k arrivals st).
Proof using HJc HJe HJd.
  intros HP. revert st. induction HP as [|a arrivals Ha HP IH]; intros st Hst; [done|]. cbn [serve].
  set (st1 := if _ <=? _ then _ else st).
  assert (kept st1) as H1 by (subst st1; case_match; [by apply kept_touch|done]).
  destruct (ar_frame a) as [text| |] eqn:Ef; [|done|by apply IH]. apply IH. unfold on_text, reported.
  destruct (from_json text) as [incoming|] eqn:Et; [|by apply (kept_ws_error (F := string))].
  assert (kept (on_incoming key pub_url cfg s k a incoming st1).2) as H2.
  { apply kept_incoming; [done| |done]. intros c content reply ->. by exists text. }
  destruct (on_incoming key pub_url cfg s k a incoming st1) as [[|e|] st2]; [done| |done].
  by apply (kept_ws_error (F := string)).
Qed.
End kept.

Context (E : string → Prop) (Q : table PlatformRow → Prop) (R : string * string * string → Prop) (L : string → string → Prop).
Definition socket_accounts (st : SocketState) : Prop := accounts E Q R (fed_channels (so_db st)).

Lemma accounts_kept st st' :
  (∀ x y z, kept (accounts E Q R) x y z st → kept (accounts E Q R) x y z st') → socket_accounts st → socket_accounts st'.
Proof. intros H Hst. by destruct (H _ _ _ (conj Hst (conj eq_refl (conj eq_refl eq_refl)))). Qed.
Lemma accounts_on_mgr {F A} (q : prog A) : preserves socket_accounts (on_mgr q : M SocketState F A).
Proof. intros st. apply accounts_kept. intros x y z. apply kept_on_mgr. Qed.
Lemma accounts_touch env st : socket_accounts st → socket_accounts (touch_activity s k env st).
Proof. apply accounts_kept. intros x y z. apply kept_touch. Qed.

(** A message is stored for a member of its channel; who is a member does not
    change meanwhile. *)
Lemma accounts_serve arrivals st :
  (∀ a c content reply, a ∈ arrivals → sends a c content reply →
     Channels.member (fed_channels (so_db st)) s c (sk_pseudonym k) = true → R (ar_uuid a, c, sk_pseudonym k)) →
  socket_accounts st → socket_accounts (serve key pub_url cfg s k arrivals st).
Proof.
  intros HR Hst. set (members := channel_members (fed_channels (so_db st))).
  set (J := λ d, accounts E Q R d ∧ channel_members d = members).
  assert (kept J (fed_rtx (so_db st)) (fed_commitments (so_db st)) (so_voices st)
    (serve key pub_url cfg s k arrivals st)) as [[H _] _]; [|exact H].
  apply (kept_serve J _ _ _ (λ a, a ∈ arrivals)); [..|by apply Forall_forall|by split].
  - intros a c content reply d Ha Hs Hm [Hd Ed]. split.
    + apply accounts_create_message; [|done]. apply (HR a c content reply); [done..|]. unfold Channels.member in *.
      fold members. by rewrite <- Ed.
    + pose proof (create_message_cases (shifted (ar_env a) 1) (now (ar_env a)) (sent_message a c content reply) d) as HC.
      destruct (create_message _ _ _ d) as [r d']. by destruct HC as [[_ ->]|(sid & days & _ & _ & ->)].
  - intros flt now m p content d [Hd Ed]. split; [by apply accounts_edit_message|by rewrite keeps_members_edit].
  - intros flt now m p d [Hd Ed]. split; [by apply accounts_delete_message|by rewrite keeps_members_delete].
Qed.

(** The loop subscribes its own user only, to what it asks for and is a member
    of. *)
Lemma connected_serve arrivals st :
  (∀ a c, a ∈ arrivals → subscribes a c →
     Channels.member (fed_channels (so_db st)) s c (sk_pseudonym k) = true → L c (sk_pseudonym k)) →
  connected E L (so_mgr st) → connected E L (so_mgr (serve key pub_url cfg s k arrivals st)).
Proof.
  intros HL [H1 H2 H3].
  destruct (orderly_serve key pub_url cfg s k (λ c, ∃ a, a ∈ arrivals ∧ subscribes a c) arrivals st) as [S1 S2 S3 S4 _];
    [by intros a c Ha Hs; exists a|].
  split; [by apply S1|by rewrite S2|]. intros c p Hl. destruct (decide (p = sk_pseudonym k)) as [->|Hp].
  - apply S4 in Hl as [Hl|[(a & Ha & Hs) Hm]]; [by apply H3|by apply (HL a)|done].
  - by apply (H3 c), S3.
Qed.
End sockets.

(** ** Registration and verification *)

Section api.
Context `{HX : HexCrate, SH : Sha256, PO : Poseidon, AK : !Ark, CK : Clock, AM : AgentMetadata}.
Context `{SE : Serde EventPayload.t, SL : Serde (list string)}.
Context (json_proof : string → option SnarkJsProof).
Context (groth16 : VerifyingKey → list Fr → Zk.Proof → option bool) (membership_vkey : VerifyingKey) (s : Z).
Context (E : string → Prop) (Q : table PlatformRow → Prop).

Definition known_platform (d : VerifyDb) : Prop := owned pr_pseudonym_id E (vd_platform d) ∧ Q (vd_platform d).

Lemma platform_only_logged d d' : only_logged d d' → known_platform d → known_platform d'.
Proof. by intros [t ->]. Qed.

(** A verification adds the pseudonym it verified. *)
Lemma platform_verify env r st :
  (∀ p, (∃ root, root ∈ vrp_roots (rg_merkle (vd_registry (db st))) ∧ rt_root_hex root = vm_root r) →
     proves json_proof groth16 membership_vkey r →
     (∃ nullifier, derive_nullifier_hex (vm_commitment r) (vm_topic r) = Ok nullifier ∧
        derive_pseudonym_id (vm_topic r) nullifier = Ok p) →
     (∃ row, row ∈ t_rows (vrp_identities (vd_registry (db st))) ∧ id_commitment_hex row = vm_commitment r) →
     E p ∧ ∀ server row t, t_rows t = t_rows (vd_platform (db st)) ++ [row] → Platform.is_member server p row →
             pr_caps row = initial_caps (first_on_server server (vd_platform (db st))) →
             Q (vd_platform (db st)) → Q t) →
  known_platform (db st) →
  known_platform (db (verify_membership_handler json_proof groth16 membership_vkey s env r st).2).
Proof.
  intros HE Hst. pose proof (verify_membership_cases json_proof groth16 membership_vkey s env r st) as HC.
  destruct (verify_membership_handler _ _ _ _ _ _ _) as [o st'].
  destruct HC as [[_ Hl]|(p & root & _ & Hroot & Hhex & Hp & row & role & server & n & ? & ? & Hn & Hd & Hrow & Hc & _ & _ & Hv & _)];
    [by eapply platform_only_logged|].
  destruct Hv as (_ & _ & _ & (mrow & Hrows & Hx & _ & _ & Hcaps) & _). destruct Hst as [H1 H2].
  destruct (HE p) as [HEp HQ]; [by eauto..|]. split; [|by eapply HQ].
  eapply owned_snoc; [exact Hrows| |exact H1]. by destruct Hx as [_ ->].
Qed.

Lemma registry_verify env r st :
  vd_registry (db (verify_membership_handler json_proof groth16 membership_vkey s env r st).2) = vd_registry (db st).
Proof.
  pose proof (verify_membership_cases json_proof groth16 membership_vkey s env r st) as HC.
  destruct (verify_membership_handler _ _ _ _ _ _ _) as [o st'].
  destruct HC as [[_ [t Ht]]|(p & root & _ & _ & _ & _ & row & role & server & n & ? & ? & _ & _ & _ & _ & _ & _ & Hv & _)].
  - cbn. by rewrite Ht.
  - by destruct Hv as (_ & _ & _ & _ & _ & ? & _).
Qed.

Lemma ensure_founder_cases flt now t :
  let '(r, t') := ensure_founder flt now s t in
  (t' = t ∧ r ≠ Ok true) ∨
  (t_exists (is_moderator_on s) t = false ∧ r = Ok true ∧ t' = (t_update (founder_candidate s t) (promote now) t).2).
Proof.
  unfold ensure_founder, mbind, M_bind, get, lift, read. destruct (flt 0%nat); cbn -[t_update]; [by left|].
  destruct (t_exists (is_moderator_on s) t) eqn:Em; cbn -[t_update]; [by left|]. unfold catch_map, exec.
  destruct (flt 1%nat); cbn -[t_update]; [by left|].
  pose proof (t_update_positive (founder_candidate s t) (promote now) t) as Hpos.
  pose proof (t_update_none (founder_candidate s t) (promote now) t) as Hnone.
  set (u := t_update (founder_candidate s t) (promote now) t) in *. clearbody u. destruct u as [[|n] t1].
  - specialize (Hnone (eq_sym Hpos)). injection Hnone as ->. by left.
  - by right.
Qed.

(** Asking for an identity promotes the first active identity, or the one
    asked for, or nobody. *)
Lemma fetch_cases env p st :
  let t := vd_platform (db st) in
  let t' := vd_platform (db (fetch_platform_identity s env p st).2) in
  let promoted P `{!∀ r, Decision (P r)} := (t_update P (promote (sql_now (now env))) t).2 in
  t' = t ∨
  (t_exists (is_moderator_on s) t = false ∧ t' = promoted (founder_candidate s t)) ∨
  (t_exists (live_moderator s (now env) (db st)) t = false ∧ t' = promoted (Platform.is_member s p)).
Proof.
  cbv zeta. destruct (fetch_platform_identity s env p st) as [o st'] eqn:H. cbn [snd].
  unfold fetch_platform_identity in H.
  assert (∀ n status, reads (read_identity s env n status p)) as Hread by done.
  apply M_bind_reads_cases in H as [[_ ->]|(i & _ & H)]; [by left| |done].
  destruct (can_moderate (pi_caps i)); [injection H as _ <-; by left|].
  unfold mbind at 1, M_bind at 1, call, catch_map at 1, zoom at 1 in H. cbn [compose] in H.
  pose proof (ensure_founder_cases (at_ env 1) (sql_now (now env)) (vd_platform (db st))) as HC.
  destruct (ensure_founder _ _ _ _) as [r t1]. destruct HC as [[-> Hr]|(Hm & -> & ->)].
  - rewrite set_vd_platform_id in H. destruct r as [[]|e|]; cbn [map_err] in H; [done|..|injection H as _ <-; by left|injection H as _ <-; by left].
    apply M_bind_reads_cases in H as [[_ ->]|(d & [= <-] & H)]; [by left| |done].
    apply M_bind_reads_cases in H as [[_ ->]|(live & [-> _]%on_db_lift_ok & H)]; [by left| |apply on_db_lift_reads].
    destruct (t_exists (live_moderator _ _ _) _) eqn:El; [injection H as _ <-; by left|].
    unfold mbind, M_bind, on_db, catch_map, zoom, exec in H. destruct (fault env 5%nat); cbn -[t_update] in H.
    { injection H as _ <-. by left. }
    right; right. split; [done|]. by injection H as _ <-.
  - right; left. split; [done|]. by injection H as _ <-.
Qed.
Lemma platform_fetch env p st :
  let t := vd_platform (db st) in
  let promoted P `{!∀ r, Decision (P r)} := (t_update P (promote (sql_now (now env))) t).2 in
  (t_exists (is_moderator_on s) t = false → Q (promoted (founder_candidate s t))) →
  (t_exists (live_moderator s (now env) (db st)) t = false → Q (promoted (Platform.is_member s p))) →
  known_platform (db st) → known_platform (db (fetch_platform_identity s env p st).2).
Proof.
  cbv zeta. intros Hf Hl [H1 H2]. unfold known_platform.
  destruct (fetch_cases env p st) as [->|[[Hm ->]|[Hm ->]]]; [done|..]; (split; [by apply owned_update|auto]).
Qed.

Lemma registry_fetch env p (reg : RegDb) : preserves (λ st : VerifyState, vd_registry (db st) = reg) (fetch_platform_identity s env p).
Proof.
  unfold fetch_platform_identity. change (λ st : VerifyState, vd_registry (db st) = reg) with ((λ d, vd_registry d = reg) ∘ db).
  assert (∀ n status, reads (read_identity s env n status p)) as Hread by done.
  apply preserves_bind; [by apply preserves_reads|intros i]. apply preserves_if; [by apply preserves_reads|].
  apply preserves_bind; [|intros b].
  { by apply (preserves_call _ (λ _, True)). }
  apply preserves_if; [by apply preserves_reads|]. apply preserves_bind; [by apply preserves_reads|intros d].
  apply preserves_bind; [apply preserves_reads, on_db_lift_reads|intros live].
  apply preserves_if; [by apply preserves_reads|].
  apply preserves_bind; [|intros _; by apply preserves_reads].
  apply preserves_on_db. by intros d' Hd'.
Qed.
End api.

(** ** The moderators' endpoints *)

Section admin.
Context `{HX : HexCrate, SH : Sha256, UT : UnicodeText, CK : Clock}.
Context `{SR : Serde VrpValidationReport, SF : Serde VrpFederationHandshake, SE : Serde EventPayload.t}.
Context `{SC : Serde VrpCapabilitySharingContract, SA : Serde VrpAnchorSnapshot, SQ : Serde HandshakeRequest}.
Context `{SPO : Serde ServerPolicy}.
Context (s : Z) (E : string → Prop) (Q : table PlatformRow → Prop) (L : string → string → Prop).

Definition admin_platform (d : AdminDb) : Prop := owned pr_pseudonym_id E (ad_platform d) ∧ Q (ad_platform d).
Definition admin_accounts (st : AdminState) : Prop :=
  admin_platform (db (as_state st)) ∧ connected E L (as_mgr st).

Lemma accounts_on_state {A} (m : M (State AdminDb) http_error A) :
  preserves (admin_platform ∘ db) m → preserves admin_accounts (on_state m).
Proof. intros H. apply (preserves_zoom _ (admin_platform ∘ db)); [by intros st []|by intros st t []|done]. Qed.
Lemma accounts_on_peers {A} (m : M (State PeerDb) http_error A) : preserves admin_accounts (on_peers m).
Proof. intros st [H1 H2]. unfold on_peers. by destruct (m _). Qed.
Lemma accounts_recalculate_agents env policy : preserves admin_accounts (on_agents (recalculate_agent_alignments env policy s)).
Proof.
  intros st [H1 H2]. unfold on_agents, recalculate_agent_alignments.
  destruct (realign_agents env policy s _) as [[ps|e|] a]; (split; [done|]); [|done..].
  by apply connected_disconnect_all.
Qed.
Lemma accounts_update_policy env env2 env3 i version policy :
  preserves admin_accounts (update_policy_handler s env env2 env3 i version policy).
Proof.
  unfold update_policy_handler, recalculate_all_alignments, moderator_only.
  apply preserves_bind; [by apply preserves_reads|intros _].
  apply preserves_bind; [|intros _].
  { apply accounts_on_state, preserves_db_transaction. apply preserves_bind; [apply preserves_on_db|intros _].
    { by intros d Hd. }
    apply preserves_bind; [apply preserves_on_db|intros _; by apply preserves_emit].
    intros d Hd. unfold insert_version. destruct (t_exists _ _); [done|]. by destruct (negb _). }
  apply preserves_bind; [by intros st|intros _].
  apply preserves_bind; [|intros _; by apply preserves_reads].
  apply preserves_bind; [by apply preserves_reads|intros p].
  apply preserves_bind; [apply accounts_recalculate_agents|intros _].
  do 2 (apply preserves_bind; [by apply preserves_reads|intros ?]). apply accounts_on_peers.
Qed.
Lemma accounts_rename env i label : preserves admin_accounts (rename_server_handler s env i label).
Proof.
  unfold rename_server_handler, moderator_only. do 2 (apply preserves_bind; [by apply preserves_reads|intros _]).
  apply preserves_bind; [apply accounts_on_state, preserves_on_db; by intros d Hd|intros _].
  apply preserves_bind; [by apply accounts_on_state, preserves_emit|intros _; by apply preserves_reads].
Qed.
Lemma accounts_public_url i url : preserves admin_accounts (set_public_url_handler i url).
Proof.
  unfold set_public_url_handler, moderator_only. do 2 (apply preserves_bind; [by apply preserves_reads|intros _]).
  apply preserves_bind; [by intros st|intros _; by apply preserves_reads].
Qed.
Lemma accounts_capabilities env i target caps :
  (can_moderate (pi_caps i) = true →
     ∀ now t, Q t → Q (t_update (Platform.is_member s target) (with_caps caps now) t).2) →
  preserves admin_accounts (update_member_capabilities_handler s env i target caps).
Proof.
  intros HQ. unfold update_member_capabilities_handler, moderator_only.
  apply preserves_bind_ok; [by apply preserves_reads|]. intros st [] st' Hst [Hm%reject_if_ok%negb_false_iff ->]%lift_ok.
  revert Hst. generalize st. apply preserves_bind; [|intros _; by apply accounts_on_state, preserves_emit].
  apply accounts_on_state, (preserves_call _ (λ t, owned pr_pseudonym_id E t ∧ Q t)); [done|done|].
  unfold update_capabilities, update_required.
  apply preserves_bind; [apply preserves_catch, preserves_exec|intros n; apply preserves_if; by apply preserves_reads].
  intros t [Ht Ht']. split; [by apply owned_update|by apply HQ].
Qed.
End admin.
