(* ===== verification/Server.v ===== *)
(** * Server: the components together

    The state the handlers share (the tables of the database and [AppState] of
    crates/annex-server/src/lib.rs), the part of it that each component works
    on, and one step for every request, WebSocket frame and round of a
    background task that changes something.  A run is any list of them: who
    asks, in which order, and which statements fail, is open.  Handlers run
    one at a time, but the frames of all sockets and the requests mix freely. *)

From S2P Require Import Prelude Sql Bytes Types Identity Merkle Registry Observe Platform Graph Channels Text Upload RateLimit Connections.
From S2P Require Import Vrp Handlers Agents Peers Rtx Wire Voice Zk Federation Sockets ChannelApi Api Admin Usernames Accounts.

#[local] Open Scope Z_scope.

(** ** The tables *)

Record Tables := {
  tb_servers : table ServerRow;
  tb_images : gmap Z (option string);
  tb_versions : table PolicyVersionRow;
  tb_registry : RegDb;
  tb_nullifiers : table NullifierRow;
  tb_platform : table PlatformRow;
  tb_nodes : table GraphNodeRow;
  tb_edges : table GraphEdgeRow;
  tb_events : table PublicEvent;
  tb_agents : table AgentRow;
  tb_handshakes : table HandshakeRow;
  tb_voices : table VoiceProfileRow;
  tb_instances : table InstanceRow;
  tb_agreements : table AgreementRow;
  tb_federated : table FederatedIdentityRow;
  tb_bundles : table BundleRow;
  tb_subscriptions : table SubscriptionRow;
  tb_transfers : table TransferRow;
  tb_channels : table ChannelRow;
  tb_members : table ChannelMember;
  tb_messages : table Message;
  tb_edits : table MessageEdit;
  tb_profiles : table ProfileRow;
  tb_grants : table GrantRow;
  tb_uploads : table UploadRow;
}.

Definition server_ids_of (tb : Tables) : list Z := sr_id <$> t_rows (tb_servers tb).
Definition policies_of (tb : Tables) : gmap Z string :=
  list_to_map ((λ r, (sr_id r, sr_policy_json r)) <$> t_rows (tb_servers tb)).

(** *** The parts of the components

    A part is read from the tables and written back; what a component only
    reads, such as the servers' rows, is not written. *)

Definition verify_part (tb : Tables) : VerifyDb :=
  {| vd_registry := tb_registry tb; vd_nullifiers := tb_nullifiers tb; vd_platform := tb_platform tb;
     vd_nodes := tb_nodes tb; vd_agents := tb_agents tb; vd_servers := server_ids_of tb; vd_events := tb_events tb |}.
Definition put_verify (d : VerifyDb) (tb : Tables) : Tables :=
  {| tb_servers := tb_servers tb; tb_images := tb_images tb; tb_versions := tb_versions tb;
     tb_registry := vd_registry d; tb_nullifiers := vd_nullifiers d; tb_platform := vd_platform d;
     tb_nodes := vd_nodes d; tb_edges := tb_edges tb; tb_events := vd_events d; tb_agents := tb_agents tb;
     tb_handshakes := tb_handshakes tb; tb_voices := tb_voices tb; tb_instances := tb_instances tb;
     tb_agreements := tb_agreements tb; tb_federated := tb_federated tb; tb_bundles := tb_bundles tb;
     tb_subscriptions := tb_subscriptions tb; tb_transfers := tb_transfers tb; tb_channels := tb_channels tb;
     tb_members := tb_members tb; tb_messages := tb_messages tb; tb_edits := tb_edits tb;
     tb_profiles := tb_profiles tb; tb_grants := tb_grants tb; tb_uploads := tb_uploads tb |}.

Definition agent_part (tb : Tables) : AgentDb :=
  {| registrations := tb_agents tb; handshakes := tb_handshakes tb; graph_nodes := tb_nodes tb;
     agent_events := tb_events tb; voice_profiles := tb_voices tb; server_ids := list_to_set (server_ids_of tb) |}.
Definition put_agents (d : AgentDb) (tb : Tables) : Tables :=
  {| tb_servers := tb_servers tb; tb_images := tb_images tb; tb_versions := tb_versions tb;
     tb_registry := tb_registry tb; tb_nullifiers := tb_nullifiers tb; tb_platform := tb_platform tb;
     tb_nodes := graph_nodes d; tb_edges := tb_edges tb; tb_events := agent_events d; tb_agents := registrations d;
     tb_handshakes := handshakes d; tb_voices := voice_profiles d; tb_instances := tb_instances tb;
     tb_agreements := tb_agreements tb; tb_federated := tb_federated tb; tb_bundles := tb_bundles tb;
     tb_subscriptions := tb_subscriptions tb; tb_transfers := tb_transfers tb; tb_channels := tb_channels tb;
     tb_members := tb_members tb; tb_messages := tb_messages tb; tb_edits := tb_edits tb;
     tb_profiles := tb_profiles tb; tb_grants := tb_grants tb; tb_uploads := tb_uploads tb |}.

Definition peer_part (tb : Tables) : PeerDb :=
  {| instances := tb_instances tb; agreements := tb_agreements tb; peer_events := tb_events tb |}.
Definition put_peers (d : PeerDb) (tb : Tables) : Tables :=
  {| tb_servers := tb_servers tb; tb_images := tb_images tb; tb_versions := tb_versions tb;
     tb_registry := tb_registry tb; tb_nullifiers := tb_nullifiers tb; tb_platform := tb_platform tb;
     tb_nodes := tb_nodes tb; tb_edges := tb_edges tb; tb_events := peer_events d; tb_agents := tb_agents tb;
     tb_handshakes := tb_handshakes tb; tb_voices := tb_voices tb; tb_instances := instances d;
     tb_agreements := agreements d; tb_federated := tb_federated tb; tb_bundles := tb_bundles tb;
     tb_subscriptions := tb_subscriptions tb; tb_transfers := tb_transfers tb; tb_channels := tb_channels tb;
     tb_members := tb_members tb; tb_messages := tb_messages tb; tb_edits := tb_edits tb;
     tb_profiles := tb_profiles tb; tb_grants := tb_grants tb; tb_uploads := tb_uploads tb |}.

Definition rtx_part (tb : Tables) : RtxDb :=
  {| rtx_agents := tb_agents tb; rtx_bundles := tb_bundles tb; rtx_subscriptions := tb_subscriptions tb;
     rtx_transfer_log := tb_transfers tb; rtx_peers := peer_part tb; rtx_servers := list_to_set (server_ids_of tb) |}.
Definition put_rtx (d : RtxDb) (tb : Tables) : Tables :=
  {| tb_servers := tb_servers tb; tb_images := tb_images tb; tb_versions := tb_versions tb;
     tb_registry := tb_registry tb; tb_nullifiers := tb_nullifiers tb; tb_platform := tb_platform tb;
     tb_nodes := tb_nodes tb; tb_edges := tb_edges tb; tb_events := peer_events (rtx_peers d);
     tb_agents := rtx_agents d; tb_handshakes := tb_handshakes tb; tb_voices := tb_voices tb;
     tb_instances := instances (rtx_peers d); tb_agreements := agreements (rtx_peers d);
     tb_federated := tb_federated tb; tb_bundles := rtx_bundles d;
     tb_subscriptions := rtx_subscriptions d; tb_transfers := rtx_transfer_log d; tb_channels := tb_channels tb;
     tb_members := tb_members tb; tb_messages := tb_messages tb; tb_edits := tb_edits tb;
     tb_profiles := tb_profiles tb; tb_grants := tb_grants tb; tb_uploads := tb_uploads tb |}.

Definition channel_part (tb : Tables) : ChannelDb :=
  {| channels := tb_channels tb; messages := tb_messages tb; message_edits := tb_edits tb;
     channel_members := tb_members tb; servers := policies_of tb; identities := tb_platform tb |}.
Definition put_channels (d : ChannelDb) (tb : Tables) : Tables :=
  {| tb_servers := tb_servers tb; tb_images := tb_images tb; tb_versions := tb_versions tb;
     tb_registry := tb_registry tb; tb_nullifiers := tb_nullifiers tb; tb_platform := identities d;
     tb_nodes := tb_nodes tb; tb_edges := tb_edges tb; tb_events := tb_events tb; tb_agents := tb_agents tb;
     tb_handshakes := tb_handshakes tb; tb_voices := tb_voices tb; tb_instances := tb_instances tb;
     tb_agreements := tb_agreements tb; tb_federated := tb_federated tb; tb_bundles := tb_bundles tb;
     tb_subscriptions := tb_subscriptions tb; tb_transfers := tb_transfers tb; tb_channels := channels d;
     tb_members := channel_members d; tb_messages := messages d; tb_edits := message_edits d;
     tb_profiles := tb_profiles tb; tb_grants := tb_grants tb; tb_uploads := tb_uploads tb |}.

Definition fed_part (tb : Tables) : FedDb :=
  {| fed_rtx := rtx_part tb; fed_channels := channel_part tb; fed_identities := tb_federated tb;
     fed_nodes := tb_nodes tb; fed_nullifiers := tb_nullifiers tb;
     fed_commitments := vrp_identities (tb_registry tb) |}.
Definition put_fed_only (d : FedDb) (tb : Tables) : Tables :=
  {| tb_servers := tb_servers tb; tb_images := tb_images tb; tb_versions := tb_versions tb;
     tb_registry := tb_registry tb; tb_nullifiers := fed_nullifiers d; tb_platform := tb_platform tb;
     tb_nodes := fed_nodes d; tb_edges := tb_edges tb; tb_events := tb_events tb; tb_agents := tb_agents tb;
     tb_handshakes := tb_handshakes tb; tb_voices := tb_voices tb; tb_instances := tb_instances tb;
     tb_agreements := tb_agreements tb; tb_federated := fed_identities d; tb_bundles := tb_bundles tb;
     tb_subscriptions := tb_subscriptions tb; tb_transfers := tb_transfers tb; tb_channels := tb_channels tb;
     tb_members := tb_members tb; tb_messages := tb_messages tb; tb_edits := tb_edits tb;
     tb_profiles := tb_profiles tb; tb_grants := tb_grants tb; tb_uploads := tb_uploads tb |}.
Definition put_fed (d : FedDb) (tb : Tables) : Tables :=
  put_fed_only d (put_channels (fed_channels d) (put_rtx (fed_rtx d) tb)).

Definition admin_part (tb : Tables) : AdminDb :=
  {| ad_servers := tb_servers tb; ad_versions := tb_versions tb; ad_platform := tb_platform tb;
     ad_agents := agent_part tb; ad_peers := peer_part tb |}.
Definition put_admin_only (d : AdminDb) (tb : Tables) : Tables :=
  {| tb_servers := ad_servers d; tb_images := tb_images tb; tb_versions := ad_versions d;
     tb_registry := tb_registry tb; tb_nullifiers := tb_nullifiers tb; tb_platform := ad_platform d;
     tb_nodes := tb_nodes tb; tb_edges := tb_edges tb; tb_events := tb_events tb; tb_agents := tb_agents tb;
     tb_handshakes := tb_handshakes tb; tb_voices := tb_voices tb; tb_instances := tb_instances tb;
     tb_agreements := tb_agreements tb; tb_federated := tb_federated tb; tb_bundles := tb_bundles tb;
     tb_subscriptions := tb_subscriptions tb; tb_transfers := tb_transfers tb; tb_channels := tb_channels tb;
     tb_members := tb_members tb; tb_messages := tb_messages tb; tb_edits := tb_edits tb;
     tb_profiles := tb_profiles tb; tb_grants := tb_grants tb; tb_uploads := tb_uploads tb |}.
(** The event log is the agents'. *)
Definition put_admin (d : AdminDb) (tb : Tables) : Tables :=
  put_agents (ad_agents d) (put_peers (ad_peers d) (put_admin_only d tb)).

Definition name_part (tb : Tables) : NameDb :=
  {| nd_servers := server_ids_of tb; user_profiles := tb_profiles tb; username_grants := tb_grants tb |}.
Definition put_names (d : NameDb) (tb : Tables) : Tables :=
  {| tb_servers := tb_servers tb; tb_images := tb_images tb; tb_versions := tb_versions tb;
     tb_registry := tb_registry tb; tb_nullifiers := tb_nullifiers tb; tb_platform := tb_platform tb;
     tb_nodes := tb_nodes tb; tb_edges := tb_edges tb; tb_events := tb_events tb; tb_agents := tb_agents tb;
     tb_handshakes := tb_handshakes tb; tb_voices := tb_voices tb; tb_instances := tb_instances tb;
     tb_agreements := tb_agreements tb; tb_federated := tb_federated tb; tb_bundles := tb_bundles tb;
     tb_subscriptions := tb_subscriptions tb; tb_transfers := tb_transfers tb; tb_channels := tb_channels tb;
     tb_members := tb_members tb; tb_messages := tb_messages tb; tb_edits := tb_edits tb;
     tb_profiles := user_profiles d; tb_grants := username_grants d; tb_uploads := tb_uploads tb |}.

Definition put_edges (t : table GraphEdgeRow) (tb : Tables) : Tables :=
  {| tb_servers := tb_servers tb; tb_images := tb_images tb; tb_versions := tb_versions tb;
     tb_registry := tb_registry tb; tb_nullifiers := tb_nullifiers tb; tb_platform := tb_platform tb;
     tb_nodes := tb_nodes tb; tb_edges := t; tb_events := tb_events tb; tb_agents := tb_agents tb;
     tb_handshakes := tb_handshakes tb; tb_voices := tb_voices tb; tb_instances := tb_instances tb;
     tb_agreements := tb_agreements tb; tb_federated := tb_federated tb; tb_bundles := tb_bundles tb;
     tb_subscriptions := tb_subscriptions tb; tb_transfers := tb_transfers tb; tb_channels := tb_channels tb;
     tb_members := tb_members tb; tb_messages := tb_messages tb; tb_edits := tb_edits tb;
     tb_profiles := tb_profiles tb; tb_grants := tb_grants tb; tb_uploads := tb_uploads tb |}.
(** Nodes and events, of the pruning task. *)
Definition put_nodes (nodes : table GraphNodeRow) (events : table PublicEvent) (tb : Tables) : Tables :=
  {| tb_servers := tb_servers tb; tb_images := tb_images tb; tb_versions := tb_versions tb;
     tb_registry := tb_registry tb; tb_nullifiers := tb_nullifiers tb; tb_platform := tb_platform tb;
     tb_nodes := nodes; tb_edges := tb_edges tb; tb_events := events; tb_agents := tb_agents tb;
     tb_handshakes := tb_handshakes tb; tb_voices := tb_voices tb; tb_instances := tb_instances tb;
     tb_agreements := tb_agreements tb; tb_federated := tb_federated tb; tb_bundles := tb_bundles tb;
     tb_subscriptions := tb_subscriptions tb; tb_transfers := tb_transfers tb; tb_channels := tb_channels tb;
     tb_members := tb_members tb; tb_messages := tb_messages tb; tb_edits := tb_edits tb;
     tb_profiles := tb_profiles tb; tb_grants := tb_grants tb; tb_uploads := tb_uploads tb |}.
Definition put_uploads (st : UploadState) (tb : Tables) : Tables :=
  {| tb_servers := tb_servers tb; tb_images := server_images st; tb_versions := tb_versions tb;
     tb_registry := tb_registry tb; tb_nullifiers := tb_nullifiers tb; tb_platform := tb_platform tb;
     tb_nodes := tb_nodes tb; tb_edges := tb_edges tb; tb_events := log (events st); tb_agents := tb_agents tb;
     tb_handshakes := tb_handshakes tb; tb_voices := tb_voices tb; tb_instances := tb_instances tb;
     tb_agreements := tb_agreements tb; tb_federated := tb_federated tb; tb_bundles := tb_bundles tb;
     tb_subscriptions := tb_subscriptions tb; tb_transfers := tb_transfers tb; tb_channels := tb_channels tb;
     tb_members := tb_members tb; tb_messages := tb_messages tb; tb_edits := tb_edits tb;
     tb_profiles := tb_profiles tb; tb_grants := tb_grants tb; tb_uploads := uploads st |}.

(** ** The server *)

Section server.
Context `{HX : HexCrate, SH : Sha256, PO : Poseidon, AK : !Ark, CK : Clock, AM : AgentMetadata, UT : UnicodeText}.
Context `{LK : LiveKit, PH : ProofHeader, ED : Ed25519, JF : JsonFields, TK : TokenCrates, NC : NameCipher, SO : ScanOrder}.
Context `{ET : ErrorText, VT : VoiceErrorText}.
Context `{SE : Serde EventPayload.t, SL : Serde (list string), ST : Serde ChannelType, SF : Serde FederationScope}.
Context `{SA : Serde AlignmentStatus.t, SP : Serde ServerPolicy, SR : Serde VrpValidationReport}.
Context `{SH' : Serde VrpFederationHandshake, SC : Serde VrpCapabilitySharingContract, SAN : Serde VrpAnchorSnapshot}.
Context `{SQ : Serde HandshakeRequest, SFM : Serde FederatedMessageEnvelope, SOM : Serde OutgoingMessage}.
Context `{SIM : Serde IncomingMessage, SG : Serde GetRootResponse, SM : Serde RtxMessage, SPV : Serde BundleProvenance}.
Context `{SEN : Serde FederatedRtxEnvelope}.

(** [AppState], with the database behind its pool, the upload directory, the
    LiveKit server's calls, everything that was sent, and the tasks of the open
    sockets by their session. *)
Record Annex := {
  ax_tables : Tables;
  ax_tree : MerkleTree;
  ax_policy : ServerPolicy;
  ax_public_url : string;
  ax_mgr : Manager;
  ax_voice : VoiceState;
  ax_files : gmap string (list byte);
  ax_calls : list voice_call;
  ax_sent : list effect;
  ax_sockets : gmap Z Socket;
}.

(** What a handler sends to WebSocket sessions goes through the manager. *)
Definition deliver_all (es : list effect) (m : Manager) : Manager :=
  foldl (λ m e, match e with
                | WsSent p json => (alone (send p json) m).2
                | WsBroadcast c json => (alone (broadcast c json) m).2
                | _ => m
                end) m es.

(** The database with what was sent, of which the end is new. *)
Definition put_state {D} (put : D → Tables → Tables) (st : State D) (ax : Annex) : Annex :=
  {| ax_tables := put (db st) (ax_tables ax); ax_tree := ax_tree ax; ax_policy := ax_policy ax;
     ax_public_url := ax_public_url ax; ax_mgr := deliver_all (drop (length (ax_sent ax)) (effects st)) (ax_mgr ax);
     ax_voice := ax_voice ax; ax_files := ax_files ax; ax_calls := ax_calls ax; ax_sent := effects st;
     ax_sockets := ax_sockets ax |}.
Definition state_of {D} (part : Tables → D) (ax : Annex) : State D :=
  {| db := part (ax_tables ax); effects := ax_sent ax |}.
Definition on_part {D E A} (part : Tables → D) (put : D → Tables → Tables) (m : M (State D) E A) (ax : Annex) : Annex :=
  put_state put (m (state_of part ax)).2 ax.
Definition on_tables {D E A} (part : Tables → D) (put : D → Tables → Tables) (m : M D E A) (ax : Annex) : Annex :=
  put_state put {| db := (m (part (ax_tables ax))).2; effects := ax_sent ax |} ax.

(** Registration works on the tree as well. *)
Definition on_registry {E A} (m : M (MerkleTree * State VerifyDb) E A) (ax : Annex) : Annex :=
  let '(t, st) := (m (ax_tree ax, state_of verify_part ax)).2 in
  {| ax_tables := put_verify (db st) (ax_tables ax); ax_tree := t; ax_policy := ax_policy ax;
     ax_public_url := ax_public_url ax; ax_mgr := ax_mgr ax; ax_voice := ax_voice ax; ax_files := ax_files ax;
     ax_calls := ax_calls ax; ax_sent := effects st; ax_sockets := ax_sockets ax |}.

Definition on_channel_api {E A} (m : M ApiState E A) (ax : Annex) : Annex :=
  let st := (m {| ap_db := fed_part (ax_tables ax); ap_edges := tb_edges (ax_tables ax); ap_mgr := ax_mgr ax;
                  ap_voice := ax_voice ax; ap_calls := ax_calls ax |}).2 in
  {| ax_tables := put_edges (ap_edges st) (put_fed (ap_db st) (ax_tables ax)); ax_tree := ax_tree ax;
     ax_policy := ax_policy ax; ax_public_url := ax_public_url ax; ax_mgr := ap_mgr st; ax_voice := ap_voice st;
     ax_files := ax_files ax; ax_calls := ap_calls st; ax_sent := ax_sent ax; ax_sockets := ax_sockets ax |}.

Definition on_admin {E A} (m : M AdminState E A) (ax : Annex) : Annex :=
  let st := (m {| as_state := state_of admin_part ax; as_mgr := ax_mgr ax; as_policy := ax_policy ax;
                  as_public_url := ax_public_url ax |}).2 in
  {| ax_tables := put_admin (db (as_state st)) (ax_tables ax); ax_tree := ax_tree ax; ax_policy := as_policy st;
     ax_public_url := as_public_url st; ax_mgr := as_mgr st; ax_voice := ax_voice ax; ax_files := ax_files ax;
     ax_calls := ax_calls ax; ax_sent := effects (as_state st); ax_sockets := ax_sockets ax |}.

Definition on_uploads {E A} (m : M UploadState E A) (ax : Annex) : Annex :=
  let tb := ax_tables ax in
  let st := (m {| files := ax_files ax; uploads := tb_uploads tb; server_images := tb_images tb;
                  events := {| log := tb_events tb; sent := [] |} |}).2 in
  {| ax_tables := put_uploads st tb; ax_tree := ax_tree ax; ax_policy := ax_policy ax;
     ax_public_url := ax_public_url ax; ax_mgr := ax_mgr ax; ax_voice := ax_voice ax; ax_files := files st;
     ax_calls := ax_calls ax; ax_sent := ax_sent ax ++ (EventSent <$> sent (events st)); ax_sockets := ax_sockets ax |}.

(** What the task of a socket works on. *)
Definition socket_part (ax : Annex) : SocketState :=
  {| so_db := fed_part (ax_tables ax); so_voices := tb_voices (ax_tables ax); so_mgr := ax_mgr ax;
     so_sent := ax_sent ax; so_voice := ax_voice ax |}.
Definition put_socket (st : SocketState) (ax : Annex) : Annex :=
  {| ax_tables := put_fed (so_db st) (ax_tables ax); ax_tree := ax_tree ax; ax_policy := ax_policy ax;
     ax_public_url := ax_public_url ax; ax_mgr := so_mgr st; ax_voice := so_voice st; ax_files := ax_files ax;
     ax_calls := ax_calls ax; ax_sent := so_sent st; ax_sockets := ax_sockets ax |}.
Definition on_socket (f : SocketState → SocketState) (ax : Annex) : Annex := put_socket (f (socket_part ax)) ax.

Definition set_sockets (socks : gmap Z Socket) (ax : Annex) : Annex :=
  {| ax_tables := ax_tables ax; ax_tree := ax_tree ax; ax_policy := ax_policy ax; ax_public_url := ax_public_url ax;
     ax_mgr := ax_mgr ax; ax_voice := ax_voice ax; ax_files := ax_files ax; ax_calls := ax_calls ax;
     ax_sent := ax_sent ax; ax_sockets := socks |}.
Definition set_public_url (url : string) (ax : Annex) : Annex :=
  {| ax_tables := ax_tables ax; ax_tree := ax_tree ax; ax_policy := ax_policy ax; ax_public_url := url;
     ax_mgr := ax_mgr ax; ax_voice := ax_voice ax; ax_files := ax_files ax; ax_calls := ax_calls ax;
     ax_sent := ax_sent ax; ax_sockets := ax_sockets ax |}.

(** A round of the pruning task. *)
Definition on_nodes (f : PruneState → PruneState) (ax : Annex) : Annex :=
  let tb := ax_tables ax in
  let st := f {| ps_nodes := tb_nodes tb; ps_sink := {| log := tb_events tb; sent := [] |}; ps_presence := [] |} in
  put_state (λ _, put_nodes (ps_nodes st) (log (ps_sink st)))
    {| db := (); effects := ax_sent ax ++ (EventSent <$> sent (ps_sink st)) ++ (PresenceSent <$> ps_presence st) |} ax.

(** ** Requests, frames and rounds *)

(** What [AppState] holds and nothing changes; the key's bytes are those of
    [cf_key]. *)
Record Setup := {
  cf_server_id : Z;
  cf_json_proof : string → option SnarkJsProof;
  cf_groth16 : VerifyingKey → list Fr → Zk.Proof → option bool;
  cf_vkey : VerifyingKey;
  cf_enforce_zk_proofs : bool;
  cf_key : signing_key;
  cf_key_bytes : list byte;
  cf_token_secret : list byte;
  cf_livekit : LiveKitConfig;
  cf_upload_dir : string;
  cf_inactivity_threshold : Z;
}.

(** The protected endpoints that change something. *)
Inductive Operation :=
  | OpCreateChannel (env : Env) (r : CreateChannelRequest)
  | OpDeleteChannel (env : Env) (c : string)
  | OpJoinChannel (env : Env) (header : option (list byte)) (c : string)
  | OpLeaveChannel (env : Env) (c : string)
  | OpLeaveVoiceChannel (env : Env) (c : string)
  | OpUpdateVoiceProfile (env : Env) (p : string) (profile : option string)
  | OpPublish (env : Env) (bundle : ReflectionSummaryBundle)
  | OpSubscribe (env : Env) (filters : list string) (accept : bool)
  | OpUnsubscribe (env : Env)
  | OpUpdatePolicy (env env_agents env_peers : Env) (version : string) (policy : ServerPolicy)
  | OpRenameServer (env : Env) (label : string)
  | OpSetPublicUrl (url : string)
  | OpRevokeFederation (env : Env) (agreement : Z)
  | OpUpdateCapabilities (env : Env) (target : string) (caps : Capabilities)
  | OpSetUsername (env : Env) (nonce : list byte) (name : string)
  | OpDeleteUsername (env : Env)
  | OpGrantUsername (env : Env) (grantee : string)
  | OpRevokeGrant (env : Env) (grantee : string)
  | OpUploadChat (env : UploadEnv) (c : string) (multipart : option (option Field))
  | OpUploadServerImage (env : UploadEnv) (now : string) (multipart : option (option Field)).

(** Everything that can happen to a server. *)
Inductive Action :=
  | Register (env : Env) (r : RegisterRequest)
  | Verify (env : Env) (r : VerifyMembershipRequest)
  | GetIdentity (env : Env) (p : string)
  | AgentHandshake (env : Env) (p : string) (handshake : VrpFederationHandshake)
  | FederationHandshake (env : Env) (r : HandshakeRequest)
  | Attest (env : Env) (http_get : string → option HttpResponse) (r : AttestationRequest)
  | JoinFederated (env : Env) (c : string) (r : JoinFederatedChannelRequest)
  | ReceiveMessage (env : Env) (http_get : string → option HttpResponse) (e : FederatedMessageEnvelope)
  | ReceiveRtx (env : Env) (e : FederatedRtxEnvelope)
  | Protected (auth : faults) (pool_ok : bool) (req : RateLimit.Request) (op : Operation)
  | Connect (env touch : Env) (now_secs : Z) (params : WsConnectParams) (mailbox : nat) (session : Z)
  | Receive (session : Z) (a : Arrival)
  | Disconnect (session : Z)
  | DetectUrl (req : RateLimit.Request)
  | Prune (flt : faults) (now : Z) (now_text : string)
  | Retain (fuel : nat) (flt : nat → faults) (now : nat → Z).

Context (cf : Setup).
Abbreviation s := (cf_server_id cf).

Definition perform_operation (i : PlatformIdentity) (op : Operation) (ax : Annex) : Annex :=
  match op with
  | OpCreateChannel env r => on_channel_api (create_channel_handler (cf_livekit cf) s env i r) ax
  | OpDeleteChannel env c => on_channel_api (delete_channel_handler env i c) ax
  | OpJoinChannel env header c =>
      on_channel_api (join_channel_handler (cf_enforce_zk_proofs cf) (cf_json_proof cf) (cf_groth16 cf) (cf_vkey cf)
        (ax_tree ax) (cf_livekit cf) s env i header c) ax
  | OpLeaveChannel env c => on_channel_api (leave_channel_handler (cf_livekit cf) s env i c) ax
  | OpLeaveVoiceChannel env c => on_channel_api (leave_voice_channel_handler (cf_livekit cf) s env i c) ax
  | OpUpdateVoiceProfile env p profile =>
      on_part agent_part put_agents
        (update_agent_voice_profile_handler env (can_moderate (pi_caps i)) s p profile) ax
  | OpPublish env bundle =>
      on_part rtx_part put_rtx
        (publish_handler env (cf_key cf) (ax_public_url ax) s (pi_pseudonym_id i) bundle) ax
  | OpSubscribe env filters accept =>
      on_part rtx_part put_rtx (subscribe_handler env s (pi_pseudonym_id i) filters accept) ax
  | OpUnsubscribe env => on_part rtx_part put_rtx (unsubscribe_handler env s (pi_pseudonym_id i)) ax
  | OpUpdatePolicy env env_agents env_peers version policy =>
      on_admin (update_policy_handler s env env_agents env_peers i version policy) ax
  | OpRenameServer env label => on_admin (rename_server_handler s env i label) ax
  | OpSetPublicUrl url => on_admin (set_public_url_handler i url) ax
  | OpRevokeFederation env agreement =>
      on_part peer_part put_peers
        (revoke_federation_handler env (can_moderate (pi_caps i)) (pi_pseudonym_id i) s agreement) ax
  | OpUpdateCapabilities env target caps => on_admin (update_member_capabilities_handler s env i target caps) ax
  | OpSetUsername env nonce name =>
      on_tables name_part put_names
        (set_username_handler s (cf_key_bytes cf) (usernames_enabled (ax_policy ax)) env nonce i name) ax
  | OpDeleteUsername env => on_tables name_part put_names (delete_username_handler s env i) ax
  | OpGrantUsername env grantee => on_tables name_part put_names (grant_username_handler s env i grantee) ax
  | OpRevokeGrant env grantee => on_tables name_part put_names (revoke_grant_handler s env i grantee) ax
  | OpUploadChat env c multipart =>
      on_uploads (upload_chat_handler env s (cf_upload_dir cf) (channel_part (ax_tables ax)) (Some (ax_policy ax))
        i c multipart) ax
  | OpUploadServerImage env now multipart =>
      on_uploads (upload_server_image_handler env now s (cf_upload_dir cf) i multipart) ax
  end.

(** The session is put into the manager before the first frame is read. *)
Definition begin_task (touch : Env) (k : Socket) (st : SocketState) : SocketState :=
  (on_mgr (E := string) (add_session (sk_session k) (sk_pseudonym k) (sk_mailbox k)) (touch_activity s k touch st)).2.
Definition open_socket (touch : Env) (k : Socket) (ax : Annex) : Annex :=
  set_sockets (<[sk_session k := k]> (ax_sockets ax)) (on_socket (begin_task touch k) ax).

(** The end of the loop. *)
Definition end_task (k : Socket) (st : SocketState) : SocketState :=
  let st := (on_mgr (E := string) (remove_session (sk_pseudonym k) (sk_session k)) st).2 in
  set_so_voice (remove_voice_session (sk_pseudonym k) (so_voice st)) st.
Definition close_socket (k : Socket) (ax : Annex) : Annex :=
  set_sockets (delete (sk_session k) (ax_sockets ax)) (on_socket (end_task k) ax).

Definition receive_frame (k : Socket) (a : Arrival) (ax : Annex) : Annex :=
  let ax := on_socket (Sockets.serve (cf_key cf) (ax_public_url ax) (cf_livekit cf) s k [a]) ax in
  match ar_frame a with CloseFrame => close_socket k ax | _ => ax end.

Definition step (act : Action) (ax : Annex) : Annex :=
  match act with
  | Register env r => on_registry (register_handler s env r) ax
  | Verify env r =>
      on_part verify_part put_verify
        (verify_membership_handler (cf_json_proof cf) (cf_groth16 cf) (cf_vkey cf) s env r) ax
  | GetIdentity env p => on_part verify_part put_verify (fetch_platform_identity s env p) ax
  | AgentHandshake env p handshake =>
      on_part agent_part put_agents (agent_handshake_handler env (ax_policy ax) s p handshake) ax
  | FederationHandshake env r =>
      on_part peer_part put_peers
        (federation_handshake_handler env (ax_policy ax) s (hr_base_url r) (hr_handshake r)) ax
  | Attest env http_get r =>
      on_part fed_part put_fed
        (attest_membership_handler env http_get (cf_json_proof cf) (cf_groth16 cf) (cf_vkey cf) s r) ax
  | JoinFederated env c r => on_part fed_part put_fed (join_federated_channel_handler env s c r) ax
  | ReceiveMessage env http_get e =>
      on_part fed_part put_fed (receive_federated_message_handler env http_get s e) ax
  | ReceiveRtx env e => on_part fed_part put_fed (receive_federated_rtx_handler env (ax_public_url ax) s e) ax
  | Protected auth pool_ok req op =>
      match auth_middleware auth pool_ok s (tb_platform (ax_tables ax)) req with
      | Ok req => match identity_context req with Some i => perform_operation i op ax | None => ax end
      | _ => ax
      end
  | Connect env touch now_secs params mailbox session =>
      match ws_handler env now_secs (cf_token_secret cf) s params (channel_part (ax_tables ax)) with
      | Ok i => open_socket touch {| sk_identity := i; sk_mailbox := mailbox; sk_session := session |} ax
      | _ => ax
      end
  | Receive session a => match ax_sockets ax !! session with Some k => receive_frame k a ax | None => ax end
  | Disconnect session => match ax_sockets ax !! session with Some k => close_socket k ax | None => ax end
  | DetectUrl req => set_public_url (detect_public_url req (ax_public_url ax)) ax
  | Prune flt now now_text => on_nodes (pruning_round flt now now_text s (cf_inactivity_threshold cf)) ax
  | Retain fuel flt now => on_tables channel_part put_channels (retention_loop fuel flt now 0) ax
  end.

(** The actions, the first one first. *)
Definition run (acts : list Action) (ax : Annex) : Annex := foldl (λ ax act, step act ax) ax acts.

(** * Theorems *)

(** ** Who acts on the server *)

(** Who has an identity, is a member of a channel, wrote a message, has an
    open socket, is connected, or listens to a channel. *)
Definition actor (ax : Annex) (p : string) : Prop :=
  (∃ r, r ∈ t_rows (tb_platform (ax_tables ax)) ∧ pr_pseudonym_id r = p) ∨
  (∃ r, r ∈ t_rows (tb_members (ax_tables ax)) ∧ cm_pseudonym_id r = p) ∨
  (∃ m, m ∈ t_rows (tb_messages (ax_tables ax)) ∧ m_sender_pseudonym m = p) ∨
  (∃ session k, ax_sockets ax !! session = Some k ∧ sk_pseudonym k = p) ∨
  is_Some (sessions (ax_mgr ax) !! p) ∨ (∃ c, listens (ax_mgr ax) c p).

(** What gives a pseudonym to somebody who has none: a verified proof of
    membership in this server's tree, as it was at some time, for a registered
    commitment of which it is the pseudonym, or a peer's signed attestation
    with a verified proof of membership in the peer's tree. *)
Definition credential (ax : Annex) (act : Action) (p : string) : Prop :=
  (∃ env r ls n proof commitment nullifier row,
     act = Verify env r ∧ in_step (ax_tree ax) (tb_registry (ax_tables ax)) ls ∧ (0 < n ≤ length ls)%nat ∧
     parse_proof (cf_json_proof cf) (vm_proof r) = Ok proof ∧ parse_fr_from_hex (vm_commitment r) = Ok commitment ∧
     verify_proof (cf_groth16 cf) (cf_vkey cf) proof
       [merkle_root (depth (ax_tree ax)) (take n ls); commitment] = Ok true ∧
     row ∈ t_rows (vrp_identities (tb_registry (ax_tables ax))) ∧ id_commitment_hex row = vm_commitment r ∧
     derive_nullifier_hex (vm_commitment r) (vm_topic r) = Ok nullifier ∧
     derive_pseudonym_id (vm_topic r) nullifier = Ok p) ∨
  (∃ env http_get r i root,
     act = Attest env http_get r ∧
     attestation_proved http_get (cf_json_proof cf) (cf_groth16 cf) (cf_vkey cf) r (fed_part (ax_tables ax)) i root p).

(** What adds a message: a member's own socket sends it to the channel, or a
    peer relays it and vouches for its author.  Messages are known by their
    id, channel and author, which no edit changes. *)
Definition writes (ax : Annex) (act : Action) (o : string * string * string) : Prop :=
  (∃ session a k c content reply,
     act = Receive session a ∧ ax_sockets ax !! session = Some k ∧ sends a c content reply ∧
     Channels.member (channel_part (ax_tables ax)) s c (sk_pseudonym k) = true ∧ o = (ar_uuid a, c, sk_pseudonym k)) ∨
  (∃ env http_get e identity,
     act = ReceiveMessage env http_get e ∧ vouched_for s e (fed_part (ax_tables ax)) identity ∧
     o = (fm_message_id e, fm_channel_id e, fi_pseudonym_id identity)).

(** What adds a listener to a channel: a member's own socket asks for it. *)
Definition joins_in (ax : Annex) (act : Action) (c p : string) : Prop :=
  ∃ session a k, act = Receive session a ∧ ax_sockets ax !! session = Some k ∧ sk_pseudonym k = p ∧
    subscribes a c ∧ Channels.member (channel_part (ax_tables ax)) s c p = true.

(** Everybody who acts is in [E], the identities are as [Q] says, the messages
    as [R] and the listeners as [L], and the registry is in step. *)
Record sound (E : string → Prop) (Q : table PlatformRow → Prop) (R : string * string * string → Prop)
    (L : string → string → Prop) (ax : Annex) (ls : list Fr) : Prop := {
  so_accounts : accounts E Q R (channel_part (ax_tables ax));
  so_connected : connected E L (ax_mgr ax);
  so_tasks : ∀ session k, ax_sockets ax !! session = Some k → E (sk_pseudonym k);
  so_tree : in_step (ax_tree ax) (tb_registry (ax_tables ax)) ls;
}.

Lemma sound_actor (E : string → Prop) Q ax ls p : sound E Q (λ o, E o.2) (λ _, E) ax ls → actor ax p → E p.
Proof.
  intros [[H1 H2 H3 _] [_ H4 H5] H6 _].
  intros [(r & Hr & <-)|[(r & Hr & <-)|[(m & Hm & <-)|[(n & k & Hk & <-)|[[x Hx]|[c Hc]]]]]];
    [by apply H1|by apply H2|by apply (H3 m)|by eapply H6|by eapply H4|by eapply H5].
Qed.
Lemma actor_sound (E : string → Prop) (Q : table PlatformRow → Prop) R L ax ls :
  (∀ p, actor ax p → E p) → Q (tb_platform (ax_tables ax)) →
  owned origin R (tb_messages (ax_tables ax)) → (∀ c p, listens (ax_mgr ax) c p → L c p) →
  consistent (ax_mgr ax) → in_step (ax_tree ax) (tb_registry (ax_tables ax)) ls → sound E Q R L ax ls.
Proof.
  intros HE HQ HR HL Hc Ht. unfold actor in HE. split; [split|split|..]; [..|done].
  - intros r Hr. apply HE. left. by exists r.
  - intros r Hr. apply HE. right; left. by exists r.
  - done.
  - done.
  - done.
  - intros p x Hx. apply HE. do 4 right. left. by exists x.
  - done.
  - intros n k Hk. apply HE. do 3 right. left. by exists n, k.
Qed.
(** What an action must leave true of the identities; the others do not write
    them. *)
Definition platform_rule (Q : table PlatformRow → Prop) (ax : Annex) (act : Action) : Prop :=
  let t := tb_platform (ax_tables ax) in
  match act with
  | Verify env r =>
      ∀ row t', credential ax act (pr_pseudonym_id row) → t_rows t' = t_rows t ++ [row] →
        pr_caps row = initial_caps (first_on_server (pr_server_id row) t) → Q t → Q t'
  | GetIdentity env p =>
      let promoted P `{!∀ r, Decision (P r)} := (t_update P (promote (sql_now (now env))) t).2 in
      (t_exists (is_moderator_on s) t = false → Q t → Q (promoted (founder_candidate s t))) ∧
      (t_exists (live_moderator s (now env) (verify_part (ax_tables ax))) t = false → Q t →
         Q (promoted (Platform.is_member s p)))
  | Attest _ _ _ =>
      ∀ now p ty d, Q (identities (fed_channels d)) → Q (identities (fed_channels (upsert_platform now s p ty d).2))
  | Protected auth pool_ok req (OpUpdateCapabilities env target caps) =>
      ∀ req' i, auth_middleware auth pool_ok s t req = Ok req' → identity_context req' = Some i →
        can_moderate (pi_caps i) = true →
        ∀ now t', Q t' → Q (t_update (Platform.is_member s target) (with_caps caps now) t').2
  | _ => True
  end.

(** *** The plumbing *)

Lemma connected_deliver E L es m : connected E L m → connected E L (deliver_all es m).
Proof.
  revert m. induction es as [|e es IH]; intros m Hm; [done|]. apply IH.
  destruct e; [done|done|by apply connected_send|by apply connected_broadcast|done].
Qed.

Lemma sound_put_state {D} E Q R L (put : D → Tables → Tables) st ax ls :
  accounts E Q R (channel_part (put (db st) (ax_tables ax))) →
  tb_registry (put (db st) (ax_tables ax)) = tb_registry (ax_tables ax) →
  sound E Q R L ax ls → sound E Q R L (put_state put st ax) ls.
Proof. intros Ha Hr [H1 H2 H3 H4]. split; cbn; [done|by apply connected_deliver|done|by rewrite Hr]. Qed.

(** What touches none of the tables of the actors. *)
Lemma sound_aside {D F A} E Q R L (part : Tables → D) (put : D → Tables → Tables) (m : M (State D) F A) ax ls :
  (∀ d tb, accounts E Q R (channel_part tb) → accounts E Q R (channel_part (put d tb)) ∧ tb_registry (put d tb) = tb_registry tb) →
  sound E Q R L ax ls → sound E Q R L (on_part part put m ax) ls.
Proof. intros Hput Hs. apply sound_put_state; [by apply Hput, Hs|by apply (Hput _ _ (so_accounts _ _ _ _ _ _ Hs))|done]. Qed.
Lemma aside_agents E Q R d tb : accounts E Q R (channel_part tb) →
  accounts E Q R (channel_part (put_agents d tb)) ∧ tb_registry (put_agents d tb) = tb_registry tb.
Proof. by intros []. Qed.
Lemma aside_peers E Q R d tb : accounts E Q R (channel_part tb) →
  accounts E Q R (channel_part (put_peers d tb)) ∧ tb_registry (put_peers d tb) = tb_registry tb.
Proof. by intros []. Qed.
Lemma aside_rtx E Q R d tb : accounts E Q R (channel_part tb) →
  accounts E Q R (channel_part (put_rtx d tb)) ∧ tb_registry (put_rtx d tb) = tb_registry tb.
Proof. by intros []. Qed.

Lemma sound_fed {F A} E Q R L (m : M (State FedDb) F A) ax ls :
  (accounts E Q R (channel_part (ax_tables ax)) → fed_accounts E Q R (db (m (state_of fed_part ax)).2)) →
  sound E Q R L ax ls → sound E Q R L (on_part fed_part put_fed m ax) ls.
Proof. intros Hm Hs. apply sound_put_state; [|done|done]. destruct (Hm (so_accounts _ _ _ _ _ _ Hs)). by split. Qed.

Lemma sound_names {F A} E Q R L (m : M NameDb F A) ax ls : sound E Q R L ax ls → sound E Q R L (on_tables name_part put_names m ax) ls.
Proof. intros Hs. apply sound_put_state; [by destruct (so_accounts _ _ _ _ _ _ Hs)|done..]. Qed.

Lemma sound_verify_part {F A} E Q R L (m : M VerifyState F A) ax ls :
  known_platform E Q (db (m (state_of verify_part ax)).2) →
  vd_registry (db (m (state_of verify_part ax)).2) = tb_registry (ax_tables ax) →
  sound E Q R L ax ls → sound E Q R L (on_part verify_part put_verify m ax) ls.
Proof. intros [Hp HQ] Hr Hs. apply sound_put_state; [|done|done]. destruct (so_accounts _ _ _ _ _ _ Hs). by split. Qed.

Lemma sound_channel_api {F A} E Q R L (m : M ApiState F A) ax ls :
  preserves (api_accounts E Q R L) m → sound E Q R L ax ls → sound E Q R L (on_channel_api m ax) ls.
Proof.
  intros Hm [H1 H2 H3 H4]. unfold on_channel_api. set (st := (m _).2).
  assert (api_accounts E Q R L st) as [[] ?] by by apply Hm. by split.
Qed.
Lemma sound_admin {A} E Q R L (m : M AdminState http_error A) ax ls :
  preserves (admin_accounts E Q L) m → sound E Q R L ax ls → sound E Q R L (on_admin m ax) ls.
Proof.
  intros Hm [[? ? ? ?] H2 H3 H4]. unfold on_admin. set (st := (m _).2).
  assert (admin_accounts E Q L st) as [[? ?] ?] by by apply Hm. by split.
Qed.
Lemma sound_uploads {F A} E Q R L (m : M UploadState F A) ax ls : sound E Q R L ax ls → sound E Q R L (on_uploads m ax) ls.
Proof. by intros [[] H2 H3 H4]. Qed.
Lemma sound_nodes E Q R L f ax ls : sound E Q R L ax ls → sound E Q R L (on_nodes f ax) ls.
Proof. intros Hs. apply sound_put_state; [by destruct (so_accounts _ _ _ _ _ _ Hs)|done..]. Qed.

Lemma sound_socket E Q R L k (f : SocketState → SocketState) ax ls :
  (∀ st, so_db st = fed_part (ax_tables ax) → socket_accounts E Q R st → connected E L (so_mgr st) →
     socket_accounts E Q R (f st) ∧ connected E L (so_mgr (f st))) →
  sound E Q R L ax ls → E (sk_pseudonym k) → sound E Q R L (on_socket f ax) ls.
Proof.
  intros Hf [H1 H2 H3 H4] Hk. unfold on_socket. set (st := f _).
  assert (socket_accounts E Q R st ∧ connected E L (so_mgr st)) as [[] ?] by by apply Hf. by split.
Qed.
Lemma sound_sockets E Q R L socks ax ls :
  (∀ session k, socks !! session = Some k → E (sk_pseudonym k)) → sound E Q R L ax ls → sound E Q R L (set_sockets socks ax) ls.
Proof. by intros Hs [H1 H2 H3 H4]. Qed.

Lemma sound_open E Q R L touch k ax ls : E (sk_pseudonym k) → sound E Q R L ax ls → sound E Q R L (open_socket touch k ax) ls.
Proof.
  intros Hk Hs. apply sound_sockets.
  - intros n k' [[_ <-]|[_ Hn]]%lookup_insert_Some; [done|]. by eapply (so_tasks _ _ _ _ _ _ Hs).
  - apply (sound_socket E Q R L k); [|done..]. intros st _ Ha Hc.
    assert (so_mgr (touch_activity s k touch st) = so_mgr st) as Em
      by (unfold touch_activity; by destruct (update_node_activity _ _ _ _ _)).
    split; [by apply accounts_on_mgr, accounts_touch|]. unfold begin_task. rewrite (on_mgr_mgr (E := string)), Em. by apply connected_add.
Qed.
Lemma sound_close E Q R L k ax ls : E (sk_pseudonym k) → sound E Q R L ax ls → sound E Q R L (close_socket k ax) ls.
Proof.
  intros Hk Hs. apply sound_sockets.
  - intros n k' [_ Hn]%lookup_delete_Some. by eapply (so_tasks _ _ _ _ _ _ Hs).
  - apply (sound_socket E Q R L k); [|done..]. intros st _ Ha Hc. cbv zeta. split.
    + by apply (accounts_on_mgr E Q R (F := string) (remove_session (sk_pseudonym k) (sk_session k)) st).
    + change (connected E L (so_mgr (on_mgr (E := string) (remove_session (sk_pseudonym k) (sk_session k)) st).2)).
      rewrite (on_mgr_mgr (E := string)). by apply connected_remove.
Qed.
Lemma sound_frame E Q R L k a ax ls :
  let member c := Channels.member (channel_part (ax_tables ax)) s c (sk_pseudonym k) = true in
  (∀ c content reply, sends a c content reply → member c → R (ar_uuid a, c, sk_pseudonym k)) →
  (∀ c, subscribes a c → member c → L c (sk_pseudonym k)) →
  E (sk_pseudonym k) → sound E Q R L ax ls → sound E Q R L (receive_frame k a ax) ls.
Proof.
  intros member HR HL Hk Hs. unfold receive_frame.
  assert (sound E Q R L (on_socket (Sockets.serve (cf_key cf) (ax_public_url ax) (cf_livekit cf) s k [a]) ax) ls) as H1.
  { apply (sound_socket E Q R L k); [|done..]. intros st Est Ha Hc. split.
    - apply accounts_serve; [|done]. intros b c content reply ->%list_elem_of_singleton Hb Hm.
      apply (HR c content reply Hb). by rewrite Est in Hm.
    - apply connected_serve; [|done]. intros b c ->%list_elem_of_singleton Hb Hm.
      apply (HL c Hb). by rewrite Est in Hm. }
  destruct (ar_frame a); first [done|by apply sound_close].
Qed.

(** *** Every action *)

Lemma sound_operation E Q R L i op ax ls :
  (∀ env target caps, op = OpUpdateCapabilities env target caps → can_moderate (pi_caps i) = true →
     ∀ now t, Q t → Q (t_update (Platform.is_member s target) (with_caps caps now) t).2) →
  sound E Q R L ax ls → sound E Q R L (perform_operation i op ax) ls.
Proof.
  intros HQ Hs. destruct op; cbn [perform_operation].
  - apply sound_channel_api; [apply accounts_create_channel_handler|done].
  - apply sound_channel_api; [apply accounts_delete_channel_handler|done].
  - apply sound_channel_api; [apply accounts_join_channel|done].
  - apply sound_channel_api; [apply accounts_leave_channel|done].
  - apply sound_channel_api; [apply accounts_leave_voice|done].
  - apply sound_aside; [apply aside_agents|done].
  - apply sound_aside; [apply aside_rtx|done].
  - apply sound_aside; [apply aside_rtx|done].
  - apply sound_aside; [apply aside_rtx|done].
  - apply sound_admin; [apply accounts_update_policy|done].
  - apply sound_admin; [apply accounts_rename|done].
  - apply sound_admin; [apply accounts_public_url|done].
  - apply sound_aside; [apply aside_peers|done].
  - apply sound_admin; [by eapply accounts_capabilities, HQ|done].
  - by apply sound_names.
  - by apply sound_names.
  - by apply sound_names.
  - by apply sound_names.
  - by apply sound_uploads.
  - by apply sound_uploads.
Qed.

Context `{HL : !HexLaws HX, PL : !PoseidonLaws PO}.

Lemma sound_register E Q R L env r ax ls :
  sound E Q R L ax ls → ∃ ls', sound E Q R L (on_registry (register_handler s env r) ax) ls'.
Proof using HL PL.
  intros [H1 H2 H3 H4]. unfold on_registry.
  pose proof (register_handler_spec s env r (ax_tree ax) (state_of verify_part ax) ls H4) as HR. cbv zeta in HR.
  destruct (register_handler s env r (ax_tree ax, state_of verify_part ax)) as [[res|e|] [t st]]; [..|done].
  - destruct HR as (_ & _ & Ht & _ & _ & _ & Hp & _). eexists. split; [|done|done|exact Ht].
    destruct H1. by split; cbn in *; rewrite ?Hp.
  - destruct HR as [[= -> ->] _]. exists ls. by destruct H1.
Qed.

Lemma sound_verify E Q R L env r ax ls :
  (∀ p, credential ax (Verify env r) p → E p) → platform_rule Q ax (Verify env r) →
  sound E Q R L ax ls → sound E Q R L (step (Verify env r) ax) ls.
Proof using HL PL.
  intros HE HQ Hs. pose proof (so_tree _ _ _ _ _ _ Hs) as Ht. apply sound_verify_part; [|by apply registry_verify|done].
  apply platform_verify; [|by destruct (so_accounts _ _ _ _ _ _ Hs)].
  intros p (root & Hroot & Hhex) (proof & root_fr & commitment & Hp & Hr & Hc & Hv) (n & Hn & Hd) (row & Hrow & Hid).
  destruct (step_roots _ _ _ Ht root Hroot) as (j & Hj & Ej). rewrite <- Hhex, Ej, parse_fr_hex in Hr.
  injection Hr as <-. assert (credential ax (Verify env r) p) as Hcred.
  { left. exists env, r, ls, j, proof, commitment, n, row. do 2 (split; [done|]). split; [exact Hj|]. by split_and!. }
  split; [by apply HE|]. intros server x t Ht' [<- Hx] Hcaps HQ'. by apply (HQ x t); [rewrite Hx|..].
Qed.

Lemma sound_step E Q R L act ax ls :
  (∀ p, credential ax act p → E p) → platform_rule Q ax act →
  (∀ o, writes ax act o → E o.2 → R o) → (∀ c p, joins_in ax act c p → E p → L c p) →
  sound E Q R L ax ls → ∃ ls', sound E Q R L (step act ax) ls'.
Proof using HL PL.
  intros HE HQ HR HLs Hs. pose proof (ac_platform _ _ _ _ (so_accounts _ _ _ _ _ _ Hs)) as Hplat. destruct act; cbn [step]; [by eapply sound_register|exists ls..].
  - by apply sound_verify.
  - apply sound_verify_part; [|by apply registry_fetch|done]. destruct HQ as [HQ1 HQ2].
    apply platform_fetch; [auto..|]. by destruct (so_accounts _ _ _ _ _ _ Hs).
  - apply sound_aside; [apply aside_agents|done].
  - apply sound_aside; [apply aside_peers|done].
  - apply sound_fed; [|done]. intros Ha. apply accounts_attest; [exact HQ| |exact Ha]. intros i root p Hp.
    apply HE. right. by exists env, http_get, r, i, root.
  - apply sound_fed; [|done]. intros Ha. by apply (accounts_join_federated E Q R env s c r (state_of fed_part ax)).
  - apply sound_fed; [|done]. intros Ha. apply (accounts_receive_message E Q R env http_get s e (state_of fed_part ax)); [|exact Ha].
    intros identity Hv. apply HR; [right; by exists env, http_get, e, identity|]. cbn.
    destruct Hv as (_ & _ & _ & _ & _ & _ & _ & _ & _ & _ & _ & _ & _ & _ & _ & _ & (m & Hm & _ & _ & <-)%t_exists_spec).
    by apply Ha.
  - apply sound_fed; [|done]. intros Ha. by apply (accounts_receive_rtx E Q R env (ax_public_url ax) s e (state_of fed_part ax)).
  - destruct (auth_middleware auth pool_ok s _ req) as [req'|e|] eqn:Ea; [|done..].
    destruct (identity_context req') as [i|] eqn:Ei; [|done]. apply sound_operation; [|done].
    intros env target caps ->. by apply (HQ req').
  - pose proof (ws_handler_spec env now_secs (cf_token_secret cf) s params (channel_part (ax_tables ax))) as Hw.
    destruct (ws_handler _ _ _ _ _ _) as [i|e|]; [|done..]. destruct Hw as (row & Hrow & [_ Hp] & _).
    apply sound_open; [|done]. unfold sk_pseudonym. cbn. rewrite <- Hp. by apply (ac_identities _ _ _ _ (so_accounts _ _ _ _ _ _ Hs)).
  - destruct (ax_sockets ax !! session) as [k|] eqn:Ek; [|done]. pose proof (so_tasks _ _ _ _ _ _ Hs _ _ Ek) as Hk.
    apply sound_frame; [| |done..]; [intros c content reply Ha Hm; apply HR; [left; by exists session, a, k, c, content, reply|done]|].
    intros c Ha Hm. apply HLs; [by exists session, a, k|done].
  - destruct (ax_sockets ax !! session) as [k|] eqn:Ek; [|done]. apply sound_close; [by eapply so_tasks|done].
  - by destruct Hs.
  - by apply sound_nodes.
  - apply sound_put_state; [|done..]. cbn. destruct (accounts_retention E Q R fuel flt now 0 _ (so_accounts _ _ _ _ _ _ Hs)). by split.
Qed.

(** Somebody's credential was shown at some point of the run. *)
Definition earned (acts : list Action) (ax : Annex) (p : string) : Prop :=
  ∃ before act after, acts = before ++ act :: after ∧ credential (run before ax) act p.

Lemma run_snoc acts act ax : run (acts ++ [act]) ax = step act (run acts ax).
Proof. unfold run. by rewrite foldl_app. Qed.

Lemma sound_run E Q R L acts ax ls :
  (∀ before act after, acts = before ++ act :: after →
     (∀ p, credential (run before ax) act p → E p) ∧ platform_rule Q (run before ax) act ∧
     (∀ o, writes (run before ax) act o → E o.2 → R o) ∧ (∀ c p, joins_in (run before ax) act c p → E p → L c p)) →
  sound E Q R L ax ls → ∃ ls', sound E Q R L (run acts ax) ls'.
Proof using HL PL.
  intros HA Hs. induction acts as [|act acts IH] using rev_ind; [by exists ls|].
  destruct IH as [ls1 H1]; [intros before a after ->; apply (HA before a (after ++ [act])); by rewrite <- app_assoc|].
  destruct (HA acts act []) as (HE & HQ & HR & HLs); [done|]. rewrite run_snoc. by apply (sound_step E Q R L act _ ls1).
Qed.

Lemma sound_earned acts ax ls :
  consistent (ax_mgr ax) → in_step (ax_tree ax) (tb_registry (ax_tables ax)) ls →
  let E p := actor ax p ∨ earned acts ax p in
  ∃ ls', sound E (λ _, True) (λ o, E o.2) (λ _, E) (run acts ax) ls'.
Proof using HL PL.
  intros Hc Ht E. apply (sound_run _ _ _ _ _ _ ls).
  - intros before act after ->. split; [intros p Hp; right; by exists before, act, after|]. split; [|by split].
    destruct act; try done. by destruct op.
  - apply actor_sound; [by left|done|..|done|done].
    + intros m Hm. left. right; right; left. by exists m.
    + intros c p Hp. left. do 5 right. by exists c.
Qed.

(** C1. Nobody acts without a proof.  Whatever requests, frames and rounds a
    server goes through, in whatever order and whatever fails: whoever then
    has an identity, is a member of a channel, wrote a message, has an open
    socket, is connected or listens to a channel did so before, or showed a
    credential on the way, a verified membership proof for a registered
    commitment and a root the tree had, or a peer's signed attestation with a
    verified proof; and the tree is still in step with the registry. *)
Theorem nobody_without_proof acts ax ls :
  consistent (ax_mgr ax) → in_step (ax_tree ax) (tb_registry (ax_tables ax)) ls →
  (∀ p, actor (run acts ax) p → actor ax p ∨ earned acts ax p) ∧
  consistent (ax_mgr (run acts ax)) ∧
  ∃ ls', in_step (ax_tree (run acts ax)) (tb_registry (ax_tables (run acts ax))) ls'.
Proof using HL PL.
  intros Hc Ht. destruct (sound_earned acts ax ls Hc Ht) as [ls' Hs].
  split; [intros p Hp; exact (sound_actor _ _ _ _ _ Hs Hp)|]. split; [apply (so_connected _ _ _ _ _ _ Hs)|].
  exists ls'. apply (so_tree _ _ _ _ _ _ Hs).
Qed.

(** ** Who may moderate *)

Definition moderates (ax : Annex) (server : Z) (p : string) : Prop :=
  ∃ r, r ∈ t_rows (tb_platform (ax_tables ax)) ∧ pr_server_id r = server ∧ pr_pseudonym_id r = p ∧
    can_moderate (pr_caps r) = true.

(** How one becomes a moderator: as the first identity of a server, by the
    repair of a server whose moderators are gone, or by a moderator. *)
Definition appointed (ax : Annex) (act : Action) (server : Z) (p : string) : Prop :=
  let t := tb_platform (ax_tables ax) in
  (∃ env r, act = Verify env r ∧ credential ax act p ∧ first_on_server server t = true) ∨
  (∃ env q, act = GetIdentity env q ∧ t_exists (is_moderator_on s) t = false ∧
     ∃ r, r ∈ t_rows t ∧ founder_candidate s t r ∧ pr_server_id r = server ∧ pr_pseudonym_id r = p) ∨
  (∃ env, act = GetIdentity env p ∧ server = s ∧
     t_exists (live_moderator s (now env) (verify_part (ax_tables ax))) t = false) ∨
  (∃ auth pool_ok req env caps moderator,
     act = Protected auth pool_ok req (OpUpdateCapabilities env p caps) ∧ server = s ∧ can_moderate caps = true ∧
     bearer_pseudonym req = Ok moderator ∧ moderates ax s moderator).

Section moderated.
Context (M : Z → string → Prop).

Definition moderated (t : table PlatformRow) : Prop :=
  ∀ r, r ∈ t_rows t → can_moderate (pr_caps r) = true → M (pr_server_id r) (pr_pseudonym_id r).

Lemma moderated_promote P `{!∀ r, Decision (P r)} now t :
  (∀ r, r ∈ t_rows t → P r → M (pr_server_id r) (pr_pseudonym_id r)) →
  moderated t → moderated (t_update P (promote now) t).2.
Proof. intros HM Ht r (r0 & Hr & [[HP ->]|[_ ->]])%elem_of_t_update Hc; [exact (HM r0 Hr HP)|exact (Ht r0 Hr Hc)]. Qed.
Lemma moderated_with_caps P `{!∀ r, Decision (P r)} caps now t :
  (∀ r, P r → can_moderate caps = true → M (pr_server_id r) (pr_pseudonym_id r)) →
  moderated t → moderated (t_update P (with_caps caps now) t).2.
Proof. intros HM Ht r (r0 & Hr & [[HP ->]|[_ ->]])%elem_of_t_update Hc; [exact (HM r0 HP Hc)|exact (Ht r0 Hr Hc)]. Qed.
Lemma moderated_upsert now p ty d :
  moderated (identities (fed_channels d)) → moderated (identities (fed_channels (upsert_platform now s p ty d).2)).
Proof.
  intros Ht r. cbn. unfold t_upsert. destruct (t_exists _ _).
  - intros (r0 & Hr & [[HP ->]|[_ ->]])%elem_of_t_update Hc; exact (Ht r0 Hr Hc).
  - by intros [Hr| ->]%elem_of_t_insert; [apply Ht|].
Qed.

Lemma moderated_rule ax act :
  (∀ server p, appointed ax act server p → M server p) → platform_rule moderated ax act.
Proof.
  intros HM. destruct act; try done; cbn.
  - intros row t Hcred Ht Hcaps Hm x. rewrite Ht, elem_of_app, list_elem_of_singleton. intros [Hx| ->] Hc; [by apply Hm|].
    apply HM. left. exists env, r. split; [done|]. split; [done|]. by rewrite Hcaps in Hc.
  - split; intros Hno; apply moderated_promote; intros r Hr Hp; apply HM; right.
    + left. exists env, p. split; [done|]. split; [done|]. by exists r.
    + right; left. exists env. by destruct Hp as [-> ->].
  - intros now p ty d. apply moderated_upsert.
  - destruct op; try done. intros req' i Ha Hi Hmod now t. apply moderated_with_caps. intros r [-> ->] Hc.
    apply HM. right; right; right. apply auth_middleware_ok in Ha as (p & i' & Hb & Hg & _ & Hi' & _).
    apply get_platform_identity_row in Hg as (row & Hrow & [Hs Hp] & _ & Hcaps & _).
    exists auth, pool_ok, req, env, caps, p. split; [done|]. split; [done|]. split; [done|]. split; [done|].
    exists row. split_and!; [done..|]. rewrite <- Hcaps. congruence.
Qed.
End moderated.

(** C2. Nobody moderates without an appointment.  Whoever is a moderator after
    any run was one before, or became one on the way as the first identity
    of its server, by the repair that GET /api/identity makes when no
    moderator is there or none was seen of late, or by the request of somebody
    whose pseudonym was a moderator's at that time.  No other request, frame,
    message of a peer or round of a task makes a moderator, whatever fails. *)
Theorem moderators_are_appointed acts ax ls server p :
  consistent (ax_mgr ax) → in_step (ax_tree ax) (tb_registry (ax_tables ax)) ls →
  moderates (run acts ax) server p →
  moderates ax server p ∨
  ∃ before act after, acts = before ++ act :: after ∧ appointed (run before ax) act server p.
Proof using HL PL.
  intros Hc Ht (r & Hr & <- & <- & Hm).
  set (M := λ server p, moderates ax server p ∨
    ∃ before act after, acts = before ++ act :: after ∧ appointed (run before ax) act server p).
  destruct (sound_run (λ _, True) (moderated M) (λ _, True) (λ _ _, True) acts ax ls) as [ls' Hs].
  - intros before act after E. split; [done|]. split; [|by split]. apply moderated_rule. intros sv q Hq. right. by exists before, act, after.
  - apply actor_sound; [done| |by intros ?|done..]. intros x Hx Hcx. left. by exists x.
  - exact (ac_platform _ _ _ _ (so_accounts _ _ _ _ _ _ Hs) r Hr Hm).
Qed.

(** ** Who writes and who listens *)

(** Only members write in a channel and only members come to listen to it.  Every
    message after any run was there before, as far as its id, channel and
    author go, or was stored on the way: from a frame of its author's own open
    socket, when the author was a member of its channel, or from a peer that
    vouched for an author who was one.  Whoever listens to a channel did so
    before, or asked for it in a frame of their own open socket when they
    were a member of it.  Nothing else, a join or a moderator's request
    included, adds a message or a listener, whatever fails. *)
Theorem members_write_and_listen acts ax ls :
  consistent (ax_mgr ax) → in_step (ax_tree ax) (tb_registry (ax_tables ax)) ls →
  (∀ m, m ∈ t_rows (tb_messages (ax_tables (run acts ax))) →
     (∃ m0, m0 ∈ t_rows (tb_messages (ax_tables ax)) ∧ origin m0 = origin m) ∨
     ∃ before act after, acts = before ++ act :: after ∧ writes (run before ax) act (origin m)) ∧
  (∀ c p, listens (ax_mgr (run acts ax)) c p →
     listens (ax_mgr ax) c p ∨
     ∃ before act after, acts = before ++ act :: after ∧ joins_in (run before ax) act c p).
Proof using HL PL.
  intros Hc Ht.
  set (R := λ o, (∃ m0, m0 ∈ t_rows (tb_messages (ax_tables ax)) ∧ origin m0 = o) ∨
    ∃ before act after, acts = before ++ act :: after ∧ writes (run before ax) act o).
  set (L := λ c p, listens (ax_mgr ax) c p ∨
    ∃ before act after, acts = before ++ act :: after ∧ joins_in (run before ax) act c p).
  destruct (sound_run (λ _, True) (λ _, True) R L acts ax ls) as [ls' Hs].
  - intros before act after E. split; [done|]. split; [destruct act; try done; by destruct op|].
    split; [intros o Ho _|intros c p Hp _]; right; by exists before, act, after.
  - apply actor_sound; [done|done|intros m Hm; left; by exists m|by left|done..].
  - split; [apply (ac_messages _ _ _ _ (so_accounts _ _ _ _ _ _ Hs))|apply (co_listens _ _ _ (so_connected _ _ _ _ _ _ Hs))].
Qed.

(** ** A socket's task, frame by frame *)

Lemma socket_part_put st ax :
  rtx_servers (fed_rtx (so_db st)) = list_to_set (server_ids_of (ax_tables ax)) →
  servers (fed_channels (so_db st)) = policies_of (ax_tables ax) →
  fed_commitments (so_db st) = vrp_identities (tb_registry (ax_tables ax)) →
  so_voices st = tb_voices (ax_tables ax) → socket_part (put_socket st ax) = st.
Proof. by destruct st as [[[? ? ? ? [] ?] [] ? ? ? ?] ? ? ? ?]; cbn; intros -> -> -> ->. Qed.

(** The loop reads the servers, the registry and the voice profiles, and
    writes none of them, so it can be left after any frame. *)
Definition steady (f : SocketState → SocketState) : Prop :=
  ∀ policies rtx commitments voices st,
    kept (λ d, servers d = policies) rtx commitments voices st →
    kept (λ d, servers d = policies) rtx commitments voices (f st).

Lemma on_socket_compose f g ax : steady f → on_socket g (on_socket f ax) = on_socket (λ st, g (f st)) ax.
Proof.
  intros Hf. destruct (Hf _ _ _ _ (socket_part ax) (conj eq_refl (conj eq_refl (conj eq_refl eq_refl)))) as (H1 & H2 & H3 & H4).
  unfold on_socket. rewrite (socket_part_put (f (socket_part ax))); [done|by rewrite H2|done..].
Qed.

Lemma policies_create_message flt now p policies : preserves (λ d, servers d = policies) (create_message flt now p).
Proof.
  intros d Hd. pose proof (create_message_cases flt now p d) as HC. destruct (create_message flt now p d) as [r d'].
  by destruct HC as [[_ ->]|(sid & days & _ & _ & ->)].
Qed.
Lemma steady_touch k env : steady (touch_activity s k env).
Proof. intros policies rtx c v st. apply kept_touch. Qed.
Lemma steady_serve k url arrivals : steady (Sockets.serve (cf_key cf) url (cf_livekit cf) s k arrivals).
Proof.
  intros policies rtx c v st. apply (kept_serve _ _ _ _ _ _ _ _ _ (λ _, True)).
  - intros a ch content reply d _ _ _ Hd. by apply policies_create_message.
  - intros flt now m p content. apply kept_edit_message; [intros ? ? ? d Hd; exact Hd|intros t d Hd; exact Hd].
  - intros flt now m p. apply kept_delete_message. intros ? ? ? d Hd. exact Hd.
  - by apply Forall_true.
Qed.
Lemma steady_on_mgr {A} (q : prog A) : steady (λ st, (on_mgr (E := string) q st).2).
Proof. intros policies rtx c v st. apply kept_on_mgr. Qed.

Lemma steady_begin touch k : steady (begin_task touch k).
Proof. intros policies rtx c v st Hst. by apply kept_on_mgr, kept_touch. Qed.

Lemma on_socket_sockets f socks ax : on_socket f (set_sockets socks ax) = set_sockets socks (on_socket f ax).
Proof. done. Qed.

(** Nothing is done for a session that is not there. *)
Lemma run_no_socket n arrivals ax :
  ax_sockets ax !! n = None → run ((Receive n <$> arrivals) ++ [Disconnect n]) ax = ax.
Proof. intros Hn. induction arrivals as [|a arrivals IH]; unfold run in *; cbn; by rewrite Hn. Qed.

(** Frames until the connection ends, of a socket that is open. *)
Lemma run_frames k arrivals ax :
  ax_sockets ax !! sk_session k = Some k →
  run ((Receive (sk_session k) <$> arrivals) ++ [Disconnect (sk_session k)]) ax =
  set_sockets (delete (sk_session k) (ax_sockets ax))
    (on_socket (λ st, end_task k (Sockets.serve (cf_key cf) (ax_public_url ax) (cf_livekit cf) s k arrivals st)) ax).
Proof.
  revert ax. induction arrivals as [|a arrivals IH]; intros ax Hk.
  - unfold run. cbn [foldl fmap list_fmap app step]. by rewrite Hk.
  - transitivity (run ((Receive (sk_session k) <$> arrivals) ++ [Disconnect (sk_session k)]) (receive_frame k a ax)).
    { unfold run. cbn. by rewrite Hk. }
    unfold receive_frame. destruct (ar_frame a) eqn:Ef; [rewrite IH by done|rewrite run_no_socket|rewrite IH by done].
    all: unfold close_socket; cbn [ax_sockets set_sockets]; rewrite ?on_socket_compose by apply steady_serve; cbn; try by rewrite Ef.
  apply lookup_delete_eq.
Qed.

(** A connection's task is its frames.  An accepted upgrade, the frames of
    its session in any number, and the end of the connection, one step each,
    have together the effect of [handle_socket], and leave the other sockets
    alone; a frame that comes after Close changes nothing. *)
Theorem connection_is_handle_socket env touch now_secs params mailbox session arrivals i ax :
  ws_handler env now_secs (cf_token_secret cf) s params (channel_part (ax_tables ax)) = Ok i →
  ax_sockets ax !! session = None →
  run (Connect env touch now_secs params mailbox session :: (Receive session <$> arrivals) ++ [Disconnect session]) ax =
  on_socket (handle_socket (cf_key cf) (ax_public_url ax) (cf_livekit cf) s
    {| sk_identity := i; sk_mailbox := mailbox; sk_session := session |} touch arrivals) ax.
Proof.
  intros Hw Hn. set (k := {| sk_identity := i; sk_mailbox := mailbox; sk_session := session |}).
  transitivity (run ((Receive session <$> arrivals) ++ [Disconnect session]) (open_socket touch k ax)).
  { unfold run. cbn. by rewrite Hw. }
  rewrite (run_frames k) by apply lookup_insert_eq. cbn [ax_sockets open_socket set_sockets].
  rewrite delete_insert_id by done. change (ax_public_url (open_socket touch k ax)) with (ax_public_url ax).
  unfold open_socket. rewrite on_socket_sockets, on_socket_compose by apply steady_begin. done.
Qed.
End server.

(** ** Witnesses *)

Section witnesses.
#[local] Existing Instances hex_reference toy_sha256 toy_poseidon toy_ark toy_clock ascii_text toy_ed toy_cipher toy_scan.
#[local] Existing Instances toy_event_serde tags_serde toy_type_serde toy_scope_serde toy_alignment_serde toy_policy_serde.
#[local] Existing Instances report_serde handshake_serde contract_serde anchor_serde toy_request_serde.
#[local] Existing Instances message_envelope_serde Sockets.toy_out Sockets.toy_in toy_root_serde toy_message_serde.
#[local] Existing Instances toy_provenance_serde toy_envelope_serde Api.toy_metadata Sockets.toy_livekit toy_header.
#[local] Existing Instances toy_json_fields toy_tokens Sockets.toy_error_text Sockets.toy_voice_text.

Definition toy_setup : Setup :=
  {| cf_server_id := 1; cf_json_proof := Api.toy_proof_json; cf_groth16 := Api.toy_groth16; cf_vkey := Api.toy_vkey;
     cf_enforce_zk_proofs := true; cf_key := toy_key; cf_key_bytes := []; cf_token_secret := [];
     cf_livekit := LiveKitConfig_default; cf_upload_dir := "uploads"; cf_inactivity_threshold := 300 |}.

(** A new server. *)
Definition toy_annex : Annex :=
  {| ax_tables := {| tb_servers := Table [{| sr_id := 1; sr_slug := "annex"; sr_label := "Annex"; sr_policy_json := "{}";
                                             sr_created_at := "" |}] 1;
                     tb_images := ∅; tb_versions := t_empty; tb_registry := toy_reg; tb_nullifiers := t_empty;
                     tb_platform := t_empty; tb_nodes := t_empty; tb_edges := t_empty; tb_events := t_empty;
                     tb_agents := t_empty; tb_handshakes := t_empty; tb_voices := t_empty; tb_instances := t_empty;
                     tb_agreements := t_empty; tb_federated := t_empty; tb_bundles := t_empty;
                     tb_subscriptions := t_empty; tb_transfers := t_empty;
                     tb_channels := channels (Channels.toy_db []); tb_members := t_empty; tb_messages := t_empty;
                     tb_edits := t_empty; tb_profiles := t_empty; tb_grants := t_empty; tb_uploads := t_empty |};
     ax_tree := toy_new; ax_policy := ServerPolicy_default; ax_public_url := "https://a";
     ax_mgr := Manager_new {[ 0%nat := {| queue := []; closed := false |} ]};
     ax_voice := so_voice toy_state; ax_files := ∅; ax_calls := []; ax_sent := []; ax_sockets := ∅ |}.

(** The first user registers, proves membership, and opens a socket. *)
Definition toy_pseudonym : string := Eval vm_compute in
  match derive_nullifier_hex toy_commitment "annex:server:v1" with
  | Ok n => match derive_pseudonym_id "annex:server:v1" n with Ok p => p | _ => "" end
  | _ => ""
  end.
Definition toy_connection : WsConnectParams :=
  {| cp_pseudonym := None; cp_token := Some (generate_ws_token 1000 toy_pseudonym []) |}.
Definition toy_actions : list Action :=
  [Register toy_time toy_register; Verify toy_time toy_verify; Connect toy_time toy_time 1000 toy_connection 0 7].
Definition toy_run : Annex := run toy_setup toy_actions toy_annex.
(** The same server before the socket. *)
Definition toy_verified : Annex := run toy_setup (take 2 toy_actions) toy_annex.

Lemma nobody_without_proof_witness :
  actor toy_run toy_pseudonym ∧ ¬ actor toy_annex toy_pseudonym ∧ earned toy_setup toy_actions toy_annex toy_pseudonym.
Proof.
  assert (actor toy_run toy_pseudonym) as Ha.
  { left. eexists. split; [vm_compute; left|reflexivity]. }
  assert (¬ actor toy_annex toy_pseudonym) as Hn.
  { intros [(r & Hr & _)|[(r & Hr & _)|[(r & Hr & _)|[(n & k & Hk & _)|[[x Hx]|[c Hc]]]]]];
      [by apply not_elem_of_nil in Hr..| | |].
    - exact (lookup_empty_Some (M := gmap Z) n k Hk).
    - exact (lookup_empty_Some (M := gmap string) toy_pseudonym x Hx).
    - revert Hc. unfold listens, under. cbn. by rewrite lookup_empty. }
  split; [exact Ha|]. split; [exact Hn|].
  destruct (nobody_without_proof toy_setup toy_actions toy_annex [] (consistent_new _) toy_in_step) as [H _].
  by destruct (H _ Ha).
Defined.

(** The first user is the server's moderator, appointed by its verification. *)
Lemma moderators_are_appointed_witness :
  moderates toy_run 1 toy_pseudonym ∧
  ∃ before act after, toy_actions = before ++ act :: after ∧
    appointed toy_setup (run toy_setup before toy_annex) act 1 toy_pseudonym.
Proof.
  assert (moderates toy_run 1 toy_pseudonym) as Ha.
  { eexists. split; [vm_compute; left|]. by split_and!. }
  split; [exact Ha|].
  destruct (moderators_are_appointed toy_setup toy_actions toy_annex [] 1 toy_pseudonym (consistent_new _) toy_in_step Ha)
    as [(r & Hr & _)|H]; [by apply not_elem_of_nil in Hr|exact H].
Defined.

(** A server with a member of its channel, who connects, subscribes and
    writes. *)
Definition toy_hosting : Annex :=
  {| ax_tables := put_channels {| channels := channels (Channels.toy_db []); messages := t_empty; message_edits := t_empty;
       channel_members := Table [{| cm_id := 1; cm_server_id := 1; cm_channel_id := "general"; cm_pseudonym_id := "alice";
                                    cm_role := "MEMBER"; cm_joined_at := "" |}] 1; servers := ∅; identities := identities (Channels.toy_db []) |}
       (ax_tables toy_annex);
     ax_tree := toy_new; ax_policy := ServerPolicy_default; ax_public_url := "https://a"; ax_mgr := ax_mgr toy_annex;
     ax_voice := so_voice toy_state; ax_files := ∅; ax_calls := []; ax_sent := []; ax_sockets := ∅ |}.
Definition toy_alice : WsConnectParams :=
  {| cp_pseudonym := None; cp_token := Some (generate_ws_token 1000 "alice" []) |}.
Definition toy_writing : Arrival :=
  {| ar_env := toy_time; ar_elapsed := 0; ar_uuid := "u"; ar_relay_env := toy_time; ar_touch_env := toy_time;
     ar_voice_world := ar_voice_world toy_arrival; ar_frame := TextFrame "send" |}.
Definition toy_talk : list Action :=
  [Connect toy_time toy_time 1000 toy_alice 0 7; Receive 7 toy_arrival; Receive 7 toy_writing].
Lemma members_write_and_listen_witness :
  (∃ before act after, toy_talk = before ++ act :: after ∧
     writes toy_setup (run toy_setup before toy_hosting) act ("u", "general", "alice")) ∧
  (∃ before act after, toy_talk = before ++ act :: after ∧
     joins_in toy_setup (run toy_setup before toy_hosting) act "general" "alice").
Proof.
  destruct (members_write_and_listen toy_setup toy_talk toy_hosting [] (consistent_new _) toy_in_step) as [H1 H2].
  split.
  - assert (∃ m, m ∈ t_rows (tb_messages (ax_tables (run toy_setup toy_talk toy_hosting))) ∧
      origin m = ("u", "general", "alice")) as (m & Hm & <-) by (eexists; split; [vm_compute; left|reflexivity]).
    destruct (H1 m Hm) as [(m0 & Hm0 & _)|H]; [by apply not_elem_of_nil in Hm0|exact H].
  - destruct (H2 "general" "alice") as [H|H]; [by apply (bool_decide_unpack _); vm_compute| |exact H].
    revert H. unfold listens, under. cbn. by rewrite lookup_empty.
Defined.

Lemma connection_is_handle_socket_witness :
  ∃ i, run toy_setup [Connect toy_time toy_time 1000 toy_connection 0 7; Receive 7 toy_arrival; Disconnect 7] toy_verified =
    on_socket (handle_socket toy_key "https://a" LiveKitConfig_default 1
      {| sk_identity := i; sk_mailbox := 0; sk_session := 7 |} toy_time [toy_arrival]) toy_verified.
Proof.
  destruct (ws_handler toy_time 1000 [] 1 toy_connection (channel_part (ax_tables toy_verified))) as [i| |] eqn:Ei;
    [|by vm_compute in Ei..].
  exists i. exact (connection_is_handle_socket toy_setup toy_time toy_time 1000 toy_connection 0 7 [toy_arrival] i
    toy_verified Ei eq_refl).
Defined.
End witnesses.
